(* ===== verification/_CoqProject ===== *)
-Q . S2P
Prelude.v
CString.v
Scanf.v
Regex.v
Effects.v
Logic.v
Errors.v
Options.v
Utils.v
Types.v
Paths.v
Files.v
Components.v
Resolve.v
Dsl.v
Devices.v
Pci.v
Modprobe.v
Nodes.v
Chardev.v
Sysfs.v
Ldcache.v
Elf.v
Driver.v
Cgroup.v
Info.v
Enumerate.v
Container.v
Heap.v
Lifetime.v
ErrorLife.v
DeviceLife.v
DriverLife.v
ContainerLife.v
Libnvc.v
Mount.v
MountSafety.v
MountState.v
MountProvides.v
MountFaults.v
MountLife.v
Ldconfig.v
Dxcore.v
DxcoreLife.v
Rpc.v
Xdr.v
Stubs.v
Context.v
ContextLife.v
Kmods.v
Args.v
Configure.v
ConfigureSafety.v
ConfigureResult.v
Termination.v
Commands.v
