(* ===== verification/Prelude.v ===== *)
(** * Verification of libxdxct-container

    libxdxct-container configures a container so that the programs inside it can
    use the XDX graphics processors of the host: it finds the libraries, the
    programs and the devices of the driver, mounts them into the container, adds
    the devices to its control group and updates the cache of its dynamic linker.
    It runs as root and walks through file trees the container controls, so the
    questions are: does it stay inside the container, does it end, does it give its
    privileges up in time, does it undo what it did, and what can go wrong in C.

    ** The program and its model

    The code is a library (the C files of [src/src/]) and a program with three
    commands ([src/src/cli/]).  Every C function is a function of the monad [M] of
    [Effects]: [errno] and the [struct error] passed by the caller are its state,
    every system call or call of a foreign library is an event [sys] answered by
    an environment [env], and [halt] is undefined behaviour, a failed assertion,
    the end of the process or the execution of another program.  [exec] runs a
    function in an environment and gives the trace of the events with their
    answers, and the outcome.  Theorems hold for every environment: every
    behaviour of the kernel, of a file system that changes meanwhile, of the
    allocator, of the driver.  A [fork] is an event; where its answer is 0 the
    rest of the trace is the one of the child.

    The files, in the order of their dependencies:

    - [Prelude], [CString], [Scanf], [Regex]: integers of a width, C strings
      ([str_*], [strsep], [strto*] and the helpers of [utils.c]), [sscanf] and
      [fscanf], and the expressions of [regexec];
    - [Effects], [Logic]: events, programs and their runs; [wp], and the forms of
      statement used everywhere: [ensures] (events, stops and result), [ghost] (a
      state computed from the trace), [guarded] (what holds at each event),
      [relies] (under an assumption about the answers), [gives] and [attains] (what a
      run that returns has done) with [returned] and [during] (that a part of it is
      the run of some function with this result); the hint database [ens] with
      the tactic [ens], and the tactics [gstep], [astep] and [lstep], one step of
      each of the other forms;
    - [Errors], [Options], [Utils], [Types]: [error.c], [error_generic.c] and the
      checked calls of [xfuncs.h]; [options.c]; arrays, numbers and identities of
      [utils.c]; the structures of [nvc.h] and [nvc_internal.h];
    - [Paths], [Components], [Resolve], [Files]: the paths of [utils.c], their
      resolution below a root and what it computes in a file tree; files,
      privileges and capabilities of [utils.c];
    - [Dsl], [Devices]: [cli/dsl.c], the predicates of requirements, and
      [cli/common.c], the selection of devices;
    - [Pci], [Modprobe]: [pci-sysfs.c] and [nvidia-modprobe-utils.c] of
      [nvidia-modprobe], which is part of the tree under [src/deps/]: the devices
      in sysfs, the modules of the kernel, the nodes of [/dev]; [Nodes] what
      making a node and loading a module do, [Chardev] the major number of a
      driver, [Sysfs] the search of the devices and the bridges;
    - [Elf]: [elftool.c] over the interface [LibElf] with its law [LibElfLaws];
    - [Ldcache], [Driver], [Cgroup], [Info], [Container]: [ldcache.c], [driver.c]
      (both sides of each call), [cgroup.c] and [cgroup_legacy.c] behind the
      interface [CgroupOps] with its laws [CgroupLaws], [nvc_info.c] with
      the opening of object files, [nvc_container.c];
    - [Enumerate]: the devices of [Info] when the library works;
    - [Heap], [Lifetime]: blocks and pointers, programs with a heap ([HM]) and what
      they own ([hprop], a separation logic in the proof mode of Iris), refinement of
      a program with a heap by one of [M] ([refines]); the structures of [nvc.h] and
      [nvc_internal.h] in memory and the functions that free them;
    - [ErrorLife]: the messages of [error_generic.c] as memory; each function refines
      the one of [Errors] run with the value of the structure;
    - [DeviceLife], [DriverLife], [ContainerLife], [MountLife], [DxcoreLife],
      [ContextLife]: [nvc_info.c], [ldcache.c], [nvc_container.c],
      [nvc_driver_mount] of [nvc_mount.c], [dxcore.c] and [nvc.c] once more, with
      every pointer, allocation and [free]; each function refines the one of [Info],
      [Ldcache], [Container], [Mount], [Dxcore] or [Context];
    - [Libnvc]: the wrappers of [cli/libnvc.c] around a library of major version 0,
      which is the interface [LibnvcV0] with its laws [LibnvcV0Laws] (instance: this
      library, [own_laws]);
    - [Mount]: [nvc_mount.c]; [MountSafety] where it mounts, [MountState] what it
      undoes, [MountProvides] what a success provides, [MountFaults] what goes
      wrong;
    - [Ldconfig]: [nvc_ldcache.c], the confined run of [ldconfig];
    - [Dxcore], [Rpc]: [dxcore.c]; [rpc.c], [nvcgo.c] and the service part of
      [driver.c];
    - [Xdr], [Stubs]: what [rpcgen] made of [nvc_rpc.x]: the types of [nvc_rpc.h]
      and the filters of [nvc_xdr.c] over the interface [XdrLib] with its laws
      [XdrLaws] (instance: [Rfc4506]); the dispatchers of [nvc_svc.c] and the stubs
      of [nvc_clt.c] over [RpcLib] and [Memory] (instance: [Tirpc]);
    - [Context], [Kmods]: [nvc.c], and what loading the kernel modules does;
    - [Args], [Configure], [Commands]: the parsers of the command lines
      ([cli/main.c], [configure.c], [list.c], [info.c]), the [configure] command,
      the two other ones, [cli/libnvc.c] and [main];
    - [ConfigureSafety], [ConfigureResult], [Termination]: whole runs of
      [configure]: what it may do, what a success means, that it ends.

    Names are those of the source.  A function with a [NULL] or negative result
    returns an [option]; an out parameter is a component of the result; a loop of a
    function is a definition of its own.  What an uninitialised variable holds is
    the answer of an event ([EGarbage]); a [NULL] directory of a container given on
    to a function of paths stops the run ([path_arg]), only [printf] prints it.

    ** How the components interact

    [main] parses the arguments ([Args]) and runs a command.  [configure_command]
    initialises the library ([Context.nvc_init]: configuration, user namespace,
    adapters, the two services of [Rpc]), finds the container, the driver and the
    devices ([Container], [Info], which ask the services through [Driver] and
    [Cgroup]), selects the devices ([Devices]), checks the requirements ([Dsl]),
    mounts ([Mount], through [Paths] and [Files]), runs [ldconfig] ([Ldconfig]) and
    shuts the library down.  Each phase has its own capabilities.  When it is asked
    to, the initialisation loads the modules of the kernel in a child ([Context],
    [Modprobe], [Pci]); [Info] and [Mount] ask [Modprobe] for the capabilities of
    the driver.  A remote call is [Driver.call_rpc], which runs the procedure in
    place between two events of the transport, the request and the reply: either
    can be lost.  [Stubs] proves that the generated code does the same.

    ** What is proved

    - Confinement: a resolved path never leaves its root ([Paths]), every mount, new
      file and removal is inside the root of the container ([Files],
      [MountSafety]), so is everything the process of [configure] does and the
      process of the whole program ([ConfigureSafety], [Commands]); the exceptions,
      directories above the root and paths cut at [PATH_MAX], are in
      [MountSafety.confined], and [--root] is taken to be absolute, which the program
      does not check; [list] and
      [info] change nothing; [ldconfig] is only ever executed by a process confined
      to the container ([Ldconfig]); the child that loads modules makes nodes of
      [/dev/nvidia...] and runs [modprobe], nothing else ([Kmods], [Nodes]).
    - What resolution computes: in a file tree that does not change, the path a
      container's root prescribes ([Resolve]); what the lookup of the devices
      computes: the processors of the driver ([Enumerate]); which PCI devices match
      ([Sysfs]), which node is made ([Nodes]), which driver is found ([Chardev]).
    - What success means: the driver and the devices are mounted
      ([MountProvides]); a status of 0 says so of the whole command, with the parts
      of its run that found the container, the driver and the devices, and those
      that mounted them ([ConfigureResult]).
    - State: mounts are undone on failure, as far as the kernel detaches them, and
      the process comes back to its namespace ([MountState]); descriptors ([Paths], [Rpc]), file-system identity
      ([Files]); the library refines a machine of two states ([Context]).
    - Privileges: identity, groups, bounding set, capability sets ([Files]), and
      their order in the service ([Driver]).
    - Memory: the making of the driver information, of the device information and of
      a container does on the heap what the functions of values do, whatever fails;
      a failure leaves nothing behind, a success exactly the object, and the function
      that frees it gives the first heap back ([DriverLife], [DeviceLife],
      [ContainerLife]); the mount of the driver frees every path and array it makes
      and loses only compiled expressions ([MountLife]); a program that initialises
      and shuts down the library as often as it likes ends with the heap it began
      with, unless adapters of Windows were lost on the way ([ContextLife],
      [DxcoreLife]); a [struct error] has one message at most and none after a reset,
      but one that comes from the service loses the one before ([ErrorLife]); the
      wrappers share the strings of the other library and free them once, but read
      its devices with the size of their own ([Libnvc]).
    - Remote calls: the filters are inverse to each other, the numbers that are sent
      have their declared types, and the stub and the dispatcher together are the
      call of the model ([Xdr], [Stubs]).
    - Function: the command line ([Args]), containers, information, what the names of
      devices designate ([Devices]), which entries of the cache are taken
      ([Ldcache]), what a predicate says, malformed ones included ([Dsl]), versions,
      options, control groups.
    - Errors: malformed requirements, errors of the service; and the faults that
      were found, each stated as a theorem about the run that shows it.
    - Termination of [configure] in every environment ([Termination]); the wait for
      the link of a bridge ends when the clock runs ([Sysfs]).
    - Object files: the ABI note is read within its section, and read back ([Elf]).
    - Bounds: the device numbers that 32-bit integers can make ([Nodes]), the
      offsets of capabilities ([Sysfs]).

    ** Bounds and fuel

    Loops that are not structural have a bound computed from their input, and a run
    that exhausts it halts with [OutOfFuel]: [resolve_fuel] (20 links, each giving
    at most [PATH_MAX] new tokens), the loops over a list of devices ([select_loop]
    and [mig_fuel], its length), the printing of numbers (their size), the [fscanf]
    loops (the length of the file: [Scanf.fscanf_all_enough]) and the reads of a
    configuration space (its size).  [Termination] and the lemmas it uses prove
    that no run exhausts one.  The wait for a link alone has a bound that is an
    argument, since it depends on the clock.

    ** Not modelled

    - The Go library of control groups, [libxdxgpu-ml] (its header [nvml.h]),
      [libdxcore], [libelf], [libseccomp], the XDR and RPC libraries beyond their
      interfaces, and the kernel: their answers are the environment's.
    - A library of major version 0, another project's, beyond the interface of
      [Libnvc]: what the commands do with it is an argument of [main].
    - How [argp] splits the arguments into options and words.
    - The text of the log.
    - The memory of [nvc_device_mount] and the mounts of MIG
      devices, of the services and of the commands, except where they write past an
      array or use a pointer that was never set; their values are modelled. *)
From stdpp Require Export base tactics option list strings numbers gmap.
From Stdlib Require Export ZArith Lia.
From Stdlib Require Export Ascii.
From Stdlib Require String.
#[global] Open Scope string_scope.
#[global] Open Scope list_scope.
#[global] Open Scope Z_scope.

(** Strings are concatenated with stdpp's [+:+], lists with [++]. *)
#[global] Arguments String.append : simpl nomatch.
#[global] Arguments Ascii.eqb : simpl never.

(** ** Machine integers *)

(** Wrap-around of the fixed-width C types, on unbounded [Z]. *)
Definition uint_wrap (w : Z) (z : Z) : Z := z mod 2 ^ w.
Definition sint_wrap (w : Z) (z : Z) : Z := (z + 2 ^ (w - 1)) mod 2 ^ w - 2 ^ (w - 1).

Abbreviation to_uint32 := (uint_wrap 32).
Abbreviation to_uint64 := (uint_wrap 64).
Abbreviation to_int32 := (sint_wrap 32).
Abbreviation to_int64 := (sint_wrap 64).

Definition UINT32_MAX : Z := 2 ^ 32 - 1.
Definition UINTMAX_MAX : Z := 2 ^ 64 - 1.
Definition INTMAX_MAX : Z := 2 ^ 63 - 1.
Definition INTMAX_MIN : Z := - 2 ^ 63.
Definition PATH_MAX : Z := 4096.

Lemma uint_wrap_id w z : 0 <= z < 2 ^ w -> uint_wrap w z = z.
Proof. intros H. unfold uint_wrap. by apply Z.mod_small. Qed.

Lemma uint_wrap_range w z : 0 <= w -> 0 <= uint_wrap w z < 2 ^ w.
Proof. intros H. unfold uint_wrap. apply Z.mod_pos_bound. lia. Qed.

Lemma sint_wrap_id w z :
  0 < w -> - 2 ^ (w - 1) <= z < 2 ^ (w - 1) -> sint_wrap w z = z.
Proof.
  intros Hw H. unfold sint_wrap.
  assert (2 ^ w = 2 * 2 ^ (w - 1)) as E.
  { rewrite <- Z.pow_succ_r by lia. f_equal. lia. }
  rewrite Z.mod_small by lia. lia.
Qed.

Lemma sint_wrap_range w z :
  0 < w -> - 2 ^ (w - 1) <= sint_wrap w z < 2 ^ (w - 1).
Proof.
  intros Hw. unfold sint_wrap.
  assert (2 ^ w = 2 * 2 ^ (w - 1)) as E.
  { rewrite <- Z.pow_succ_r by lia. f_equal. lia. }
  pose proof (Z.mod_pos_bound (z + 2 ^ (w - 1)) (2 ^ w) ltac:(lia)). lia.
Qed.

(** The signed wrap-around is exact only inside its range. *)
Lemma sint_wrap_eq_iff w z :
  0 < w -> sint_wrap w z = z <-> - 2 ^ (w - 1) <= z < 2 ^ (w - 1).
Proof.
  intros Hw. split; [|by apply sint_wrap_id].
  intros E. rewrite <- E. by apply sint_wrap_range.
Qed.

Lemma uint_wrap_eq_iff w z :
  0 <= w -> uint_wrap w z = z <-> 0 <= z < 2 ^ w.
Proof.
  intros Hw. split; [|by apply uint_wrap_id].
  intros E. rewrite <- E. by apply uint_wrap_range.
Qed.

(** ** Automation *)

(** Case analysis on the scrutinee of the first [match] of the goal or of a
    hypothesis, keeping the equation. *)
Ltac case_goal :=
  match goal with
  | |- context [match ?x with _ => _ end] => destruct x eqn:?
  end.
Ltac case_hyp :=
  match goal with
  | H : context [match ?x with _ => _ end] |- _ => destruct x eqn:?
  end.

(** Turn boolean tests of hypotheses into propositions. *)
Ltac bool_hyps :=
  repeat match goal with
  | H : andb _ _ = true |- _ => apply andb_prop in H as [? ?]
  | H : andb _ _ = false |- _ => apply andb_false_iff in H
  | H : orb _ _ = false |- _ => apply orb_false_elim in H as [? ?]
  | H : negb _ = true |- _ => apply negb_true_iff in H
  | H : negb _ = false |- _ => apply negb_false_iff in H
  | H : (_ =? _)%Z = true |- _ => apply Z.eqb_eq in H
  | H : (_ =? _)%Z = false |- _ => apply Z.eqb_neq in H
  | H : (_ <? _)%Z = true |- _ => apply Z.ltb_lt in H
  | H : (_ <? _)%Z = false |- _ => apply Z.ltb_ge in H
  | H : (_ <=? _)%Z = true |- _ => apply Z.leb_le in H
  | H : (_ <=? _)%Z = false |- _ => apply Z.leb_gt in H
  | H : (_ =? _)%string = true |- _ => apply String.eqb_eq in H
  | H : (_ =? _)%string = false |- _ => apply String.eqb_neq in H
  | H : Ascii.eqb _ _ = true |- _ => apply Ascii.eqb_eq in H
  | H : Ascii.eqb _ _ = false |- _ => apply Ascii.eqb_neq in H
  end.

(** ** Lists *)

Lemma NoDup_snoc {A} (l : list A) (x : A) :
  NoDup l -> x ∉ l -> NoDup (l ++ [x]).
Proof.
  intros Hl Hx. apply NoDup_app. split_and!; [done| |apply NoDup_singleton].
  intros y Hy Hy'. apply list_elem_of_singleton in Hy'. by subst.
Qed.

(** A duplicate-free list inside another one is no longer than it. *)
Lemma NoDup_incl_length {A} (l k : list A) :
  NoDup l -> l ⊆ k -> (length l <= length k)%nat.
Proof. intros Hl Hk. by apply submseteq_length, NoDup_submseteq. Qed.

(** ... and strictly shorter when the other one has an element it lacks. *)
Lemma NoDup_incl_length_lt {A} (l k : list A) (x : A) :
  NoDup l -> l ⊆ k -> x ∈ k -> x ∉ l -> (length l < length k)%nat.
Proof.
  intros Hl Hk Hx Hnx.
  assert (length (l ++ [x]) <= length k)%nat as H.
  { apply NoDup_incl_length; [by apply NoDup_snoc|].
    intros y [Hy|Hy%list_elem_of_singleton]%elem_of_app; subst; auto. }
  rewrite length_app in H. simpl in H. lia.
Qed.

Lemma fold_left_preserves {A B} (f : A -> B -> A) (P : A -> Prop) (l : list B) (a : A) :
  (forall a b, b ∈ l -> P a -> P (f a b)) -> P a -> P (fold_left f l a).
Proof.
  revert a. induction l as [|b l IH]; intros a Hf Ha; [done|]. simpl.
  apply IH; [|apply Hf; [set_solver|done]].
  intros a' b' Hb'. apply Hf. set_solver.
Qed.
