(* ===== verification/CString.v ===== *)
(** * C strings

    The part of the C string library the program uses, and the string helpers
    of [src/src/utils.c].  A C string is a Coq [string] without its terminator;
    a [char *] that may be [NULL] is an [option string]. *)
From S2P Require Import Prelude.

(** ** The C library *)

Definition strlen (s : string) : Z := Z.of_nat (String.length s).

Definition NUL : ascii := "000"%char.

(** The character a pointer to the start of [s] reads: the terminator when [s]
    is empty. *)
Definition first_char (s : string) : ascii :=
  match s with EmptyString => NUL | String c _ => c end.

Fixpoint last_char (s : string) : ascii :=
  match s with
  | EmptyString => NUL
  | String c EmptyString => c
  | String _ s' => last_char s'
  end.

(** [str + n], for [n] at most the length. *)
Fixpoint str_drop (n : nat) (s : string) : string :=
  match n, s with
  | O, _ => s
  | S n', String _ s' => str_drop n' s'
  | S _, EmptyString => EmptyString
  end.

Fixpoint str_take (n : nat) (s : string) : string :=
  match n, s with
  | O, _ => EmptyString
  | S n', String c s' => String c (str_take n' s')
  | S _, EmptyString => EmptyString
  end.

(** [!strncmp(s1, s2, n)]. *)
Fixpoint strneq (n : nat) (s1 s2 : string) : bool :=
  match n, s1, s2 with
  | O, _, _ => true
  | S _, EmptyString, EmptyString => true
  | S n', String c1 s1', String c2 s2' => Ascii.eqb c1 c2 && strneq n' s1' s2'
  | _, _, _ => false
  end.

(** [tolower] in the C locale. *)
Definition tolower (c : ascii) : ascii :=
  let n := nat_of_ascii c in
  if (65 <=? n)%nat && (n <=? 90)%nat then ascii_of_nat (n + 32) else c.

Fixpoint str_map (f : ascii -> ascii) (s : string) : string :=
  match s with EmptyString => EmptyString | String c s' => String (f c) (str_map f s') end.

(** [!strcasecmp(s1, s2)]. *)
Definition strcaseeq (s1 s2 : string) : bool :=
  (str_map tolower s1 =? str_map tolower s2)%string.

(** [!strncasecmp(s1, s2, n)]. *)
Definition strncaseeq (n : nat) (s1 s2 : string) : bool :=
  strneq n (str_map tolower s1) (str_map tolower s2).

Fixpoint str_mem (c : ascii) (s : string) : bool :=
  match s with EmptyString => false | String c' s' => Ascii.eqb c c' || str_mem c s' end.

(** [strspn(s, accept)] and [strcspn(s, reject)]. *)
Fixpoint strspn (s accept : string) : nat :=
  match s with
  | EmptyString => 0
  | String c s' => if str_mem c accept then S (strspn s' accept) else 0
  end.

Fixpoint strcspn (s reject : string) : nat :=
  match s with
  | EmptyString => 0
  | String c s' => if str_mem c reject then 0 else S (strcspn s' reject)
  end.

(** [strchr(s, c)] for a non-null [c]: the suffix that starts at the first
    occurrence. *)
Fixpoint strchr (s : string) (c : ascii) : option string :=
  match s with
  | EmptyString => None
  | String c' s' => if Ascii.eqb c' c then Some s else strchr s' c
  end.

(** [strrchr(s, c)]: the offset of the last occurrence, as the string cut there
    ([*p = 0]) and the suffix [p] points to. *)
Fixpoint strrchr (s : string) (c : ascii) : option (string * string) :=
  match s with
  | EmptyString => None
  | String c' s' =>
      match strrchr s' c with
      | Some (a, b) => Some (String c' a, b)
      | None => if Ascii.eqb c' c then Some (EmptyString, s) else None
      end
  end.

(** [strstr(hay, needle)]: the suffix that starts at the first occurrence. *)
Fixpoint strstr (hay needle : string) : option string :=
  if strneq (String.length needle) hay needle then Some hay
  else match hay with
       | EmptyString => None
       | String _ hay' => strstr hay' needle
       end.

(** [strsep(&ptr, d)] with a one-character delimiter: the token, and the new
    value of [ptr].  [None] in and out is the [NULL] that ends the loop. *)
Fixpoint split_at (d : ascii) (s : string) : string * option string :=
  match s with
  | EmptyString => (EmptyString, None)
  | String c s' =>
      if Ascii.eqb c d then (EmptyString, Some s')
      else let '(tok, rest) := split_at d s' in (String c tok, rest)
  end.

Definition strsep (d : ascii) (ptr : option string) : option (string * option string) :=
  match ptr with
  | None => None
  | Some s => Some (split_at d s)
  end.

(** All the tokens a [while ((tok = strsep(&ptr, d)) != NULL)] loop visits. *)
Fixpoint tokens (d : ascii) (s : string) : list string :=
  match s with
  | EmptyString => [EmptyString]
  | String c s' =>
      if Ascii.eqb c d then EmptyString :: tokens d s'
      else match tokens d s' with
           | [] => [String c EmptyString]
           | t :: ts => String c t :: ts
           end
  end.

Definition is_space (c : ascii) : bool :=
  let n := nat_of_ascii c in (n =? 32)%nat || ((9 <=? n)%nat && (n <=? 13)%nat).

Definition digit_val (base : Z) (c : ascii) : option Z :=
  let n := Z.of_nat (nat_of_ascii c) in
  let v := if (48 <=? n) && (n <=? 57) then n - 48
           else if (65 <=? n) && (n <=? 90) then n - 55
           else if (97 <=? n) && (n <=? 122) then n - 87
           else 99 in
  if v <? base then Some v else None.

Fixpoint skip_spaces (s : string) : string :=
  match s with
  | EmptyString => EmptyString
  | String c s' => if is_space c then skip_spaces s' else s
  end.

(** The digits at the start of [s]: their value, how many there are and what
    follows. *)
Fixpoint read_digits (base acc : Z) (n : nat) (s : string) : Z * nat * string :=
  match s with
  | EmptyString => (acc, n, s)
  | String c s' =>
      match digit_val base c with
      | Some d => read_digits base (acc * base + d) (S n) s'
      | None => (acc, n, s)
      end
  end.

(** The number [strtoimax]/[strtoumax] read in base 10: its sign, its
    magnitude and the end pointer; [None] when there is no digit, where the
    end pointer is the start of the string. *)
Definition scan_number (s : string) : option (bool * Z * string) :=
  let s1 := skip_spaces s in
  let '(neg, s2) :=
    match s1 with
    | String c s' =>
        if Ascii.eqb c "-"%char then (true, s')
        else if Ascii.eqb c "+"%char then (false, s') else (false, s1)
    | EmptyString => (false, s1)
    end in
  let '(v, n, rest) := read_digits 10 0 0 s2 in
  if (n =? 0)%nat then None else Some (neg, v, rest).

(** [strtoumax(s, &end, 10)]: value and end; a negated number wraps around and
    an overflow saturates. *)
Definition strtoumax (s : string) : Z * string :=
  match scan_number s with
  | None => (0, s)
  | Some (neg, v, rest) =>
      (if UINTMAX_MAX <? v then UINTMAX_MAX
       else if neg then to_uint64 (- v) else v, rest)
  end.

(** [strtoimax(s, &end, 10)]. *)
Definition strtoimax (s : string) : Z * string :=
  match scan_number s with
  | None => (0, s)
  | Some (neg, v, rest) =>
      let z := if neg then - v else v in
      (Z.max INTMAX_MIN (Z.min INTMAX_MAX z), rest)
  end.

(** [basename], the GNU version: what follows the last slash. *)
Definition basename (s : string) : string :=
  match strrchr s "/"%char with
  | None => s
  | Some (_, p) => str_drop 1 p
  end.

(** ** String helpers of [utils.c] *)

Definition str_lower (str : string) : string := str_map tolower str.

Definition str_equal (s1 s2 : string) : bool := (s1 =? s2)%string.

Definition str_case_equal (s1 s2 : string) : bool := strcaseeq s1 s2.

Definition str_has_prefix (str prefix : string) : bool :=
  strneq (String.length prefix) str prefix.

Definition str_has_suffix (str suffix : string) : bool :=
  let len := String.length str in
  let slen := String.length suffix in
  if (slen <=? len)%nat then str_equal (str_drop (len - slen) str) suffix else false.

Definition str_empty (str : option string) : bool :=
  match str with
  | Some s => Ascii.eqb (first_char s) NUL
  | None => false
  end.

Fixpoint str_array_match_prefix (str : string) (arr : list string) : bool :=
  match arr with
  | [] => false
  | a :: arr' => if str_has_prefix str a then true else str_array_match_prefix str arr'
  end.

Fixpoint str_array_match (str : string) (arr : list string) : bool :=
  match arr with
  | [] => false
  | a :: arr' => if str_equal str a then true else str_array_match str arr'
  end.

(** [extract_path(src, dst, keyword)]: the return value and what [dst] holds. *)
Definition extract_path (src_path keyword : string) : Z * string :=
  match strstr src_path keyword with
  | Some keyword_start =>
      let length := (String.length src_path - String.length keyword_start
                     + String.length keyword)%nat in
      (0, str_take length src_path)
  | None => (-1, EmptyString)
  end.

(** A C string has no terminator inside it. *)
Definition c_string (s : string) : Prop := str_mem NUL s = false.

(** ** Lemmas *)

Lemma string_app_assoc (a b c : string) : (a +:+ b) +:+ c = a +:+ (b +:+ c).
Proof. induction a as [|x a IH]; simpl; congruence. Qed.

Lemma string_app_empty_r (a : string) : a +:+ EmptyString = a.
Proof. induction a as [|x a IH]; simpl; congruence. Qed.

Lemma string_length_app (a b : string) :
  String.length (a +:+ b) = (String.length a + String.length b)%nat.
Proof. induction a as [|x a IH]; simpl; congruence. Qed.

Lemma strlen_app (a b : string) : strlen (a +:+ b) = strlen a + strlen b.
Proof. unfold strlen. rewrite string_length_app. lia. Qed.

Lemma strlen_cons (c : ascii) (s : string) : strlen (String c s) = 1 + strlen s.
Proof. unfold strlen. simpl. lia. Qed.

Lemma strlen_nonneg (s : string) : 0 <= strlen s.
Proof. unfold strlen. lia. Qed.

Lemma strlen_0 (s : string) : strlen s = 0 <-> s = EmptyString.
Proof. destruct s; [done|]. rewrite strlen_cons. pose proof (strlen_nonneg s). split; [lia|done]. Qed.

Lemma str_mem_app (c : ascii) (a b : string) :
  str_mem c (a +:+ b) = str_mem c a || str_mem c b.
Proof. induction a as [|x a IH]; simpl; [done|]. by rewrite IH, orb_assoc. Qed.

(** [strncmp] with the length of the second string is a prefix test. *)
Lemma strneq_prefix (s p : string) :
  strneq (String.length p) s p = true <-> exists r, s = p +:+ r.
Proof.
  revert s. induction p as [|c p IH]; intros s; simpl.
  - split; [intros _; by exists s|done].
  - destruct s as [|c' s]; [split; [done|intros [r Hr]; done]|].
    rewrite andb_true_iff, Ascii.eqb_eq, IH. split.
    + intros [-> [r ->]]. by exists r.
    + intros [r Hr]. simplify_eq. eauto.
Qed.

Lemma str_has_prefix_spec (s p : string) :
  str_has_prefix s p = true <-> exists r, s = p +:+ r.
Proof. apply strneq_prefix. Qed.

Lemma str_drop_app (a b : string) : str_drop (String.length a) (a +:+ b) = b.
Proof. induction a as [|x a IH]; simpl; [by destruct b|done]. Qed.

Lemma str_take_app (a b : string) : str_take (String.length a) (a +:+ b) = a.
Proof. induction a as [|x a IH]; simpl; [by destruct b|by rewrite IH]. Qed.

Lemma str_take_drop (n : nat) (s : string) : str_take n s +:+ str_drop n s = s.
Proof. revert s. induction n as [|n IH]; intros [|c s]; simpl; [done..|by rewrite IH]. Qed.

Lemma str_drop_length (n : nat) (s : string) :
  String.length (str_drop n s) = (String.length s - n)%nat.
Proof. revert s. induction n as [|n IH]; intros [|c s]; simpl; [done..|apply IH]. Qed.

Lemma str_take_length (n : nat) (s : string) :
  String.length (str_take n s) = (n `min` String.length s)%nat.
Proof. revert s. induction n as [|n IH]; intros [|c s]; simpl; [done..|by rewrite IH]. Qed.

Lemma str_take_all (n : nat) (s : string) : (String.length s <= n)%nat -> str_take n s = s.
Proof. revert s. induction n as [|n IH]; intros [|c s] Hn; simpl in *; [done|lia|done|]. by rewrite IH by lia. Qed.

Lemma str_has_suffix_spec (s p : string) :
  str_has_suffix s p = true <-> exists r, s = r +:+ p.
Proof.
  unfold str_has_suffix, str_equal. split.
  - case_match eqn:E; [|done]. intros Heq. bool_hyps.
    exists (str_take (String.length s - String.length p) s).
    rewrite <- Heq at 2. by rewrite str_take_drop.
  - intros [r ->]. rewrite string_length_app.
    rewrite (proj2 (Nat.leb_le _ _)) by lia.
    replace (_ - _)%nat with (String.length r) by lia.
    rewrite str_drop_app. apply String.eqb_refl.
Qed.

Lemma str_array_match_prefix_spec (s : string) (arr : list string) :
  str_array_match_prefix s arr = true <-> exists p, p ∈ arr /\ str_has_prefix s p = true.
Proof.
  induction arr as [|a arr IH]; simpl.
  - split; [done|intros (p & Hp & _); by apply not_elem_of_nil in Hp].
  - destruct (str_has_prefix s a) eqn:E.
    + split; [|done]. intros _. exists a. split; [apply elem_of_cons; by left|done].
    + rewrite IH. split; intros (p & Hp & Hm); exists p; (split; [|done]).
      * apply elem_of_cons. by right.
      * apply elem_of_cons in Hp as [->|Hp]; [congruence|done].
Qed.

Lemma str_array_match_spec (s : string) (arr : list string) :
  str_array_match s arr = true <-> s ∈ arr.
Proof.
  induction arr as [|a arr IH]; simpl.
  - split; [done|by intros Hp%not_elem_of_nil].
  - rewrite elem_of_cons, <- IH. unfold str_equal.
    destruct (String.eqb_spec s a); [|intuition congruence]. split; auto.
Qed.

Lemma str_empty_spec (s : string) :
  c_string s -> str_empty (Some s) = true <-> s = EmptyString.
Proof.
  intros Hs. destruct s as [|c s]; simpl; [done|]. rewrite Ascii.eqb_eq. split; [|done].
  intros ->. unfold c_string in Hs. simpl in Hs. done.
Qed.

(** *** Tokenizing *)

Lemma split_at_spec (d : ascii) (s tok : string) (rest : option string) :
  split_at d s = (tok, rest) ->
  str_mem d tok = false /\
  s = match rest with None => tok | Some r => tok +:+ String d r end.
Proof.
  revert tok rest. induction s as [|c s IH]; intros tok rest H; simpl in H.
  - simplify_eq. done.
  - destruct (Ascii.eqb_spec c d) as [->|Hne]; [by simplify_eq|].
    destruct (split_at d s) as [t r] eqn:E. simplify_eq.
    destruct (IH _ _ eq_refl) as [Hm Hs]. split.
    + simpl. rewrite Hm. destruct (Ascii.eqb_spec d c); [congruence|done].
    + destruct rest; simpl; congruence.
Qed.

Lemma split_at_shorter (d : ascii) (s tok r : string) :
  split_at d s = (tok, Some r) -> (String.length r < String.length s)%nat.
Proof.
  intros [_ ->]%split_at_spec. rewrite string_length_app. simpl. lia.
Qed.

Lemma tokens_split_at (d : ascii) (s : string) :
  tokens d s =
  match split_at d s with
  | (t, None) => [t]
  | (t, Some r) => t :: tokens d r
  end.
Proof.
  induction s as [|c s IH]; simpl; [done|].
  destruct (Ascii.eqb c d); [done|]. rewrite IH.
  by destruct (split_at d s) as [t [r|]].
Qed.

Lemma tokens_no_sep (d : ascii) (s t : string) : t ∈ tokens d s -> str_mem d t = false.
Proof.
  revert t. induction s as [|c s IH]; simpl; intros t Ht.
  - apply list_elem_of_singleton in Ht as ->. done.
  - destruct (Ascii.eqb_spec c d) as [->|Hne].
    + apply elem_of_cons in Ht as [->|Ht]; [done|by apply IH].
    + destruct (tokens d s) as [|t0 ts] eqn:E.
      * apply list_elem_of_singleton in Ht as ->. simpl.
        destruct (Ascii.eqb_spec d c); [congruence|done].
      * apply elem_of_cons in Ht as [->|Ht].
        -- simpl. destruct (Ascii.eqb_spec d c); [congruence|]. simpl. apply IH. set_solver.
        -- apply IH. set_solver.
Qed.

Lemma tokens_not_nil (d : ascii) (s : string) : tokens d s <> [].
Proof.
  destruct s as [|c s]; simpl; [done|]. destruct (Ascii.eqb c d); [done|].
  by destruct (tokens d s).
Qed.

(** Without the separator there is a single token. *)
Lemma tokens_single (d : ascii) (s : string) : str_mem d s = false -> tokens d s = [s].
Proof.
  induction s as [|c s IH]; simpl; [done|]. intros [Hc Hs]%orb_false_elim.
  rewrite Ascii.eqb_sym, Hc. by rewrite IH.
Qed.

Lemma tokens_app_sep (d : ascii) (a b : string) :
  str_mem d a = false -> tokens d (a +:+ String d b) = a :: tokens d b.
Proof.
  induction a as [|c a IH]; simpl; intros Ha.
  - by rewrite Ascii.eqb_refl.
  - apply orb_false_elim in Ha as [Hc Ha]. rewrite Ascii.eqb_sym, Hc. by rewrite IH.
Qed.

(** *** Searching *)

Lemma strrchr_None (s : string) (c : ascii) : strrchr s c = None <-> str_mem c s = false.
Proof.
  induction s as [|c' s IH]; simpl; [done|].
  destruct (strrchr s c) as [[a b]|].
  - split; [done|]. rewrite orb_false_iff. intros [_ H]. by apply IH in H.
  - rewrite (Ascii.eqb_sym c c'), orb_false_iff.
    destruct (Ascii.eqb c' c); split; try done; [by intros [? _]|]. intros _. split; [done|by apply IH].
Qed.

Lemma strrchr_Some (s a b : string) (c : ascii) :
  strrchr s c = Some (a, b) ->
  s = a +:+ b /\ exists b', b = String c b' /\ str_mem c b' = false.
Proof.
  revert a b. induction s as [|c' s IH]; intros a b H; simpl in H; [done|].
  destruct (strrchr s c) as [[a' b']|] eqn:E.
  - simplify_eq. destruct (IH _ _ eq_refl) as [-> Hb]. done.
  - destruct (Ascii.eqb_spec c' c) as [->|]; [|done]. simplify_eq.
    split; [done|]. exists s. split; [done|]. by apply strrchr_None.
Qed.

Lemma strrchr_app_last (s t : string) (c : ascii) :
  str_mem c t = false -> strrchr (s +:+ String c t) c = Some (s, String c t).
Proof.
  intros Ht. induction s as [|c' s IH]; simpl.
  - rewrite (proj2 (strrchr_None t c) Ht). by rewrite Ascii.eqb_refl.
  - by rewrite IH.
Qed.

Lemma basename_no_slash (s : string) : str_mem "/"%char (basename s) = false.
Proof.
  unfold basename. destruct (strrchr s "/"%char) as [[a b]|] eqn:E.
  - apply strrchr_Some in E as (_ & b' & -> & Hb). by destruct b'.
  - by apply strrchr_None.
Qed.

(** *** Numbers *)

Lemma digit_val_range (base : Z) (c : ascii) (d : Z) : digit_val base c = Some d -> 0 <= d < base.
Proof.
  unfold digit_val. set (n := Z.of_nat (nat_of_ascii c)). intros H.
  destruct ((48 <=? n) && (n <=? 57)) eqn:E1; [|destruct ((65 <=? n) && (n <=? 90)) eqn:E2;
    [|destruct ((97 <=? n) && (n <=? 122)) eqn:E3]];
    match type of H with (if ?b then _ else _) = _ => destruct b eqn:E end; simplify_eq; bool_hyps; lia.
Qed.

Lemma read_digits_nonneg (base acc : Z) (n : nat) (s : string) :
  0 <= acc -> 0 <= fst (fst (read_digits base acc n s)).
Proof.
  revert acc n. induction s as [|c s IH]; intros acc n Ha; simpl; [done|].
  destruct (digit_val base c) as [d|] eqn:E; [|done]. apply digit_val_range in E.
  apply IH. nia.
Qed.

Lemma strtoumax_range (s : string) : 0 <= fst (strtoumax s) <= UINTMAX_MAX.
Proof.
  unfold strtoumax, scan_number.
  destruct (match skip_spaces s with EmptyString => _ | String c s' => _ end) as [neg s2].
  pose proof (read_digits_nonneg 10 0 0 s2 ltac:(lia)) as H.
  destruct (read_digits 10 0 0 s2) as [[v n] rest]. simpl in H.
  destruct (n =? 0)%nat; [by vm_compute|]. cbn [fst].
  destruct (UINTMAX_MAX <? v) eqn:E; [by vm_compute|]. bool_hyps. destruct neg; [|lia].
  pose proof (uint_wrap_range 64 (- v) ltac:(lia)). unfold UINTMAX_MAX. lia.
Qed.
