(* ===== verification/Scanf.v ===== *)
(** * Formatted input

    [sscanf] as far as [src/src/nvc.c] uses it: literal characters, white space,
    [%d] and [%u]; and [fscanf] as far as [nvidia-modprobe] uses it, which reads
    words and fields too and is called until it does not match any more. *)
From S2P Require Import Prelude CString.

Inductive directive := DChar (c : ascii) | DSpace | DInt | DUint.

Fixpoint parse_format (s : string) : list directive :=
  match s with
  | EmptyString => []
  | String "%" (String c s') => (if Ascii.eqb c "u" then DUint else DInt) :: parse_format s'
  | String c s' => (if is_space c then DSpace else DChar c) :: parse_format s'
  end.

(** The values that are assigned before the first directive that fails. *)
Fixpoint scan (f : list directive) (s : string) : list Z :=
  match f with
  | [] => []
  | DChar c :: f' =>
      match s with
      | String d s' => if Ascii.eqb c d then scan f' s' else []
      | EmptyString => []
      end
  | DSpace :: f' => scan f' (skip_spaces s)
  | DInt :: f' =>
      match scan_number s with
      | None => []
      | Some (_, _, rest) => to_int32 (fst (strtoimax s)) :: scan f' rest
      end
  | DUint :: f' =>
      match scan_number s with
      | None => []
      | Some (_, _, rest) => to_uint32 (fst (strtoumax s)) :: scan f' rest
      end
  end.

Definition sscanf (s format : string) : list Z := scan (parse_format format) s.

Example sscanf_map : sscanf "         0          0 4294967295" "%u %u %u" = [0; 0; UINT32_MAX].
Proof. reflexivity. Qed.
Example sscanf_ci : sscanf "gpu1/gi2/ci3/access 42" "gpu%d/gi%d/ci%d/access %d" = [1; 2; 3; 42].
Proof. reflexivity. Qed.
Example sscanf_partial : sscanf "gpu1/gi2/access 42" "gpu%d/gi%d/ci%d/access %d" = [1; 2].
Proof. reflexivity. Qed.

(** Values are in the range of their type. *)
Lemma scan_range f s : Forall (fun z => - 2 ^ 31 <= z < 2 ^ 32) (scan f s).
Proof.
  revert s. induction f as [|d f IH]; intros s; simpl; [constructor|]. destruct d.
  - destruct s as [|d s]; [constructor|]. destruct (Ascii.eqb c d); [apply IH|constructor].
  - apply IH.
  - destruct (scan_number s) as [[[neg v] rest]|]; [|constructor]. constructor; [|apply IH].
    pose proof (sint_wrap_range 32 (fst (strtoimax s)) ltac:(lia)). lia.
  - destruct (scan_number s) as [[[neg v] rest]|]; [|constructor]. constructor; [|apply IH].
    pose proof (uint_wrap_range 32 (fst (strtoumax s)) ltac:(lia)). lia.
Qed.

(** ** Words and fields *)

(** [%<width>s], [%<width>[^c]] and [%*[^c]] assign or skip a string that is not empty. *)
Inductive fdirective :=
| FDir (d : directive)
| FWord (width : nat)
| FUntil (width : nat) (c : ascii)
| FSkipUntil (c : ascii).

Inductive scanned := VInt (z : Z) | VStr (s : string).

(** At most [width] characters that satisfy [p]. *)
Fixpoint span (width : nat) (p : ascii -> bool) (s : string) : string * string :=
  match width, s with
  | S width, String c s' =>
      if p c then let '(a, b) := span width p s' in (String c a, b) else (EmptyString, s)
  | _, _ => (EmptyString, s)
  end.

(** The number [%d] or [%u] reads. *)
Definition scan_int (signed : bool) (s : string) : option (Z * string) :=
  match scan_number s with
  | None => None
  | Some (_, _, rest) =>
      Some (if signed then to_int32 (fst (strtoimax s)) else to_uint32 (fst (strtoumax s)), rest)
  end.

(** One directive: what it assigns, if anything, and the rest of the input. *)
Definition fscan1 (d : fdirective) (s : string) : option (list scanned * string) :=
  match d with
  | FDir (DChar c) =>
      match s with
      | String d s' => if Ascii.eqb c d then Some ([], s') else None
      | EmptyString => None
      end
  | FDir DSpace => Some ([], skip_spaces s)
  | FDir DInt => (fun '(z, rest) => ([VInt z], rest)) <$> scan_int true s
  | FDir DUint => (fun '(z, rest) => ([VInt z], rest)) <$> scan_int false s
  | FWord width =>
      match span width (fun c => negb (is_space c)) (skip_spaces s) with
      | (EmptyString, _) => None
      | (w, rest) => Some ([VStr w], rest)
      end
  | FUntil width c =>
      match span width (fun d => negb (Ascii.eqb d c)) s with
      | (EmptyString, _) => None
      | (w, rest) => Some ([VStr w], rest)
      end
  | FSkipUntil c =>
      match span (String.length s) (fun d => negb (Ascii.eqb d c)) s with
      | (EmptyString, _) => None
      | (_, rest) => Some ([], rest)
      end
  end.

(** What is assigned before the first directive that fails, and what is left. *)
Fixpoint fscan (f : list fdirective) (s : string) : list scanned * string :=
  match f with
  | [] => ([], s)
  | d :: f =>
      match fscan1 d s with
      | None => ([], s)
      | Some (vs, s) => let '(ws, s) := fscan f s in (vs ++ ws, s)
      end
  end.

(** [while (fscanf(fp, f, ...) == n)]: what every call assigned. *)
Fixpoint fscanf_loop (fuel : nat) (f : list fdirective) (n : nat) (s : string) : list (list scanned) :=
  match fuel with
  | O => []
  | S fuel =>
      let '(vs, rest) := fscan f s in
      if (length vs =? n)%nat then vs :: fscanf_loop fuel f n rest else []
  end.
Definition fscanf_all (f : list fdirective) (n : nat) (s : string) : list (list scanned) :=
  fscanf_loop (S (String.length s)) f n s.

(** ** The loop ends: a call that assigns consumes *)

Lemma skip_spaces_length s : (String.length (skip_spaces s) <= String.length s)%nat.
Proof. induction s as [|c s IH]; simpl; [lia|]. destruct (is_space c); simpl in *; lia. Qed.

Lemma span_split width p s a b : span width p s = (a, b) -> s = a +:+ b.
Proof.
  revert s a b. induction width as [|width IH]; intros s a b; [intros [= <- <-]; by destruct s|].
  destruct s as [|c s]; simpl; [by intros [= <- <-]|]. destruct (p c); [|by intros [= <- <-]].
  destruct (span width p s) as [a' b'] eqn:E. intros [= <- <-]. simpl. by rewrite (IH _ _ _ E).
Qed.

Lemma span_length width p s c a b : span width p s = (String c a, b) -> (String.length b < String.length s)%nat.
Proof. intros H. apply span_split in H as ->. rewrite string_length_app. simpl. lia. Qed.

Lemma read_digits_length base acc n s v m rest :
  read_digits base acc n s = (v, m, rest) -> (String.length rest + m = String.length s + n)%nat.
Proof.
  revert acc n. induction s as [|c s IH]; intros acc n; simpl; [by intros [= _ <- <-]|].
  destruct (digit_val base c); [|by intros [= _ <- <-]]. intros H. apply IH in H. lia.
Qed.

Lemma scan_number_length s neg v rest : scan_number s = Some (neg, v, rest) -> (String.length rest < String.length s)%nat.
Proof.
  unfold scan_number. pose proof (skip_spaces_length s) as Hs. destruct (skip_spaces s) as [|c s']; [done|].
  set (q := if Ascii.eqb c "-" then _ else _).
  assert (String.length (snd q) <= String.length (String c s'))%nat as Hq
    by (unfold q; repeat destruct (Ascii.eqb c _); simpl; lia).
  destruct q as [neg' s2]. simpl in Hq, Hs. destruct (read_digits 10 0 0 s2) as [[v' n] r] eqn:E.
  apply read_digits_length in E. destruct (n =? 0)%nat eqn:En; [done|]. apply Nat.eqb_neq in En.
  intros [= _ _ <-]. lia.
Qed.

Lemma scan_int_length b s z rest : scan_int b s = Some (z, rest) -> (String.length rest < String.length s)%nat.
Proof.
  unfold scan_int. destruct (scan_number s) as [[[neg v] r]|] eqn:E; [|done].
  intros [= _ <-]. by apply scan_number_length in E.
Qed.

Lemma fscan1_length d s vs rest :
  fscan1 d s = Some (vs, rest) -> (String.length rest + length vs <= String.length s)%nat.
Proof.
  destruct d as [[c| | |]|width|width c|c]; simpl.
  - destruct s as [|d s]; [done|]. destruct (Ascii.eqb c d); [|done]. intros [= <- <-]. simpl. lia.
  - intros [= <- <-]. pose proof (skip_spaces_length s). simpl. lia.
  - destruct (scan_int true s) as [[z r]|] eqn:E; [|done]. intros [= <- <-]. apply scan_int_length in E. simpl. lia.
  - destruct (scan_int false s) as [[z r]|] eqn:E; [|done]. intros [= <- <-]. apply scan_int_length in E. simpl. lia.
  - destruct (span _ _ _) as [[|a w] r] eqn:E; [done|]. intros [= <- <-]. apply span_length in E.
    pose proof (skip_spaces_length s). simpl. lia.
  - destruct (span _ _ _) as [[|a w] r] eqn:E; [done|]. intros [= <- <-]. apply span_length in E. simpl. lia.
  - destruct (span _ _ _) as [[|a w] r] eqn:E; [done|]. intros [= <- <-]. apply span_length in E. simpl. lia.
Qed.

Lemma fscan_length f s vs rest : fscan f s = (vs, rest) -> (String.length rest + length vs <= String.length s)%nat.
Proof.
  revert s vs rest. induction f as [|d f IH]; intros s vs rest; simpl; [intros [= <- <-]; simpl; lia|].
  destruct (fscan1 d s) as [[us s']|] eqn:E; [|intros [= <- <-]; simpl; lia].
  apply fscan1_length in E. destruct (fscan f s') as [ws r] eqn:Ef. apply IH in Ef.
  intros [= <- <-]. rewrite length_app. lia.
Qed.

(** A bound longer than the input is enough. *)
Lemma fscanf_all_enough f n s fuel : (0 < n)%nat -> (String.length s < fuel)%nat ->
  fscanf_loop fuel f n s = fscanf_all f n s.
Proof.
  unfold fscanf_all. intros Hn.
  enough (forall k fuel s, (String.length s < fuel)%nat -> (String.length s < k)%nat ->
    fscanf_loop fuel f n s = fscanf_loop k f n s) as H by (intros; apply H; lia).
  clear fuel s. induction k as [|k IH]; intros fuel s Hf Hk; [lia|]. destruct fuel as [|fuel]; [lia|]. simpl.
  destruct (fscan f s) as [vs rest] eqn:E. destruct (length vs =? n)%nat eqn:El; [|done].
  apply Nat.eqb_eq in El. apply fscan_length in E. f_equal. apply IH; lia.
Qed.

(** The values that are assigned by one call more. *)
Lemma fscanf_all_eq f n s : (0 < n)%nat ->
  fscanf_all f n s =
    let '(vs, rest) := fscan f s in if (length vs =? n)%nat then vs :: fscanf_all f n rest else [].
Proof.
  intros Hn. unfold fscanf_all at 1. simpl. destruct (fscan f s) as [vs rest] eqn:E.
  destruct (length vs =? n)%nat eqn:El; [|done]. apply Nat.eqb_eq in El. apply fscan_length in E.
  f_equal. apply fscanf_all_enough; lia.
Qed.
