(* ===== verification/Regex.v ===== *)
(** * Regular expressions

    What [macth_target_library] of [src/src/nvc_mount.c] uses of [regcomp] and
    [regexec]: anchored extended expressions, matched by derivatives. *)
From S2P Require Import Prelude CString.

Inductive regex :=
| RNone | REmpty | RChar (f : ascii -> bool) | RSeq (a b : regex) | RAlt (a b : regex) | RStar (a : regex).

Fixpoint nullable (r : regex) : bool :=
  match r with
  | RNone | RChar _ => false
  | REmpty | RStar _ => true
  | RSeq a b => nullable a && nullable b
  | RAlt a b => nullable a || nullable b
  end.

Fixpoint deriv (c : ascii) (r : regex) : regex :=
  match r with
  | RNone | REmpty => RNone
  | RChar f => if f c then REmpty else RNone
  | RSeq a b => if nullable a then RAlt (RSeq (deriv c a) b) (deriv c b) else RSeq (deriv c a) b
  | RAlt a b => RAlt (deriv c a) (deriv c b)
  | RStar a => RSeq (deriv c a) (RStar a)
  end.

(** ["^r$"] matches the whole of the string. *)
Fixpoint regex_match (r : regex) (s : string) : bool :=
  match s with
  | EmptyString => nullable r
  | String c s' => regex_match (deriv c r) s'
  end.

(** ** Building expressions *)

Fixpoint lit (s : string) (k : regex) : regex :=
  match s with
  | EmptyString => k
  | String c s' => RSeq (RChar (Ascii.eqb c)) (lit s' k)
  end.
Definition plus (a k : regex) : regex := RSeq a (RSeq (RStar a) k).
Definition one_of (s : string) : regex := RChar (fun c => str_mem c s).
Definition digit : regex := RChar (fun c => (48 <=? nat_of_ascii c)%nat && (nat_of_ascii c <=? 57)%nat).
Definition any_char : regex := RChar (fun _ => true).

(** ** What an expression denotes *)

Inductive lang : regex -> string -> Prop :=
| LEmpty : lang REmpty EmptyString
| LChar f c : f c = true -> lang (RChar f) (String c EmptyString)
| LSeq a b s t : lang a s -> lang b t -> lang (RSeq a b) (s +:+ t)
| LAltL a b s : lang a s -> lang (RAlt a b) s
| LAltR a b s : lang b s -> lang (RAlt a b) s
| LStarNil a : lang (RStar a) EmptyString
| LStarCons a s t : lang a s -> lang (RStar a) t -> lang (RStar a) (s +:+ t).

Lemma nullable_lang r : nullable r = true <-> lang r EmptyString.
Proof.
  split.
  - induction r as [| |f|a IHa b IHb|a IHa b IHb|a IHa]; simpl; intros H; try done; [constructor| | |constructor].
    + apply andb_prop in H as [? ?]. apply (LSeq _ _ EmptyString EmptyString); auto.
    + apply orb_prop in H as [?|?]; [apply LAltL|apply LAltR]; auto.
  - remember EmptyString as s eqn:E. intros H. revert E.
    induction H as [|f c|a b s t _ IHa _ IHb|a b s _ IH|a b s _ IH| |a s t _ IHa _ IHb]; intros E; try done; simpl.
    + destruct s; [|done]. by rewrite IHa, IHb.
    + by rewrite IH.
    + by rewrite IH, orb_true_r.
Qed.

Lemma lang_seq_inv a b s : lang (RSeq a b) s -> exists s1 s2, s = s1 +:+ s2 /\ lang a s1 /\ lang b s2.
Proof. inversion 1; eauto. Qed.

(** A non-empty word of a star starts with a non-empty word of the body. *)
Lemma lang_star_cons a c s : lang (RStar a) (String c s) ->
  exists s1 s2, s = s1 +:+ s2 /\ lang a (String c s1) /\ lang (RStar a) s2.
Proof.
  remember (RStar a) as r eqn:Er. remember (String c s) as w eqn:Ew. intros H. revert s Er Ew.
  induction H as [| | | | | |a0 s0 t0 H1 _ H2 IH]; intros w' Er Ew; try done.
  injection Er as ->. destruct s0 as [|x s0]; simpl in Ew.
  - subst t0. by apply IH.
  - injection Ew as -> <-. eauto.
Qed.

Lemma deriv_lang r c s : lang (deriv c r) s <-> lang r (String c s).
Proof.
  revert s. induction r as [| |f|a IHa b IHb|a IHa b IHb|a IHa]; intros s; simpl.
  - split; inversion 1.
  - split; inversion 1.
  - destruct (f c) eqn:E; split; inversion 1; subst; [by constructor|constructor|congruence].
  - assert (lang (RSeq (deriv c a) b) s <-> exists s1 s2, s = s1 +:+ s2 /\ lang a (String c s1) /\ lang b s2) as Hs.
    { split; [intros (s1 & s2 & -> & H1%IHa & H2)%lang_seq_inv; eauto|].
      intros (s1 & s2 & -> & H1%IHa & H2). by constructor. }
    assert (lang (RSeq a b) (String c s) <->
      (exists s1 s2, s = s1 +:+ s2 /\ lang a (String c s1) /\ lang b s2) \/
      (nullable a = true /\ lang b (String c s))) as Hr.
    { split.
      - intros ([|x s1] & s2 & E & H1 & H2)%lang_seq_inv; simpl in E.
        + subst s2. right. by rewrite nullable_lang.
        + injection E as <- ->. left. eauto.
      - intros [(s1 & s2 & -> & H1 & H2)|[H1%nullable_lang H2]]; [by apply (LSeq a b (String c s1))|].
        by apply (LSeq a b EmptyString). }
    rewrite Hr, <- Hs, <- IHb. destruct (nullable a); [|naive_solver].
    split; [inversion 1; auto|]. intros [?|[_ ?]]; by constructor.
  - split; inversion 1; subst; [apply LAltL|apply LAltR|apply LAltL|apply LAltR]; naive_solver.
  - split.
    + intros (s1 & s2 & -> & H1%IHa & H2)%lang_seq_inv. by apply (LStarCons a (String c s1)).
    + intros (s1 & s2 & -> & H1%IHa & H2)%lang_star_cons. by constructor.
Qed.

(** The matcher decides the language. *)
Lemma regex_match_spec r s : regex_match r s = true <-> lang r s.
Proof.
  revert r. induction s as [|c s IH]; intros r; simpl; [apply nullable_lang|]. by rewrite IH, deriv_lang.
Qed.
