(* ===== verification/Effects.v ===== *)
(** * The environment of the program, and the monad its C code runs in

    Every interaction with the kernel and with the C library that can fail is
    an event of [sys]; the environment answers it with a value of [resp].  A C
    function is a tree [prog] of such interactions: nothing is assumed about the
    answers, so a theorem about [exec] holds for every behaviour of the kernel,
    of the file system and of the allocator.  The monad [M] threads what C keeps
    in globals: [errno] and the [struct error] the caller passes down. *)
From S2P Require Import Prelude CString.

(** ** Events *)

(** [struct stat], as far as the program reads it. *)
Record statbuf := mkStat {
  st_mode : Z; st_uid : Z; st_gid : Z; st_rdev : Z; st_size : Z
}.

(** A file opened for reading: the lines [getline] would return, with their
    newline, and whether the reading ends with an error. *)
Record stream := mkStream { s_lines : list string; s_error : bool }.

(** A system call that fails says why in [errno]. *)
Inductive sres (A : Type) := SOk (a : A) | SErr (e : Z).
Arguments SOk {A}. Arguments SErr {A}.

(** The capability sets of the process. *)
Inductive cap_flag := CAP_EFFECTIVE | CAP_PERMITTED | CAP_INHERITABLE | CAP_AMBIENT.
Record cap_state := mkCaps {
  cap_effective : gset Z; cap_permitted : gset Z; cap_inheritable : gset Z
}.

(** One entry [nftw] visits: path, type flag and the size of its [stat]. *)
Inductive ftw_flag := FTW_F | FTW_D | FTW_DNR | FTW_DP | FTW_NS | FTW_SL | FTW_SLN.
Record ftw_entry := mkFtw { f_path : string; f_flag : ftw_flag; f_size : Z }.

Inductive sys :=
(* memory and libc *)
| EAlloc | EGarbage  (* what an uninitialised variable holds *)
| EStrerror (errnum : Z) | EGetenv (name : string) | ESetenv (name value : string)
| EPrint (text : string) | EWarn (text : string)  (* on the standard output, on the standard error *)
| EGetpwnam (name : string) | EGetpwuid (uid : Z) | EGetgrnam (name : string)
(* files *)
| EOpen (path : string) (flags : Z) | EOpenat (dir : Z) (path : string) (flags : Z)
| ECreat (path : string) (flags perm : Z) | EWrite (fd : Z) (data : string) | EClose (fd : Z)
| EReadlinkat (dir : Z) (path : string) | EStat (path : string) | ELstat (path : string)
| EAccess (path : string) | EFaccessat (dir : Z) (path : string)
| ERead (fd size : Z) | ELseek (fd off : Z) | ERealpath (path : string)
| EMkdir (path : string) (perm : Z) | ESymlink (target path : string)
(* device nodes *)
| EMknod (path : string) (mode dev : Z) | EChmod (path : string) (mode : Z)
| EChown (path : string) (uid gid : Z) | ERemove (path : string)
| EUnlink (path : string) | ERmdir (path : string) | ENftw (path : string)
| EFopen (path mode : string) | EFwrite (path data : string) | EOpendir (path : string)
| EGlob (pattern : string) | EMmap (path : string) | EMunmap (path : string)
(* mounts and namespaces *)
| EMount (source : option string) (target : string) (fstype : option string)
         (flags : Z) (data : option string)
| EUmount (path : string) (flags : Z) | ESetns (fd nstype : Z)
| EUnshare (flags : Z) | EPivotRoot | EChroot (path : string) | EChdir (path : string)
| EFchdir (fd : Z)
(* identity and capabilities *)
| EGeteuid | EGetegid | EGetppid | EUmask (mask : Z) | ESetfsuid (uid : Z) | ESetfsgid (gid : Z)
| EGetgroups | ESetgroups (gid : Z) | ESetregid (r e : Z) | ESetreuid (r e : Z)
| EPrctl (op : string) (arg : Z) | ECapGetProc | ECapSetProc (c : cap_state)
| ESetrlimit (what : string) (lim : Z)
| ESeccompInit | ESeccompRule (syscall : string) | ESeccompLoad
(* processes *)
| EFork (flags : Z) | EWaitpid (pid : Z) | EExec (path : string) (argv : list string)
| EExecle (path : string) (argv envp : list string)
| EFexec (fd : Z) (argv : list string) | EWaitNohang (pid : Z) | EKill (pid sig : Z) | EGetpid
| EPoll (fd timeout : Z) | EUname | EGettimeofday | ENanosleep (ns : Z)
(* pipes, sockets and descriptors *)
| EPipe | EDup2 (old new : Z) | EFdopen (fd : Z) | ESocketpair | EGetpeername (fd : Z)
(* the management library, the remote procedure calls and the shared objects *)
| EDriver (name : string) (args : list Z) | ERpc (prog : string) | ERpcReply (prog : string) | EDlopen (lib : string)
| EClntCreate (prog : string) | EClntDestroy (prog : string) | ESvcCreate (prog : string) | ESvcRun (prog : string)
| EDlsym (symbol : string) | EDxCount | EDxList (n : Z) | EDxVersion (adapter : Z)
| EDxStoreSize (adapter : Z) | EDxStorePath (adapter size : Z)
| EElf (path : string) | ECgroup (version : Z) (cgroup : string) (dev : Z)
| ECgroupVersion (root : string) (pid : Z) | ECgroupMount (version : Z) (root : string) (pid : Z)
| ECgroupRoot (version : Z) (root prefix : string) (pid : Z).

(** What a query of the management library returns: numbers or a string. *)
Inductive dval := DNums (l : list Z) | DStr (s : string).

(** How a child process ended. *)
Inductive wstatus := WExited (code : Z) | WSignaled (sig : Z).

Definition resp (e : sys) : Type :=
  match e with
  | EAlloc => bool
  | EGarbage => Z
  | EStrerror _ => string
  | EGetenv _ => option string
  | EPrint _ | EWarn _ | ESetenv _ _ => unit
  | EGetpwnam _ | EGetpwuid _ => option (Z * Z)
  | EGetgrnam _ => option Z
  | EOpen _ _ | EOpenat _ _ _ | ECreat _ _ _ => sres N  (* a descriptor *)
  | EWrite _ _ => sres Z
  | EReadlinkat _ _ => sres string
  | EStat _ | ELstat _ => sres statbuf
  | ENftw _ => sres (list ftw_entry)
  | EFopen _ _ => sres stream
  | EOpendir _ | EGlob _ => sres (list string)
  | EMmap _ => sres (list Z)
  | EGeteuid | EGetegid | EGetppid | EUmask _ | ESetfsuid _ | ESetfsgid _ => Z
  | EGetgroups => sres (list Z)
  | EPrctl _ _ => sres Z
  | ECapGetProc => sres cap_state
  | EFork _ => sres N
  | EWaitpid _ => sres wstatus
  | EWaitNohang _ => sres (option wstatus)  (* [None]: still running *)
  | EGetpid => Z
  | EPoll _ _ => sres Z
  | EPipe | ESocketpair => sres (N * N)
  | EFdopen _ => sres stream
  | ESeccompInit | ESeccompRule _ | ESeccompLoad => bool
  | EClntCreate _ => option string  (* [None]: created *)
  | EClntDestroy _ => unit
  | EDlsym _ => option string  (* [None]: found *)
  | EDxCount => sres Z
  | EDxList _ => sres (Z * list Z)  (* the count and the adapters *)
  | EDxVersion _ | EDxStoreSize _ => sres Z
  | EDxStorePath _ _ => sres string
  | ESvcCreate _ => bool
  | ESvcRun _ => unit
  | ERead _ _ => sres (list Z)  (* what is there; no more than [size] bytes are read *)
  | ERealpath _ => sres string
  | EGettimeofday => Z * Z  (* seconds and microseconds *)
  | EUname => sres string  (* [machine] *)
  | EDriver _ _ => sum (Z * string) dval  (* the code and its text, or the values *)
  | ERpc _ => option (Z * string)  (* [None]: the request reached the service *)
  | ERpcReply _ => option (Z * string)  (* [None]: its reply came back *)
  | EDlopen _ => option string  (* [None]: loaded *)
  | EElf _ => bool
  | ECgroup _ _ _ => option (Z * string)
  | ECgroupVersion _ _ => sum (Z * string) Z
  | ECgroupMount _ _ _ => sum (Z * string) (string * string)
  | ECgroupRoot _ _ _ _ => sum (Z * string) string
  | _ => sres unit
  end.

(** What happened: an event with the answer it got. *)
Record event := Event { ev_call : sys; ev_resp : resp ev_call }.
Abbreviation trace := (list event).

(** ** Programs *)

(** Why a run does not return to its caller. *)
Inductive stop :=
| Undefined (what : string)  (* the C code has undefined behaviour *)
| Assertion                  (* a failed [assert] *)
| Exited (code : Z)          (* [_exit], [exit], [err] *)
| Executed                   (* the process runs another program *)
| OutOfFuel.                 (* the bound given to a loop of the model was too small *)

Inductive prog (A : Type) : Type :=
| Ret (a : A)
| Stop (s : stop)
| Vis (e : sys) (k : resp e -> prog A).
Arguments Ret {A}. Arguments Stop {A}. Arguments Vis {A}.

Fixpoint pbind {A B} (p : prog A) (f : A -> prog B) : prog B :=
  match p with
  | Ret a => f a
  | Stop s => Stop s
  | Vis e k => Vis e (fun r => pbind (k r) f)
  end.

Inductive outcome (A : Type) := Done (a : A) | Halted (s : stop).
Arguments Done {A}. Arguments Halted {A}.

(** An environment answers an event knowing everything that happened before. *)
Definition env := trace -> forall e : sys, resp e.

Fixpoint run {A} (o : env) (hist : trace) (p : prog A) : trace * outcome A :=
  match p with
  | Ret a => ([], Done a)
  | Stop s => ([], Halted s)
  | Vis e k =>
      let r := o hist e in
      let '(t, out) := run o (hist ++ [Event e r]) (k r) in
      (Event e r :: t, out)
  end.

(** [wp p Q]: whatever the environment answers, the trace of [p] and its outcome
    satisfy [Q]. *)
Fixpoint wp {A} (p : prog A) (Q : trace -> outcome A -> Prop) : Prop :=
  match p with
  | Ret a => Q [] (Done a)
  | Stop s => Q [] (Halted s)
  | Vis e k => forall r, wp (k r) (fun t o => Q (Event e r :: t) o)
  end.

(** ** The monad of the C code *)

(** [struct error] *)
Record error := mkError { code : Z; msg : option string }.

(** [errno], and the [struct error *] in scope: [None] is a [NULL] pointer. *)
Record st := mkSt { errno : Z; err : option error }.

Definition M (A : Type) := st -> prog (st * A).

Definition ret {A} (a : A) : M A := fun s => Ret (s, a).
Definition bind {A B} (m : M A) (k : A -> M B) : M B :=
  fun s => pbind (m s) (fun '(s', a) => k a s').
Definition halt {A} (w : stop) : M A := fun _ => Stop w.
Definition call (e : sys) : M (resp e) := fun s => Vis e (fun r => Ret (s, r)).

Definition get_errno : M Z := fun s => Ret (s, errno s).
Definition set_errno (n : Z) : M unit := fun s => Ret (mkSt n (err s), tt).
Definition get_err : M (option error) := fun s => Ret (s, err s).
Definition set_err (e : option error) : M unit := fun s => Ret (mkSt (errno s) e, tt).

Declare Scope c_scope.
Delimit Scope c_scope with C.
#[global] Open Scope c_scope.

Notation "'let*' x ':=' m 'in' k" := (bind m (fun x => k))
  (at level 200, x pattern, m at level 100, k at level 200, right associativity,
   format "'let*'  x  ':='  m  'in' '//' k") : c_scope.
(** [if ((x = m) fails) return e; k] *)
Notation "'let?' x ':=' m 'else' e 'in' k" :=
  (bind m (fun o => match o with Some x => k | None => e end))
  (at level 200, x pattern, m at level 100, e at level 100, k at level 200,
   right associativity,
   format "'let?'  x  ':='  m  'else'  e  'in' '//' k") : c_scope.
Notation "'do' m 'in' k" := (bind m (fun _ => k))
  (at level 200, m at level 100, k at level 200, right associativity,
   format "'do'  m  'in' '//' k") : c_scope.

(** The value of a system call, or [errno] set. *)
Definition trap {A} (r : sres A) : M (option A) :=
  match r with
  | SOk a => ret (Some a)
  | SErr n => do set_errno n in ret None
  end.

(** Run [m] with another [struct error]; the caller's one is back afterwards. *)
Definition with_err {A} (e : option error) (m : M A) : M (A * option error) :=
  fun s => pbind (m (mkSt (errno s) e))
    (fun '(s', a) => Ret (mkSt (errno s') (err s), (a, err s'))).

(** A call that passes [NULL] for the error. *)
Definition null_err {A} (m : M A) : M A :=
  let* r := with_err None m in ret (fst r).

Fixpoint mapM_ {A B} (f : A -> M B) (l : list A) : M unit :=
  match l with
  | [] => ret tt
  | a :: l' => do f a in mapM_ f l'
  end.

(** A loop over a list that leaves at the first failure. *)
Fixpoint iterM {A} (f : A -> M (option unit)) (l : list A) : M (option unit) :=
  match l with
  | [] => ret (Some tt)
  | a :: l' => let? _ := f a else ret None in iterM f l'
  end.

(** The same, with an accumulator. *)
Fixpoint foldM {A S} (f : S -> A -> M (option S)) (s : S) (l : list A) : M (option S) :=
  match l with
  | [] => ret (Some s)
  | a :: l' => let? s' := f s a else ret None in foldM f s' l'
  end.

(** Run a function from a state in an environment. *)
Definition exec {A} (o : env) (m : M A) (s : st) : trace * outcome (st * A) := run o [] (m s).

Definition init_st : st := mkSt 0 (Some (mkError 0 None)).

(** A friendly environment for concrete runs: everything succeeds, and what is
    read is empty. *)
Definition friendly (e : sys) : resp e :=
  match e return resp e with
  | EAlloc => true
  | EGarbage => 0
  | EStrerror _ => "error"
  | EGetenv _ => None
  | EPrint _ | EWarn _ | ESetenv _ _ => tt
  | EGetpwnam _ | EGetpwuid _ => None
  | EGetgrnam _ => None
  | EOpen _ _ | EOpenat _ _ _ | ECreat _ _ _ => SOk 3%N
  | EWrite _ data => SOk (strlen data)
  | EReadlinkat _ _ => SOk EmptyString
  | EStat _ | ELstat _ => SOk (mkStat 0 0 0 0 0)
  | ENftw _ => SOk []
  | EFopen _ _ => SOk (mkStream [] false)
  | EOpendir _ | EGlob _ => SOk []
  | EMmap _ => SOk []
  | EGeteuid | EGetegid | EGetppid | EUmask _ | ESetfsuid _ | ESetfsgid _ => 0
  | EGetgroups => SOk []
  | EPrctl _ _ => SOk 0
  | ECapGetProc => SOk (mkCaps ∅ ∅ ∅)
  | EFork _ => SOk 1%N
  | EWaitpid _ => SOk (WExited 0)
  | EWaitNohang _ => SOk (Some (WExited 0))
  | EGetpid => 7
  | EPoll _ _ => SOk 1
  | EPipe | ESocketpair => SOk (4%N, 5%N)
  | EFdopen _ => SOk (mkStream [] false)
  | ESeccompInit | ESeccompRule _ | ESeccompLoad => true
  | EClntCreate _ => None
  | EClntDestroy _ => tt
  | EDlsym _ => None
  | EDxCount => SOk 0
  | EDxList _ => SOk (0, [])
  | EDxVersion _ | EDxStoreSize _ => SOk 0
  | EDxStorePath _ _ => SOk EmptyString
  | ESvcCreate _ => true
  | ESvcRun _ => tt
  | ERead _ _ => SOk []
  | ERealpath path => SOk path
  | EGettimeofday => (0, 0)
  | EUname => SOk "x86_64"
  | EDriver _ _ => inr (DNums [0; 0; 0])
  | ERpc _ | ERpcReply _ => None
  | EDlopen _ => None
  | EElf _ => true
  | ECgroup _ _ _ => None
  | ECgroupVersion _ _ => inr 1
  | ECgroupMount _ _ _ => inr ("/", "/sys/fs/cgroup/devices")
  | ECgroupRoot _ _ _ _ => inr "/ctr"
  | _ => SOk tt
  end.
