(* ===== verification/Logic.v ===== *)
(** * Reasoning about programs that interact with an arbitrary environment

    [wp] composes along [bind]; [ensures P H m R] is the form most lemmas of the
    development have: whatever the environment answers, every event of [m]
    satisfies [P], a run that does not return stops as [H] allows, and a value
    that is returned satisfies [R]. *)
From S2P Require Import Prelude CString Effects.

(** ** Weakest preconditions *)

Lemma wp_mono {A} (p : prog A) (Q Q' : trace -> outcome A -> Prop) :
  (forall t o, Q t o -> Q' t o) -> wp p Q -> wp p Q'.
Proof.
  revert Q Q'. induction p as [a|w|e k IH]; intros Q Q' HQ Hp; simpl in *; [by apply HQ..|].
  intros r. eapply IH; [|apply Hp]. intros t o. apply HQ.
Qed.

#[export] Instance wp_proper {A} (p : prog A) :
  Proper (pointwise_relation _ (pointwise_relation _ iff) ==> iff) (wp p).
Proof. intros Q Q' HQ. split; apply wp_mono; intros t o; apply HQ. Qed.

Lemma wp_and {A} (p : prog A) (Q Q' : trace -> outcome A -> Prop) :
  wp p Q -> wp p Q' -> wp p (fun t o => Q t o /\ Q' t o).
Proof.
  revert Q Q'. induction p as [a|w|e k IH]; intros Q Q' H H'; simpl in *; [done..|].
  intros r. by apply IH.
Qed.

Lemma wp_pbind {A B} (p : prog A) (f : A -> prog B) (Q : trace -> outcome B -> Prop) :
  wp (pbind p f) Q <->
  wp p (fun t o => match o with
                   | Done a => wp (f a) (fun t' o' => Q (t ++ t') o')
                   | Halted w => Q t (Halted w)
                   end).
Proof.
  revert Q. induction p as [a|w|e k IH]; intros Q; simpl; [done..|].
  split; intros H r.
  - apply (IH r (fun t o => Q (Event e r :: t) o)), H.
  - apply (IH r (fun t o => Q (Event e r :: t) o)), H.
Qed.

(** A [wp] is a statement about every run. *)
Lemma wp_run {A} (p : prog A) (Q : trace -> outcome A -> Prop) (o : env) (hist : trace) :
  wp p Q -> Q (fst (run o hist p)) (snd (run o hist p)).
Proof.
  revert Q hist. induction p as [a|w|e k IH]; intros Q hist H; simpl in *; [done..|].
  specialize (IH (o hist e) _ (hist ++ [Event e (o hist e)]) (H (o hist e))).
  destruct (run o (hist ++ [Event e (o hist e)]) (k (o hist e))) as [t out]. exact IH.
Qed.

Section MLemmas.
Context {A B : Type}.
Implicit Types (m : M A) (k : A -> M B) (s : st).

Lemma wp_bind m k s (Q : trace -> outcome (st * B) -> Prop) :
  wp (bind m k s) Q <->
  wp (m s) (fun t o => match o with
                       | Done (s', a) => wp (k a s') (fun t' o' => Q (t ++ t') o')
                       | Halted w => Q t (Halted w)
                       end).
Proof.
  unfold bind. rewrite wp_pbind. apply wp_proper. intros t [[s' a]|w]; done.
Qed.

Lemma wp_with_err m (e : option error) s (Q : trace -> outcome (st * (A * option error)) -> Prop) :
  wp (with_err e m s) Q <->
  wp (m (mkSt (errno s) e))
     (fun t o => match o with
                 | Done (s', a) => Q t (Done (mkSt (errno s') (err s), (a, err s')))
                 | Halted w => Q t (Halted w)
                 end).
Proof.
  unfold with_err. rewrite wp_pbind. apply wp_proper. intros t [[s' a]|w]; [|done].
  simpl. by rewrite app_nil_r.
Qed.
End MLemmas.

(** ** Ensuring *)

Definition ensures {A} (P : event -> Prop) (H : stop -> Prop) (m : M A) (R : A -> Prop) : Prop :=
  forall s, wp (m s) (fun t o =>
    Forall P t /\ match o with Done (_, a) => R a | Halted w => H w end).

Definition any_stop (w : stop) : Prop := True.
Definition no_stop (w : stop) : Prop := False.
Definition any {A} (a : A) : Prop := True.
(** The run may exit or fail an assertion, but has no undefined behaviour and
    its loops end. *)
Definition no_ub (w : stop) : Prop :=
  match w with Undefined _ | OutOfFuel => False | _ => True end.
(** Its loops end. *)
Definition no_fuel (w : stop) : Prop := match w with OutOfFuel => False | _ => True end.

Section Ensures.
Context {A B : Type} (P P' : event -> Prop) (H H' : stop -> Prop).
Implicit Types (m : M A) (R : A -> Prop).

Lemma ensures_weaken m R R' :
  ensures P H m R -> (forall ev, P ev -> P' ev) -> (forall w, H w -> H' w) ->
  (forall a, R a -> R' a) -> ensures P' H' m R'.
Proof.
  intros He HP HH HR s. eapply wp_mono; [|apply He].
  intros t o [Ht Ho]. split; [eapply Forall_impl; eauto|]. destruct o as [[s' a]|w]; auto.
Qed.

Lemma ensures_post m R R' :
  ensures P H m R -> (forall a, R a -> R' a) -> ensures P H m R'.
Proof.
  intros He HR s. eapply wp_mono; [|apply He].
  intros t o [Ht Ho]. split; [done|]. destruct o as [[s' a]|w]; auto.
Qed.

Lemma ensures_bind m (k : A -> M B) R (R2 : B -> Prop) :
  ensures P H m R -> (forall a, R a -> ensures P H (k a) R2) ->
  ensures P H (bind m k) R2.
Proof.
  intros Hm Hk s. apply wp_bind. eapply wp_mono; [|apply Hm].
  intros t [[s' a]|w] [Ht Ho]; [|done].
  eapply wp_mono; [|apply (Hk a Ho)]. intros t' o' [Ht' Ho']. split; [|done].
  by apply Forall_app.
Qed.

Lemma ensures_ret (a : A) R : R a -> ensures P H (ret a) R.
Proof. intros HR s. simpl. split; [constructor|done]. Qed.

Lemma ensures_halt (w : stop) R : H w -> ensures P H (@halt A w) R.
Proof. intros Hw s. simpl. split; [constructor|done]. Qed.

Lemma ensures_call (e : sys) (R : resp e -> Prop) :
  (forall r, P (Event e r)) -> (forall r, R r) -> ensures P H (call e) R.
Proof. intros HP HR s r. simpl. split; [by constructor|done]. Qed.

Lemma ensures_with_err m (e : option error) R (R2 : A * option error -> Prop) :
  ensures P H m R -> (forall a e', R a -> R2 (a, e')) -> ensures P H (with_err e m) R2.
Proof.
  intros Hm HR s. apply wp_with_err. eapply wp_mono; [|apply Hm].
  intros t [[s' a]|w] [Ht Ho]; [|done]. split; [done|]. by apply HR.
Qed.

Lemma ensures_null_err m R : ensures P H m R -> ensures P H (null_err m) R.
Proof.
  intros Hm s. apply wp_bind, wp_with_err. eapply wp_mono; [|apply Hm].
  intros t [[s' a]|w] [Ht Ho]; [|done]. simpl. rewrite app_nil_r. done.
Qed.

(** Use an [ensures] in the middle of a [wp] proof. *)
Lemma wp_bind_ensures m (k : A -> M B) R s (Q : trace -> outcome (st * B) -> Prop) :
  ensures P H m R ->
  (forall s' t a, Forall P t -> R a -> wp (k a s') (fun t' o' => Q (t ++ t') o')) ->
  (forall t w, Forall P t -> H w -> Q t (Halted w)) ->
  wp (bind m k s) Q.
Proof.
  intros Hm Hk Hw. apply wp_bind. eapply wp_mono; [|apply Hm].
  intros t [[s' a]|w] [Ht Ho]; auto.
Qed.
End Ensures.

Lemma ensures_and {A} (P : event -> Prop) (H H' : stop -> Prop) (m : M A) R R' :
  ensures P H m R -> ensures P H' m R' ->
  ensures P (fun w => H w /\ H' w) m (fun a => R a /\ R' a).
Proof.
  intros H1 H2 s. eapply wp_mono; [|apply wp_and; [apply H1|apply H2]].
  intros t [[s' a]|w] [[Ht Ho] [_ Ho']]; auto.
Qed.

Section EnsuresMore.
Context {A : Type} (P : event -> Prop) (H : stop -> Prop).

Lemma ensures_get_errno R : (forall z, R z) -> ensures P H get_errno R.
Proof. intros HR s. simpl. split; [constructor|done]. Qed.
Lemma ensures_set_errno n R : R tt -> ensures P H (set_errno n) R.
Proof. intros HR s. simpl. split; [constructor|done]. Qed.
Lemma ensures_get_err R : (forall z, R z) -> ensures P H get_err R.
Proof. intros HR s. simpl. split; [constructor|done]. Qed.
Lemma ensures_set_err e R : R tt -> ensures P H (set_err e) R.
Proof. intros HR s. simpl. split; [constructor|done]. Qed.

Lemma ensures_trap (r : sres A) (R : option A -> Prop) :
  match r with SOk a => R (Some a) | SErr _ => R None end -> ensures P H (trap r) R.
Proof. intros HR s. destruct r; simpl; (split; [constructor|done]). Qed.

Lemma ensures_mapM_ {B} (f : A -> M B) (l : list A) :
  (forall a, a ∈ l -> ensures P H (f a) any) -> ensures P H (mapM_ f l) any.
Proof.
  induction l as [|a l IH]; intros Hf; simpl; [by apply ensures_ret|].
  eapply ensures_bind; [apply Hf, list_elem_of_here|]. intros _ _.
  apply IH. intros x Hx. by apply Hf, list_elem_of_further.
Qed.

Lemma ensures_iterM (f : A -> M (option unit)) (l : list A) :
  (forall a, a ∈ l -> ensures P H (f a) any) -> ensures P H (iterM f l) any.
Proof.
  induction l as [|a l IH]; intros Hf; simpl; [by apply ensures_ret|].
  eapply ensures_bind; [apply Hf, list_elem_of_here|]. intros [[]|] _; [|by apply ensures_ret].
  apply IH. intros x Hx. by apply Hf, list_elem_of_further.
Qed.

(** A loop with an accumulator keeps an invariant of it. *)
Lemma ensures_foldM {S} (I : S -> Prop) (f : S -> A -> M (option S)) (l : list A) (s0 : S) :
  (forall s a, a ∈ l -> I s ->
     ensures P H (f s a) (fun o => match o with Some s' => I s' | None => True end)) ->
  I s0 ->
  ensures P H (foldM f s0 l) (fun o => match o with Some s' => I s' | None => True end).
Proof.
  revert s0. induction l as [|a l IH]; intros s0 Hf Hs0; simpl; [by apply ensures_ret|].
  eapply ensures_bind; [apply Hf; [apply list_elem_of_here|done]|].
  intros [s'|] Hs'; [|by apply ensures_ret].
  apply IH; [|done]. intros s1 x Hx. by apply Hf, list_elem_of_further.
Qed.
End EnsuresMore.

Section EnsuresSteps.
Context {A B : Type} (P : event -> Prop) (H : stop -> Prop).

Lemma ensures_bind_bind {C} (m : M A) (k : A -> M C) (k2 : C -> M B) R :
  ensures P H (bind m (fun a => bind (k a) k2)) R -> ensures P H (bind (bind m k) k2) R.
Proof.
  intros Hm s. specialize (Hm s). rewrite wp_bind in Hm. apply wp_bind, wp_bind.
  eapply wp_mono; [|apply Hm]. intros t [[s' a]|w]; [|done]. intros Ha.
  rewrite wp_bind in Ha. eapply wp_mono; [|apply Ha]. intros t' [[s'' b]|w]; [|done].
  intros Hb. eapply wp_mono; [|apply Hb]. intros t'' [[? c]|w]; by rewrite <- app_assoc.
Qed.

Lemma ensures_bind_ret (a : A) (k : A -> M B) R :
  ensures P H (k a) R -> ensures P H (bind (ret a) k) R.
Proof. intros Hm s. apply Hm. Qed.

Lemma ensures_bind_halt w (k : A -> M B) R : H w -> ensures P H (bind (halt w) k) R.
Proof. intros Hw s. by split. Qed.

Lemma ensures_bind_trap (r : sres A) (k : option A -> M B) R :
  (forall a, r = SOk a -> ensures P H (k (Some a)) R) ->
  (forall n, r = SErr n -> ensures P H (k None) R) ->
  ensures P H (bind (trap r) k) R.
Proof. intros H1 H2 s. destruct r; simpl; [by apply H1|by eapply H2]. Qed.
End EnsuresSteps.

(** ** Classes of events *)

Inductive kind := KLib | KRead | KWrite | KMount | KNs | KCred | KProc | KMod | KDev.
#[export] Instance kind_eq_dec : EqDecision kind.
Proof. solve_decision. Defined.

Definition kind_of (e : sys) : kind :=
  match e with
  | EAlloc | EGarbage | EStrerror _ | EGetenv _ | ESetenv _ _ | EPrint _ | EWarn _ | EGetpwnam _ | EGetpwuid _ | EGetgrnam _
  | EGettimeofday | ENanosleep _ => KLib
  | EOpen _ _ | EOpenat _ _ _ | EClose _ | EReadlinkat _ _ | EStat _ | ELstat _ | EAccess _
  | EFaccessat _ _ | EFopen _ _ | EOpendir _ | EGlob _ | EMmap _ | EMunmap _ | EUname
  | ERead _ _ | ELseek _ _ | ERealpath _ | EElf _ => KRead
  | ECreat _ _ _ | EWrite _ _ | EMkdir _ _ | ESymlink _ _ | EUnlink _ | ERmdir _ | ENftw _
  | EFwrite _ _ | EUmask _ => KWrite
  | EMount _ _ _ _ _ | EUmount _ _ => KMount
  | ESetns _ _ | EUnshare _ | EPivotRoot | EChroot _ | EChdir _ | EFchdir _ => KNs
  | EGeteuid | EGetegid | EGetppid | ESetfsuid _ | ESetfsgid _ | EGetgroups
  | ESetgroups _ | ESetregid _ _ | ESetreuid _ _ | EPrctl _ _ | ECapGetProc | ECapSetProc _
  | ESetrlimit _ _ | ESeccompInit | ESeccompRule _ | ESeccompLoad => KCred
  | EFork _ | EWaitpid _ | EExec _ _ | EExecle _ _ _ | EFexec _ _ | EWaitNohang _ | EKill _ _ | EGetpid | EPoll _ _
  | EPipe | EDup2 _ _ | EFdopen _ | ESocketpair | EGetpeername _ => KProc
  | EMknod _ _ _ | EChmod _ _ | EChown _ _ _ | ERemove _ => KMod
  | EDlsym _ | EDxCount | EDxList _ | EDxVersion _ | EDxStoreSize _ | EDxStorePath _ _
  | EClntCreate _ | EClntDestroy _ | ESvcCreate _ | ESvcRun _
  | EDriver _ _ | ERpc _ | ERpcReply _ | EDlopen _ | ECgroup _ _ _ | ECgroupVersion _ _
  | ECgroupMount _ _ _ | ECgroupRoot _ _ _ _ => KDev
  end.

(** The event is of one of the listed classes. *)
Definition only (K : list kind) (ev : event) : Prop :=
  bool_decide (kind_of (ev_call ev) ∈ K) = true.

Lemma only_mono (K K' : list kind) (ev : event) :
  forallb (fun k => bool_decide (k ∈ K')) K = true -> only K ev -> only K' ev.
Proof.
  unfold only. rewrite !bool_decide_eq_true. intros HK Hev.
  rewrite forallb_forall in HK. apply (bool_decide_eq_true_1 _ (HK _ (proj1 (list_elem_of_In _ _) Hev))).
Qed.

Lemma Forall_only_mono (K K' : list kind) (t : trace) :
  forallb (fun k => bool_decide (k ∈ K')) K = true -> Forall (only K) t -> Forall (only K') t.
Proof. intros HK Ht. eapply Forall_impl; [done|]. intros ev. by apply only_mono. Qed.

(** ** Automation *)

Create HintDb ens discriminated.
#[export] Hint Constants Opaque : ens.
#[export] Hint Transparent resp : ens.

(** Close the side condition that an event or a stop is allowed. *)
Ltac ens_side :=
  solve [ done
        | intros; reflexivity
        | intros; exact I
        | intros; assumption
        | intros; by vm_compute
        | intros ?; apply only_mono; reflexivity
        | eauto with ens ].

Ltac ens_hint :=
  eapply ensures_weaken;
    [ solve [typeclasses eauto with ens nocore]
    | first [done | intros ?; apply only_mono; reflexivity | by eauto with ens | idtac]
    | first [done | by intros [] | solve [eauto with ens] | idtac]
    | ].

(** One step through the structure of the code. *)
Ltac ens_step :=
  cbv beta zeta;
  match goal with
  | |- ensures _ _ (bind (call _) _) _ =>
      eapply ensures_bind;
        [apply ensures_call; [try ens_side | intros ?; exact I] | cbv beta; intros ? ?]
  | |- ensures _ _ (bind _ _) _ =>
      eapply ensures_bind;
        [first [ ens_hint; intros ? HR; exact HR
               | apply ensures_null_err; ens_hint; intros ? HR; exact HR
               | apply ensures_get_errno; intros ?; exact I
               | apply ensures_get_err; intros ?; exact I
               | apply (ensures_trap _ _ _ any);
                 match goal with |- match ?r with _ => _ end => destruct r; exact I end
               | apply (ensures_set_errno _ _ _ any); exact I
               | apply (ensures_set_err _ _ _ any); exact I ]
        | cbv beta; intros ? ?]
  | |- ensures _ _ (bind (bind _ _) _) _ => apply ensures_bind_bind
  | |- ensures _ _ (bind (ret _) _) _ => apply ensures_bind_ret
  | |- ensures _ _ (bind (halt _) _) _ => apply ensures_bind_halt; try ens_side
  | |- ensures _ _ (bind (match ?x with _ => _ end) _) _ => destruct x eqn:?
  | |- ensures _ _ (null_err _) _ => apply ensures_null_err
  | |- ensures _ _ (ret _) _ => apply ensures_ret
  | |- ensures _ _ (halt _) _ => apply ensures_halt; try ens_side
  | |- ensures _ _ (call _) _ => apply ensures_call; [try ens_side|intros ?]
  | |- ensures _ _ (trap ?r) _ => apply ensures_trap; destruct r
  | |- ensures _ _ (set_errno _) _ => apply ensures_set_errno
  | |- ensures _ _ (set_err _) _ => apply ensures_set_err
  | |- ensures _ _ (match ?x with _ => _ end) _ => destruct x eqn:?
  | |- ensures _ _ _ _ => ens_hint
  end.

Ltac ens := repeat ens_step; try (intros; exact I); auto.

(** ** Ghost state

    What the kernel keeps for the process (its mounts, its namespace, its
    descriptors) is a function of the trace: [step] says how an event changes it.
    [ghost step m g R]: started when the ghost state is [g], a run of [m] that
    returns [a] leaves a state [g'] with [R a g']. *)
Definition ghost {G A} (step : G -> event -> G) (m : M A) (g : G) (R : A -> G -> Prop) : Prop :=
  forall s, wp (m s) (fun t o =>
    match o with Done (_, a) => R a (fold_left step t g) | Halted _ => True end).

Section Ghost.
Context {G : Type} (step : G -> event -> G).

Lemma ghost_bind {A B} (m : M A) (k : A -> M B) g R1 (R2 : B -> G -> Prop) :
  ghost step m g R1 -> (forall a g', R1 a g' -> ghost step (k a) g' R2) ->
  ghost step (bind m k) g R2.
Proof.
  intros Hm Hk s. apply wp_bind. eapply wp_mono; [|apply Hm].
  intros t [[s' a]|w] Ho; [|done]. eapply wp_mono; [|apply (Hk a _ Ho)].
  intros t' [[s'' b]|w] Hb; [|done]. by rewrite fold_left_app.
Qed.

Lemma ghost_post {A} (m : M A) g (R R' : A -> G -> Prop) :
  ghost step m g R -> (forall a g', R a g' -> R' a g') -> ghost step m g R'.
Proof.
  intros Hm HR s. eapply wp_mono; [|apply Hm]. intros t [[s' a]|w] Ho; auto.
Qed.

Lemma ghost_ret {A} (a : A) g (R : A -> G -> Prop) : R a g -> ghost step (ret a) g R.
Proof. intros HR s. done. Qed.

Lemma ghost_halt {A} w g (R : A -> G -> Prop) : ghost step (halt w) g R.
Proof. intros s. done. Qed.

Lemma ghost_call (e : sys) g (R : resp e -> G -> Prop) :
  (forall r, R r (step g (Event e r))) -> ghost step (call e) g R.
Proof. intros HR s r. simpl. apply HR. Qed.

(** Events that the ghost state ignores. *)
Lemma fold_ignored (P : event -> Prop) (t : trace) g :
  (forall ev, P ev -> forall g, step g ev = g) -> Forall P t -> fold_left step t g = g.
Proof. intros HP Ht. revert g. induction Ht as [|ev t Hev _ IH]; intros g; simpl; [done|]. by rewrite HP. Qed.

Lemma ghost_ensures {A} P H (m : M A) R g (R' : A -> G -> Prop) :
  ensures P H m R -> (forall ev, P ev -> forall g, step g ev = g) ->
  (forall a, R a -> R' a g) -> ghost step m g R'.
Proof.
  intros Hm HP HR s. eapply wp_mono; [|apply Hm]. intros t [[s' a]|w] [Ht Ho]; [|done].
  rewrite (fold_ignored P) by done. auto.
Qed.

(** What a run does and what the ghost state becomes, together. *)
Lemma ghost_ensures_and {A} P H (m : M A) R g (R' : A -> G -> Prop) :
  ghost step m g R' -> ensures P H m R -> ghost step m g (fun a g' => R' a g' /\ R a).
Proof.
  intros Hg Hm s. eapply wp_mono; [|apply wp_and; [apply Hg|apply Hm]].
  intros t [[s' a]|w] [Ho [_ Ho']]; done.
Qed.

Lemma ghost_and {A} (m : M A) g (R R' : A -> G -> Prop) :
  ghost step m g R -> ghost step m g R' -> ghost step m g (fun a g' => R a g' /\ R' a g').
Proof.
  intros H1 H2 s. eapply wp_mono; [|apply wp_and; [apply H1|apply H2]].
  intros t [[s' a]|w] [Ho Ho']; done.
Qed.

(** A part of the ghost state that evolves on its own. *)
Lemma ghost_proj {G' A} (step' : G' -> event -> G') (proj : G -> G') (m : M A) g (R : A -> G' -> Prop) :
  (forall g ev, proj (step g ev) = step' (proj g) ev) ->
  ghost step' m (proj g) R -> ghost step m g (fun a g' => R a (proj g')).
Proof.
  intros Hp Hm s. assert (forall t g, proj (fold_left step t g) = fold_left step' t (proj g)) as E.
  { induction t as [|ev t IH]; intros g0; simpl; [done|]. by rewrite IH, Hp. }
  eapply wp_mono; [|apply Hm]. intros t [[s' a]|w] Ho; [|done]. by rewrite E.
Qed.

(** A part that the events of [m] do not change. *)
Lemma ghost_pres {A X} P H (m : M A) Rm (f : G -> X) g :
  ensures P H m Rm -> (forall ev g, P ev -> f (step g ev) = f g) ->
  ghost step m g (fun a g' => f g' = f g /\ Rm a).
Proof.
  intros Hm HP s. eapply wp_mono; [|apply Hm]. intros t [[s' a]|w] [Ht Ho]; [|done].
  split; [|done]. clear Hm Ho. revert g. induction Ht as [|ev t Hev _ IH]; intros g; simpl; [done|].
  by rewrite IH, HP.
Qed.

(** What no event undoes stays. *)
Lemma ghost_stable {A} (Q : G -> Prop) (m : M A) g :
  (forall g ev, Q g -> Q (step g ev)) -> Q g -> ghost step m g (fun _ g' => Q g').
Proof.
  intros HQ Hg s. assert (forall t, Q (fold_left step t g)) as Ht.
  { intros t. apply fold_left_preserves; auto. }
  eapply wp_mono with (Q := fun _ _ => True); [|induction (m s); simpl; auto].
  intros t [[s' a]|w] _; [apply Ht|done].
Qed.

Lemma ghost_with_err {A} (m : M A) e g (R : A -> G -> Prop) (R2 : A * option error -> G -> Prop) :
  ghost step m g R -> (forall a e' g', R a g' -> R2 (a, e') g') -> ghost step (with_err e m) g R2.
Proof.
  intros Hm HR s. apply wp_with_err. eapply wp_mono; [|apply Hm].
  intros t [[s' a]|w] Ho; [|done]. by apply HR.
Qed.

Lemma ghost_null_err {A} (m : M A) g (R : A -> G -> Prop) :
  ghost step m g R -> ghost step (null_err m) g R.
Proof.
  intros Hm s. apply wp_bind, wp_with_err. eapply wp_mono; [|apply Hm].
  intros t [[s' a]|w] Ho; [|done]. simpl. by rewrite app_nil_r.
Qed.

Lemma ghost_trap {A} (r : sres A) g (R : option A -> G -> Prop) :
  match r with SOk a => R (Some a) g | SErr _ => R None g end -> ghost step (trap r) g R.
Proof. intros HR s. destruct r; done. Qed.

Lemma ghost_run {A} (o : env) (m : M A) g (R : A -> G -> Prop) s :
  ghost step m g R ->
  match exec o m s with
  | (t, Done (_, a)) => R a (fold_left step t g)
  | (_, Halted _) => True
  end.
Proof.
  intros Hm. pose proof (wp_run _ _ o [] (Hm s)) as H. unfold exec.
  by destruct (run o [] (m s)) as [t [[s' a]|w]].
Qed.
End Ghost.

Lemma ensures_run {A} (o : env) (m : M A) P H R s :
  ensures P H m R ->
  match exec o m s with
  | (t, Done (_, a)) => Forall P t /\ R a
  | (t, Halted w) => Forall P t /\ H w
  end.
Proof.
  intros Hm. pose proof (wp_run _ _ o [] (Hm s)) as Hr. unfold exec.
  by destruct (run o [] (m s)) as [t [[s' a]|w]].
Qed.

(** A loop keeps an invariant of what it has processed; [Q] holds when it stops
    early. *)
Lemma ghost_iterM {G A} (step : G -> event -> G) (f : A -> M (option unit)) (l : list A)
    (I : list A -> G -> Prop) (Q : G -> Prop) (g : G) :
  (forall done_ a g, a ∈ l -> I done_ g ->
     ghost step (f a) g (fun r g' => match r with Some _ => I (done_ ++ [a]) g' | None => Q g' end)) ->
  I [] g ->
  ghost step (iterM f l) g (fun r g' => match r with Some _ => I l g' | None => Q g' end).
Proof.
  intros Hf. enough (forall done_ rest g, (forall a, a ∈ rest -> a ∈ l) -> I done_ g ->
    ghost step (iterM f rest) g
      (fun r g' => match r with Some _ => I (done_ ++ rest) g' | None => Q g' end)) as H.
  { intros Hg. apply (H [] l g); [done|done]. }
  intros done_ rest. revert done_. induction rest as [|a rest IH]; intros done_ g' Hin Hg; simpl.
  - apply ghost_ret. by rewrite app_nil_r.
  - eapply ghost_bind; [apply (Hf done_ a g'); [apply Hin, list_elem_of_here|done]|].
    intros [[]|] g2 Hg2; [|by apply ghost_ret].
    eapply ghost_post; [apply (IH (done_ ++ [a]));
      [intros x Hx; by apply Hin, list_elem_of_further|done]|].
    intros r g3. by rewrite <- app_assoc.
Qed.

Lemma ghost_foldM {G A S} (step : G -> event -> G) (f : S -> A -> M (option S)) (l : list A)
    (I : list A -> S -> G -> Prop) (Q : G -> Prop) (s : S) (g : G) :
  (forall done_ s a g, a ∈ l -> I done_ s g ->
     ghost step (f s a) g (fun r g' => match r with Some s' => I (done_ ++ [a]) s' g' | None => Q g' end)) ->
  I [] s g ->
  ghost step (foldM f s l) g (fun r g' => match r with Some s' => I l s' g' | None => Q g' end).
Proof.
  intros Hf. enough (forall done_ rest s g, (forall a, a ∈ rest -> a ∈ l) -> I done_ s g ->
    ghost step (foldM f s rest) g
      (fun r g' => match r with Some s' => I (done_ ++ rest) s' g' | None => Q g' end)) as H.
  { intros Hg. apply (H [] l s g); [done|done]. }
  intros done_ rest. revert done_. induction rest as [|a rest IH]; intros done_ s' g' Hin Hg; simpl.
  - apply ghost_ret. by rewrite app_nil_r.
  - eapply ghost_bind; [apply (Hf done_ s' a g'); [apply Hin, list_elem_of_here|done]|].
    intros [s2|] g2 Hg2; [|by apply ghost_ret].
    eapply ghost_post; [apply (IH (done_ ++ [a]));
      [intros x Hx; by apply Hin, list_elem_of_further|done]|].
    intros r g3. by rewrite <- app_assoc.
Qed.

(** ** Symbolic execution of straight-line code, for ghost states *)

Section GhostSteps.
Context {G : Type} (step : G -> event -> G) {A B : Type}.
Implicit Types (R : B -> G -> Prop) (g : G).

Lemma ghost_bind_call (e : sys) (k : resp e -> M B) g R :
  (forall r, ghost step (k r) (step g (Event e r)) R) -> ghost step (bind (call e) k) g R.
Proof. intros H s r. apply (wp_mono _ _ _ (fun t o H => H)), (H r s). Qed.

Lemma ghost_bind_trap (r : sres A) (k : option A -> M B) g R :
  (forall a, r = SOk a -> ghost step (k (Some a)) g R) ->
  (forall n, r = SErr n -> ghost step (k None) g R) ->
  ghost step (bind (trap r) k) g R.
Proof.
  intros H1 H2. eapply ghost_bind with (R1 := fun a g' => g' = g /\
    match r with SOk x => a = Some x | SErr _ => a = None end).
  - apply ghost_trap. by destruct r.
  - intros a ? [-> Ha]. destruct r; subst a; eauto.
Qed.

Lemma ghost_bind_ret (a : A) (k : A -> M B) g R :
  ghost step (k a) g R -> ghost step (bind (ret a) k) g R.
Proof. intros H. eapply ghost_bind; [by apply ghost_ret with (R := fun r g' => r = a /\ g' = g)|]. by intros ? ? [-> ->]. Qed.

Lemma ghost_bind_halt w (k : A -> M B) g R : ghost step (bind (halt w) k) g R.
Proof. intros s. done. Qed.

Lemma ghost_bind_bind {C} (m : M A) (k : A -> M C) (k2 : C -> M B) g R :
  ghost step (bind m (fun a => bind (k a) k2)) g R -> ghost step (bind (bind m k) k2) g R.
Proof.
  intros H s. specialize (H s). rewrite wp_bind in H. apply wp_bind, wp_bind.
  eapply wp_mono; [|apply H]. intros t [[s' a]|w]; [|done]. intros Ha.
  rewrite wp_bind in Ha. eapply wp_mono; [|apply Ha]. intros t' [[s'' b]|w]; [|done].
  intros Hb. eapply wp_mono; [|apply Hb]. intros t'' [[? c]|w]; [|done]. by rewrite <- app_assoc.
Qed.

Lemma ghost_bind_errno (k : Z -> M B) g R :
  (forall n, ghost step (k n) g R) -> ghost step (bind get_errno k) g R.
Proof. intros H s. apply H. Qed.

Lemma ghost_bind_set_errno n (k : unit -> M B) g R :
  ghost step (k tt) g R -> ghost step (bind (set_errno n) k) g R.
Proof. intros H s. apply H. Qed.

Lemma ghost_bind_ignored P H (m : M A) (Rm : A -> Prop) (k : A -> M B) g R :
  ensures P H m Rm -> (forall ev, P ev -> forall g, step g ev = g) ->
  (forall a, Rm a -> ghost step (k a) g R) -> ghost step (bind m k) g R.
Proof.
  intros Hm HP Hk. eapply ghost_bind with (R1 := fun a g' => g' = g /\ Rm a).
  - eapply ghost_ensures; [done|done|]. by intros a Ha.
  - intros a ? [-> Ha]. by apply Hk.
Qed.
End GhostSteps.

(** ** What was seen so far

    The trace itself as the ghost state: what an event told stays told. *)
Definition seen_step (g : trace) (ev : event) : trace := g ++ [ev].

Lemma wp_true {A} (p : prog A) : wp p (fun _ _ => True).
Proof. induction p as [a|w|e k IH]; simpl; auto. Qed.

Lemma seen_fold (t g : trace) : fold_left seen_step t g = g ++ t.
Proof.
  revert g. induction t as [|ev t IH]; intros g; simpl; [by rewrite app_nil_r|].
  rewrite IH. unfold seen_step. by rewrite <- app_assoc.
Qed.

Lemma ghost_seen {A} (m : M A) (g : trace) : ghost seen_step m g (fun _ g' => g ⊆ g').
Proof.
  intros s. eapply wp_mono; [|apply wp_true]. intros t [[s' a]|w] _; [|done]. rewrite seen_fold. set_solver.
Qed.

(** Go past a statement; what was seen before stays seen. *)
Lemma ghost_seen_bind {A B} (m : M A) (k : A -> M B) (g : trace) R :
  (forall a g', g ⊆ g' -> ghost seen_step (k a) g' R) -> ghost seen_step (bind m k) g R.
Proof. intros Hk. eapply ghost_bind; [apply ghost_seen|]. intros a g' Hg. by apply Hk. Qed.

Lemma ghost_seen_ensures {A B} P H Rm (m : M A) (k : A -> M B) (g : trace) R :
  ensures P H m Rm -> (forall a g', g ⊆ g' -> Rm a -> ghost seen_step (k a) g' R) ->
  ghost seen_step (bind m k) g R.
Proof.
  intros Hm Hk. eapply ghost_bind; [eapply ghost_ensures_and; [apply ghost_seen|exact Hm]|].
  intros a g' [Hg Ha]. by apply Hk.
Qed.

(** Events of the kinds [K] do not change the ghost state. *)
Ltac ignored :=
  let ev := fresh in let H := fresh in
  intros ev H; destruct ev as [[] ?]; first [done | by intros | discriminate H].

(** One statement; a call that has a lemma in [ens] and that the ghost state
    ignores is skipped. *)
Ltac gstep :=
  cbv beta zeta;
  match goal with
  | |- ghost _ (bind (call _) _) _ _ => apply ghost_bind_call; intros ?
  | |- ghost _ (bind (trap _) _) _ _ => apply ghost_bind_trap; intros ? ?; subst
  | |- ghost _ (bind (ret _) _) _ _ => apply ghost_bind_ret
  | |- ghost _ (bind (halt _) _) _ _ => apply ghost_bind_halt
  | |- ghost _ (bind (bind _ _) _) _ _ => apply ghost_bind_bind
  | |- ghost _ (bind get_errno _) _ _ => apply ghost_bind_errno; intros ?
  | |- ghost _ (bind (set_errno _) _) _ _ => apply ghost_bind_set_errno
  | |- ghost _ (bind (match ?x with _ => _ end) _) _ _ => destruct x eqn:?
  | |- ghost _ (bind _ _) _ _ =>
      eapply ghost_bind_ignored; [solve [typeclasses eauto with ens nocore] | ignored | intros ? ?]
  | |- ghost _ (match ?x with _ => _ end) _ _ => destruct x eqn:?
  | |- ghost _ (ret _) _ _ => apply ghost_ret
  | |- ghost _ (halt _) _ _ => apply ghost_halt
  | |- ghost _ (trap ?r) _ _ => apply ghost_trap; destruct r
  | |- ghost _ (call _) _ _ => apply ghost_call; intros ?
  | |- ghost _ _ _ _ =>
      eapply ghost_ensures; [solve [typeclasses eauto with ens nocore] | ignored | intros ? ?]
  end.

(** ** What holds when an event happens

    [always step I g t]: before every event of [t] the ghost state and the event
    satisfy [I]. *)
Fixpoint always {G} (step : G -> event -> G) (I : G -> event -> Prop) (g : G) (t : trace) : Prop :=
  match t with
  | [] => True
  | ev :: t' => I g ev /\ always step I (step g ev) t'
  end.

Section Always.
Context {G : Type} (step : G -> event -> G) (I : G -> event -> Prop).

Lemma always_app g t t' :
  always step I g (t ++ t') <-> always step I g t /\ always step I (fold_left step t g) t'.
Proof. revert g. induction t as [|ev t IH]; intros g; simpl; [tauto|]. rewrite IH. tauto. Qed.

Lemma always_spec g t :
  always step I g t <-> forall t1 ev t2, t = t1 ++ ev :: t2 -> I (fold_left step t1 g) ev.
Proof.
  split.
  - intros Ht t1 ev t2 ->. apply always_app in Ht as [_ Ht]. apply Ht.
  - revert g. induction t as [|ev t IH]; intros g Ht; simpl; [done|]. split; [by apply (Ht [] ev t)|].
    apply IH. intros t1 ev' t2 ->. apply (Ht (ev :: t1) ev' t2). done.
Qed.

Lemma always_Forall (P : event -> Prop) g t :
  (forall ev g, P ev -> I g ev) -> Forall P t -> always step I g t.
Proof. intros HP Ht. revert g. induction Ht; intros g; simpl; auto. Qed.

(** Every event of a run of [m] started in [g] satisfies [I], however the run
    ends; a value it returns satisfies [R]. *)
Definition guarded {A} (m : M A) (g : G) (R : A -> G -> Prop) : Prop :=
  forall s, wp (m s) (fun t o =>
    always step I g t /\ match o with Done (_, a) => R a (fold_left step t g) | Halted _ => True end).

Lemma guarded_bind {A B} (m : M A) (k : A -> M B) g R1 (R2 : B -> G -> Prop) :
  guarded m g R1 -> (forall a g', R1 a g' -> guarded (k a) g' R2) -> guarded (bind m k) g R2.
Proof.
  intros Hm Hk s. apply wp_bind. eapply wp_mono; [|apply Hm]. intros t [[s' a]|w] [Ht Ho]; [|done].
  eapply wp_mono; [|apply (Hk a _ Ho)]. intros t' o' [Ht' Ho']. rewrite always_app.
  split; [done|]. destruct o' as [[s'' b]|w]; [|done]. by rewrite fold_left_app.
Qed.

Lemma guarded_post {A} (m : M A) g (R R' : A -> G -> Prop) :
  guarded m g R -> (forall a g', R a g' -> R' a g') -> guarded m g R'.
Proof.
  intros Hm HR s. eapply wp_mono; [|apply Hm]. intros t [[s' a]|w] [Ht Ho]; auto.
Qed.

Lemma guarded_ret {A} (a : A) g (R : A -> G -> Prop) : R a g -> guarded (ret a) g R.
Proof. intros HR s. done. Qed.

Lemma guarded_halt {A} w g (R : A -> G -> Prop) : guarded (halt w) g R.
Proof. intros s. done. Qed.

Lemma guarded_call (e : sys) g (R : resp e -> G -> Prop) :
  (forall r, I g (Event e r)) -> (forall r, R r (step g (Event e r))) -> guarded (call e) g R.
Proof. intros HI HR s r. simpl. auto. Qed.

(** A part whose events are allowed at any time, with what it does to the ghost
    state. *)
Lemma guarded_ghost {A} P H (m : M A) Rm g (R : A -> G -> Prop) :
  ensures P H m Rm -> (forall ev g, P ev -> I g ev) -> ghost step m g R ->
  guarded m g (fun a g' => R a g' /\ Rm a).
Proof.
  intros Hm HP Hg s. eapply wp_mono; [|apply wp_and; [apply Hm|apply Hg]].
  intros t [[s' a]|w] [[Ht Ho] Ho']; (split; [by apply (always_Forall P)|done]).
Qed.

(** A part whose events are allowed once something holds that stays true. *)
Lemma guarded_held {A} P H (m : M A) Rm (Q : G -> Prop) g :
  ensures P H m Rm -> (forall ev g, Q g -> P ev -> I g ev) -> (forall g ev, Q g -> Q (step g ev)) -> Q g ->
  guarded m g (fun a g' => Q g' /\ Rm a).
Proof.
  intros Hm HP HQ Hg s. eapply wp_mono; [|apply Hm]. intros t o [Ht Ho].
  assert (always step I g t /\ Q (fold_left step t g)) as [Ha Hq].
  { clear Ho. revert g Hg. induction Ht as [|ev t Hev _ IH]; intros g Hg; simpl; [done|].
    destruct (IH (step g ev)); auto. }
  split; [done|]. by destruct o as [[s' a]|w].
Qed.

Lemma guarded_trap {A} (r : sres A) g : guarded (trap r) g (fun _ _ => True).
Proof. intros s. by destruct r. Qed.

(** One statement at a time. *)
Lemma guarded_bind_call {B} (e : sys) (k : resp e -> M B) g R :
  (forall r, I g (Event e r)) -> (forall r, guarded (k r) (step g (Event e r)) R) -> guarded (bind (call e) k) g R.
Proof.
  intros HI Hk. eapply guarded_bind with (R1 := fun r g' => g' = step g (Event e r)); [by apply guarded_call|].
  intros r g' ->. apply Hk.
Qed.

Lemma guarded_bind_trap {A B} (r : sres A) (k : option A -> M B) g R :
  guarded (k (match r with SOk a => Some a | SErr _ => None end)) g R -> guarded (bind (trap r) k) g R.
Proof.
  intros Hk. eapply guarded_bind with (R1 := fun o g' => o = match r with SOk a => Some a | SErr _ => None end /\ g' = g).
  - intros s. by destruct r.
  - by intros o g' [-> ->].
Qed.

Lemma guarded_bind_ret {A B} (a : A) (k : A -> M B) g R : guarded (k a) g R -> guarded (bind (ret a) k) g R.
Proof. intros Hk s. apply Hk. Qed.

Lemma guarded_bind_halt {A B} w (k : A -> M B) g R : guarded (bind (halt w) k) g R.
Proof. intros s. done. Qed.

Lemma guarded_bind_errno {B} (k : Z -> M B) g R : (forall e, guarded (k e) g R) -> guarded (bind get_errno k) g R.
Proof. intros Hk s. apply Hk. Qed.

Lemma guarded_bind_set_errno {B} n (k : unit -> M B) g R : guarded (k tt) g R -> guarded (bind (set_errno n) k) g R.
Proof. intros Hk s. apply Hk. Qed.

Lemma guarded_bind_bind {A B C} (m : M A) (f : A -> M B) (k : B -> M C) g R :
  guarded (bind m (fun a => bind (f a) k)) g R -> guarded (bind (bind m f) k) g R.
Proof.
  intros Hm s. specialize (Hm s). rewrite wp_bind in Hm. apply wp_bind, wp_bind.
  eapply wp_mono; [|apply Hm]. intros t [[s' a]|w]; [|done]. intros Ha.
  rewrite wp_bind in Ha. eapply wp_mono; [|apply Ha]. intros t' [[s'' b]|w]; [|done].
  intros Hb. eapply wp_mono; [|apply Hb]. intros t'' [[? c]|w]; by rewrite <- app_assoc.
Qed.

Lemma guarded_run {A} (o : env) (m : M A) g R s :
  guarded m g R ->
  match exec o m s with
  | (t, Done (_, a)) => always step I g t /\ R a (fold_left step t g)
  | (t, Halted _) => always step I g t
  end.
Proof.
  intros Hm. pose proof (wp_run _ _ o [] (Hm s)) as Hr. unfold exec.
  destruct (run o [] (m s)) as [t [[s' a]|w]]; simpl in *; [done|apply Hr].
Qed.
End Always.

(** One statement of a run all of whose events are looked at. *)
Ltac astep :=
  cbv beta zeta;
  match goal with
  | |- guarded _ _ (bind (call _) _) _ _ => apply guarded_bind_call; [try done|let r := fresh "r" in intros r]
  | |- guarded _ _ (bind (trap _) _) _ _ => apply guarded_bind_trap
  | |- guarded _ _ (bind (ret _) _) _ _ => apply guarded_bind_ret
  | |- guarded _ _ (bind (halt _) _) _ _ => apply guarded_bind_halt
  | |- guarded _ _ (bind (bind _ _) _) _ _ => apply guarded_bind_bind
  | |- guarded _ _ (bind get_errno _) _ _ => apply guarded_bind_errno; intros ?
  | |- guarded _ _ (bind (set_errno _) _) _ _ => apply guarded_bind_set_errno
  | |- guarded _ _ (ret _) _ _ => apply guarded_ret
  | |- guarded _ _ (halt _) _ _ => apply guarded_halt
  end.

(** What stays true once it is true holds at every event. *)
Lemma guarded_stable {G A} (step : G -> event -> G) (I I' : G -> event -> Prop) (Q : G -> Prop) (m : M A) g R :
  (forall g ev, Q g -> Q (step g ev)) -> (forall g ev, I g ev -> Q g -> I' g ev) -> Q g ->
  guarded step I m g R -> guarded step I' m g R.
Proof.
  intros HQ HI Hg Hm s. eapply wp_mono; [|apply Hm]. intros t o [Ht Ho]. split; [|done].
  clear Ho Hm. revert g Hg Ht. induction t as [|ev t IH]; intros g Hg; simpl; [done|]. intros []. auto.
Qed.

(** [let? x := m else e in k]: go on only when [m] succeeds. *)
Definition when {A G} (R : A -> G -> Prop) : option A -> G -> Prop :=
  fun r g => match r with Some a => R a g | None => True end.

Section Try.
Context {G A B : Type} (step : G -> event -> G) (I : G -> event -> Prop).

Lemma ghost_try (m : M (option A)) (k : A -> M B) (e : M B) g R1 (R : B -> G -> Prop) :
  ghost step m g (when R1) -> (forall a g', R1 a g' -> ghost step (k a) g' R) ->
  (forall g', ghost step e g' R) ->
  ghost step (bind m (fun o => match o with Some x => k x | None => e end)) g R.
Proof. intros Hm Hk He. eapply ghost_bind; [exact Hm|]. intros [a|] g' H; [by apply Hk|apply He]. Qed.

Lemma guarded_try (m : M (option A)) (k : A -> M B) (e : M B) g R1 (R : B -> G -> Prop) :
  guarded step I m g (when R1) -> (forall a g', R1 a g' -> guarded step I (k a) g' R) ->
  (forall g', guarded step I e g' R) ->
  guarded step I (bind m (fun o => match o with Some x => k x | None => e end)) g R.
Proof. intros Hm Hk He. eapply guarded_bind; [exact Hm|]. intros [a|] g' H; [by apply Hk|apply He]. Qed.

Lemma ghost_any {X} (m : M X) g : ghost step m g (fun _ _ => True).
Proof. by apply (ghost_stable _ (fun _ => True)). Qed.

(** A part that only reports a failure. *)
Lemma ghost_fails {X} (m : M X) g (R : A -> G -> Prop) : ghost step (do m in ret None) g (when R).
Proof. eapply ghost_bind; [apply ghost_any|]. intros x g' _. by apply ghost_ret. Qed.
End Try.

(** A value that is known whatever the ghost state. *)
Lemma ghost_value {G A} (step : G -> event -> G) P H (m : M A) Rm g (R : A -> G -> Prop) :
  ensures P H m Rm -> (forall a g', Rm a -> R a g') -> ghost step m g R.
Proof.
  intros Hm HR s. eapply wp_mono; [|apply Hm]. intros t [[s' a]|w] [_ Ho]; [|done]. by apply HR.
Qed.

(** Nothing is known of a part that is of no interest. *)
Lemma ensures_true {A} (m : M A) : ensures (fun _ => True) any_stop m any.
Proof.
  intros s. eapply wp_mono; [|apply wp_true]. intros t [[s' a]|w] _; split; try done; by apply Forall_forall.
Qed.

Lemma ensures_value {A} P H (m : M A) R : ensures P H m R -> ensures (fun _ => True) any_stop m R.
Proof. intros Hm. eapply ensures_weaken; [exact Hm|done..]. Qed.

(** ** Runs of an environment that keeps its promises

    [relies step rely m g s R]: on a run of [m] whose answers all satisfy [rely],
    nothing goes wrong except that a bound is exhausted, and the result, the state
    and the ghost state satisfy [R]. *)
Lemma wp_impl {A} (p : prog A) (P : Prop) (Q : trace -> outcome A -> Prop) :
  (P -> wp p Q) -> wp p (fun t o => P -> Q t o).
Proof.
  revert Q. induction p as [a|w|e k IH]; intros Q HQ; simpl in *; [done..|]. intros r. apply IH. auto.
Qed.

Section Relies.
Context {G : Type} (step : G -> event -> G) (rely : G -> event -> Prop).

Definition relies {A} (m : M A) (g : G) (s : st) (R : A -> st -> G -> Prop) : Prop :=
  wp (m s) (fun t o => always step rely g t ->
    match o with Done (s', a) => R a s' (fold_left step t g) | Halted w => w = OutOfFuel end).

Lemma relies_bind {A B} (m : M A) (k : A -> M B) g s R1 (R2 : B -> st -> G -> Prop) :
  relies m g s R1 -> (forall a s' g', R1 a s' g' -> relies (k a) g' s' R2) -> relies (bind m k) g s R2.
Proof.
  intros Hm Hk. apply wp_bind. eapply wp_mono; [|apply Hm]. intros t [[s' a]|w] Ho; [|done].
  apply (wp_mono _ (fun t' o' => always step rely g t -> always step rely (fold_left step t g) t' ->
    match o' with Done (s2, b) => R2 b s2 (fold_left step t' (fold_left step t g)) | Halted w => w = OutOfFuel end)).
  { intros t' o' Ho' Ht. apply always_app in Ht as [Ht Ht']. specialize (Ho' Ht Ht').
    destruct o' as [[s2 b]|w]; [|done]. by rewrite fold_left_app. }
  apply wp_impl. intros Ht. by apply Hk, Ho.
Qed.

Lemma relies_post {A} (m : M A) g s (R R' : A -> st -> G -> Prop) :
  relies m g s R -> (forall a s' g', R a s' g' -> R' a s' g') -> relies m g s R'.
Proof.
  intros Hm HR. eapply wp_mono; [|apply Hm]. intros t [[s' a]|w] Ho Ht; [|by apply Ho]. by apply HR, Ho.
Qed.

Lemma relies_ret {A} (a : A) g s (R : A -> st -> G -> Prop) : R a s g -> relies (ret a) g s R.
Proof. intros HR _. exact HR. Qed.

Lemma relies_fuel {A} g s (R : A -> st -> G -> Prop) : relies (halt OutOfFuel) g s R.
Proof. by intros _. Qed.

Lemma relies_call (e : sys) g s (R : resp e -> st -> G -> Prop) :
  (forall r, rely g (Event e r) -> R r s (step g (Event e r))) -> relies (call e) g s R.
Proof. intros HR r [Hr _]. by apply HR. Qed.

(** A part that does not concern the ghost state. *)
Lemma relies_ensures {A} P (m : M A) Rm g s (R : A -> st -> G -> Prop) :
  ensures P no_stop m Rm -> (forall ev, P ev -> forall g, step g ev = g) ->
  (forall a s', Rm a -> R a s' g) -> relies m g s R.
Proof.
  intros Hm HP HR. eapply wp_mono; [|apply Hm]. intros t [[s' a]|w] [Ht Ho] _; [|done].
  rewrite (fold_ignored step P) by done. by apply HR.
Qed.

(** One statement of a run whose state is known. *)
Lemma relies_bind_ret {A B} (a : A) (k : A -> M B) g s R : relies (k a) g s R -> relies (bind (ret a) k) g s R.
Proof. done. Qed.

Lemma relies_bind_call {B} (e : sys) (k : resp e -> M B) g s R :
  (forall r, rely g (Event e r) -> relies (k r) (step g (Event e r)) s R) -> relies (bind (call e) k) g s R.
Proof.
  intros Hk. eapply relies_bind with (R1 := fun r s' g' => rely g (Event e r) /\ s' = s /\ g' = step g (Event e r)).
  - by apply relies_call.
  - intros r s' g' (Hr & -> & ->). by apply Hk.
Qed.

Lemma relies_bind_bind {A B C} (m : M A) (f : A -> M B) (k : B -> M C) g s R :
  relies (bind m (fun a => bind (f a) k)) g s R -> relies (bind (bind m f) k) g s R.
Proof.
  unfold relies. intros Hm. rewrite wp_bind in Hm. apply wp_bind, wp_bind.
  eapply wp_mono; [|apply Hm]. intros t [[s' a]|w]; [|done]. intros Ha.
  rewrite wp_bind in Ha. eapply wp_mono; [|apply Ha]. intros t' [[s'' b]|w]; [|done].
  intros Hb. eapply wp_mono; [|apply Hb]. intros t'' [[? c]|w]; by rewrite <- app_assoc.
Qed.

Lemma relies_bind_errno {B} (k : Z -> M B) g s R : relies (k (errno s)) g s R -> relies (bind get_errno k) g s R.
Proof. done. Qed.

Lemma relies_bind_set_errno {B} n (k : unit -> M B) g s R :
  relies (k tt) g (mkSt n (err s)) R -> relies (bind (set_errno n) k) g s R.
Proof. done. Qed.

Lemma relies_bind_trap {A B} (r : sres A) (k : option A -> M B) g s R :
  relies (k (match r with SOk a => Some a | SErr _ => None end)) g
    (match r with SOk _ => s | SErr n => mkSt n (err s) end) R ->
  relies (bind (trap r) k) g s R.
Proof. by destruct r. Qed.

Lemma relies_with_err {A} (m : M A) e g s (R : A -> G -> Prop) :
  relies m g (mkSt (errno s) e) (fun a _ g' => R a g') -> relies (with_err e m) g s (fun r _ g' => R (fst r) g').
Proof.
  intros Hm. apply wp_with_err. eapply wp_mono; [|apply Hm]. by intros t [[s' a]|w].
Qed.

Lemma relies_run {A} (o : env) (m : M A) g s R :
  relies m g s R -> always step rely g (fst (exec o m s)) ->
  match exec o m s with
  | (t, Done (s', a)) => R a s' (fold_left step t g)
  | (_, Halted w) => w = OutOfFuel
  end.
Proof.
  intros Hm. pose proof (wp_run _ _ o [] Hm) as Hr. unfold exec.
  destruct (run o [] (m s)) as [t [[s' a]|w]]; exact Hr.
Qed.
End Relies.

(** One statement of a run that relies on its answers. *)
Ltac lstep :=
  cbv beta zeta;
  match goal with
  | |- relies _ _ (bind (call _) _) _ _ _ =>
      apply relies_bind_call; let r := fresh "r" in let Hr := fresh "Hr" in intros r Hr
  | |- relies _ _ (bind (trap _) _) _ _ _ => apply relies_bind_trap
  | |- relies _ _ (bind (ret _) _) _ _ _ => apply relies_bind_ret
  | |- relies _ _ (bind (bind _ _) _) _ _ _ => apply relies_bind_bind
  | |- relies _ _ (bind get_errno _) _ _ _ => apply relies_bind_errno
  | |- relies _ _ (bind (set_errno _) _) _ _ _ => apply relies_bind_set_errno
  | |- relies _ _ (ret _) _ _ _ => apply relies_ret
  end.

(** ** What a run that returns has done

    [gives m R]: the result and the trace of a run of [m] that returns satisfy [R];
    [attains m R]: those of a run that returns a value. *)
Definition gives {A} (m : M A) (R : A -> trace -> Prop) : Prop :=
  forall s, wp (m s) (fun t o => match o with Done (_, a) => R a t | Halted _ => True end).

Definition attains {A} (m : M (option A)) (R : A -> trace -> Prop) : Prop :=
  gives m (fun r t => match r with Some a => R a t | None => True end).

Lemma gives_bind {A B} (m : M A) (k : A -> M B) R1 (R : B -> trace -> Prop) :
  gives m R1 -> (forall a t, R1 a t -> gives (k a) (fun b t' => R b (t ++ t'))) -> gives (bind m k) R.
Proof.
  intros Hm Hk s. apply wp_bind. eapply wp_mono; [|apply Hm]. intros t [[s' a]|w] Ho; [|done]. by apply Hk.
Qed.

Lemma gives_ret {A} (a : A) (R : A -> trace -> Prop) : R a [] -> gives (ret a) R.
Proof. intros HR s. exact HR. Qed.

Lemma gives_call (e : sys) (R : resp e -> trace -> Prop) : (forall r, R r [Event e r]) -> gives (call e) R.
Proof. intros HR s r. apply HR. Qed.

Lemma gives_post {A} (m : M A) (R R' : A -> trace -> Prop) : gives m R -> (forall a t, R a t -> R' a t) -> gives m R'.
Proof. intros Hm HR s. eapply wp_mono; [|apply Hm]. intros t [[s' a]|w] Ho; [by apply HR|done]. Qed.

Lemma gives_ensures {A} P H (m : M A) Rm : ensures P H m Rm -> gives m (fun a t => Forall P t /\ Rm a).
Proof. intros Hm s. eapply wp_mono; [|apply Hm]. by intros t [[s' a]|w] Ho. Qed.

Lemma gives_any {A} (m : M A) : gives m (fun _ _ => True).
Proof. intros s. eapply wp_mono; [|apply wp_true]. by intros t [[s' a]|w] _. Qed.

Lemma gives_run {A} (o : env) (m : M A) R s : gives m R ->
  match exec o m s with (t, Done (_, a)) => R a t | (_, Halted _) => True end.
Proof.
  intros Hm. pose proof (wp_run _ _ o [] (Hm s)) as Hr. unfold exec.
  by destruct (run o [] (m s)) as [t [[s' a]|w]].
Qed.

(** [let? a := m else ret None in k]: both have done their part. *)
Lemma attains_bind {A B} (m : M (option A)) (k : A -> M (option B)) R1 (R : B -> trace -> Prop) :
  attains m R1 -> (forall a t, R1 a t -> attains (k a) (fun b t' => R b (t ++ t'))) ->
  attains (let? a := m else ret None in k a) R.
Proof.
  intros Hm Hk. eapply gives_bind; [exact Hm|]. intros [a|] t Ha; [by apply Hk|by apply gives_ret].
Qed.

Lemma attains_ensures {A} P H (m : M (option A)) (Rm : option A -> Prop) :
  ensures P H m Rm -> attains m (fun a t => Forall P t /\ Rm (Some a)).
Proof. intros Hm. eapply gives_post; [by eapply gives_ensures|]. by intros [a|] t. Qed.

Lemma attains_any {A} (m : M (option A)) : attains m (fun _ _ => True).
Proof. eapply gives_post; [apply gives_any|]. by intros []. Qed.

Lemma attains_none {A B} (m : M A) (R : B -> trace -> Prop) : attains (do m in ret None) R.
Proof. eapply gives_bind; [apply gives_any|]. intros a t _. by apply gives_ret. Qed.

Lemma gives_with_err {A} (m : M A) e (R : A -> trace -> Prop) :
  gives m R -> gives (with_err e m) (fun r t => R (fst r) t).
Proof.
  intros Hm s. apply wp_with_err. eapply wp_mono; [|apply Hm]. by intros t [[s' a]|w].
Qed.

(** ** The runs of a part of the program

    [produces p t o]: [p] can leave the trace [t] and end with [o], if the
    environment answers as [t] says.  [returned m r t]: a run of [m] left [t] and
    returned [r]. *)
Inductive produces {A} : prog A -> trace -> outcome A -> Prop :=
| produces_ret a : produces (Ret a) [] (Done a)
| produces_stop w : produces (Stop w) [] (Halted w)
| produces_vis e k r t o : produces (k r) t o -> produces (Vis e k) (Event e r :: t) o.

Lemma wp_produces {A} (p : prog A) : wp p (produces p).
Proof.
  induction p as [a|w|e k IH]; cbn [wp]; [constructor..|]. intros r.
  eapply wp_mono; [|apply IH]. intros t o. by constructor.
Qed.

(** What [wp] says holds of every run. *)
Lemma produces_wp {A} (p : prog A) t o Q : produces p t o -> wp p Q -> Q t o.
Proof.
  intros Hp. revert Q. induction Hp as [a|w|e k r t o Hp IH]; intros Q Hq; cbn [wp] in Hq; [done..|].
  apply (IH (fun t o => Q (Event e r :: t) o)), Hq.
Qed.

Definition returned {A} (m : M A) (r : A) (t : trace) : Prop := exists s s', produces (m s) t (Done (s', r)).

Lemma gives_returned {A} (m : M A) R : gives m R -> gives m (fun r t => returned m r t /\ R r t).
Proof.
  intros Hm s. eapply wp_mono; [|apply wp_and; [apply Hm|apply wp_produces]].
  intros t [[s' r]|w]; [|done]. intros [Hr Hp]. split; [by exists s, s'|done].
Qed.

(** Every run of [m] that returns is as [gives] says. *)
Lemma returned_gives {A} (m : M A) R r t : gives m R -> returned m r t -> R r t.
Proof. intros Hm (s & s' & Hp). apply (produces_wp _ _ _ _ Hp (Hm s)). Qed.

Lemma attains_returned {A} (m : M (option A)) R :
  attains m R -> attains m (fun a t => returned m (Some a) t /\ R a t).
Proof. intros Hm. eapply gives_post; [by apply gives_returned|]. by intros [a|] t []. Qed.

Lemma gives_with_err_returned {A} (m : M A) e R :
  gives m R -> gives (with_err e m) (fun r t => returned m (fst r) t /\ R (fst r) t).
Proof. intros Hm. by apply (gives_with_err _ _ (fun r t => returned m r t /\ R r t)), gives_returned. Qed.

Lemma attains_and {A} (m : M (option A)) R1 R2 :
  attains m R1 -> attains m R2 -> attains m (fun a t => R1 a t /\ R2 a t).
Proof.
  intros H1 H2 s. eapply wp_mono; [|apply wp_and; [apply H1|apply H2]]. by intros t [[s' [a|]]|w] [? ?].
Qed.

(** A part of [t] is a run of [m] that returned [r]. *)
Definition during {A} (m : M A) (r : A) (t : trace) : Prop := exists t1 t2 t3, t = t1 ++ t2 ++ t3 /\ returned m r t2.

Lemma during_within {A} (m : M A) r t t0 t1 : during m r t -> during m r (t0 ++ t ++ t1).
Proof. intros (a & b & d & -> & Hr). exists (t0 ++ a), b, (d ++ t1). by rewrite <- !app_assoc. Qed.

Lemma during_app {A} (m : M A) r t t' : during m r t \/ during m r t' -> during m r (t ++ t').
Proof.
  intros [H|H]; [rewrite <- (app_nil_l (t ++ t'))|rewrite <- (app_nil_r (t ++ t')), <- app_assoc];
    by apply during_within.
Qed.

Lemma returned_during {A} (m : M A) r t : returned m r t -> during m r t.
Proof. intros H. exists [], t, []. by rewrite app_nil_r. Qed.

(** The loop [foldM], with the elements that are done. *)
Lemma attains_foldM {A S} (f : S -> A -> M (option S)) (I : list A -> S -> trace -> Prop) l s0 :
  I [] s0 [] ->
  (forall a l1 l2 s t, l = l1 ++ a :: l2 -> I l1 s t -> attains (f s a) (fun s' t' => I (l1 ++ [a]) s' (t ++ t'))) ->
  attains (foldM f s0 l) (I l).
Proof.
  intros H0 Hf. assert (forall l2 l1 s t, l = l1 ++ l2 -> I l1 s t ->
    attains (foldM f s l2) (fun s' t' => I l s' (t ++ t'))) as H.
  { induction l2 as [|a l2 IH]; intros l1 s t El Hi; cbn [foldM].
    - rewrite app_nil_r in El. subst l1. apply gives_ret. by rewrite app_nil_r.
    - eapply attains_bind; [by eapply Hf|]. intros s' t' Hs. eapply gives_post.
      + apply (IH (l1 ++ [a])); [by rewrite <- app_assoc|exact Hs].
      + intros [s2|] t2; [by rewrite app_assoc|done]. }
  apply (H l [] s0 []); done.
Qed.
