(* ===== verification/Errors.v ===== *)
(** * Error reporting and checked library calls

    [src/src/error_generic.c] and the wrappers of [src/src/xfuncs.h]. *)
From S2P Require Import Prelude CString Effects Logic.

(** ** Constants of [errno.h] *)
Definition EPERM : Z := 1.
Definition ENOENT : Z := 2.
Definition ENOMEM : Z := 12.
Definition EEXIST : Z := 17.
Definition ENOTDIR : Z := 20.
Definition EINVAL : Z := 22.
Definition ERANGE : Z := 34.
Definition ENAMETOOLONG : Z := 36.
Definition ENOTEMPTY : Z := 39.
Definition ELOOP : Z := 40.

(** ** [error_generic.c] *)

(** [struct error err = {0};] *)
Definition err0 : option error := Some (mkError 0 None).

(** Run [m] with a [struct error] of its own. *)
Definition own_error {A} (m : M A) : M A := let* r := with_err err0 m in ret (fst r).

Definition error_reset : M unit :=
  let* e := get_err in
  match e with
  | None => ret tt
  | Some _ => set_err (Some (mkError 0 None))
  end.

(** The text [asprintf("%s: %s", msg, errmsg)] after the cut at the first
    newline and the lower-casing from the last colon on. *)
Definition format_errmsg (msg errmsg : string) : string :=
  let full := msg +:+ ": " +:+ errmsg in
  let cut := str_take (strcspn full (String "010" EmptyString)) full in
  match strrchr cut ":" with
  | Some (a, b) => a +:+ str_lower b
  | None => cut
  end.

(** [str_lower(strrchr(err->msg, ':'))] dereferences [NULL] when the cut text has
    no colon left. *)
Definition errmsg_has_colon (msg errmsg : string) : bool :=
  let full := msg +:+ ": " +:+ errmsg in
  str_mem ":" (str_take (strcspn full (String "010" EmptyString)) full).

(** [error_vset(err, errcode, errmsg, fmt, ap)]; [text] is what the format and
    its arguments give. *)
Definition error_vset (errcode : Z) (errmsg : option string) (text : string) : M Z :=
  let* e := get_err in
  match e with
  | None => ret 0
  | Some _ =>
      do error_reset in
      do set_err (Some (mkError errcode None)) in
      let* ok := call EAlloc in
      if negb ok then ret (-1)
      else match errmsg with
           | None => do set_err (Some (mkError errcode (Some text))) in ret 0
           | Some em =>
               let* ok' := call EAlloc in
               if negb ok' then ret (-1)
               else if errmsg_has_colon text em then
                 do set_err (Some (mkError errcode (Some (format_errmsg text em)))) in ret 0
               else halt (Undefined "str_lower(NULL)")
           end
  end.

Definition error_set (text : string) : M Z :=
  let* n := get_errno in
  let* em := call (EStrerror n) in
  error_vset n (Some em) text.

Definition error_setx (text : string) : M Z := error_vset (-1) None text.

(** ** [xfuncs.h] *)

Definition xclose (fd : Z) : M unit :=
  if fd <? 0 then ret tt
  else let* r := call (EClose fd) in do trap r in ret tt.

Definition close (fd : Z) : M unit := let* r := call (EClose fd) in do trap r in ret tt.

Definition xopen (path : string) (flags : Z) : M (option Z) :=
  let* r := call (EOpen path flags) in
  let* rv := trap r in
  match rv with
  | Some fd => ret (Some (Z.of_N fd))
  | None => do error_set ("open failed: " +:+ path) in ret None
  end.

(** An allocation that can fail. *)
Definition xalloc : M (option unit) :=
  let* ok := call EAlloc in
  if ok then ret (Some tt)
  else do set_errno ENOMEM in do error_set "memory allocation failed" in ret None.

Definition xcalloc : M (option unit) := xalloc.

Definition xstrdup (s : string) : M (option string) :=
  let? _ := xalloc else ret None in ret (Some s).

(** [xasprintf]: [text] is what the format and its arguments give. *)
Definition xasprintf (text : string) : M (option string) :=
  let* ok := call EAlloc in
  if ok then ret (Some text)
  else do error_set "memory allocation failed" in ret None.

(** [xsnprintf(err, str, size, fmt, ...)]. *)
Definition xsnprintf (size : Z) (text : string) : M (option string) :=
  if size <=? strlen text then do error_setx "string formatting failed" in ret None
  else ret (Some text).

Definition xstat (path : string) : M (option statbuf) :=
  let* r := call (EStat path) in
  let* rv := trap r in
  match rv with
  | Some b => ret (Some b)
  | None => do error_set ("stat failed: " +:+ path) in ret None
  end.

Definition xlstat (path : string) : M (option statbuf) :=
  let* r := call (ELstat path) in
  let* rv := trap r in
  match rv with
  | Some b => ret (Some b)
  | None => do error_set ("stat failed: " +:+ path) in ret None
  end.

Definition xfopen (path mode : string) : M (option stream) :=
  let* r := call (EFopen path mode) in
  let* rv := trap r in
  match rv with
  | Some f => ret (Some f)
  | None => do error_set ("open failed: " +:+ path) in ret None
  end.

Definition xmount (source : option string) (target : string) (fstype : option string)
    (flags : Z) (data : option string) : M (option unit) :=
  let* r := call (EMount source target fstype flags data) in
  let* rv := trap r in
  match rv with
  | Some _ => ret (Some tt)
  | None =>
      let what := match source with
                  | Some s => if Ascii.eqb (first_char s) "/" then s else target
                  | None => target
                  end in
      do error_set ("mount operation failed: " +:+ what) in ret None
  end.

Definition GLOB_NOMATCH : Z := 3.

(** [xglob]: the matches, none when nothing matches or a directory is missing.
    [glob] returns its own code, with [errno] as the environment left it. *)
Definition xglob (pattern : string) : M (option (list string)) :=
  let* r := call (EGlob pattern) in
  match r with
  | SOk paths => ret (Some paths)
  | SErr rv =>
      let* n := get_errno in
      if negb (rv =? GLOB_NOMATCH) && negb (n =? ENOENT) then
        do error_set ("glob search failed: " +:+ pattern) in ret None
      else ret (Some [])
  end.

(** ** Facts about errors *)

Lemma ensures_own_error {A} P H (m : M A) R : ensures P H m R -> ensures P H (own_error m) R.
Proof.
  intros Hm. unfold own_error. eapply ensures_bind with (R := fun r => R (fst r)); [by eapply ensures_with_err|].
  intros r Hr. by apply ensures_ret.
Qed.

Lemma strcspn_le (s r : string) : (strcspn s r <= String.length s)%nat.
Proof. induction s as [|c s IH]; simpl; [lia|]. destruct (str_mem c r); lia. Qed.

Lemma strcspn_app (a b r : string) :
  strcspn a r = String.length a -> strcspn (a +:+ b) r = (String.length a + strcspn b r)%nat.
Proof.
  induction a as [|c a IH]; simpl; [done|]. destruct (str_mem c r); [done|]. intros [= Ha].
  by rewrite IH.
Qed.

Lemma strcspn_none (s : string) (c : ascii) :
  str_mem c s = false -> strcspn s (String c EmptyString) = String.length s.
Proof.
  induction s as [|c' s IH]; simpl; [done|]. intros [Hc Hs]%orb_false_elim.
  rewrite Ascii.eqb_sym, Hc. simpl. by rewrite IH.
Qed.

(** Cutting at a newline keeps a prefix that has none. *)
Lemma cut_keeps_prefix (p r : string) (c : ascii) :
  str_mem "010" p = false -> str_mem c p = true ->
  str_mem c (str_take (strcspn (p +:+ r) (String "010" EmptyString)) (p +:+ r)) = true.
Proof.
  intros Hp Hc. rewrite strcspn_app by by apply strcspn_none.
  generalize (strcspn r (String "010" EmptyString)). intros n. clear Hp.
  induction p as [|c' p IH]; simpl in *; [done|].
  apply orb_true_iff in Hc as [->|Hc]; [done|]. rewrite IH by done. by rewrite orb_true_r.
Qed.

(** A text after which the formatting never dereferences [NULL]. *)
Class ErrText (text : string) := err_text_ok em : errmsg_has_colon text em = true.

Lemma err_text_prefix (p r : string) :
  str_mem "010" p = false -> str_mem ":" p = true -> ErrText (p +:+ r).
Proof.
  intros Hp Hc em. unfold errmsg_has_colon. rewrite string_app_assoc.
  by apply cut_keeps_prefix.
Qed.

Lemma err_text_plain (text : string) : str_mem "010" text = false -> ErrText text.
Proof.
  intros Ht em. unfold errmsg_has_colon.
  change (text +:+ ": " +:+ em) with (text +:+ (String ":" (String " " em))).
  replace (text +:+ String ":" (String " " em))
    with ((text +:+ ":") +:+ String " " em) by by rewrite string_app_assoc.
  apply cut_keeps_prefix; rewrite str_mem_app; [by rewrite Ht|by rewrite orb_true_r].
Qed.

#[export] Hint Extern 1 (ErrText (_ +:+ _)) =>
  (apply err_text_prefix; reflexivity) : typeclass_instances ens.
#[export] Hint Extern 2 (ErrText _) =>
  (apply err_text_plain; reflexivity) : typeclass_instances ens.

Section EnsuresErrors.
(** Error reporting only allocates memory and asks for error texts. *)
Let P := only [KLib].

Lemma error_reset_ens : ensures P no_stop error_reset any.
Proof. unfold error_reset. ens. Qed.

Lemma error_vset_ens (n : Z) (em : option string) (text : string) :
  ErrText text -> ensures P no_stop (error_vset n em text) any.
Proof.
  intros Ht. pose proof error_reset_ens. unfold error_vset.
  repeat ens_step; try exact I.
  match goal with E : errmsg_has_colon _ _ = false |- _ => by rewrite (Ht _) in E end.
Qed.

Lemma error_vset_plain_ens (n : Z) (text : string) :
  ensures P no_stop (error_vset n None text) any.
Proof. pose proof error_reset_ens. unfold error_vset. ens. Qed.

Lemma error_set_ens (text : string) : ErrText text -> ensures P no_stop (error_set text) any.
Proof. intros Ht. pose proof error_vset_ens. unfold error_set. ens. Qed.

Lemma error_setx_ens (text : string) : ensures P no_stop (error_setx text) any.
Proof. apply error_vset_plain_ens. Qed.
End EnsuresErrors.
#[export] Hint Resolve error_reset_ens error_set_ens error_setx_ens : ens.

(** The wrappers report a failure and return. *)
Lemma xclose_ens fd : ensures (only [KRead]) no_stop (xclose fd) any.
Proof. unfold xclose. ens. Qed.
Lemma close_ens fd : ensures (only [KRead]) no_stop (close fd) any.
Proof. unfold close. ens. Qed.
Lemma xopen_ens path flags : ensures (only [KLib; KRead]) no_stop (xopen path flags) any.
Proof. unfold xopen. ens. Qed.
Lemma xalloc_ens : ensures (only [KLib]) no_stop xalloc any.
Proof. unfold xalloc. ens. Qed.
#[export] Hint Resolve xclose_ens close_ens xopen_ens xalloc_ens : ens.
Lemma xcalloc_ens : ensures (only [KLib]) no_stop xcalloc any.
Proof. apply xalloc_ens. Qed.
Lemma xstrdup_ens (s : string) :
  ensures (only [KLib]) no_stop (xstrdup s) (fun o => match o with Some s' => s' = s | None => True end).
Proof. unfold xstrdup. ens. Qed.
Lemma xasprintf_ens (s : string) :
  ensures (only [KLib]) no_stop (xasprintf s) (fun o => match o with Some s' => s' = s | None => True end).
Proof. unfold xasprintf. ens. Qed.
Lemma xsnprintf_ens (n : Z) (s : string) :
  ensures (only [KLib]) no_stop (xsnprintf n s)
    (fun o => match o with Some s' => s' = s /\ strlen s < n | None => True end).
Proof. unfold xsnprintf. ens. bool_hyps. by split. Qed.
Lemma xstat_ens path : ensures (only [KLib; KRead]) no_stop (xstat path) any.
Proof. unfold xstat. ens. Qed.
Lemma xlstat_ens path : ensures (only [KLib; KRead]) no_stop (xlstat path) any.
Proof. unfold xlstat. ens. Qed.
Lemma xfopen_ens path mode : ensures (only [KLib; KRead]) no_stop (xfopen path mode) any.
Proof. unfold xfopen. ens. Qed.
Lemma xglob_ens pattern : ensures (only [KLib; KRead]) no_stop (xglob pattern) any.
Proof. unfold xglob. ens. Qed.
Lemma xmount_ens a b c d e : ensures (only [KLib; KMount]) no_stop (xmount a b c d e) any.
Proof. unfold xmount. ens. Qed.
#[export] Hint Resolve xcalloc_ens xstrdup_ens xasprintf_ens xsnprintf_ens xstat_ens xlstat_ens
  xfopen_ens xglob_ens xmount_ens : ens.

(** ** Running out of memory *)

(** Some allocation failed. *)
Definition oom_step (g : bool) (ev : event) : bool :=
  match ev with Event EAlloc false => true | _ => g end.

Lemma oom_stable {A} (m : M A) : ghost oom_step m true (fun _ g' => g' = true).
Proof. apply (ghost_stable _ (fun g => g = true)); [|done]. by intros g [[] []] ->. Qed.

Lemma xalloc_oom g :
  ghost oom_step xalloc g (fun r g' => match r with Some _ => g' = g | None => g' = true end).
Proof.
  unfold xalloc. gstep. destruct r; simpl; [by gstep|].
  eapply ghost_post; [eapply (ghost_ensures_and _ (only [KLib]) no_stop _ (fun r => r = None));
    [apply oom_stable|ens]|]. by intros ? ? [? ->].
Qed.

Lemma xstrdup_oom (x : string) g :
  ghost oom_step (xstrdup x) g (fun r g' => match r with Some y => y = x /\ g' = g | None => g' = true end).
Proof.
  unfold xstrdup. eapply ghost_bind; [apply xalloc_oom|].
  intros [[]|] ? ->; by apply ghost_ret.
Qed.
