(* ===== verification/Options.v ===== *)
(** * Option strings: [src/src/options.c] and the tables of [options.h] *)
From S2P Require Import Prelude CString Effects Logic Errors.

(** ** Tables *)

(** [struct option] *)
Record option_entry := mkOpt { opt_name : string; opt_value : Z }.

Definition NVC_ARG_MAX : Z := 256.

Definition OPT_LOAD_KMODS : Z := Z.shiftl 1 0.
Definition library_opts : list option_entry := [mkOpt "load-kmods" OPT_LOAD_KMODS].
Definition default_library_opts : string := "".

Definition OPT_NO_GLVND : Z := Z.shiftl 1 0.
Definition OPT_NO_UVM : Z := Z.shiftl 1 1.
Definition OPT_NO_MODESET : Z := Z.shiftl 1 2.
Definition OPT_NO_MPS : Z := Z.shiftl 1 3.
Definition OPT_NO_PERSISTENCED : Z := Z.shiftl 1 4.
Definition OPT_NO_FABRICMANAGER : Z := Z.shiftl 1 5.
Definition driver_opts : list option_entry :=
  [mkOpt "no-glvnd" OPT_NO_GLVND; mkOpt "no-uvm" OPT_NO_UVM; mkOpt "no-modeset" OPT_NO_MODESET;
   mkOpt "no-mps" OPT_NO_MPS; mkOpt "no-persistenced" OPT_NO_PERSISTENCED;
   mkOpt "no-fabricmanager" OPT_NO_FABRICMANAGER].
Definition default_driver_opts : string := "".

Definition OPT_SUPERVISED : Z := Z.shiftl 1 0.
Definition OPT_STANDALONE : Z := Z.shiftl 1 1.
Definition OPT_NO_CGROUPS : Z := Z.shiftl 1 2.
Definition OPT_NO_DEVBIND : Z := Z.shiftl 1 3.
Definition OPT_NO_CNTLIBS : Z := Z.shiftl 1 4.
Definition OPT_UTILITY_LIBS : Z := Z.shiftl 1 5.
Definition OPT_COMPUTE_LIBS : Z := Z.shiftl 1 6.
Definition OPT_NGX_LIBS : Z := Z.shiftl 1 7.
Definition OPT_VIDEO_LIBS : Z := Z.shiftl 1 8.
Definition OPT_GRAPHICS_LIBS : Z := Z.shiftl 1 9.
Definition OPT_DISPLAY : Z := Z.shiftl 1 10.
Definition OPT_UTILITY_BINS : Z := Z.shiftl 1 11.
Definition OPT_COMPUTE_BINS : Z := Z.shiftl 1 12.
Definition OPT_COMPAT32 : Z := Z.shiftl 1 13.
Definition container_opts : list option_entry :=
  [mkOpt "supervised" OPT_SUPERVISED;
   mkOpt "standalone" OPT_STANDALONE;
   mkOpt "no-cgroups" OPT_NO_CGROUPS;
   mkOpt "no-devbind" OPT_NO_DEVBIND;
   mkOpt "no-cntlibs" OPT_NO_CNTLIBS;
   mkOpt "utility" (Z.lor OPT_UTILITY_BINS OPT_UTILITY_LIBS);
   mkOpt "compute" (Z.lor OPT_COMPUTE_BINS OPT_COMPUTE_LIBS);
   mkOpt "video" (Z.lor OPT_VIDEO_LIBS OPT_COMPUTE_LIBS);
   mkOpt "graphics" OPT_GRAPHICS_LIBS;
   mkOpt "display" (Z.lor OPT_DISPLAY OPT_GRAPHICS_LIBS);
   mkOpt "ngx" OPT_NGX_LIBS;
   mkOpt "compat32" OPT_COMPAT32].
Definition default_container_opts : string := "standalone no-cgroups no-devbind utility".

(** [flags & OPT] as a condition. *)
Definition has_flag (flags opt : Z) : bool := negb (Z.land flags opt =? 0).

(** ** The parser *)

(** The inner [for] loop: the value of the first entry with that name. *)
Fixpoint find_option (opt : string) (opts : list option_entry) : option Z :=
  match opts with
  | [] => None
  | o :: opts' => if str_equal opt (opt_name o) then Some (opt_value o) else find_option opt opts'
  end.

(** The [strsep] loop, over the tokens it visits. *)
Fixpoint parse_options (toks : list string) (opts : list option_entry) (flags : Z) : M (option Z) :=
  match toks with
  | [] => ret (Some flags)
  | opt :: toks' =>
      if Ascii.eqb (first_char opt) NUL then parse_options toks' opts flags
      else match find_option opt opts with
           | Some v => parse_options toks' opts (Z.lor flags v)
           | None => do error_setx ("invalid option: " +:+ opt) in ret None
           end
  end.

(** [options_parse]: the flags, or [None] for the [-1] of an error. *)
Definition options_parse (str : string) (opts : list option_entry) : M (option Z) :=
  if NVC_ARG_MAX <=? strlen str then
    do error_setx "too many options" in ret None
  else parse_options (tokens " " str) opts 0.

(** ** What it computes *)

(** The option words of a string, and the union of their values. *)
Definition opt_words (str : string) : list string :=
  filter (fun w => Ascii.eqb (first_char w) NUL = false) (tokens " " str).

Definition opts_union (opts : list option_entry) (ws : list string) : Z :=
  fold_left (fun f w => Z.lor f (default 0 (find_option w opts))) ws 0.

(** Every word is in the table and the string fits the buffer. *)
Definition opts_valid (str : string) (opts : list option_entry) : bool :=
  (strlen str <? NVC_ARG_MAX) &&
  forallb (fun w => match find_option w opts with Some _ => true | None => false end) (opt_words str).

Lemma parse_options_ok (toks : list string) opts f s :
  forallb (fun w => match find_option w opts with Some _ => true | None => false end)
    (filter (fun w => Ascii.eqb (first_char w) NUL = false) toks) = true ->
  parse_options toks opts f s =
    Ret (s, Some (fold_left (fun f w => Z.lor f (default 0 (find_option w opts)))
      (filter (fun w => Ascii.eqb (first_char w) NUL = false) toks) f)).
Proof.
  revert f. induction toks as [|w toks IH]; intros f; simpl; [done|].
  rewrite filter_cons. destruct (Ascii.eqb (first_char w) NUL) eqn:E.
  - rewrite decide_False by congruence. apply IH.
  - rewrite decide_True by done. simpl. destruct (find_option w opts) as [v|]; [|done]. apply IH.
Qed.

Lemma parse_options_bad (toks : list string) opts f :
  forallb (fun w => match find_option w opts with Some _ => true | None => false end)
    (filter (fun w => Ascii.eqb (first_char w) NUL = false) toks) = false ->
  ensures (only [KLib]) no_stop (parse_options toks opts f) (fun r => r = None).
Proof.
  revert f. induction toks as [|w toks IH]; intros f; simpl; [done|].
  rewrite filter_cons. destruct (Ascii.eqb (first_char w) NUL) eqn:E.
  - rewrite decide_False by congruence. apply IH.
  - rewrite decide_True by done. simpl. destruct (find_option w opts) as [v|]; [apply IH|].
    intros _. ens.
Qed.

Lemma options_parse_eq (str : string) opts s :
  opts_valid str opts = true ->
  options_parse str opts s = Ret (s, Some (opts_union opts (opt_words str))).
Proof.
  unfold opts_valid, options_parse. intros [Hlen Hall]%andb_prop. bool_hyps.
  rewrite (proj2 (Z.leb_gt _ _)) by lia. by apply parse_options_ok.
Qed.

Lemma options_parse_ens (str : string) opts :
  ensures (only [KLib]) no_stop (options_parse str opts)
    (fun r => r = if opts_valid str opts then Some (opts_union opts (opt_words str)) else None).
Proof.
  destruct (opts_valid str opts) eqn:E.
  - intros s. rewrite options_parse_eq by done. simpl. by split.
  - unfold opts_valid, options_parse in *. destruct (NVC_ARG_MAX <=? strlen str) eqn:El.
    + ens.
    + bool_hyps. destruct E as [E|E]; bool_hyps; [lia|]. by apply parse_options_bad.
Qed.
#[export] Hint Resolve options_parse_ens : ens.

Lemma opts_union_testbit opts ws f i :
  Z.testbit (fold_left (fun f w => Z.lor f (default 0 (find_option w opts))) ws f) i =
  Z.testbit f i || existsb (fun w => Z.testbit (default 0 (find_option w opts)) i) ws.
Proof.
  revert f. induction ws as [|w ws IH]; intros f; simpl; [by rewrite orb_false_r|].
  by rewrite IH, Z.lor_spec, orb_assoc.
Qed.

Lemma find_option_bound opts w v m :
  Forall (fun o => 0 <= opt_value o < 2 ^ m) opts -> find_option w opts = Some v -> 0 <= v < 2 ^ m.
Proof.
  induction 1 as [|o opts Ho _ IH]; simpl; [done|].
  destruct (str_equal w (opt_name o)); [intros; by simplify_eq|done].
Qed.

Lemma lor_bound a b m : 0 <= m -> 0 <= a < 2 ^ m -> 0 <= b < 2 ^ m -> 0 <= Z.lor a b < 2 ^ m.
Proof.
  intros Hm Ha Hb. assert (0 <= Z.lor a b) by (apply Z.lor_nonneg; lia).
  split; [done|]. destruct (Z.eq_dec (Z.lor a b) 0) as [->|Hne]; [lia|].
  apply Z.log2_lt_pow2; [lia|]. rewrite Z.log2_lor by lia.
  assert (forall z, 0 <= z < 2 ^ m -> Z.log2 z < m \/ z = 0) as Hz.
  { intros z Hz. destruct (Z.eq_dec z 0); [by right|left]. apply Z.log2_lt_pow2; lia. }
  destruct (Z.eq_dec m 0) as [->|].
  { simpl in *. assert (a = 0) by lia. assert (b = 0) by lia. subst. done. }
  destruct (Hz a Ha) as [?| ->], (Hz b Hb) as [?| ->]; simpl; lia.
Qed.

Lemma opts_union_bound opts ws m :
  0 <= m -> Forall (fun o => 0 <= opt_value o < 2 ^ m) opts -> 0 <= opts_union opts ws < 2 ^ m.
Proof.
  intros Hm Ho. unfold opts_union. apply fold_left_preserves; [|lia].
  intros f w _ Hf. apply lor_bound; [done..|].
  destruct (find_option w opts) as [v|] eqn:E; simpl; [by eapply find_option_bound|lia].
Qed.

(** ** Properties *)

(** [options_parse] accepts exactly the strings that fit its buffer and whose
    words are all known options; the flags it returns then have exactly the bits
    of the options named.  It always returns. *)
Lemma options_parse_spec (o : env) (s : st) (str : string) (opts : list option_entry) :
  match exec o (options_parse str opts) s with
  | (_, Done (_, Some flags)) =>
      opts_valid str opts = true /\
      forall i, Z.testbit flags i = true <->
        exists w v, w ∈ opt_words str /\ find_option w opts = Some v /\ Z.testbit v i = true
  | (_, Done (_, None)) => opts_valid str opts = false
  | (_, Halted _) => False
  end.
Proof.
  pose proof (wp_run _ _ o [] (options_parse_ens str opts s)) as H. unfold exec.
  destruct (run o [] (options_parse str opts s)) as [t [[s' [f|]]|w]]; simpl in H;
    destruct H as [_ H]; [| |done]; destruct (opts_valid str opts) eqn:E; try done.
  split; [done|]. intros i. simplify_eq. unfold opts_union.
  rewrite opts_union_testbit, Z.bits_0, orb_false_l, existsb_exists.
  unfold opts_valid in E. apply andb_prop in E as [_ E]. rewrite forallb_forall in E.
  split.
  - intros (w & Hw & Hb). specialize (E w Hw). destruct (find_option w opts) as [v|] eqn:Ev; [|done].
    exists w, v. split; [by apply list_elem_of_In|done].
  - intros (w & v & Hw & Hv & Hb). exists w. rewrite Hv. split; [by apply list_elem_of_In|done].
Qed.

(** The flags of a container are a non-negative [int32_t]: no combination of
    options is mistaken for the error value [-1]. *)
Theorem container_flags_nonneg (o : env) (s s' : st) (str : string) (flags : Z) (t : trace) :
  exec o (options_parse str container_opts) s = (t, Done (s', Some flags)) ->
  0 <= flags < 2 ^ 14 /\ to_int32 flags = flags.
Proof.
  intros H. pose proof (wp_run _ _ o [] (options_parse_ens str container_opts s)) as Hw.
  unfold exec in H. rewrite H in Hw. destruct Hw as [_ Hw]. simpl in Hw.
  destruct (opts_valid str container_opts); [|done]. simplify_eq.
  assert (0 <= opts_union container_opts (opt_words str) < 2 ^ 14).
  { apply opts_union_bound; [lia|]. repeat constructor; by vm_compute. }
  split; [done|]. apply sint_wrap_id; lia.
Qed.

Lemma container_flags_nonneg_witness :
  exists t s flags,
    exec (fun _ e => friendly e) (options_parse "supervised utility" container_opts) init_st
      = (t, Done (s, Some flags)) /\ has_flag flags OPT_SUPERVISED = true /\ to_int32 flags = flags.
Proof.
  destruct (exec (fun _ e => friendly e) (options_parse "supervised utility" container_opts) init_st)
    as [t out] eqn:E.
  assert (out = snd (exec (fun _ e => friendly e) (options_parse "supervised utility" container_opts) init_st))
    as E2 by by rewrite E.
  vm_compute in E2. subst out. eexists t, _, _. split; [reflexivity|]. split; [reflexivity|].
  apply (container_flags_nonneg _ _ _ _ _ _ E).
Defined.
