(* ===== verification/Utils.v ===== *)
(** * Strings, numbers, arrays and namespaces: the rest of [src/src/utils.c]
    that does not touch files *)
From S2P Require Import Prelude CString Effects Logic Errors.

(** ** Strings *)

(** [str_join(err, &s1, s2, sep)]: the new value of [s1].  The buffer has
    [size] bytes, and what is written must fit it. *)
Definition str_join (s1 : option string) (s2 sep : string) : M (option string) :=
  let size :=
    1 + match s1 with
        | Some s => if Ascii.eqb (first_char s) NUL then 0 else strlen s + strlen sep
        | None => 0
        end + strlen s2 in
  let* ok := call EAlloc in
  if negb ok then do set_errno ENOMEM in do error_set "memory allocation failed" in ret None
  else
    let buf := default EmptyString s1 in
    let buf' := if Ascii.eqb (first_char buf) NUL then buf +:+ s2 else buf +:+ sep +:+ s2 in
    if size <? strlen buf' + 1 then halt (Undefined "heap overflow")
    else ret (Some buf').

(** [str_to_pid]; a [pid_t] is a 32-bit signed integer. *)
Definition str_to_pid (str : string) : M (option Z) :=
  let fail := do error_set "parse pid failed" in ret None in
  let '(n, ptr) := strtoimax str in
  if (ptr =? str)%string || negb (Ascii.eqb (first_char ptr) NUL) then
    do set_errno EINVAL in fail
  else if (n =? INTMAX_MIN) || (n =? INTMAX_MAX) || negb (n =? to_int32 n) then
    do set_errno ERANGE in fail
  else ret (Some (to_int32 n)).

(** [str_to_ugid]; [uid_t] and [gid_t] are 32-bit unsigned integers. *)
Definition str_to_ugid (str : string) : M (option (Z * Z)) :=
  let fail := do error_set "parse user/group failed" in ret None in
  let group (passwd : option (Z * Z)) (uid : Z) (str : option string) : M (option (Z * Z)) :=
    if match str with None => true | Some s => Ascii.eqb (first_char s) NUL end then
      (* No group specified, infer it from the UID *)
      let* pw := match passwd with Some pw => ret (Some pw) | None => call (EGetpwuid uid) end in
      match pw with
      | None => do set_errno ENOENT in fail
      | Some (_, gid) => ret (Some (uid, gid))
      end
    else
      let str := default EmptyString str in
      let '(n, ptr) := strtoumax str in
      if negb (ptr =? str)%string then
        if negb (Ascii.eqb (first_char ptr) NUL) then do set_errno EINVAL in fail
        else if (n =? UINTMAX_MAX) || negb (n =? to_uint32 n) then do set_errno ERANGE in fail
        else ret (Some (uid, to_uint32 n))
      else
        let* g := call (EGetgrnam str) in
        match g with
        | None => do set_errno ENOENT in fail
        | Some gid => ret (Some (uid, gid))
        end in
  let '(n, ptr) := strtoumax str in
  if negb (ptr =? str)%string then
    if negb (Ascii.eqb (first_char ptr) NUL) && negb (Ascii.eqb (first_char ptr) ":") then
      do set_errno EINVAL in fail
    else if (n =? UINTMAX_MAX) || negb (n =? to_uint32 n) then do set_errno ERANGE in fail
    else
      let ptr := if Ascii.eqb (first_char ptr) ":" then str_drop 1 ptr else ptr in
      group None (to_uint32 n) (Some ptr)
  else
    (* Not a numeric UID, check for a username. *)
    let '(name, ptr) := split_at ":" str in
    let* pw := call (EGetpwnam name) in
    match pw with
    | None => do set_errno ENOENT in fail
    | Some pw => group (Some pw) (fst pw) ptr
    end.

(** ** Namespaces *)

Definition CLONE_NEWNS : Z := 131072.
Definition O_RDONLY : Z := 0.
Definition O_WRONLY : Z := 1.
Definition O_RDWR : Z := 2.
Definition O_CREAT : Z := 64.
Definition O_TRUNC : Z := 512.
Definition O_DIRECTORY : Z := 65536.
Definition O_NOFOLLOW : Z := 131072.
Definition O_CLOEXEC : Z := 524288.
Definition O_PATH : Z := 2097152.

Definition ns_enter_at (fd nstype : Z) : M (option unit) :=
  let* r := call (ESetns fd nstype) in
  let* rv := trap r in
  match rv with
  | Some _ => ret (Some tt)
  | None => do error_set "namespace association failed" in ret None
  end.

Definition ns_enter (path : string) (nstype : Z) : M (option unit) :=
  let? fd := xopen path O_RDONLY else ret None in
  let* r := call (ESetns fd nstype) in
  let* rv := trap r in
  match rv with
  | Some _ => do close fd in ret (Some tt)
  | None =>
      do error_set ("namespace association failed: " +:+ path) in
      do close fd in ret None
  end.

(** ** Arrays of strings

    An array of [char *] is a list of optional strings; its size is kept beside
    it, as in the code. *)

Definition array_new (size : Z) : M (option (list (option string))) :=
  let? _ := xcalloc else ret None in ret (Some (replicate (Z.to_nat size) None)).

(** [array_append(ptr, arr, size)] from index [at_] of [dst]; the memory the
    caller gives must be large enough. *)
Definition array_append {A} (dst : list (option A)) (at_ : nat) (arr : list A)
  : M (list (option A) * nat) :=
  if (length dst <? at_ + length arr)%nat then halt (Undefined "array_append: overflow")
  else ret (take at_ dst ++ map Some arr ++ drop (at_ + length arr) dst, (at_ + length arr)%nat).

Definition array_copy (arr : list string) : M (option (list (option string))) :=
  let? dst := array_new (Z.of_nat (length arr)) else ret None in
  let* r := array_append dst 0 arr in
  ret (Some (fst r)).

(** The loop of [array_pack]: [w] is the slot [arr] points to, [p] the index of
    [ptr], [n] how many steps are left. *)
Fixpoint pack_loop {A} (n w p : nat) (arr : list (option A)) : list (option A) * nat :=
  match n with
  | O => (arr, w)
  | S n' =>
      match arr !! p with
      | Some (Some x) =>
          let tmp := default None (arr !! w) in
          pack_loop n' (S w) (S p) (<[p := tmp]> (<[w := Some x]> arr))
      | _ => pack_loop n' w (S p) arr
      end
  end.

(** [array_pack(arr, &size)]. *)
Definition array_pack {A} (arr : list (option A)) (size : nat) : list (option A) * nat :=
  pack_loop size 0 0 arr.

(** [array_size]: the entries before the terminating [NULL]. *)
Fixpoint array_size {A} (arr : list (option A)) : nat :=
  match arr with
  | Some _ :: arr' => S (array_size arr')
  | _ => O
  end.

(** ** Lemmas *)

Lemma str_join_ens (s1 : option string) (s2 sep : string) :
  match s1 with Some s => c_string s | None => True end ->
  ensures (only [KLib]) no_stop (str_join s1 s2 sep)
    (fun r => match r with
              | None => True
              | Some s => s = match s1 with
                              | Some (String _ _ as s0) => s0 +:+ sep +:+ s2
                              | _ => s2
                              end
              end).
Proof.
  intros Hs. unfold str_join. pose proof (strlen_nonneg s2).
  destruct s1 as [[|c s0]|]; cbn [from_option id first_char String.append];
    try rewrite Ascii.eqb_refl; cbv beta zeta.
  - ens. bool_hyps. lia.
  - replace (Ascii.eqb c NUL) with false; [|unfold c_string in Hs; cbn in Hs;
      apply orb_false_elim in Hs as [E _]; by rewrite Ascii.eqb_sym, E].
    ens. bool_hyps. rewrite !strlen_cons, !strlen_app in *. lia.
  - ens. bool_hyps. lia.
Qed.

Lemma str_to_pid_ens (str : string) :
  ensures (only [KLib]) no_stop (str_to_pid str)
    (fun r => match r with Some p => - 2 ^ 31 <= p < 2 ^ 31 | None => True end).
Proof.
  unfold str_to_pid. destruct (strtoimax str) as [n ptr]. ens.
  apply (sint_wrap_range 32). lia.
Qed.

Lemma ns_enter_at_ens fd n : ensures (only [KLib; KNs]) no_stop (ns_enter_at fd n) any.
Proof. unfold ns_enter_at. ens. Qed.
Lemma ns_enter_ens path n : ensures (only [KLib; KRead; KNs]) no_stop (ns_enter path n) any.
Proof. unfold ns_enter. ens. Qed.
Lemma array_new_ens n :
  ensures (only [KLib]) no_stop (array_new n)
    (fun r => match r with Some l => l = replicate (Z.to_nat n) None | None => True end).
Proof. unfold array_new. ens. Qed.
#[export] Hint Resolve str_to_pid_ens ns_enter_at_ens ns_enter_ens array_new_ens : ens.

(** *** [array_pack] is a stable partition *)

Definition present {A} (l : list (option A)) : list A := omap id l.

Lemma present_app {A} (l k : list (option A)) : present (l ++ k) = present l ++ present k.
Proof. unfold present. apply omap_app. Qed.

Lemma replicate_cons_app {A} (n : nat) (x : A) (l : list A) :
  replicate n x ++ x :: l = replicate (S n) x ++ l.
Proof. induction n as [|n IH]; simpl; [done|]. by rewrite IH. Qed.

(** The invariant of the loop: packed entries, then empty slots, then the part
    still to read. *)
Lemma pack_loop_spec {A} (done_ : list A) (nulls : nat) (todo : list (option A)) (tail : list (option A)) :
  exists k,
  pack_loop (length todo) (length done_) (length done_ + nulls)
    (map Some done_ ++ replicate nulls None ++ todo ++ tail) =
  (map Some (done_ ++ present todo) ++ replicate k None ++ tail,
   length (done_ ++ present todo)).
Proof.
  revert done_ nulls. induction todo as [|x todo IH]; intros done_ nulls; simpl.
  - exists nulls. by rewrite app_nil_r.
  - rewrite lookup_app_r by (rewrite length_map; lia). rewrite length_map.
    rewrite lookup_app_r by (rewrite length_replicate; lia). rewrite length_replicate.
    replace (length done_ + nulls - length done_ - nulls)%nat with O by lia. simpl.
    destruct x as [x|].
    + destruct nulls as [|nulls].
      * simpl. rewrite Nat.add_0_r.
        rewrite lookup_app_r by (rewrite length_map; lia). rewrite length_map, Nat.sub_diag. simpl.
        rewrite !insert_app_r_alt by (rewrite length_map; lia). rewrite length_map, Nat.sub_diag. simpl.
        destruct (IH (done_ ++ [x]) O) as [k Hk]. exists k.
        rewrite length_app, map_app in Hk. simpl in Hk. rewrite Nat.add_0_r, Nat.add_1_r in Hk.
        rewrite <- !app_assoc in Hk. simpl in Hk. exact Hk.
      * simpl. rewrite lookup_app_r by (rewrite length_map; lia).
        rewrite length_map, Nat.sub_diag. simpl.
        rewrite (insert_app_r_alt (map Some done_)) by (rewrite length_map; lia).
        rewrite length_map, Nat.sub_diag. simpl.
        rewrite (insert_app_r_alt (map Some done_)) by (rewrite length_map; lia). rewrite length_map.
        replace (length done_ + S nulls - length done_)%nat with (S nulls) by lia. simpl.
        rewrite (insert_app_r_alt (replicate _ _)) by (rewrite length_replicate; lia).
        rewrite length_replicate, Nat.sub_diag. simpl.
        destruct (IH (done_ ++ [x]) (S nulls)) as [k Hk]. exists k.
        rewrite length_app, map_app in Hk. simpl in Hk.
        replace (length done_ + 1 + S nulls)%nat with (S (length done_ + S nulls)) in Hk by lia.
        rewrite Nat.add_1_r in Hk. rewrite <- !app_assoc in Hk. simpl in Hk.
        by rewrite replicate_cons_app.
    + destruct (IH done_ (S nulls)) as [k Hk]. exists k.
      replace (length done_ + S nulls)%nat with (S (length done_ + nulls)) in Hk by lia.
      by rewrite replicate_cons_app.
Qed.

Lemma array_pack_eq {A} (arr tail : list (option A)) :
  exists k, array_pack (arr ++ tail) (length arr) =
    (map Some (present arr) ++ replicate k None ++ tail, length (present arr)).
Proof. apply (pack_loop_spec [] 0 arr tail). Qed.

Lemma array_size_map_Some {A} (l : list A) (k : list (option A)) :
  array_size (map Some l ++ None :: k) = length l.
Proof. induction l as [|x l IH]; simpl; [done|by rewrite IH]. Qed.

Lemma present_map_Some {A} (l : list A) : present (map Some l) = l.
Proof.
  induction l as [|x l IH]; [done|]. change (x :: present (map Some l) = x :: l). by rewrite IH.
Qed.

(** What is left of an array after packing. *)
Lemma pack_present {A} (l : list (option A)) :
  present (take (snd (array_pack l (length l))) (fst (array_pack l (length l)))) = present l.
Proof.
  destruct (array_pack_eq l []) as [k Hk]. rewrite app_nil_r in Hk. rewrite Hk. cbn [fst snd].
  rewrite <- (length_map Some (present l)) at 1. rewrite take_app_length.
  apply present_map_Some.
Qed.

Lemma Forall_present {A} (P : A -> Prop) (l : list (option A)) :
  Forall (fun o => match o with Some a => P a | None => True end) l -> Forall P (present l).
Proof. induction 1 as [|[a|] l Ha _ IH]; simpl; [constructor|by constructor|done]. Qed.
