(* ===== verification/Types.v ===== *)
(** * The data the library exchanges with its clients

    The structures of [src/src/nvc.h] and the paths of [src/src/nvc_internal.h]
    and [src/src/common.h].  A pointer to a device is its index. *)
From stdpp Require Import pretty.
From S2P Require Import Prelude CString Effects Logic.

(** ** Device numbers *)

(** [makedev], [major] and [minor] of the C library. *)
Definition makedev (maj min : Z) : Z :=
  Z.lor (Z.lor (Z.shiftl (Z.land maj 4095) 8) (Z.land min 255))
        (Z.lor (Z.shiftl (Z.shiftr min 8) 20) (Z.shiftl (Z.shiftr maj 12) 44)).
Definition minor (dev : Z) : Z :=
  Z.lor (Z.land dev 255) (Z.shiftl (Z.land (Z.shiftr dev 20) (Z.ones 24)) 8).
Definition major (dev : Z) : Z :=
  Z.lor (Z.land (Z.shiftr dev 8) 4095) (Z.shiftl (Z.land (Z.shiftr dev 44) (Z.ones 20)) 12).

(** ** Structures *)

Record nvc_device_node := mkNode { node_path : option string; node_id : Z }.

Record nvc_driver_info := mkDriverInfo {
  nvrm_version : option string;
  cuda_version : option string;
  bins : list string;
  libs : list string;
  libs32 : list string;
  ipcs : list string;
  devs : list nvc_device_node;
  firmwares : list string
}.

(** [parent] is the index of the GPU. *)
Record nvc_mig_device := mkMig {
  parent : nat;
  mig_uuid : string;
  gi : Z;
  ci : Z;
  gi_caps_path : string;
  ci_caps_path : string
}.

Record nvc_device := mkDevice {
  model : option string;
  uuid : string;
  busid : string;
  arch : option string;
  brand : option string;
  node : nvc_device_node;
  mig_capable : bool;
  mig_caps_path : option string;
  mig_devices : list nvc_mig_device
}.

(** [struct nvc_device_info]: the GPUs; their number is the length. *)
Abbreviation nvc_device_info := (list nvc_device).

Record nvc_config := mkConfig {
  cfg_root : string; cfg_ldcache : string; cfg_uid : Z; cfg_gid : Z
}.

Record nvc_container_config := mkCntConfig {
  cc_pid : Z;
  cc_rootfs : string;
  bins_dir : option string;
  libs_dir : option string;
  libs32_dir : option string;
  dris_dir : option string;
  cudart_dir : option string;
  ldconfig : option string
}.

(** One adapter of the WSL driver, with where its files are. *)
Record dxcore_adapter := mkAdapter {
  hAdapter : Z; wddmVersion : Z; pDriverStorePath : string; components : list string
}.
Record dxcore_context := mkDxcore { dx_initialized : bool; adapterList : list dxcore_adapter }.

Record nvc_context := mkContext {
  initialized : bool;
  cfg : nvc_config;
  mnt_ns : Z;
  no_pivot : bool;
  dxcore : dxcore_context
}.

Record nvc_container := mkContainer {
  flags : Z;
  ccfg : nvc_container_config;
  cuid : Z;
  cgid : Z;
  cmnt_ns : string;
  dev_cg_version : Z;
  dev_cg : option string;
  clibs : list string
}.

(** ** Paths and limits *)

Definition NV_DEVICE_MAJOR : Z := 226.
Definition XDX_RENDER_DEVICE_MINOR : Z := 128.
Definition XDX_RENDER_DEVICE_PATH : string := "/dev/dri/renderD128".
Definition MSFT_DXG_DEVICE_PATH : string := "/dev/dxg".
Definition NV_PROC_DRIVER : string := "/proc/driver/nvidia".
Definition NV_CAPS_PROC_DRIVER : string := "/proc/driver/nvidia-caps".
Definition NV_CAPS_DEVICE_DIR : string := "/dev/nvidia-caps".
Definition NV_APP_PROFILE_DIR : string := "/etc/nvidia/nvidia-application-profiles-rc.d".
Definition NV_CAPS_MIG_MINORS_PATH : string := "/proc/driver/nvidia-caps/mig-minors".
Definition XDX_LIB_DRI_X86_DEB : string := "/usr/lib/x86_64-linux-gnu/dri".
Definition XDX_LIB_DRI_ARM_DEB : string := "/usr/lib/aarch64-linux-gnu/dri".
Definition XDX_LIB_DRI_X86_RPM : string := "/usr/lib64/dri".
Definition XDX_VIDEO_LIB_NUM : Z := 4.
Definition LD_CONFIG_DIR : string := "/etc/ld.so.conf.d".
Definition SMI_FRONT_DIR : string := "/usr/lib/python3/dist-packages/xdxsmi".
Definition NV_PROC_DRIVER_CAPS : string := "/proc/driver/nvidia/capabilities".
Definition NV_MIG_CAPS_PATH : string := "/proc/driver/nvidia/capabilities/mig".
Definition NV_MIG_ACCESS_FILE : string := "access".
Definition NV_MIG_CONFIG_FILE : string := "config".
Definition NV_MIG_MONITOR_FILE : string := "monitor".
Definition CUDA_RUNTIME_DIR : string := "/usr/local/cuda".
Definition USR_BIN_DIR : string := "/usr/bin".
Definition USR_LIB_DIR : string := "/usr/lib64".
Definition USR_LIB32_DIR : string := "/usr/lib32".
Definition USR_LIB32_ALT_DIR : string := "/usr/lib".
Definition LDCACHE_PATH : string := "/etc/ld.so.cache".
Definition LDCONFIG_PATH : string := "/sbin/ldconfig".
Definition LDCONFIG_ALT_PATH : string := "/sbin/ldconfig.real".
(** The x86-64 build. *)
Definition XDX_LIB_MULTIARCH_DIR : string := "/opt/xdxgpu/lib/x86_64-linux-gnu".
Definition USR_LIB32_MULTIARCH_DIR : string := "/usr/lib/i386-linux-gnu".

(** [%d] and [%u]. *)
Definition print_Z (z : Z) : string := pretty z.

(** A printed number has no newline. *)
Lemma pretty_N_char_plain n : str_mem "010" (String (pretty_N_char n) "") = false.
Proof. unfold pretty_N_char. destruct n as [|p]; [done|]. do 10 (try destruct p as [p|p|]); done. Qed.

Lemma pretty_N_go_plain n s : str_mem "010" s = false -> str_mem "010" (pretty_N_go n s) = false.
Proof.
  revert s. induction (N.lt_wf_0 n) as [n _ IH]. intros s Hs.
  destruct (decide (0 < n)%N) as [Hn|Hn].
  - rewrite pretty_N_go_step by done. apply IH; [apply N.div_lt; lia|].
    pose proof (pretty_N_char_plain (n `mod` 10)) as Hd. simpl in *. by apply orb_false_iff in Hd as [-> _].
  - replace n with 0%N by lia. by rewrite pretty_N_go_0.
Qed.

Lemma print_Z_plain (z : Z) : str_mem "010" (print_Z z) = false.
Proof.
  assert (forall n : N, str_mem "010" (pretty n) = false) as Hn.
  { intros n. unfold pretty, pretty_N. case_decide; [done|]. by apply pretty_N_go_plain. }
  destruct z; [done|apply (Hn (N.pos p))|apply (Hn (N.pos p))].
Qed.

Definition NV_DEVICE_PATH (minor : Z) : string := "/dev/dri/card" +:+ print_Z minor.
Definition NV_CAPS_DEVICE_PATH (minor : Z) : string := NV_CAPS_DEVICE_DIR +:+ "/nvidia-cap" +:+ print_Z minor.
Definition NV_GPU_CAPS_PATH (gpu : Z) : string := NV_PROC_DRIVER_CAPS +:+ "/gpu" +:+ print_Z gpu.
Definition NV_GPU_MIG_CAPS_PATH (gpu : Z) : string := NV_GPU_CAPS_PATH gpu +:+ "/mig".
Definition NV_GPU_INST_CAPS_PATH (gpu gi : Z) : string := NV_GPU_MIG_CAPS_PATH gpu +:+ "/gi" +:+ print_Z gi.
Definition NV_COMP_INST_CAPS_PATH (gpu gi ci : Z) : string :=
  NV_GPU_INST_CAPS_PATH gpu gi +:+ "/ci" +:+ print_Z ci.

(** What [printf] writes for a string that may be [NULL]. *)
Definition opt_str (o : option string) : string := default "(null)" o.

(** A string that is read: the functions that take paths have no check for
    [NULL]. *)
Definition null_path : stop := Undefined "path: NULL".
Definition path_arg (p : option string) : M string :=
  match p with Some p => ret p | None => halt null_path end.

(** ** Capabilities *)

Definition CAP_CHOWN : Z := 0.
Definition CAP_DAC_OVERRIDE : Z := 1.
Definition CAP_DAC_READ_SEARCH : Z := 2.
Definition CAP_FOWNER : Z := 3.
Definition CAP_KILL : Z := 5.
Definition CAP_SETGID : Z := 6.
Definition CAP_SETUID : Z := 7.
Definition CAP_SETPCAP : Z := 8.
Definition CAP_NET_ADMIN : Z := 12.
Definition CAP_SYS_MODULE : Z := 16.
Definition CAP_SYS_CHROOT : Z := 18.
Definition CAP_SYS_PTRACE : Z := 19.
Definition CAP_SYS_ADMIN : Z := 21.
Definition CAP_MKNOD : Z := 27.

(** The phases of a run, each with the capabilities it makes effective. *)
Inductive phase := NVC_INIT | NVC_INIT_KMODS | NVC_SHUTDOWN | NVC_CONTAINER | NVC_INFO | NVC_MOUNT | NVC_LDCACHE.

Definition pcaps : list Z :=
  [CAP_CHOWN; CAP_DAC_OVERRIDE; CAP_DAC_READ_SEARCH; CAP_FOWNER; CAP_KILL; CAP_MKNOD; CAP_NET_ADMIN;
   CAP_SETGID; CAP_SETPCAP; CAP_SETUID; CAP_SYS_ADMIN; CAP_SYS_CHROOT; CAP_SYS_PTRACE].

Definition ecaps (p : phase) : list Z :=
  match p with
  | NVC_INIT => [CAP_KILL; CAP_SETUID; CAP_SETGID; CAP_SYS_CHROOT]
  | NVC_INIT_KMODS => [CAP_KILL; CAP_SETUID; CAP_SETGID; CAP_SYS_CHROOT; CAP_CHOWN; CAP_FOWNER; CAP_MKNOD; CAP_SETPCAP]
  | NVC_SHUTDOWN => [CAP_KILL]
  | NVC_CONTAINER => [CAP_KILL; CAP_DAC_READ_SEARCH; CAP_SYS_PTRACE]
  | NVC_INFO => [CAP_KILL]
  | NVC_MOUNT => [CAP_KILL; CAP_NET_ADMIN; CAP_SETUID; CAP_SETGID; CAP_SYS_CHROOT; CAP_SYS_ADMIN;
                  CAP_DAC_READ_SEARCH; CAP_SYS_PTRACE; CAP_DAC_OVERRIDE]
  | NVC_LDCACHE => [CAP_KILL; CAP_SETUID; CAP_SETGID; CAP_SYS_CHROOT; CAP_SYS_ADMIN; CAP_DAC_READ_SEARCH;
                    CAP_SYS_PTRACE; CAP_SETPCAP]
  end.

Definition bcaps : list Z := [CAP_DAC_OVERRIDE; CAP_SYS_MODULE].

(** ** Lines of files *)

Fixpoint chunks (fuel n : nat) (s : string) : list string :=
  match fuel, s with
  | S fuel', String _ _ => str_take n s :: chunks fuel' n (str_drop n s)
  | _, _ => []
  end.

(** What a [while (fgets(line, size, fp))] loop reads. *)
Definition fgets_all (size : Z) (f : stream) : list string :=
  mbind (fun l => chunks (String.length l) (Z.to_nat (size - 1)) l) (s_lines f).

Fixpoint span_nonspace (s : string) : string * string :=
  match s with
  | EmptyString => (EmptyString, EmptyString)
  | String c s' => if is_space c then (EmptyString, s)
                   else let '(a, b) := span_nonspace s' in (String c a, b)
  end.

(** [sscanf(line, "gpu%u%s %u", &gpu_minor, dummy, &mig_minor) == 3] *)
Definition scan_mig_line (line : string) : option (Z * Z) :=
  if str_has_prefix line "gpu" then
    match scan_number (str_drop 3 line) with
    | None => None
    | Some (_, _, rest) =>
        match span_nonspace (skip_spaces rest) with
        | (EmptyString, _) => None
        | (_, rest') =>
            match scan_number rest' with
            | None => None
            | Some _ => Some (to_uint32 (fst (strtoumax (str_drop 3 line))),
                              to_uint32 (fst (strtoumax rest')))
            end
        end
    end
  else None.
