(* ===== verification/Paths.v ===== *)
(** * Paths and their resolution below a root

    [path_new], [path_append], [path_join], [open_next] and [do_path_resolve] of
    [src/src/utils.c].  Resolution walks the components with descriptors and
    [readlinkat]; the file system answers as it likes, and may change meanwhile. *)
From S2P Require Import Prelude CString Effects Logic Errors Utils.

(** ** Building paths *)

(** What [path_append] prints after the [len] characters of [buf]. *)
Definition append_piece (buf path : string) : string :=
  let end_ := last_char buf in
  (if negb (Ascii.eqb (first_char path) "/") && negb (Ascii.eqb end_ "/") then "/" else "") +:+
  (if Ascii.eqb (first_char path) "/" && Ascii.eqb end_ "/" then str_drop 1 path else path).

(** [path_append(err, buf, path)] where [buf] points [off] bytes after the start
    of an array of [PATH_MAX] characters: the new contents.  [snprintf] writes at
    most [cap] bytes, the terminator included. *)
Definition path_append_at (off : Z) (buf path : string) : M (option string) :=
  if str_empty (Some path) then ret (Some buf)
  else
    let len := strlen buf in
    let cap := PATH_MAX - len in
    let piece := append_piece buf path in
    let n := strlen piece in
    if PATH_MAX <? off + len + Z.min (n + 1) cap then halt (Undefined "path_append: overflow")
    else if cap <=? n then
      do set_errno ENAMETOOLONG in
      do error_set ("path error: " +:+ str_take (Z.to_nat (cap - 1)) piece +:+ "/" +:+ path) in
      ret None
    else ret (Some (buf +:+ piece)).

Definition path_append (buf path : string) : M (option string) := path_append_at 0 buf path.

Definition path_new (path : string) : M (option string) := path_append EmptyString path.

Definition path_join (p1 p2 : string) : M (option string) :=
  let? buf := path_new p1 else ret None in
  path_append buf p2.

(** ** Resolution *)

Definition MAXSYMLINKS : Z := 20.

Definition open_next (dir : Z) (path : string) : M (option Z) :=
  let flags := Z.lor O_PATH O_NOFOLLOW in
  let flags := if Ascii.eqb (first_char path) "/" then Z.lor flags O_DIRECTORY else flags in
  let* r := call (EOpenat dir path flags) in
  let* rv := trap r in
  match rv with
  | None => do error_set ("open failed: " +:+ path) in ret None
  | Some fd => do xclose dir in ret (Some (Z.of_N fd))
  end.

(** What [readlinkat(fd, file, link, PATH_MAX)] returns: the length and the
    bytes, truncated to the buffer; [-1] with [errno] on failure. *)
Definition readlink_result (r : option string) : Z * string :=
  match r with
  | None => (-1, EmptyString)
  | Some s => (Z.min (strlen s) PATH_MAX, str_take (Z.to_nat PATH_MAX) s)
  end.

(** The loop of [do_path_resolve], with the descriptor it ends with (to be
    closed) and the resolved path.  [ptr] is the part still to resolve, [NULL]
    at the end. *)
Fixpoint resolve_loop (fuel : nat) (root path : string) (fd : Z) (realpath : string)
    (ptr : option string) (noents nlinks : Z) : M (Z * option string) :=
  match fuel with
  | O => halt OutOfFuel
  | S fuel =>
    match strsep "/" ptr with
    | None => ret (fd, Some realpath)
    | Some (file, ptr) =>
      (* the component does not exist *)
      let missing_ent :=
        let? realpath := path_append realpath file else ret (fd, None) in
        resolve_loop fuel root path fd realpath ptr (noents + 1) nlinks in
      if Ascii.eqb (first_char file) NUL || str_equal file "." then
        resolve_loop fuel root path fd realpath ptr noents nlinks
      else if str_equal file ".." then
        match strrchr realpath "/" with
        | None =>
            do error_setx ("path error: " +:+ path +:+ " resolves outside of " +:+ root) in
            ret (fd, None)
        | Some (realpath, _) =>
            if 0 <? noents then
              resolve_loop fuel root path fd realpath ptr (noents - 1) nlinks
            else
              let? fd := open_next fd ".." else ret (-1, None) in
              resolve_loop fuel root path fd realpath ptr noents nlinks
        end
      else if 0 <? noents then missing_ent
      else
        let* r := call (EReadlinkat fd file) in
        let* rv := trap r in
        let '(n, link) := readlink_result rv in
        if (0 <? n) && (n <? PATH_MAX) && (nlinks <? MAXSYMLINKS) then
          (* symlink: continue with its target and the rest of the path *)
          let absolute := Ascii.eqb (first_char link) "/" in
          let off := if absolute then 1 else 0 in
          let link := if absolute then str_drop 1 link else link in
          let realpath := if absolute then EmptyString else realpath in
          let? fd := (if absolute then open_next fd root else ret (Some fd)) else ret (-1, None) in
          let? link := match ptr with
                       | Some rest => path_append_at off link rest
                       | None => ret (Some link)
                       end else ret (fd, None) in
          resolve_loop fuel root path fd realpath (Some link) noents (nlinks + 1)
        else
          do (if PATH_MAX <=? n then set_errno ENAMETOOLONG
              else if MAXSYMLINKS <=? nlinks then set_errno ELOOP else ret tt) in
          let* errno := get_errno in
          if errno =? ENOENT then missing_ent
          else if errno =? EINVAL then
            (* not a symlink, proceed normally *)
            let? fd := open_next fd file else ret (-1, None) in
            let? realpath := path_append realpath file else ret (fd, None) in
            resolve_loop fuel root path fd realpath ptr noents nlinks
          else
            do error_set ("path error: " +:+ root +:+ "/" +:+ path) in
            ret (fd, None)
    end
  end.

(** Enough iterations: each one consumes a token of a string of less than
    [PATH_MAX] characters, and a new string comes only with a link. *)
Definition resolve_fuel : nat := Z.to_nat ((MAXSYMLINKS + 1) * (PATH_MAX + 1) + 1).
#[global] Arguments resolve_fuel : simpl never.

(** The buffer after [path_append(err, buf, path)], whether it failed or not. *)
Definition append_trunc (buf path : string) : string :=
  if str_empty (Some path) then buf
  else buf +:+ str_take (Z.to_nat (PATH_MAX - strlen buf - 1)) (append_piece buf path).

(** The buffer after [path_join(err, buf, p1, p2)]. *)
Definition join_trunc (p1 p2 : string) : string :=
  if negb (str_empty (Some p1)) && (PATH_MAX <=? strlen (append_piece EmptyString p1))
  then append_trunc EmptyString p1
  else append_trunc (append_trunc EmptyString p1) p2.

(** The result, and what the caller's buffer, which held [buf], holds now. *)
Definition do_path_resolve_buf (full : bool) (buf root path : string) : M (option string * string) :=
  if negb (Ascii.eqb (first_char root) "/") then halt Assertion
  else
    let? fd := open_next (-1) root else do xclose (-1) in ret (None, buf) in
    let? ptr := path_append EmptyString path else do xclose fd in ret (None, buf) in
    let* res := resolve_loop resolve_fuel root path fd EmptyString (Some ptr) 0 0 in
    let '(fd, res) := res in
    match res with
    | None => do xclose fd in ret (None, buf)
    | Some realpath =>
        let* r := if full then path_join root realpath else path_new realpath in
        let buf := if full then join_trunc root realpath else append_trunc EmptyString realpath in
        do xclose fd in ret (r, match r with Some p => p | None => buf end)
    end.

Definition do_path_resolve (full : bool) (root path : string) : M (option string) :=
  let* r := do_path_resolve_buf full EmptyString root path in ret (fst r).

Definition path_resolve (root path : string) : M (option string) := do_path_resolve false root path.
Definition path_resolve_full (root path : string) : M (option string) := do_path_resolve true root path.

(** ** Confinement *)

(** A component that names an entry of a directory. *)
Definition normal (c : string) : Prop :=
  c <> EmptyString /\ c <> "." /\ c <> ".." /\ str_mem "/" c = false.

(** ["/c1/c2/..."] *)
Definition render (cs : list string) : string :=
  fold_right (fun c s => String "/" c +:+ s) EmptyString cs.

(** The path of [cs] below [root]. *)
Definition under (root : string) (cs : list string) : string :=
  match cs with
  | [] => root
  | _ => root +:+ (if Ascii.eqb (last_char root) "/" then str_drop 1 (render cs) else render cs)
  end.

(** [path] is [root] or lies below it, without a [".."] to climb back up. *)
Definition beneath (root path : string) : Prop :=
  exists cs, Forall normal cs /\ path = under root cs.

Lemma render_app cs ds : render (cs ++ ds) = render cs +:+ render ds.
Proof. induction cs as [|c cs IH]; simpl; [done|]. by rewrite IH, string_app_assoc. Qed.

Lemma render_snoc cs c : render (cs ++ [c]) = render cs +:+ String "/" c.
Proof. rewrite render_app. simpl. by rewrite string_app_empty_r. Qed.

Lemma last_char_app (a b : string) : b <> EmptyString -> last_char (a +:+ b) = last_char b.
Proof.
  intros Hb. induction a as [|c a IH]; [done|].
  change (String c a +:+ b) with (String c (a +:+ b)).
  destruct (a +:+ b) as [|c' s] eqn:E; [|done]. by destruct a, b.
Qed.

Lemma last_char_mem (s : string) : s <> EmptyString -> str_mem (last_char s) s = true.
Proof.
  induction s as [|c s IH]; [done|]. intros _. destruct s as [|c' s].
  - simpl. by rewrite Ascii.eqb_refl.
  - change (last_char (String c (String c' s))) with (last_char (String c' s)).
    change (str_mem ?x (String c ?r)) with (Ascii.eqb x c || str_mem x r).
    rewrite IH by done. apply orb_true_r.
Qed.

Lemma no_slash_chars (s : string) : str_mem "/" s = false ->
  Ascii.eqb (first_char s) "/" = false /\ Ascii.eqb (last_char s) "/" = false.
Proof.
  intros Hs. split.
  - destruct s as [|c s]; [done|]. simpl in *. apply orb_false_elim in Hs as [E _].
    by rewrite Ascii.eqb_sym.
  - destruct s as [|c s]; [done|]. destruct (Ascii.eqb_spec (last_char (String c s)) "/") as [E|]; [|done].
    pose proof (last_char_mem (String c s)). rewrite E, Hs in H. by specialize (H ltac:(done)).
Qed.

Lemma render_last (cs : list string) : Forall normal cs -> Ascii.eqb (last_char (render cs)) "/" = false.
Proof.
  intros Hcs. destruct cs as [|c cs _] using rev_ind; [done|].
  rewrite render_snoc, last_char_app by done.
  apply Forall_app in Hcs as [_ Hc]. apply Forall_cons_1 in Hc as [(Hne & _ & _ & Hs) _].
  destruct c as [|a c]; [done|]. change (last_char (String "/" (String a c))) with (last_char (String a c)).
  by apply no_slash_chars.
Qed.

(** Appending a component to a resolved path. *)
Lemma append_piece_render (cs : list string) (c : string) :
  Forall normal cs -> str_mem "/" c = false -> append_piece (render cs) c = String "/" c.
Proof.
  intros Hcs Hc. unfold append_piece. rewrite (render_last _ Hcs).
  by rewrite (proj1 (no_slash_chars _ Hc)).
Qed.

Lemma path_append_at_ens off (buf path : string) H :
  (off = 0 \/ H (Undefined "path_append: overflow")) ->
  0 <= strlen buf < PATH_MAX ->
  ensures (only [KLib]) H (path_append_at off buf path)
    (fun r => match r with
              | None => True
              | Some s => strlen s < PATH_MAX /\
                  s = if str_empty (Some path) then buf else buf +:+ append_piece buf path
              end).
Proof.
  intros HH Hb. unfold path_append_at. destruct (str_empty (Some path)); [ens; by destruct Hb|].
  cbv zeta. match goal with |- context [if ?b then halt _ else _] => destruct b eqn:E end.
  - bool_hyps. apply ensures_halt. destruct HH as [->|HH]; [exfalso; lia|done].
  - ens; bool_hyps; (split; [rewrite strlen_app; lia|done]).
Qed.

Lemma path_append_ens (buf path : string) :
  strlen buf < PATH_MAX ->
  ensures (only [KLib]) no_stop (path_append buf path)
    (fun r => match r with
              | None => True
              | Some s => strlen s < PATH_MAX /\
                  s = if str_empty (Some path) then buf else buf +:+ append_piece buf path
              end).
Proof. intros Hb. apply path_append_at_ens; [by left|]. split; [apply strlen_nonneg|done]. Qed.

Lemma path_new_ens (path : string) :
  ensures (only [KLib]) no_stop (path_new path)
    (fun r => match r with
              | None => True
              | Some s => strlen s < PATH_MAX /\
                  s = if str_empty (Some path) then EmptyString else append_piece EmptyString path
              end).
Proof.
  eapply ensures_post; [by apply path_append_ens|]. intros [s|]; [|done]. intros [? ->]. done.
Qed.

Lemma append_piece_empty (root : string) :
  Ascii.eqb (first_char root) "/" = true -> append_piece EmptyString root = root.
Proof.
  intros Hr. unfold append_piece. rewrite Hr. simpl last_char.
  change (Ascii.eqb NUL "/") with false. done.
Qed.

Lemma str_empty_slash (root : string) :
  Ascii.eqb (first_char root) "/" = true -> str_empty (Some root) = false.
Proof. intros Hr%Ascii.eqb_eq. simpl. by rewrite Hr. Qed.

Lemma render_first (cs : list string) :
  cs <> [] -> Ascii.eqb (first_char (render cs)) "/" = true.
Proof. by destruct cs. Qed.

(** The join of an absolute path and a resolved one. *)
Lemma path_join_under_ens (root : string) (cs : list string) :
  Ascii.eqb (first_char root) "/" = true ->
  ensures (only [KLib]) no_stop (path_join root (render cs))
    (fun r => match r with None => True | Some s => strlen s < PATH_MAX /\ s = under root cs end).
Proof.
  intros Hr. unfold path_join. eapply ensures_bind; [apply path_new_ens|].
  intros [buf|]; [|by intros; apply ensures_ret]. rewrite str_empty_slash, append_piece_empty by done.
  intros [Hlen ->]. eapply ensures_post; [by apply path_append_ens|].
  intros [s|]; [|done]. intros [Hs ->]. split; [done|].
  destruct cs as [|c cs]; [done|]. rewrite str_empty_slash by by apply render_first.
  unfold append_piece, under. rewrite render_first by done. simpl.
  by destruct (Ascii.eqb (last_char root) "/").
Qed.

(** An absolute [root] is copied by [path_new]; resolved paths too. *)
Lemma path_new_render_ens (cs : list string) :
  ensures (only [KLib]) no_stop (path_new (render cs))
    (fun r => match r with None => True | Some s => strlen s < PATH_MAX /\ s = render cs end).
Proof.
  eapply ensures_post; [apply path_new_ens|]. intros [s|]; [|done]. intros [Hs ->].
  destruct cs as [|c cs]; [done|]. rewrite str_empty_slash, append_piece_empty by by apply render_first.
  by split.
Qed.

Lemma open_next_ens dir path : ensures (only [KLib; KRead]) no_stop (open_next dir path) any.
Proof. unfold open_next. ens. Qed.
#[export] Hint Resolve open_next_ens : ens.

(** *** The loop keeps the resolved path a list of normal components *)

Definition resolved (o : Z * option string) : Prop :=
  match snd o with
  | Some p => strlen p < PATH_MAX /\ exists cs, Forall normal cs /\ p = render cs
  | None => True
  end.

Lemma strrchr_render (cs : list string) (a b : string) :
  Forall normal cs -> strrchr (render cs) "/" = Some (a, b) ->
  exists cs', Forall normal cs' /\ a = render cs' /\ strlen a <= strlen (render cs).
Proof.
  intros Hcs H. destruct cs as [|c cs _] using rev_ind; [done|].
  rewrite render_snoc in *. apply Forall_app in Hcs as [Hcs Hc].
  apply Forall_cons_1 in Hc as [(_ & _ & _ & Hs) _].
  rewrite strrchr_app_last in H by done. simplify_eq. exists cs. split_and!; [done..|].
  rewrite strlen_app. pose proof (strlen_nonneg (String "/" c)). lia.
Qed.

(** Appending a token of the path. *)
Lemma path_append_normal_ens (cs : list string) (file : string) :
  strlen (render cs) < PATH_MAX -> Forall normal cs ->
  Ascii.eqb (first_char file) NUL || str_equal file "." = false ->
  str_equal file ".." = false -> str_mem "/" file = false ->
  ensures (only [KLib]) no_stop (path_append (render cs) file)
    (fun r => match r with
              | None => True
              | Some s => strlen s < PATH_MAX /\ exists cs', Forall normal cs' /\ s = render cs'
              end).
Proof.
  intros Hlen Hcs H1 H2 Hs. eapply ensures_post; [by apply path_append_ens|].
  intros [s|]; [|done]. intros [Hl ->]. split; [done|]. apply orb_false_elim in H1 as [H0 H1].
  unfold str_equal in *. bool_hyps. simpl in *.
  destruct (Ascii.eqb_spec (first_char file) NUL) as [E|_]; [done|].
  exists (cs ++ [file]). rewrite render_snoc, append_piece_render by done. split; [|done].
  apply Forall_app. split; [done|]. constructor; [|constructor].
  split_and!; [|done..]. by intros ->.
Qed.

Lemma resolve_loop_ens (fuel : nat) (root path : string) (cs : list string) fd ptr noents nlinks :
  strlen (render cs) < PATH_MAX -> Forall normal cs ->
  ensures (only [KLib; KRead]) any_stop
    (resolve_loop fuel root path fd (render cs) ptr noents nlinks) resolved.
Proof.
  revert cs fd ptr noents nlinks. induction fuel as [|fuel IH];
    intros cs fd ptr noents nlinks Hlen Hcs; cbn [resolve_loop]; [by apply ensures_halt|].
  destruct (strsep "/" ptr) as [[file ptr']|] eqn:Hsep.
  2:{ apply ensures_ret. unfold resolved. simpl. split; [done|]. by exists cs. }
  assert (str_mem "/" file = false) as Hns.
  { destruct ptr as [p|]; [|done]. simpl in Hsep. injection Hsep as Hsep.
    by apply split_at_spec in Hsep as [? _]. }
  destruct (_ || _) eqn:H1; [by apply IH|].
  destruct (str_equal file "..") eqn:H2.
  { destruct (strrchr (render cs) "/") as [[a b]|] eqn:Hr; [|ens].
    apply strrchr_render in Hr as (cs' & Hcs' & -> & Hle); [|done].
    destruct (0 <? noents); [apply IH; [lia|done]|].
    ens_step. destruct a as [fd'|]; [apply IH; [lia|done]|ens]. }
  assert (forall fd noents nlinks, ensures (only [KLib; KRead]) any_stop
    (let? realpath := path_append (render cs) file else ret (fd, None) in
     resolve_loop fuel root path fd realpath ptr' noents nlinks) resolved) as Hmiss.
  { intros fd' ne nl. eapply ensures_bind.
    - eapply ensures_weaken; [by eapply path_append_normal_ens|intros ?; by apply only_mono|done|].
      intros r Hr. exact Hr.
    - intros [r|]; [|intros _; ens]. intros (Hl & cs' & Hcs' & ->). by apply IH. }
  destruct (0 <? noents); [apply Hmiss|].
  ens_step. ens_step. destruct (readlink_result _) as [n link].
  destruct (_ && _ && _).
  - assert (forall b : bool, exists cs', Forall normal cs' /\
      (if b then EmptyString else render cs) = render cs' /\ strlen (render cs') < PATH_MAX) as Hcs'.
    { intros []; [by exists []|by exists cs]. }
    destruct (Hcs' (Ascii.eqb (first_char link) "/")) as (cs' & Hn & -> & Hl).
    eapply ensures_bind with (R := any).
    { destruct (Ascii.eqb (first_char link) "/"); ens. }
    intros [fd'|] _; [|ens]. eapply ensures_bind with (R := any).
    { destruct ptr' as [rest|]; [|ens]. unfold path_append_at. ens. }
    intros [link'|] _; [by apply IH|ens].
  - eapply ensures_bind with (R := any); [ens|]. intros _ _. ens_step.
    destruct (_ =? ENOENT); [apply Hmiss|]. destruct (_ =? EINVAL); [|ens].
    ens_step. destruct a2 as [fd'|]; [apply Hmiss|ens].
Qed.

Lemma do_path_resolve_buf_ens (full : bool) (buf root path : string) :
  ensures (only [KLib; KRead]) any_stop (do_path_resolve_buf full buf root path)
    (fun r => match fst r with
              | None => True
              | Some p => strlen p < PATH_MAX /\ snd r = p /\ exists cs, Forall normal cs /\
                            p = if full then under root cs else render cs
              end).
Proof.
  unfold do_path_resolve_buf. destruct (Ascii.eqb (first_char root) "/") eqn:Hr; cbn [negb];
    [|by apply ensures_halt].
  ens_step. destruct a as [fd|]; [|ens].
  eapply ensures_bind with (R := any); [unfold path_append, path_append_at; ens|].
  intros [ptr|] _; [|ens]. eapply ensures_bind; [by apply (resolve_loop_ens _ _ _ [])|].
  intros [fd' [p|]]; [|intros _; ens]. intros (Hl & cs & Hcs & ->). simpl in Hl.
  eapply ensures_bind with
    (R := fun r => match r with None => True | Some p => strlen p < PATH_MAX /\
                     p = if full then under root cs else render cs end).
  { eapply ensures_weaken with (P := only [KLib]) (H := no_stop);
      [|intros ?; by apply only_mono|done|intros r Hr'; exact Hr'].
    destruct full; [by apply path_join_under_ens|apply path_new_render_ens]. }
  intros [r|]; [|intros _; ens]. intros [Hlr ->]. ens. split; [done|]. split; [done|]. by exists cs.
Qed.

Lemma do_path_resolve_ens (full : bool) (root path : string) :
  ensures (only [KLib; KRead]) any_stop (do_path_resolve full root path)
    (fun r => match r with
              | None => True
              | Some p => strlen p < PATH_MAX /\ exists cs, Forall normal cs /\
                            p = if full then under root cs else render cs
              end).
Proof.
  unfold do_path_resolve. eapply ensures_bind; [apply do_path_resolve_buf_ens|].
  intros [[p|] b]; cbn [fst snd]; [intros (? & _ & ?)|intros _]; by apply ensures_ret.
Qed.

(** *** Termination *)

(** What is left to do. *)
Definition resolve_measure (ptr : option string) (nlinks : Z) : Z :=
  (MAXSYMLINKS - nlinks) * (PATH_MAX + 1) + match ptr with None => 0 | Some p => strlen p + 1 end.

Lemma strsep_shorter (ptr ptr' : option string) (file : string) nlinks :
  strsep "/" ptr = Some (file, ptr') ->
  resolve_measure ptr' nlinks < resolve_measure ptr nlinks.
Proof.
  intros H. destruct ptr as [p|]; [|done]. simpl in H. injection H as H.
  unfold resolve_measure. destruct ptr' as [p'|].
  - apply split_at_shorter in H. unfold strlen. lia.
  - pose proof (strlen_nonneg p). lia.
Qed.

(** The one way the resolution can go wrong in memory. *)
Definition overflow_only (w : stop) : Prop := w = Undefined "path_append: overflow".

Lemma path_append_fuel_ens off buf path :
  strlen buf < PATH_MAX ->
  ensures (only [KLib]) overflow_only (path_append_at off buf path)
    (fun r => match r with None => True | Some s => strlen s < PATH_MAX end).
Proof.
  intros Hb. eapply ensures_post; [apply path_append_at_ens|].
  - by right.
  - split; [apply strlen_nonneg|done].
  - intros [s|]; [|done]. by intros [? _].
Qed.

Lemma str_drop_strlen n s : strlen (str_drop n s) <= strlen s.
Proof. unfold strlen. rewrite str_drop_length. lia. Qed.

Lemma resolve_loop_total (fuel : nat) (root path realpath : string) fd ptr noents nlinks :
  strlen realpath < PATH_MAX -> nlinks <= MAXSYMLINKS ->
  resolve_measure ptr nlinks < Z.of_nat fuel ->
  ensures (only [KLib; KRead]) overflow_only
    (resolve_loop fuel root path fd realpath ptr noents nlinks)
    (fun o => match snd o with Some p => strlen p < PATH_MAX | None => True end).
Proof.
  revert realpath fd ptr noents nlinks. induction fuel as [|fuel IH];
    intros realpath fd ptr noents nlinks Hlen Hnl Hfuel; cbn [resolve_loop].
  { exfalso. unfold resolve_measure in Hfuel. unfold MAXSYMLINKS, PATH_MAX in *.
    destruct ptr as [p|]; [pose proof (strlen_nonneg p)|]; lia. }
  destruct (strsep "/" ptr) as [[file ptr']|] eqn:Hsep; [|by apply ensures_ret].
  pose proof (strsep_shorter _ _ _ nlinks Hsep) as Hm.
  assert (forall rp fd ne, strlen rp < PATH_MAX -> ensures (only [KLib; KRead]) overflow_only
    (resolve_loop fuel root path fd rp ptr' ne nlinks)
    (fun o => match snd o with Some p => strlen p < PATH_MAX | None => True end)) as Hnext.
  { intros rp fd' ne Hrp. apply IH; [done..|lia]. }
  destruct (_ || _); [by apply Hnext|].
  destruct (str_equal file "..").
  { destruct (strrchr realpath "/") as [[a b]|] eqn:Hr; [|ens].
    apply strrchr_Some in Hr as [-> _]. rewrite strlen_app in Hlen.
    pose proof (strlen_nonneg b). destruct (0 <? noents); [apply Hnext; lia|].
    ens_step. destruct a0 as [fd'|]; [apply Hnext; lia|ens]. }
  assert (forall fd ne, ensures (only [KLib; KRead]) overflow_only
    (let? rp := path_append realpath file else ret (fd, None) in
     resolve_loop fuel root path fd rp ptr' ne nlinks)
    (fun o => match snd o with Some p => strlen p < PATH_MAX | None => True end)) as Hmiss.
  { intros fd' ne. eapply ensures_bind.
    - eapply ensures_weaken; [by apply (path_append_fuel_ens 0)|intros ?; by apply only_mono|done|].
      intros r Hr. exact Hr.
    - intros [r|]; [|intros _; ens]. intros Hr. by apply Hnext. }
  destruct (0 <? noents); [apply Hmiss|].
  ens_step. ens_step. destruct (readlink_result _) as [n link] eqn:Hrl.
  destruct (_ && _ && _) eqn:Hc.
  - bool_hyps. assert (strlen link < PATH_MAX) as Hll.
    { destruct a0 as [l|]; unfold readlink_result in Hrl.
      - assert (link = str_take (Z.to_nat PATH_MAX) l) as -> by congruence.
        assert (n = Z.min (strlen l) PATH_MAX) as -> by congruence.
        unfold strlen in *. rewrite str_take_length. lia.
      - by assert (link = EmptyString) as -> by congruence. }
    eapply ensures_bind with (R := any); [destruct (Ascii.eqb (first_char link) "/"); ens|].
    intros [fd'|] _; [|ens].
    eapply ensures_bind with
      (R := fun r => match r with None => True | Some s => strlen s < PATH_MAX end).
    { assert (strlen (if Ascii.eqb (first_char link) "/" then str_drop 1 link else link) < PATH_MAX).
      { destruct (Ascii.eqb _ "/"); [pose proof (str_drop_strlen 1 link); lia|done]. }
      destruct ptr' as [rest|]; [|by apply ensures_ret].
      eapply ensures_weaken; [by apply path_append_fuel_ens|intros ?; by apply only_mono|done|auto]. }
    intros [link'|]; [|intros _; ens]. intros Hl'. apply IH.
    + destruct (Ascii.eqb (first_char link) "/"); [done|done].
    + unfold MAXSYMLINKS in *. lia.
    + unfold resolve_measure, MAXSYMLINKS, PATH_MAX in *. pose proof (strlen_nonneg link').
      destruct ptr' as [p'|]; [pose proof (strlen_nonneg p')|]; lia.
  - eapply ensures_bind with (R := any); [ens|]. intros _ _. ens_step.
    destruct (_ =? ENOENT); [apply Hmiss|]. destruct (_ =? EINVAL); [|ens].
    ens_step. destruct a2 as [fd'|]; [apply Hmiss|ens].
Qed.

(** A buffer that a failed call leaves is cut at its last byte. *)
Lemma append_trunc_cut (buf path : string) :
  strlen buf < PATH_MAX -> PATH_MAX - strlen buf <= strlen (append_piece buf path) -> str_empty (Some path) = false ->
  strlen (append_trunc buf path) = PATH_MAX - 1.
Proof.
  intros Hb Hn He. unfold append_trunc. rewrite He, strlen_app. pose proof (strlen_nonneg buf) as H0. unfold strlen in *.
  rewrite str_take_length. lia.
Qed.

Lemma path_append_cut (buf path : string) :
  strlen buf < PATH_MAX ->
  ensures (only [KLib]) no_stop (path_append buf path)
    (fun r => match r with
              | Some s => strlen s < PATH_MAX /\ s = append_trunc buf path /\
                          (str_empty (Some path) = true \/ strlen (append_piece buf path) < PATH_MAX - strlen buf)
              | None => strlen (append_trunc buf path) = PATH_MAX - 1 /\ str_empty (Some path) = false /\
                        PATH_MAX - strlen buf <= strlen (append_piece buf path)
              end).
Proof.
  intros Hb. unfold path_append, path_append_at. destruct (str_empty (Some path)) eqn:E.
  { apply ensures_ret. split; [done|]. unfold append_trunc. rewrite E. auto. }
  cbv zeta. pose proof (strlen_nonneg buf). pose proof (strlen_nonneg (append_piece buf path)).
  destruct (PATH_MAX <? _) eqn:E1; [bool_hyps; lia|].
  destruct (PATH_MAX - strlen buf <=? _) eqn:E2; bool_hyps.
  - ens. split; [by apply append_trunc_cut|by split].
  - apply ensures_ret. rewrite strlen_app. split; [lia|]. split; [|right; lia].
    unfold append_trunc. rewrite E. f_equal. symmetry. apply str_take_all. unfold strlen in *. lia.
Qed.

Lemma path_new_cut (path : string) :
  ensures (only [KLib]) no_stop (path_new path)
    (fun r => match r with Some s => True | None => strlen (append_trunc EmptyString path) = PATH_MAX - 1 end).
Proof. eapply ensures_post; [by apply path_append_cut|]. intros [s|]; [done|]. by intros [? _]. Qed.

(** [q] is too long for a path; [p] is what fits. *)
Definition cut_of (q p : string) : Prop := PATH_MAX <= strlen q /\ p = str_take (Z.to_nat (PATH_MAX - 1)) q.

Lemma str_take_app_le (n : nat) (a b : string) : (n <= String.length a)%nat -> str_take n (a +:+ b) = str_take n a.
Proof.
  revert n. induction a as [|c a IH]; intros [|n] Hn; cbn in *; [done|lia|done|]. f_equal. apply IH. lia.
Qed.

Lemma str_take_app_ge (n : nat) (a b : string) :
  (String.length a <= n)%nat -> str_take n (a +:+ b) = a +:+ str_take (n - String.length a) b.
Proof.
  revert n. induction a as [|c a IH]; intros n Hn; cbn in *; [by rewrite Nat.sub_0_r|]. destruct n as [|n]; [lia|].
  cbn. f_equal. apply IH. lia.
Qed.

Lemma under_app root cs : exists x, under root cs = root +:+ x.
Proof. destruct cs; [exists EmptyString; symmetry; apply string_app_empty_r|]. by eexists. Qed.

Lemma under_append root c cs : under root (c :: cs) = root +:+ append_piece root (render (c :: cs)).
Proof.
  unfold append_piece, under. rewrite render_first by done. simpl. by destruct (Ascii.eqb (last_char root) "/").
Qed.

(** A join that fails leaves what fits of the path it was to make. *)
Lemma path_join_under_cut (root : string) (cs : list string) :
  Ascii.eqb (first_char root) "/" = true ->
  ensures (only [KLib]) no_stop (path_join root (render cs))
    (fun r => match r with None => cut_of (under root cs) (join_trunc root (render cs)) | Some _ => True end).
Proof.
  intros Hr. unfold path_join, path_new, join_trunc. assert (strlen EmptyString = 0) as H0 by done.
  rewrite (append_piece_empty root Hr), (str_empty_slash root Hr). cbn [negb andb].
  assert (append_trunc EmptyString root = str_take (Z.to_nat (PATH_MAX - 1)) root) as Ht.
  { unfold append_trunc. rewrite (str_empty_slash root Hr), (append_piece_empty root Hr), H0.
    by rewrite Z.sub_0_r. }
  eapply ensures_bind; [by apply path_append_cut|]. intros [s|].
  - rewrite (append_piece_empty root Hr), (str_empty_slash root Hr), H0. intros (Hs & -> & Hok).
    destruct Hok as [Hok|Hok]; [done|]. rewrite Z.sub_0_r in Hok. rewrite (proj2 (Z.leb_gt _ _) Hok).
    rewrite Ht, str_take_all in Hs |- * by (unfold strlen in Hok; lia).
    eapply ensures_post; [by apply path_append_cut|]. intros [s|]; [done|]. intros (_ & He & Hn).
    destruct cs as [|c cs]; [done|]. split.
    + rewrite under_append, strlen_app. lia.
    + rewrite under_append. unfold append_trunc. rewrite He, str_take_app_ge by (unfold strlen in Hok; lia).
      do 2 f_equal. unfold strlen. lia.
  - rewrite (append_piece_empty root Hr), H0. intros (_ & _ & Hn). rewrite Z.sub_0_r in Hn. apply ensures_ret.
    rewrite (proj2 (Z.leb_le _ _) Hn), Ht. destruct (under_app root cs) as [x ->]. split.
    + rewrite strlen_app. pose proof (strlen_nonneg x). lia.
    + rewrite str_take_app_le; [done|]. unfold strlen in Hn. lia.
Qed.

(** The resolution ends, and a failure leaves the buffer as it was, or with what
    fits of a path below the root. *)
Lemma do_path_resolve_buf_total (full : bool) (buf root path : string) :
  Ascii.eqb (first_char root) "/" = true ->
  ensures (only [KLib; KRead]) overflow_only (do_path_resolve_buf full buf root path)
    (fun r => match fst r with
              | Some _ => True
              | None => snd r = buf \/ full = false \/ exists cs, Forall normal cs /\ cut_of (under root cs) (snd r)
              end).
Proof.
  intros Hr. unfold do_path_resolve_buf. rewrite Hr. cbn [negb].
  ens_step. destruct a as [fd|]; [|ens]. eapply ensures_bind.
  { eapply ensures_weaken; [by apply path_append_ens|intros ?; by apply only_mono|done|].
    intros r Hr'. exact Hr'. }
  intros [ptr|]; [|intros _; ens]. intros [Hl _]. eapply ensures_bind.
  { eapply ensures_weaken; [apply ensures_and; [apply (resolve_loop_ens _ root path []); done|apply (resolve_loop_total _ root path)]|..].
    - done.
    - done.
    - unfold resolve_fuel, resolve_measure. rewrite Z2Nat.id by done.
      unfold MAXSYMLINKS, PATH_MAX in *. lia.
    - done.
    - by intros w [_ Hw].
    - intros r Hr'. exact Hr'. }
  intros [fd' [p|]]; [|intros _; ens]. intros [(_ & cs & Hcs & Hp) _]. cbn [snd] in Hp. subst p.
  eapply ensures_bind with (R := fun r => match r with
    | None => full = false \/ cut_of (under root cs) (join_trunc root (render cs))
    | Some _ => True
    end).
  { eapply ensures_weaken with (P := only [KLib]) (H := no_stop);
      [|intros ?; by apply only_mono|done|intros r Hr'; exact Hr'].
    destruct full; [eapply ensures_post; [by apply path_join_under_cut|]; intros []; auto|].
    eapply ensures_post; [apply path_new_cut|]. intros []; auto. }
  intros [r|] Hc; ens.
  all: cbn; auto. destruct full; [|auto]. destruct Hc as [?|Hc]; [done|]. eauto.
Qed.

Lemma do_path_resolve_total (full : bool) (root path : string) :
  Ascii.eqb (first_char root) "/" = true ->
  ensures (only [KLib; KRead]) overflow_only (do_path_resolve full root path) any.
Proof.
  intros Hr. unfold do_path_resolve. eapply ensures_bind; [by apply do_path_resolve_buf_total|].
  intros r _. by apply ensures_ret.
Qed.

(** A resolved path: entries only, and room for a terminator. *)
Definition resolved_path (p : string) : Prop :=
  strlen p < PATH_MAX /\ exists cs, Forall normal cs /\ p = render cs.

Lemma path_resolve_ens root path :
  Ascii.eqb (first_char root) "/" = true ->
  ensures (only [KLib; KRead]) overflow_only (path_resolve root path)
    (fun r => match r with Some p => resolved_path p | None => True end).
Proof.
  intros Hr. eapply ensures_weaken;
    [apply ensures_and; [apply (do_path_resolve_ens false)|by apply do_path_resolve_total]|done|by intros w [_ Hw]|].
  intros [p|]; [|done]. intros [(? & cs & ? & ->) _]. split; eauto.
Qed.

Lemma path_resolve_full_ens root path :
  Ascii.eqb (first_char root) "/" = true ->
  ensures (only [KLib; KRead]) overflow_only (path_resolve_full root path)
    (fun r => match r with Some p => strlen p < PATH_MAX /\ beneath root p | None => True end).
Proof.
  intros Hr. eapply ensures_weaken;
    [apply ensures_and; [apply (do_path_resolve_ens true)|by apply do_path_resolve_total]|done|by intros w [_ Hw]|].
  intros [p|]; [|done]. intros [(? & cs & ? & ->) _]. split; [done|]. by exists cs.
Qed.

Lemma path_join_ens p1 p2 :
  ensures (only [KLib]) no_stop (path_join p1 p2) (fun r => match r with Some s => strlen s < PATH_MAX | None => True end).
Proof.
  unfold path_join. eapply ensures_bind; [apply path_new_ens|]. intros [buf|]; [|intros _; ens].
  intros [Hb _]. eapply ensures_post; [by apply path_append_ens|]. intros [s|]; [|done]. by intros [? _].
Qed.
#[export] Hint Resolve path_join_ens : ens.

(** *** Descriptors *)

Fixpoint remove_fd (fd : Z) (l : list Z) : list Z :=
  match l with
  | [] => []
  | x :: l' => if x =? fd then l' else x :: remove_fd fd l'
  end.

(** The descriptors that are open, the last opened first. *)
Definition fd_step (l : list Z) (ev : event) : list Z :=
  match ev with
  | Event (EOpen _ _) (SOk fd) | Event (EOpenat _ _ _) (SOk fd) | Event (ECreat _ _ _) (SOk fd) =>
      Z.of_N fd :: l
  | Event (EClose fd) _ => remove_fd fd l
  | _ => l
  end.

Lemma fd_step_lib (ev : event) : only [KLib] ev -> forall l, fd_step l ev = l.
Proof. destruct ev as [[] r]; done. Qed.
Lemma fd_lib {A} (m : M A) H R g (R' : A -> list Z -> Prop) :
  ensures (only [KLib]) H m R -> (forall a, R a -> R' a g) -> ghost fd_step m g R'.
Proof. intros Hm HR. eapply ghost_ensures; [done|apply fd_step_lib|done]. Qed.

Lemma remove_fd_second (a b : Z) l : remove_fd b (a :: b :: l) = a :: l.
Proof. simpl. destruct (Z.eqb_spec a b) as [->|]; [done|]. by rewrite Z.eqb_refl. Qed.

Lemma xclose_fds fd l : 0 <= fd -> ghost fd_step (xclose fd) (fd :: l) (fun _ l' => l' = l).
Proof.
  intros Hfd s. unfold xclose. rewrite (proj2 (Z.ltb_ge fd 0)) by done.
  intros [[]|e]; simpl; by rewrite Z.eqb_refl.
Qed.

Lemma open_next_fds dir path l :
  0 <= dir ->
  ghost fd_step (open_next dir path) (dir :: l)
    (fun r l' => match r with Some fd => 0 <= fd /\ l' = fd :: l | None => l' = dir :: l end).
Proof.
  intros Hd. unfold open_next. cbv zeta. eapply ghost_bind; [apply ghost_call; intros r|].
  { instantiate (1 := fun r l' => match r with SOk fd => l' = Z.of_N fd :: dir :: l
                                            | SErr _ => l' = dir :: l end).
    by destruct r. }
  intros [fd|e] ? ->; (eapply ghost_bind; [apply ghost_trap; cbv beta iota|]).
  - instantiate (1 := fun r l' => r = Some fd /\ l' = Z.of_N fd :: dir :: l). done.
  - intros ? ? [-> ->]. intros s. unfold xclose, bind. rewrite (proj2 (Z.ltb_ge dir 0)) by done.
    intros [[]|e]; cbn [fold_left fd_step wp pbind ret trap]; (split; [lia|]);
      apply remove_fd_second.
  - instantiate (1 := fun r l' => r = None /\ l' = dir :: l). done.
  - intros ? ? [-> ->]. eapply fd_lib with (R := fun r => r = None); [ens|]. by intros ? ->.
Qed.

(** The loop holds one descriptor; a failing [openat] loses it. *)
Definition holds_one (l : list Z) (o : Z * option string) (l' : list Z) : Prop :=
  (0 <= fst o /\ l' = fst o :: l) \/ (fst o = -1 /\ snd o = None /\ exists d, l' = d :: l).

Lemma path_append_at_lib off buf path : ensures (only [KLib]) any_stop (path_append_at off buf path) any.
Proof. unfold path_append_at. ens. Qed.

Lemma ghost_open_next dir path l {A} (k : Z -> M A) (e : M A) R :
  0 <= dir ->
  (forall fd, 0 <= fd -> ghost fd_step (k fd) (fd :: l) R) ->
  ghost fd_step e (dir :: l) R ->
  ghost fd_step (let? fd := open_next dir path else e in k fd) (dir :: l) R.
Proof.
  intros Hd Hk He. eapply ghost_bind; [by apply open_next_fds|].
  intros [fd|] l'; [intros [? ->]; by apply Hk|by intros ->].
Qed.

Lemma resolve_loop_fds (fuel : nat) (root path realpath : string) fd ptr noents nlinks l :
  0 <= fd ->
  ghost fd_step (resolve_loop fuel root path fd realpath ptr noents nlinks) (fd :: l) (holds_one l).
Proof.
  revert realpath fd ptr noents nlinks. induction fuel as [|fuel IH];
    intros realpath fd ptr noents nlinks Hfd; cbn [resolve_loop]; [apply ghost_halt|].
  assert (forall r, ghost fd_step (ret (fd, r)) (fd :: l) (holds_one l)) as Hret.
  { intros r. apply ghost_ret. by left. }
  assert (forall d, ghost fd_step (ret (-1, None)) (d :: l) (holds_one l)) as Hlost.
  { intros d. apply ghost_ret. right. split_and!; [done..|]. by exists d. }
  assert (forall text, ErrText text -> ghost fd_step (do error_set text in ret (fd, None)) (fd :: l) (holds_one l)) as Herr.
  { intros text Ht. eapply ghost_bind; [by eapply fd_lib with (R' := fun _ l' => l' = fd :: l); [apply error_set_ens|]|].
    intros _ ? ->. apply Hret. }
  destruct (strsep "/" ptr) as [[file ptr']|]; [|apply Hret].
  destruct (_ || _); [by apply IH|].
  destruct (str_equal file "..").
  { destruct (strrchr realpath "/") as [[a b]|].
    - destruct (0 <? noents); [by apply IH|]. apply ghost_open_next; [done|by intros; apply IH|apply Hlost].
    - eapply fd_lib with (R := fun o => o = (fd, None)); [ens|]. intros ? ->. by left. }
  assert (forall fd ne, 0 <= fd -> ghost fd_step
    (let? rp := path_append realpath file else ret (fd, None) in
     resolve_loop fuel root path fd rp ptr' ne nlinks) (fd :: l) (holds_one l)) as Hmiss.
  { intros fd' ne Hfd'. eapply ghost_bind.
    - eapply fd_lib with (R' := fun _ l' => l' = fd' :: l); [apply path_append_at_lib|done].
    - intros [r|] ? ->; [by apply IH|]. apply ghost_ret. by left. }
  destruct (0 <? noents); [by apply Hmiss|].
  eapply ghost_bind with (R1 := fun _ l' => l' = fd :: l); [by apply ghost_call|].
  intros r ? ->. eapply ghost_bind with (R1 := fun _ l' => l' = fd :: l); [apply ghost_trap; by destruct r|].
  intros rv ? ->. destruct (readlink_result rv) as [n link]. destruct (_ && _ && _).
  - assert (forall fd, 0 <= fd -> ghost fd_step
      (let? link' := match ptr' with
                    | Some rest => path_append_at (if Ascii.eqb (first_char link) "/" then 1 else 0)
                        (if Ascii.eqb (first_char link) "/" then str_drop 1 link else link) rest
                    | None => ret (Some (if Ascii.eqb (first_char link) "/" then str_drop 1 link else link))
                    end else ret (fd, None) in
       resolve_loop fuel root path fd
         (if Ascii.eqb (first_char link) "/" then EmptyString else realpath)
         (Some link') noents (nlinks + 1)) (fd :: l) (holds_one l)) as Hlink.
    { intros fd' Hfd'. eapply ghost_bind with (R1 := fun _ l' => l' = fd' :: l).
      - destruct ptr' as [rest|]; [|by apply ghost_ret].
        eapply fd_lib; [apply path_append_at_lib|done].
      - intros [r'|] ? ->; [by apply IH|]. apply ghost_ret. by left. }
    cbv zeta. revert Hlink. destruct (Ascii.eqb (first_char link) "/"); intros Hlink.
    + apply ghost_open_next; [done|apply Hlink|apply Hlost].
    + eapply ghost_bind with (R1 := fun r l' => r = Some fd /\ l' = fd :: l); [by apply ghost_ret|].
      intros ? ? [-> ->]. by apply Hlink.
  - eapply ghost_bind with (R1 := fun _ l' => l' = fd :: l).
    { destruct (PATH_MAX <=? n); [intros ?; done|]. destruct (MAXSYMLINKS <=? nlinks); intros ?; done. }
    intros _ ? ->. eapply ghost_bind with (R1 := fun _ l' => l' = fd :: l); [intros ?; done|].
    intros en ? ->. destruct (en =? ENOENT); [by apply Hmiss|]. destruct (en =? EINVAL).
    + apply ghost_open_next; [done|by intros; apply Hmiss|apply Hlost].
    + apply Herr. apply err_text_prefix; reflexivity.
Qed.

(** The first descriptor: there is none to close before. *)
Lemma open_first_fds path l :
  ghost fd_step (open_next (-1) path) l
    (fun r l' => match r with Some fd => 0 <= fd /\ l' = fd :: l | None => l' = l end).
Proof.
  unfold open_next. cbv zeta. eapply ghost_bind with (R1 := fun r l' =>
    match r with SOk fd => l' = Z.of_N fd :: l | SErr _ => l' = l end).
  { apply ghost_call. by intros []. }
  intros [fd|e] ? ->.
  - intros s. cbn. split; [lia|done].
  - eapply ghost_bind with (R1 := fun r l' => r = None /\ l' = l); [by apply ghost_trap|].
    intros ? ? [-> ->]. eapply fd_lib with (R := fun r => r = None); [ens|]. by intros ? ->.
Qed.

Lemma do_path_resolve_fds (full : bool) (root path : string) (l : list Z) :
  ghost fd_step (do_path_resolve full root path) l
    (fun r l' => match r with Some _ => l' = l | None => l' = l \/ exists d, l' = d :: l end).
Proof.
  unfold do_path_resolve. eapply ghost_bind with (R1 := fun r l' =>
    match fst r with Some _ => l' = l | None => l' = l \/ exists d, l' = d :: l end);
    [|intros r l' Hr; by apply ghost_ret].
  unfold do_path_resolve_buf. destruct (negb _); [apply ghost_halt|].
  eapply ghost_bind with (R1 := fun r l' =>
    match r with Some fd => 0 <= fd /\ l' = fd :: l | None => l' = l end).
  { apply open_first_fds. }
  intros [fd|] ?; [intros [Hfd ->]|intros ->; apply ghost_ret; by left].
  assert (forall fd (r : option string * string), 0 <= fd ->
    ghost fd_step (do xclose fd in ret r) (fd :: l) (fun r' l' => r' = r /\ l' = l)) as Hclose.
  { intros f r Hf. eapply ghost_bind; [by apply xclose_fds|]. intros _ ? ->. by apply ghost_ret. }
  eapply ghost_bind with (R1 := fun _ l' => l' = fd :: l);
    [eapply fd_lib; [apply path_append_at_lib|done]|].
  intros [ptr|] ? ->; [|eapply ghost_post; [by apply Hclose|]; intros ? ? [-> ->]; by left].
  eapply ghost_bind; [by apply resolve_loop_fds|].
  intros [fd' res] l' Hone. unfold holds_one in Hone. cbn [fst snd] in Hone.
  destruct Hone as [[Hfd' ->]|(-> & -> & d & ->)].
  - destruct res as [rp|]; [|eapply ghost_post; [by apply Hclose|]; intros ? ? [-> ->]; by left].
    eapply ghost_bind with (R1 := fun _ l' => l' = fd' :: l).
    { eapply fd_lib with (H := any_stop) (R := any); [|done]. pose proof path_append_at_lib.
      destruct full; [unfold path_join|]; unfold path_new, path_append; [ens|eauto]. }
    intros r ? ->. eapply ghost_post; [by apply Hclose|]. intros ? ? [-> ->]. destruct r; [done|by left].
  - apply ghost_ret. right. by exists d.
Qed.

(** ** What holds of every run *)

(** C7: whatever the file system answers, and however it changes meanwhile, a
    path that [path_resolve_full] returns is the root or lies below it, without
    ["."] or [".."] components, and fits [PATH_MAX]; the resolution changes
    nothing (it only opens, reads links and closes), and it always ends. *)
Theorem path_resolve_full_confined (o : env) (root path : string) (s : st) :
  Ascii.eqb (first_char root) "/" = true ->
  match exec o (path_resolve_full root path) s with
  | (t, Done (_, Some p)) => Forall (only [KLib; KRead]) t /\ strlen p < PATH_MAX /\ beneath root p
  | (t, Done (_, None)) => Forall (only [KLib; KRead]) t
  | (t, Halted w) => Forall (only [KLib; KRead]) t /\ w = Undefined "path_append: overflow"
  end.
Proof.
  intros Hr. pose proof (ensures_run o _ _ _ _ s (do_path_resolve_ens true root path)) as He.
  pose proof (ensures_run o _ _ _ _ s (do_path_resolve_total true root path Hr)) as Ht.
  unfold path_resolve_full. destruct (exec o _ s) as [t [[s' [p|]]|w]]; [|by destruct He..].
  destruct He as (? & ? & cs & Hcs & ->). split_and!; [done..|]. by exists cs.
Qed.

Definition plain_dirs : env := fun _ e =>
  match e return resp e with
  | EReadlinkat _ _ => SErr EINVAL
  | e => friendly e
  end.

Lemma path_resolve_full_confined_witness :
  exists p s, snd (exec plain_dirs (path_resolve_full "/ctr" "usr/../usr/./lib") init_st) =
              Done (s, Some p) /\ p = "/ctr/usr/lib" /\ beneath "/ctr" p.
Proof.
  pose proof (path_resolve_full_confined plain_dirs "/ctr" "usr/../usr/./lib" init_st eq_refl) as H.
  exists "/ctr/usr/lib". eexists. split; [vm_compute; reflexivity|]. split; [reflexivity|].
  destruct (exec plain_dirs (path_resolve_full "/ctr" "usr/../usr/./lib") init_st) as [t out] eqn:E.
  assert (out = snd (exec plain_dirs (path_resolve_full "/ctr" "usr/../usr/./lib") init_st)) as E2
    by by rewrite E.
  vm_compute in E2. subst out. apply H.
Defined.

(** [path_resolve] returns a path made of entries only, relative to the root
    it was given, whatever the file system answers. *)
Theorem path_resolve_normal (o : env) (root path : string) (s : st) :
  match exec o (path_resolve root path) s with
  | (t, Done (_, Some p)) => strlen p < PATH_MAX /\ exists cs, Forall normal cs /\ p = render cs
  | _ => True
  end.
Proof.
  pose proof (ensures_run o _ _ _ _ s (do_path_resolve_ens false root path)) as He.
  unfold path_resolve. destruct (exec o _ s) as [t [[s' [p|]]|w]]; [apply He|done..].
Qed.

(** The descriptors of a resolution are all closed when it succeeds; when it
    fails, one at most stays open (the directory a failing [openat] replaced). *)
Lemma path_resolve_closes (o : env) (full : bool) (root path : string) (s : st) (l : list Z) :
  match exec o (do_path_resolve full root path) s with
  | (t, Done (_, Some _)) => fold_left fd_step t l = l
  | (t, Done (_, None)) => fold_left fd_step t l = l \/ exists d, fold_left fd_step t l = d :: l
  | _ => True
  end.
Proof.
  pose proof (ghost_run fd_step o _ _ _ s (do_path_resolve_fds full root path l)) as Hg.
  destruct (exec o _ s) as [t [[s' [p|]]|w]]; done.
Qed.

Definition no_entry : env := fun hist e =>
  match e return resp e with
  | EReadlinkat _ _ => SErr EINVAL
  | EOpenat dir _ _ => if dir <? 0 then SOk 3%N else SErr ENOENT
  | e => friendly e
  end.

(** The descriptor does leak: an entry that disappears between [readlinkat]
    and [openat] leaves the directory open after the error is returned. *)
Theorem path_resolve_leaks :
  exists s, snd (exec no_entry (path_resolve "/ctr" "usr") init_st) = Done (s, None) /\
            fold_left fd_step (fst (exec no_entry (path_resolve "/ctr" "usr") init_st)) [] = [3].
Proof. eexists. split; vm_compute; reflexivity. Qed.

Fixpoint xs (n : nat) : string := match n with O => EmptyString | S n => String "x" (xs n) end.

Definition long_link : env := fun hist e =>
  match e return resp e with
  | EReadlinkat _ _ => SOk (String "/" (xs 4093))
  | e => friendly e
  end.

(** An absolute link of [PATH_MAX - 2] characters followed by one more
    component overflows the buffer of the link by one byte: the leading slash is
    skipped and the rest appended as if the whole buffer were left. *)
Theorem path_resolve_overflows :
  snd (exec long_link (path_resolve "/ctr" "a/b") init_st) = Halted (Undefined "path_append: overflow").
Proof. vm_compute. reflexivity. Qed.
