(* ===== verification/Files.v ===== *)
(** * Files, directories and the identity they are created with

    The file helpers of [src/src/utils.c] and its privilege helpers. *)
From S2P Require Import Prelude CString Effects Logic Errors Utils Types.

(** ** Modes *)

Definition S_IFMT : Z := 61440.
Definition S_IFDIR : Z := 16384.
Definition S_IFCHR : Z := 8192.
Definition S_IFREG : Z := 32768.
Definition S_IFLNK : Z := 40960.
Definition S_IWUSR : Z := 128.
Definition S_IXUSR : Z := 64.
Definition S_ISDIR (mode : Z) : bool := Z.land mode S_IFMT =? S_IFDIR.
Definition S_ISLNK (mode : Z) : bool := Z.land mode S_IFMT =? S_IFLNK.
Definition S_ISREG (mode : Z) : bool := Z.land mode S_IFMT =? S_IFREG.
Definition S_ISCHR (mode : Z) : bool := Z.land mode S_IFMT =? S_IFCHR.
Definition MODE_DIR (mode : Z) : Z := Z.lor S_IFDIR mode.
Definition MODE_LNK (mode : Z) : Z := Z.lor S_IFLNK mode.
Definition MODE_REG (mode : Z) : Z := Z.lor S_IFREG mode.
Definition MODE_CHR (mode : Z) : Z := Z.lor S_IFCHR mode.
Definition m777 : Z := 511.
Definition m755 : Z := 493.
Definition m644 : Z := 420.
Definition m555 : Z := 365.
Definition m600 : Z := 384.

(** [(uid_t)-1], [(gid_t)-1] *)
Definition ID_NONE : Z := 2 ^ 32 - 1.

(** ** Mapping *)

(** [file_map]: the bytes of the file; the mapping fails as a whole. *)
Definition file_map (path : string) : M (option (list Z)) :=
  let? fd := xopen path O_RDONLY else ret None in
  let* r := call (EMmap path) in
  let* p := trap r in
  do match p with
     | None => do error_set ("file mapping failed: " +:+ path) in ret tt
     | Some _ => ret tt
     end in
  do close fd in
  ret p.

Definition file_unmap (path : string) : M (option unit) :=
  let* r := call (EMunmap path) in
  let* rv := trap r in
  match rv with
  | Some _ => ret (Some tt)
  | None => do error_set ("file unmapping failed: " +:+ path) in ret None
  end.

(** ** Creation *)

Definition get_umask : M Z :=
  let* mask := call (EUmask 0) in
  do call (EUmask mask) in
  ret mask.

(** [set_fsugid]: [None] is the [-1] of the code, with [errno] set. *)
Definition set_fsugid (uid gid : Z) : M (option unit) :=
  do call (ESetfsgid gid) in
  let* g := call (ESetfsgid ID_NONE) in
  if negb (to_uint32 g =? gid) then do set_errno EPERM in ret None
  else
    do call (ESetfsuid uid) in
    let* u := call (ESetfsuid ID_NONE) in
    if negb (to_uint32 u =? uid) then do set_errno EPERM in ret None
    else
      let* r := call ECapGetProc in
      let? state := trap r else ret None in
      if bool_decide (CAP_DAC_OVERRIDE ∈ cap_permitted state) then
        let* r := call (ECapSetProc (mkCaps ({[CAP_DAC_OVERRIDE]} ∪ cap_effective state)
                                            (cap_permitted state) (cap_inheritable state))) in
        trap r
      else ret (Some tt).

(** [make_ancestors]; each call cuts the path at its last slash. *)
Fixpoint make_ancestors (fuel : nat) (path : string) (perm : Z) : M (option unit) :=
  match fuel with
  | O => halt OutOfFuel
  | S fuel =>
    if Ascii.eqb (first_char path) NUL || Ascii.eqb (first_char path) "." then ret (Some tt)
    else
      let* r := call (EStat path) in
      let* rv := trap r in
      match rv with
      | Some s =>
          if S_ISDIR (st_mode s) then ret (Some tt)
          else do set_errno ENOTDIR in ret None
      | None =>
          let* n := get_errno in
          if negb (n =? ENOENT) then ret None
          else
            let? _ := match strrchr path "/" with
                      | Some (parent, _) => make_ancestors fuel parent perm
                      | None => ret (Some tt)
                      end else ret None in
            let* r := call (EMkdir path perm) in
            trap r
      end
  end.

Fixpoint strip_slashes (s : string) : string :=
  match s with
  | EmptyString => EmptyString
  | String c s' =>
      match strip_slashes s' with
      | EmptyString => if Ascii.eqb c "/" then EmptyString else String c EmptyString
      | s'' => String c s''
      end
  end.

(** [dirname] of the C library. *)
Definition dirname (s : string) : string :=
  match strip_slashes s with
  | EmptyString =>
      if str_equal s EmptyString then "." else if str_equal s "//" then "//" else "/"
  | t =>
      match strrchr t "/" with
      | None => "."
      | Some (a, _) =>
          match strip_slashes a with
          | EmptyString => if str_equal a "/" then "//" else "/"
          | a' => a'
          end
      end
  end.

Definition file_mode (path : string) : M (option Z) :=
  let? s := xstat path else ret None in ret (Some (st_mode s)).

Definition file_mode_link (path : string) : M (option Z) :=
  let? s := xlstat path else ret None in ret (Some (st_mode s)).

(** The part of [file_create] between the two changes of identity. *)
Definition create_node (path : string) (data : option string) (mode : Z) : M (option unit) :=
  let* mask := get_umask in
  let perm := Z.lor (Z.lor (Z.land m777 (Z.lnot mask)) S_IWUSR) S_IXUSR in
  let dir := dirname path in
  let? _ := make_ancestors (S (String.length dir)) dir perm else ret None in
  let* mask := get_umask in
  let perm := Z.land (Z.land m777 (Z.lnot mask)) mode in
  if S_ISDIR mode then
    let* r := call (EMkdir path perm) in
    let* rv := trap r in
    match rv with
    | Some _ => ret (Some tt)
    | None => let* n := get_errno in
              if n =? EEXIST then ret (Some tt) else ret None
    end
  else if S_ISLNK mode then
    match data with
    | None => do set_errno EINVAL in ret None
    | Some target =>
        let* r := call (ESymlink target path) in
        let* rv := trap r in
        match rv with
        | Some _ => ret (Some tt)
        | None => let* n := get_errno in
                  if n =? EEXIST then ret (Some tt) else ret None
        end
    end
  else
    let flags := Z.lor O_NOFOLLOW O_CREAT in
    let flags := match data with
                 | Some _ => Z.lor flags (Z.lor O_WRONLY O_TRUNC)
                 | None => flags
                 end in
    let* r := call (ECreat path flags perm) in
    let* fd := trap r in
    match fd with
    | None => let* n := get_errno in
              do (if n =? ELOOP then set_errno EEXIST else ret tt) in ret None
    | Some fd =>
        let fd := Z.of_N fd in
        match data with
        | None => do close fd in ret (Some tt)
        | Some data =>
            let* r := call (EWrite fd data) in
            let* n := trap r in
            do close fd in
            match n with
            | Some n => if n <? strlen data then ret None else ret (Some tt)
            | None => ret None
            end
        end
    end.

Definition file_create (path : string) (data : option string) (uid gid mode : Z)
  : M (option unit) :=
  let* skip := match data with
               | None => let* perm := file_mode path in
                         ret (match perm with Some perm => perm =? mode | None => false end)
               | Some _ => ret false
               end in
  if skip : bool then ret (Some tt)
  else
    let? _ := xstrdup path else ret None in
    let* euid := call EGeteuid in
    let* egid := call EGetegid in
    let* rv := (let? _ := set_fsugid uid gid else ret None in create_node path data mode) in
    do match rv with
       | None => do error_set ("file creation failed: " +:+ path) in ret tt
       | Some _ => ret tt
       end in
    let* r := set_fsugid euid egid in
    match r with
    | None => halt Assertion
    | Some _ => ret rv
    end.

(** ** Removal *)

Definition do_file_remove (e : ftw_entry) : M (option unit) :=
  let path := f_path e in
  match f_flag e with
  | FTW_NS | FTW_DNR => ret None
  | FTW_DP =>
      let* r := call (ERmdir path) in
      let* rv := trap r in
      match rv with
      | Some _ => ret (Some tt)
      | None => let* n := get_errno in
                if n =? ENOTEMPTY then ret (Some tt) else ret None
      end
  | FTW_F =>
      if f_size e =? 0 then let* r := call (EUnlink path) in trap r else ret (Some tt)
  | FTW_SL =>
      let* r := call (EStat path) in
      let* sl := trap r in
      let* n := get_errno in
      match sl with
      | None =>
          if n =? ENOENT then let* r := call (EUnlink path) in trap r else ret None
      | Some sl =>
          if st_size sl =? 0 then let* r := call (EUnlink path) in trap r else ret (Some tt)
      end
  | FTW_D | FTW_SLN => ret (Some tt)
  end.

(** [file_remove]: [nftw] visits the entries it finds, the content of a
    directory before it, until the callback fails. *)
Definition file_remove (path : string) : M (option unit) :=
  let* r := call (ENftw path) in
  let* entries := trap r in
  let* rv := match entries with
             | None => ret None
             | Some l => iterM do_file_remove l
             end in
  match rv with
  | Some _ => ret (Some tt)
  | None => do error_set ("file removal failed: " +:+ path) in ret None
  end.

(** ** Queries *)

(** [-1] is [None]; otherwise whether the file is there. *)
Definition file_exists (path : string) : M (option bool) :=
  let* r := call (EAccess path) in
  let* rv := trap r in
  match rv with
  | Some _ => ret (Some true)
  | None =>
      let* n := get_errno in
      if negb (n =? ENOENT) then
        do error_set ("file lookup failed: " +:+ path) in ret None
      else ret (Some false)
  end.

Definition file_exists_at (dir path : string) : M (option bool) :=
  let? fd := xopen dir (Z.lor O_PATH O_DIRECTORY) else ret None in
  let* r := call (EFaccessat fd (if Ascii.eqb (first_char path) "/" then str_drop 1 path else path)) in
  let* rv := trap r in
  match rv with
  | Some _ => do close fd in ret (Some true)
  | None =>
      let* n := get_errno in
      if negb (n =? ENOENT) then
        do error_set ("file lookup failed: " +:+ path) in
        do close fd in ret None
      else do close fd in ret (Some false)
  end.

(** ** Reading *)

(** The bytes of a stream. *)
Definition s_text (f : stream) : string := String.concat EmptyString (s_lines f).

(** What [fgets(buf, size, fs)] puts in [buf]. *)
Definition fgets (size : Z) (f : stream) : option string :=
  match s_lines f with
  | [] => None
  | l :: _ => Some (str_take (Z.to_nat (size - 1)) l)
  end.

Definition file_read_line (path : string) (size : Z) : M (option string) :=
  let? fs := xfopen path "r" else ret None in
  match fgets size fs with
  | Some buf => ret (Some buf)
  | None =>
      if negb (s_error fs) then ret (Some EmptyString)
      else do error_setx ("file read error: " +:+ path) in ret None
  end.

(** The part of a buffer a C string function sees. *)
Definition c_str (buf : string) : string := str_take (strcspn buf (String NUL EmptyString)) buf.

(** The [fread] loop of [file_read_text], by chunks of [n] bytes. *)
Fixpoint read_chunks (fuel : nat) (n : nat) (rest : string) (txt : option string)
  : M (option (option string)) :=
  match fuel with
  | O => halt OutOfFuel
  | S fuel =>
      match rest with
      | EmptyString => ret (Some txt)
      | _ =>
          let? txt' := str_join txt (c_str (str_take n rest)) EmptyString else ret None in
          read_chunks fuel n (str_drop n rest) (Some txt')
      end
  end.

(** [file_read_text]: the text, [NULL] for an empty file. *)
Definition file_read_text (path : string) : M (option (option string)) :=
  let? fs := xfopen path "r" else ret None in
  let? txt := read_chunks (S (String.length (s_text fs))) 511 (s_text fs) None else ret None in
  if negb (s_error fs) then ret (Some txt)
  else do error_setx ("file read error: " +:+ path) in ret None.

(** [file_read_uint32]: [fscanf] with [%u]. *)
Definition file_read_uint32 (path : string) : M (option Z) :=
  let? fs := xfopen path "r" else ret None in
  match scan_number (s_text fs) with
  | Some _ => ret (Some (to_uint32 (fst (strtoumax (s_text fs)))))
  | None => do error_setx ("file read error: " +:+ path) in ret None
  end.

(** ** Privileges *)

Definition PROC_LAST_CAP_PATH : string := "/proc/sys/kernel/cap_last_cap".
(** The last capability of the headers the program is built with. *)
Definition CAP_LAST_CAP : Z := 40.

Definition perm_drop_privileges (uid gid : Z) (drop_groups : bool) : M (option unit) :=
  let fail := do error_set "privilege change failed" in ret None in
  let* euid := call EGeteuid in
  let* egid := call EGetegid in
  let setgroups1 := let* r := call (ESetgroups gid) in trap r in
  let? _ :=
    (if drop_groups then
       let* r := call EGetgroups in
       let? l := trap r else ret None in
       match l with
       | [] => ret (Some tt)
       | [_] =>
           let* r := call EGetgroups in
           let? l := trap r else ret None in
           match l with
           | [] => halt (Undefined "egroup is not initialised")
           | [egroup] => if egroup =? gid then ret (Some tt) else setgroups1
           | _ => do set_errno EINVAL in ret None  (* more groups than the buffer holds *)
           end
       | _ => setgroups1
       end
     else ret (Some tt)) else fail in
  let? _ := (if negb (egid =? gid) then let* r := call (ESetregid gid gid) in trap r
             else ret (Some tt)) else fail in
  let? _ := (if negb (euid =? uid) then let* r := call (ESetreuid uid uid) in trap r
             else ret (Some tt)) else fail in
  let* bad_gid := (if negb (egid =? gid) then let* g := call EGetegid in ret (negb (g =? gid))
                   else ret false) in
  let* bad := (if bad_gid : bool then ret true
               else if negb (euid =? uid) then let* u := call EGeteuid in ret (negb (u =? uid))
               else ret false) in
  if bad : bool then do set_errno EPERM in fail
  else
    let* r := call (EPrctl "PR_SET_NO_NEW_PRIVS" 1) in
    let* rv := trap r in
    match rv with
    | None => fail
    | Some _ => ret (Some tt)
    end.

(** One turn of the loop of [perm_set_bounds]. *)
Definition drop_bound (caps : list Z) (c : Z) : M (option unit) :=
  if existsb (Z.eqb c) caps then ret (Some tt)
  else
    let* r := call (EPrctl "PR_CAPBSET_READ" c) in
    let* rv := trap r in
    if match rv with Some n => 0 <? n | None => false end then
      let* r := call (EPrctl "PR_CAPBSET_DROP" c) in
      let* rv := trap r in
      match rv with
      | None => do error_set "capability change failed" in ret None
      | Some _ => ret (Some tt)
      end
    else ret (Some tt).

Definition perm_set_bounds (caps : list Z) : M (option unit) :=
  let? n := file_read_uint32 PROC_LAST_CAP_PATH else ret None in
  let n := to_int32 n in
  let last_cap := if (0 <=? n) && (CAP_LAST_CAP <? n) then n else CAP_LAST_CAP in
  let? _ := iterM (drop_bound caps) (seqZ 0 (last_cap + 1)) else ret None in
  if last_cap =? 2 ^ 31 - 1 then halt (Undefined "signed overflow") else ret (Some tt).

(** [cap_clear_flag] and [cap_set_flag(..., CAP_SET)], in memory. *)
Definition set_flag (type : cap_flag) (v : gset Z) (c : cap_state) : cap_state :=
  match type with
  | CAP_EFFECTIVE => mkCaps v (cap_permitted c) (cap_inheritable c)
  | CAP_PERMITTED => mkCaps (cap_effective c) v (cap_inheritable c)
  | CAP_INHERITABLE => mkCaps (cap_effective c) (cap_permitted c) v
  | CAP_AMBIENT => c
  end.

Definition perm_set_capabilities (type : cap_flag) (caps : list Z) : M (option unit) :=
  let fail := do error_set "capability change failed" in ret None in
  let ambient (op : string) (c : Z) : M (option unit) :=
    let* r := call (EPrctl op c) in
    let* rv := trap r in
    match rv with
    | Some _ => ret (Some tt)
    | None => let* n := get_errno in if n =? EINVAL then ret (Some tt) else ret None
    end in
  match type with
  | CAP_AMBIENT =>
      let? _ := ambient "PR_CAP_AMBIENT_CLEAR_ALL" 0 else fail in
      let? _ := iterM (ambient "PR_CAP_AMBIENT_RAISE") caps else fail in
      ret (Some tt)
  | _ =>
      let* r := call ECapGetProc in
      let? state := trap r else fail in
      let state := set_flag type (list_to_set caps) state in
      let state :=
        match type with
        | CAP_PERMITTED =>
            let tmp := state in
            fold_left (fun st c =>
                         if bool_decide (c ∈ cap_effective tmp)
                         then set_flag CAP_EFFECTIVE ({[c]} ∪ cap_effective st) st
                         else set_flag CAP_EFFECTIVE (cap_effective st ∖ {[c]}) st)
                      caps (set_flag CAP_EFFECTIVE ∅ state)
        | _ => state
        end in
      let* r := call (ECapSetProc state) in
      let* rv := trap r in
      match rv with
      | None => fail
      | Some _ => ret (Some tt)
      end
  end.

(** ** Which files are touched *)

(** [q] is [p] or one of its parent directories. *)
Definition on_path (q p : string) : Prop :=
  exists r, p = q +:+ r /\
    (r = EmptyString \/ first_char r = "/"%char \/ last_char q = "/"%char).

Lemma on_path_refl p : on_path p p.
Proof. exists EmptyString. rewrite string_app_empty_r. auto. Qed.

Lemma on_path_parent (q a b p : string) :
  strrchr q "/" = Some (a, b) -> on_path q p -> on_path a p.
Proof.
  intros [-> Hb]%strrchr_Some (r & -> & _). exists (b +:+ r). rewrite string_app_assoc.
  split; [done|]. right; left. destruct Hb as (b' & -> & _). done.
Qed.

Lemma strip_slashes_prefix (s : string) :
  exists r, s = strip_slashes s +:+ r /\ (r = EmptyString \/ first_char r = "/"%char).
Proof.
  induction s as [|c s (r & Hs & Hr)]; [exists EmptyString; auto|]. simpl.
  destruct (strip_slashes s) as [|c' s'] eqn:E.
  - destruct (Ascii.eqb_spec c "/") as [->|]; simpl in *.
    + exists (String "/" s). auto.
    + exists r. subst s. auto.
  - exists r. simpl in *. by rewrite Hs at 1.
Qed.

Lemma first_char_app (a b : string) (c : ascii) :
  a = EmptyString \/ first_char a = c -> first_char b = c -> first_char (a +:+ b) = c.
Proof. intros [->|Ha] Hb; [done|]. by destruct a; simpl in *. Qed.

Lemma first_char_slash (s : string) :
  first_char s = "/"%char -> on_path "/" s.
Proof.
  destruct s as [|c s]; simpl; [done|]. intros ->. exists s. auto.
Qed.

Lemma dirname_on_path (s : string) : dirname s = "." \/ on_path (dirname s) s.
Proof.
  unfold dirname, str_equal. destruct (strip_slashes_prefix s) as (r & Hs & Hr).
  destruct (strip_slashes s) as [|c t] eqn:Et.
  - simpl in Hs. subst r. destruct (String.eqb_spec s EmptyString) as [->|]; [by left|]. right.
    destruct (String.eqb_spec s "//") as [->|]; [apply on_path_refl|].
    apply first_char_slash. by destruct Hr.
  - destruct (strrchr (String c t) "/") as [[a b]|] eqn:Ea; [|by left]. right.
    apply strrchr_Some in Ea as (Ea & b' & -> & _). rewrite Ea, string_app_assoc in Hs. clear Et.
    destruct (strip_slashes_prefix a) as (ra & Ha & Hra).
    destruct (strip_slashes a) as [|c' a'].
    + simpl in Ha. subst ra. destruct (String.eqb_spec a "/") as [->|].
      * subst s. exists (b' +:+ r). auto.
      * apply first_char_slash. subst s. by apply first_char_app.
    + exists (ra +:+ String "/" b' +:+ r). split; [by rewrite Hs, Ha at 1; rewrite string_app_assoc|].
      right; left. by apply first_char_app.
Qed.

(** The calls about the identity used on the file system and the capability that
    goes with it. *)
Definition fs_ids (ev : event) : Prop :=
  match ev_call ev with
  | EGeteuid | EGetegid | ESetfsuid _ | ESetfsgid _ | ECapGetProc | ECapSetProc _ => True
  | _ => False
  end.

(** What [file_create] may do besides allocating and reading: make [path], make
    directories above it, never through a link at [path] itself, and change the
    identity used on the file system. *)
Definition creates_below (path : string) (ev : event) : Prop :=
  match ev_call ev with
  | EMkdir q _ => on_path q path
  | ECreat q flags _ => q = path /\ Z.testbit flags 17 = true
  | ESymlink _ q => q = path
  | EWrite _ _ => True
  | e => match kind_of e with KWrite => match e with EUmask _ => True | _ => False end
                            | KLib | KRead => True
                            | KCred => fs_ids ev
                            | _ => False end
  end.

Lemma creates_below_lib1 path ev : only [KLib] ev -> creates_below path ev.
Proof. destruct ev as [[] ?]; done. Qed.
Lemma creates_below_lib2 path ev : only [KLib; KRead] ev -> creates_below path ev.
Proof. destruct ev as [[] ?]; done. Qed.
Lemma creates_below_read path ev : only [KRead] ev -> creates_below path ev.
Proof. destruct ev as [[] ?]; done. Qed.
#[export] Hint Resolve creates_below_lib1 creates_below_lib2 creates_below_read : ens.

Lemma make_ancestors_ens (fuel : nat) (q path : string) perm :
  (String.length q < fuel)%nat -> q = "." \/ on_path q path ->
  ensures (creates_below path) no_stop (make_ancestors fuel q perm) any.
Proof.
  revert q. induction fuel as [|fuel IH]; intros q Hf Hq; [lia|]. cbn [make_ancestors].
  destruct (_ || _) eqn:E0; [ens|]. destruct Hq as [->|Hq]; [done|].
  ens_step. ens_step. destruct a0; [ens|]. ens_step. destruct (negb _); [ens|].
  eapply ensures_bind with (R := any).
  - destruct (strrchr q "/") as [[a' b]|] eqn:E; [|ens]. apply IH.
    + apply strrchr_Some in E as (-> & b' & -> & _). rewrite string_length_app in Hf. simpl in Hf. lia.
    + right. by eapply on_path_parent.
  - intros [] _; ens.
Qed.

Lemma get_umask_ens : ensures (creates_below EmptyString) no_stop get_umask any.
Proof. unfold get_umask. ens. Qed.

Lemma set_fsugid_ens u g : ensures fs_ids no_stop (set_fsugid u g) any.
Proof. unfold set_fsugid. ens; done. Qed.

Lemma create_node_ens (path : string) (data : option string) (mode : Z) :
  ensures (creates_below path) no_stop (create_node path data mode) any.
Proof.
  assert (ensures (creates_below path) no_stop get_umask any) as Hu by (unfold get_umask; ens).
  pose proof (make_ancestors_ens (S (String.length (dirname path))) (dirname path) path) as Ha.
  assert (forall perm, ensures (creates_below path) no_stop
            (make_ancestors (S (String.length (dirname path))) (dirname path) perm) any) as Ha'.
  { intros perm. apply Ha; [lia|apply dirname_on_path]. }
  clear Ha. pose proof (on_path_refl path). unfold create_node.
  destruct data; ens.
Qed.
#[export] Hint Resolve set_fsugid_ens create_node_ens : ens.

Lemma file_mode_ens path : ensures (only [KLib; KRead]) no_stop (file_mode path) any.
Proof. unfold file_mode. ens. Qed.
Lemma file_mode_link_ens path : ensures (only [KLib; KRead]) no_stop (file_mode_link path) any.
Proof. unfold file_mode_link. ens. Qed.
#[export] Hint Resolve file_mode_ens file_mode_link_ens : ens.

(** A failed [assert] is the only way not to return. *)
Definition assert_only (w : stop) : Prop := w = Assertion.

Lemma creates_below_ids path ev : fs_ids ev -> creates_below path ev.
Proof. destruct ev as [[] ?]; done. Qed.
#[export] Hint Resolve creates_below_ids : ens.

Lemma file_create_ens path data uid gid mode :
  ensures (creates_below path) assert_only (file_create path data uid gid mode) any.
Proof. unfold file_create. ens. Qed.

Lemma creates_below_kinds path ev : creates_below path ev -> only [KLib; KRead; KWrite; KCred] ev.
Proof. destruct ev as [[] ?]; done. Qed.

(** The identity files are created with, as the kernel last reported it, and the
    effective identity. *)
Record fsids := mkIds { g_euid : Z; g_egid : Z; g_fsuid : Z; g_fsgid : Z }.
Definition ids_step (g : fsids) (ev : event) : fsids :=
  match ev with
  | Event EGeteuid r => mkIds r (g_egid g) (g_fsuid g) (g_fsgid g)
  | Event EGetegid r => mkIds (g_euid g) r (g_fsuid g) (g_fsgid g)
  | Event (ESetfsuid _) r => mkIds (g_euid g) (g_egid g) (to_uint32 r) (g_fsgid g)
  | Event (ESetfsgid _) r => mkIds (g_euid g) (g_egid g) (g_fsuid g) (to_uint32 r)
  | _ => g
  end.

Lemma set_fsugid_ids uid gid g :
  ghost ids_step (set_fsugid uid gid) g
    (fun r g' => g_euid g' = g_euid g /\ g_egid g' = g_egid g /\
                 match r with Some _ => g_fsuid g' = uid /\ g_fsgid g' = gid | None => True end).
Proof.
  unfold set_fsugid. repeat gstep; subst; simpl; bool_hyps; auto.
Qed.

Lemma create_node_quiet path data mode :
  ensures (only [KLib; KRead; KWrite]) no_stop (create_node path data mode) any.
Proof.
  assert (ensures (only [KWrite]) no_stop get_umask any) as Hu by (unfold get_umask; ens).
  assert (forall fuel q perm, (String.length q < fuel)%nat ->
    ensures (only [KLib; KRead; KWrite]) no_stop (make_ancestors fuel q perm) any) as Ha.
  { induction fuel as [|fuel IH]; intros q perm Hf; [lia|]. cbn [make_ancestors].
    destruct (_ || _); [ens|]. ens_step. ens_step. destruct a0; [ens|]. ens_step. destruct (negb _); [ens|].
    eapply ensures_bind with (R := any); [|intros [] _; ens].
    destruct (strrchr q "/") as [[a' b]|] eqn:E; [|ens]. apply IH.
    apply strrchr_Some in E as (-> & b' & -> & _). rewrite string_length_app in Hf. simpl in Hf. lia. }
  unfold create_node. ens_step. eapply ensures_bind with (R := any); [apply Ha; lia|].
  intros [] _; [|ens]. destruct data; ens.
Qed.

Lemma file_create_ids path data uid gid mode g :
  ghost ids_step (file_create path data uid gid mode) g
    (fun _ g' => (g_fsuid g' = g_fsuid g /\ g_fsgid g' = g_fsgid g) \/
                 (g_fsuid g' = g_euid g' /\ g_fsgid g' = g_egid g')).
Proof.
  unfold file_create. eapply ghost_bind with (R1 := fun _ g' => g' = g).
  { destruct data; repeat gstep; auto. }
  intros [] ? ->; [gstep; auto|].
  eapply ghost_bind_ignored; [apply xstrdup_ens|ignored|]. intros [] _; [|gstep; auto].
  gstep. gstep. eapply ghost_bind with (R1 := fun _ g' => g_euid g' = r /\ g_egid g' = r0).
  { eapply ghost_bind; [apply set_fsugid_ids|]. intros [[]|] g' (? & ? & _); [|by gstep].
    eapply ghost_ensures; [apply create_node_quiet|ignored|]. by intros. }
  intros rv g' [Hu Hg].
  eapply ghost_bind with (R1 := fun _ g' => g_euid g' = r /\ g_egid g' = r0).
  { destruct rv; [by gstep|]. gstep. by gstep. }
  intros _ g2 [Hu2 Hg2]. eapply ghost_bind; [apply set_fsugid_ids|].
  intros [[]|] g3 (H1 & H2 & H3); [|apply ghost_halt]. gstep. right. destruct H3. split; congruence.
Qed.

(** *** Removal *)

(** What the callback may remove: empty files, links that dangle or point to an
    empty file, directories after their content. *)
Definition removes (e : ftw_entry) (ev : event) : Prop :=
  match ev_call ev with
  | EUnlink q => q = f_path e /\ (f_flag e = FTW_SL \/ (f_flag e = FTW_F /\ f_size e = 0))
  | ERmdir q => q = f_path e /\ f_flag e = FTW_DP
  | EStat q => q = f_path e
  | _ => False
  end.

Lemma do_file_remove_ens (e : ftw_entry) : ensures (removes e) no_stop (do_file_remove e) any.
Proof.
  destruct e as [p [] n]; unfold do_file_remove, f_path, f_flag, f_size; ens; bool_hyps;
    unfold removes; cbn; intros; auto.
Qed.

Lemma do_file_remove_kinds (e : ftw_entry) : ensures (only [KRead; KWrite]) no_stop (do_file_remove e) any.
Proof.
  eapply ensures_weaken; [apply do_file_remove_ens|intros [[] ?]; done|done|done].
Qed.

Lemma file_remove_ens path : ensures (only [KLib; KRead; KWrite]) no_stop (file_remove path) any.
Proof.
  unfold file_remove. ens_step. ens_step. eapply ensures_bind with (R := any).
  - destruct a0; [|ens]. apply ensures_iterM. intros e _.
    eapply ensures_weaken; [apply do_file_remove_kinds|intros ?; by apply only_mono|done|done].
  - intros [[]|] _; ens.
Qed.

(** *** Queries and reading *)

Lemma file_exists_ens path : ensures (only [KLib; KRead]) no_stop (file_exists path) any.
Proof. unfold file_exists. ens. Qed.
Lemma file_exists_at_ens dir path : ensures (only [KLib; KRead]) no_stop (file_exists_at dir path) any.
Proof. unfold file_exists_at. ens. Qed.
Lemma file_read_line_ens path size :
  ensures (only [KLib; KRead]) no_stop (file_read_line path size)
    (fun r => match r with Some s => strlen s <= Z.max 0 (size - 1) | None => True end).
Proof.
  unfold file_read_line. ens; [|change (strlen EmptyString) with 0; lia]. unfold fgets in *. case_hyp; simplify_eq.
  unfold strlen. rewrite str_take_length. lia.
Qed.
Lemma file_map_ens path : ensures (only [KLib; KRead]) no_stop (file_map path) any.
Proof. unfold file_map. ens. Qed.
Lemma file_unmap_ens path : ensures (only [KLib; KRead]) no_stop (file_unmap path) any.
Proof. unfold file_unmap. ens. Qed.
Lemma file_read_uint32_ens path :
  ensures (only [KLib; KRead]) no_stop (file_read_uint32 path)
    (fun r => match r with Some n => 0 <= n < 2 ^ 32 | None => True end).
Proof. unfold file_read_uint32. ens. apply uint_wrap_range. lia. Qed.
#[export] Hint Resolve file_remove_ens file_exists_ens file_exists_at_ens file_read_line_ens
  file_map_ens file_unmap_ens file_read_uint32_ens : ens.

Lemma c_str_id (s : string) : c_string s -> c_str s = s.
Proof.
  intros Hs. unfold c_str, c_string in *. induction s as [|c s IH]; [done|]. simpl in *.
  apply orb_false_elim in Hs as [Hc Hs]. rewrite Ascii.eqb_sym, Hc. simpl. by rewrite IH.
Qed.

Lemma c_string_app a b : c_string (a +:+ b) <-> c_string a /\ c_string b.
Proof. unfold c_string. rewrite str_mem_app. apply orb_false_iff. Qed.

Lemma read_chunks_ens (fuel n : nat) (rest : string) (txt : option string) :
  (0 < n)%nat -> (String.length rest < fuel)%nat -> c_string rest ->
  match txt with Some s => c_string s /\ s <> EmptyString | None => True end ->
  ensures (only [KLib]) no_stop (read_chunks fuel n rest txt)
    (fun r => match r with
              | None => True
              | Some t => t = match rest with
                              | EmptyString => txt
                              | _ => Some (default EmptyString txt +:+ rest)
                              end
              end).
Proof.
  intros Hn. revert rest txt. induction fuel as [|fuel IH]; intros rest txt Hf Hr Ht; [lia|].
  cbn [read_chunks]. destruct rest as [|c rest]; [ens|].
  remember (String c rest) as rest0 eqn:E0. 
  assert (c_string (str_take n rest0) /\ c_string (str_drop n rest0)) as [H1 H2].
  { apply c_string_app. by rewrite str_take_drop. }
  assert (0 < String.length rest0)%nat as Hl by (subst rest0; simpl; lia). 
  rewrite c_str_id by done.
  eapply ensures_bind; [apply str_join_ens; destruct txt; [by destruct Ht|done]|].
  intros [t'|]; [|intros _; ens]. intros Et.
  assert (t' = default EmptyString txt +:+ str_take n rest0) as ->.
  { rewrite Et. destruct txt as [[|a s]|]; [by destruct Ht|done|done]. }
  eapply ensures_post; [apply IH|].
  - rewrite str_drop_length. lia.
  - done.
  - split; [apply c_string_app; split; [|done]; destruct txt; [by destruct Ht|done]|].
    destruct n as [|n]; [lia|]. destruct txt as [[|a s]|]; subst rest0; [by destruct Ht|done|done].
  - intros [t|]; [|done]. intros ->. simpl.
    destruct (str_drop n rest0) as [|d ds] eqn:Ed.
    + do 2 f_equal. rewrite <- (str_take_drop n rest0) at 2. by rewrite Ed, string_app_empty_r.
    + f_equal. rewrite string_app_assoc. f_equal. rewrite <- Ed. apply str_take_drop.
Qed.

Lemma c_str_c (s : string) : c_string (c_str s).
Proof.
  unfold c_str, c_string. induction s as [|c s IH]; [done|]. cbn [strcspn]. destruct (str_mem c (String NUL EmptyString)) eqn:E; [done|].
  cbn [str_take str_mem]. rewrite IH, orb_false_r. simpl in E. by rewrite orb_false_r, Ascii.eqb_sym in E.
Qed.

(** The text may hold a NUL; reading ends all the same. *)
Lemma read_chunks_any (fuel n : nat) (rest : string) (txt : option string) :
  (0 < n)%nat -> (String.length rest < fuel)%nat -> match txt with Some s => c_string s | None => True end ->
  ensures (only [KLib]) no_stop (read_chunks fuel n rest txt) any.
Proof.
  intros Hn. revert rest txt. induction fuel as [|fuel IH]; intros rest txt Hf Ht; [lia|].
  cbn [read_chunks]. destruct rest as [|c rest]; [ens|]. eapply ensures_bind; [by apply str_join_ens|].
  intros [t'|]; [|intros _; ens]. intros Et. apply IH.
  - rewrite str_drop_length. simpl in *. lia.
  - rewrite Et. pose proof (c_str_c (str_take n (String c rest))). destruct txt as [[|a s]|]; [done| |done].
    by apply c_string_app.
Qed.

Lemma file_read_text_ens path : ensures (only [KLib; KRead]) no_stop (file_read_text path) any.
Proof.
  unfold file_read_text. ens_step. destruct a as [fs|]; [|ens]. eapply ensures_bind with (R := any).
  { eapply ensures_weaken; [apply read_chunks_any; [lia|lia|done]|intros ?; by apply only_mono|done|done]. }
  intros [txt|] _; ens.
Qed.
#[export] Hint Resolve file_read_text_ens : ens.

(** *** Privileges *)

Record privs := mkPrivs { p_uid : Z; p_gid : Z; p_groups : list Z; p_nnp : bool }.

(** What the kernel reported or accepted last. *)
Definition priv_step (g : privs) (ev : event) : privs :=
  match ev with
  | Event EGeteuid r => mkPrivs r (p_gid g) (p_groups g) (p_nnp g)
  | Event EGetegid r => mkPrivs (p_uid g) r (p_groups g) (p_nnp g)
  | Event (ESetreuid _ e) (SOk _) => mkPrivs e (p_gid g) (p_groups g) (p_nnp g)
  | Event (ESetregid _ e) (SOk _) => mkPrivs (p_uid g) e (p_groups g) (p_nnp g)
  | Event EGetgroups (SOk l) => mkPrivs (p_uid g) (p_gid g) l (p_nnp g)
  | Event (ESetgroups gid) (SOk _) => mkPrivs (p_uid g) (p_gid g) [gid] (p_nnp g)
  | Event (EPrctl op 1) (SOk _) =>
      if (op =? "PR_SET_NO_NEW_PRIVS")%string then mkPrivs (p_uid g) (p_gid g) (p_groups g) true
      else g
  | _ => g
  end.

Lemma perm_drop_privileges_ghost uid gid drop_groups g :
  ghost priv_step (perm_drop_privileges uid gid drop_groups) g
    (fun r g' => match r with
                 | Some _ => p_uid g' = uid /\ p_gid g' = gid /\ p_nnp g' = true /\
                     (drop_groups = true -> p_groups g' = [] \/ p_groups g' = [gid])
                 | None => True
                 end).
Proof.
  unfold perm_drop_privileges. repeat (gstep; subst; bool_hyps; subst; try done);
    split_and!; simpl; try done; auto.
Qed.

Lemma drop_bound_ens caps c : ensures (only [KLib; KCred]) no_stop (drop_bound caps c) any.
Proof. unfold drop_bound. ens. Qed.
#[export] Hint Resolve drop_bound_ens : ens.

(** The capabilities the kernel said are not in the bounding set, or dropped. *)
Definition bset_step (g : gset Z) (ev : event) : gset Z :=
  match ev with
  | Event (EPrctl op c) r =>
      if (op =? "PR_CAPBSET_READ")%string then
        match r with SOk n => if 0 <? n then g else {[c]} ∪ g | SErr _ => {[c]} ∪ g end
      else if (op =? "PR_CAPBSET_DROP")%string then
        match r with SOk _ => {[c]} ∪ g | SErr _ => g end
      else g
  | _ => g
  end.

Lemma drop_bound_ghost caps c g :
  ghost bset_step (drop_bound caps c) g
    (fun r g' => match r with Some _ => g ⊆ g' /\ (c ∉ caps -> c ∈ g') | None => True end).
Proof.
  unfold drop_bound. repeat gstep; try done; simpl in *; simplify_eq;
    try (rewrite Heqb0 in *); try (split; [set_solver|intros; set_solver]).
  split; [done|]. intros Hc. exfalso. apply Hc, list_elem_of_In.
  apply existsb_exists in Heqb as (x & Hx & ->%Z.eqb_eq). done.
Qed.

Lemma perm_set_bounds_ghost caps g :
  ghost bset_step (perm_set_bounds caps) g
    (fun r g' => match r with
                 | Some _ => forall c, 0 <= c <= CAP_LAST_CAP -> c ∉ caps -> c ∈ g'
                 | None => True
                 end).
Proof.
  unfold perm_set_bounds. gstep. destruct a as [n|]; [|by gstep].
  cbv zeta. set (last := if (0 <=? to_int32 n) && (CAP_LAST_CAP <? to_int32 n) then to_int32 n
                         else CAP_LAST_CAP).
  assert (CAP_LAST_CAP <= last) as Hl.
  { subst last. destruct (_ && _) eqn:E; [|lia]. bool_hyps. lia. }
  eapply ghost_bind; [apply (ghost_iterM _ _ _
    (fun (l : list Z) (g' : gset Z) => forall c : Z, c ∈ l -> c ∉ caps -> c ∈ g') (fun _ => True))|].
  - intros l c g' _ HI. eapply ghost_post; [apply drop_bound_ghost|].
    intros [[]|] g2; [|done]. intros [Hs Hc] c' [Hc'|Hc'%list_elem_of_singleton]%elem_of_app Hn.
    + by apply Hs, HI.
    + subst. auto.
  - intros c Hc. by apply not_elem_of_nil in Hc.
  - intros [[]|] g' Hg; [|by gstep]. gstep; [apply ghost_halt|]. gstep.
    intros c Hc Hn. apply Hg; [|done]. apply elem_of_seqZ. lia.
Qed.

(** Raising in [CAP_EFFECTIVE] what [tmp] has there, capability by capability. *)
Lemma raise_effective (caps : list Z) (tmp st : cap_state) :
  fold_left (fun st c =>
               if bool_decide (c ∈ cap_effective tmp)
               then set_flag CAP_EFFECTIVE ({[c]} ∪ cap_effective st) st
               else set_flag CAP_EFFECTIVE (cap_effective st ∖ {[c]}) st)
            caps st
  = mkCaps ((cap_effective st ∖ list_to_set caps) ∪ (list_to_set caps ∩ cap_effective tmp))
           (cap_permitted st) (cap_inheritable st).
Proof.
  revert st. induction caps as [|c caps IH]; intros st; simpl.
  - destruct st as [e p i]. simpl. f_equal. set_solver.
  - rewrite IH. case_bool_decide; simpl; f_equal; apply leibniz_equiv; intros x;
      destruct (decide (x = c)), (decide (x ∈ caps)), (decide (x ∈ cap_effective tmp)); set_solver.
Qed.

(** What [perm_set_capabilities] asks the kernel for, from the state it read. *)
Definition caps_wanted (type : cap_flag) (caps : list Z) (c : cap_state) : cap_state :=
  match type with
  | CAP_PERMITTED => mkCaps (list_to_set caps ∩ cap_effective c) (list_to_set caps) (cap_inheritable c)
  | _ => set_flag type (list_to_set caps) c
  end.

(** The capability state that was read last, and the one in force. *)
Definition cap_step (g : option cap_state * option cap_state) (ev : event) :=
  match ev with
  | Event ECapGetProc (SOk c) => (Some c, Some c)
  | Event (ECapSetProc c) (SOk _) => (fst g, Some c)
  | _ => g
  end.

Lemma perm_set_capabilities_ghost type caps g :
  type <> CAP_AMBIENT ->
  ghost cap_step (perm_set_capabilities type caps) g
    (fun r g' => match r with
                 | Some _ => exists c, g' = (Some c, Some (caps_wanted type caps c))
                 | None => True
                 end).
Proof.
  intros Ht. unfold perm_set_capabilities. destruct type; [| | |done];
    (gstep; gstep; [|repeat gstep; done]; do 2 gstep; [|repeat gstep; done]; gstep; simpl;
     exists a; try done).
  rewrite raise_effective. simpl. do 3 f_equal. set_solver.
Qed.

Lemma perm_set_capabilities_ens type caps :
  ensures (only [KLib; KCred]) no_stop (perm_set_capabilities type caps) any.
Proof.
  unfold perm_set_capabilities. destruct type; try (ens; fail).
  ens; (eapply ensures_bind with (R := any); [apply ensures_iterM; intros; ens|]);
    intros [[]|] _; ens.
Qed.
#[export] Hint Resolve perm_set_capabilities_ens : ens.

Lemma perm_drop_privileges_ens uid gid b :
  ensures (only [KLib; KCred]) (fun w => w = Undefined "egroup is not initialised")
    (perm_drop_privileges uid gid b) any.
Proof. unfold perm_drop_privileges. ens. Qed.
Lemma perm_set_bounds_ens caps :
  ensures (only [KLib; KRead; KCred]) (fun w => w = Undefined "signed overflow")
    (perm_set_bounds caps) any.
Proof.
  unfold perm_set_bounds. ens_step. destruct a; [|ens].
  eapply ensures_bind with (R := any); [|intros [[]|] _; ens].
  apply ensures_iterM. intros c _. ens.
Qed.
#[export] Hint Resolve perm_drop_privileges_ens perm_set_bounds_ens : ens.

(** ** What holds of every run *)

(** [file_create] makes [path] and missing directories above it and nothing
    else, it never opens [path] through a link, and it returns unless the
    identity cannot be restored. *)
Theorem file_create_confined (o : env) path data uid gid mode (s : st) :
  match exec o (file_create path data uid gid mode) s with
  | (t, Done _) => Forall (creates_below path) t
  | (t, Halted w) => Forall (creates_below path) t /\ w = Assertion
  end.
Proof.
  pose proof (ensures_run o _ _ _ _ s (file_create_ens path data uid gid mode)) as H.
  destruct (exec o _ s) as [t [[s' r]|w]]; [apply H|done].
Qed.

(** When [file_create] returns, whether it succeeded or not, the identity
    used on the file system is the one it found or the effective one of the
    process, as the kernel reports it. *)
Lemma file_create_restores_ids (o : env) path data uid gid mode (s : st) (g : fsids) :
  match exec o (file_create path data uid gid mode) s with
  | (t, Done _) =>
      let g' := fold_left ids_step t g in
      (g_fsuid g' = g_fsuid g /\ g_fsgid g' = g_fsgid g) \/
      (g_fsuid g' = g_euid g' /\ g_fsgid g' = g_egid g')
  | _ => True
  end.
Proof.
  pose proof (ghost_run ids_step o _ _ _ s (file_create_ids path data uid gid mode g)) as H.
  by destruct (exec o _ s) as [t [[s' r]|w]].
Qed.

(** A successful [perm_drop_privileges] leaves the process with the user and
    group it was asked for, [no_new_privs] set, and at most that one
    supplementary group when groups are dropped. *)
Theorem perm_drop_privileges_drops (o : env) uid gid drop_groups (s : st) (g : privs) :
  match exec o (perm_drop_privileges uid gid drop_groups) s with
  | (t, Done (_, Some _)) =>
      let g' := fold_left priv_step t g in
      p_uid g' = uid /\ p_gid g' = gid /\ p_nnp g' = true /\
      (drop_groups = true -> p_groups g' = [] \/ p_groups g' = [gid])
  | _ => True
  end.
Proof.
  pose proof (ghost_run priv_step o _ _ _ s (perm_drop_privileges_ghost uid gid drop_groups g)) as H.
  by destruct (exec o _ s) as [t [[s' [[]|]]|w]].
Qed.

(** After a successful [perm_set_bounds], every capability the kernel knows
    and the caller did not list is outside of the bounding set: the kernel said
    so, or it accepted to drop it. *)
Lemma perm_set_bounds_drops (o : env) caps (s : st) (c : Z) :
  0 <= c <= CAP_LAST_CAP -> c ∉ caps ->
  match exec o (perm_set_bounds caps) s with
  | (t, Done (_, Some _)) => c ∈ fold_left bset_step t ∅
  | _ => True
  end.
Proof.
  intros Hc Hn.
  pose proof (ghost_run bset_step o _ _ _ s (perm_set_bounds_ghost caps ∅)) as H.
  destruct (exec o _ s) as [t [[s' [[]|]]|w]]; [by apply H|done..].
Qed.

Definition caps_37 : env := fun _ e =>
  match e return resp e with
  | EFopen _ _ => SOk (mkStream [String "3" (String "7" (String "010" EmptyString))] false)
  | EPrctl _ _ => SOk 1
  | e => friendly e
  end.

Lemma perm_set_bounds_drops_witness :
  exists t s, exec caps_37 (perm_set_bounds [21]) init_st = (t, Done (s, Some tt)) /\
              7 ∈ fold_left bset_step t ∅.
Proof.
  pose proof (perm_set_bounds_drops caps_37 [21] init_st 7 ltac:(unfold CAP_LAST_CAP; lia)
    ltac:(intros H%list_elem_of_singleton; lia)) as H.
  destruct (exec caps_37 (perm_set_bounds [21]) init_st) as [t out] eqn:E.
  assert (out = snd (exec caps_37 (perm_set_bounds [21]) init_st)) as E2 by by rewrite E.
  vm_compute in E2. subst out. eexists t, _. split; [reflexivity|exact H].
Defined.

(** [perm_set_capabilities] for the permitted set lowers the effective
    capabilities to those that were effective and are still listed; each other
    set becomes what is listed, and the rest of the state is kept. *)
Theorem perm_set_capabilities_sets (o : env) type caps (s : st) g :
  type <> CAP_AMBIENT ->
  match exec o (perm_set_capabilities type caps) s with
  | (t, Done (_, Some _)) =>
      exists c, fold_left cap_step t g = (Some c, Some (caps_wanted type caps c))
  | _ => True
  end.
Proof.
  intros Ht.
  pose proof (ghost_run cap_step o _ _ _ s (perm_set_capabilities_ghost type caps g Ht)) as H.
  by destruct (exec o _ s) as [t [[s' [[]|]]|w]].
Qed.

Definition caps_all : env := fun _ e =>
  match e return resp e with
  | ECapGetProc => SOk (mkCaps {[1; 2]} {[1; 2; 3]} ∅)
  | e => friendly e
  end.

Lemma perm_set_capabilities_sets_witness :
  exists t s c, exec caps_all (perm_set_capabilities CAP_PERMITTED [2; 3]) init_st = (t, Done (s, Some tt)) /\
    fold_left cap_step t (None, None) = (Some c, Some (caps_wanted CAP_PERMITTED [2; 3] c)).
Proof.
  pose proof (perm_set_capabilities_sets caps_all CAP_PERMITTED [2; 3] init_st (None, None)
    ltac:(discriminate)) as H.
  destruct (exec caps_all (perm_set_capabilities CAP_PERMITTED [2; 3]) init_st) as [t out] eqn:E.
  assert (out = snd (exec caps_all (perm_set_capabilities CAP_PERMITTED [2; 3]) init_st)) as E2
    by by rewrite E.
  vm_compute in E2. subst out. destruct H as [c H]. eexists t, _, c. split; [reflexivity|exact H].
Defined.
