(* ===== verification/Components.v ===== *)
(** * The components of a path

    Two paths that differ by repeated or trailing slashes name the same file:
    [comps] forgets the slashes.  [inside root p] says that [p] names [root] or
    something below it, and does not climb back up. *)
From S2P Require Import Prelude CString Effects Logic Errors Utils Paths Files.

Definition nonnil (c : string) : bool := negb (str_equal c EmptyString).
Definition comps (p : string) : list string := List.filter nonnil (tokens "/" p).

Definition inside (root p : string) : Prop :=
  exists cs, Forall normal cs /\ comps p = comps root ++ cs.

(** Paths that name the same components. *)
Definition same_path (p q : string) : Prop := comps p = comps q.
#[export] Instance same_path_equiv : Equivalence same_path.
Proof. split; unfold same_path; [by intros ?|by intros ? ?|intros ? ? ?; apply eq_trans]. Qed.
#[export] Instance inside_proper : Proper (same_path ==> same_path ==> iff) inside.
Proof. intros r r' Hr p p' Hp. unfold inside, same_path in *. by rewrite Hr, Hp. Qed.

Lemma tokens_app (d : ascii) (a b : string) : tokens d (a +:+ String d b) = tokens d a ++ tokens d b.
Proof.
  induction a as [|c a IH]; simpl.
  - by rewrite Ascii.eqb_refl.
  - destruct (Ascii.eqb c d); [by rewrite IH|]. rewrite IH.
    destruct (tokens d a) eqn:E; [by apply tokens_not_nil in E|done].
Qed.

Lemma comps_slash (a b : string) : comps (a +:+ String "/" b) = comps a ++ comps b.
Proof. unfold comps. by rewrite tokens_app, List.filter_app. Qed.

Lemma comps_nil : comps EmptyString = [].
Proof. done. Qed.

Lemma comps_lead (b : string) : comps (String "/" b) = comps b.
Proof. apply (comps_slash EmptyString). Qed.

Lemma comps_one (c : string) : str_mem "/" c = false -> c <> EmptyString -> comps c = [c].
Proof.
  intros Hc Hn. unfold comps. rewrite tokens_single by done. simpl. unfold nonnil, str_equal.
  by destruct (String.eqb_spec c EmptyString).
Qed.

Lemma comps_render (cs : list string) : Forall normal cs -> comps (render cs) = cs.
Proof.
  induction 1 as [|c cs (Hn & _ & _ & Hs) _ IH]; [done|].
  change (render (c :: cs)) with (String "/" c +:+ render cs). destruct cs as [|c' cs'].
  - simpl render. rewrite string_app_empty_r, comps_lead. by apply comps_one.
  - change (render (c' :: cs')) with (String "/" (c' +:+ render cs')) in *.
    change (String "/" c +:+ ?x) with (String "/" (c +:+ x)). rewrite comps_lead, comps_slash, comps_one by done.
    rewrite comps_lead in IH. by rewrite IH.
Qed.

Lemma last_slash (s : string) : Ascii.eqb (last_char s) "/" = true -> exists a, s = a +:+ "/".
Proof.
  induction s as [|c s IH]; [done|]. destruct s as [|c' s'].
  - simpl. intros ->%Ascii.eqb_eq. by exists EmptyString.
  - intros H. destruct IH as [a Ha]; [exact H|]. exists (String c a). by rewrite Ha.
Qed.

Lemma comps_append (buf path : string) : comps (buf +:+ append_piece buf path) = comps buf ++ comps path.
Proof.
  unfold append_piece. destruct (Ascii.eqb (last_char buf) "/") eqn:El.
  - apply last_slash in El as [a ->]. rewrite andb_false_r, andb_true_r.
    rewrite string_app_assoc. change ("/" +:+ ?x) with (String "/" (EmptyString +:+ x)).
    rewrite !comps_slash, comps_nil, app_nil_r. simpl.
    destruct path as [|c p]; [done|]. simpl. destruct (Ascii.eqb_spec c "/") as [->|]; [|done].
    by rewrite comps_lead.
  - rewrite andb_true_r, andb_false_r. destruct path as [|c p]; [apply comps_slash|]. simpl first_char.
    destruct (Ascii.eqb_spec c "/") as [->|]; simpl.
    + by rewrite comps_slash, comps_lead.
    + by rewrite comps_slash.
Qed.

Lemma comps_under (root : string) (cs : list string) : Forall normal cs -> comps (under root cs) = comps root ++ cs.
Proof.
  intros Hcs. rewrite <- (comps_render cs) at 2 by done. rewrite <- comps_append. unfold under, append_piece.
  destruct cs as [|c cs].
  - simpl render. destruct (Ascii.eqb (last_char root) "/"); simpl; [by rewrite string_app_empty_r|].
    rewrite comps_slash, comps_nil. by rewrite app_nil_r.
  - rewrite render_first by done. by destruct (Ascii.eqb (last_char root) "/").
Qed.

Lemma beneath_inside (root p : string) : beneath root p -> inside root p.
Proof. intros (cs & Hcs & ->). exists cs. split; [done|]. by apply comps_under. Qed.

Lemma inside_refl (root : string) : inside root root.
Proof. exists []. split; [constructor|]. by rewrite app_nil_r. Qed.

Lemma inside_snoc (root p q c : string) : inside root p -> normal c -> comps q = comps p ++ [c] -> inside root q.
Proof.
  intros (cs & Hcs & Hp) Hc Hq. exists (cs ++ [c]). split; [by apply Forall_app; split; [|constructor]|].
  by rewrite Hq, Hp, app_assoc.
Qed.

(** ** What the path functions do to the components *)

(** Nothing is appended for an empty string. *)
Definition comps' (path : string) : list string := if str_empty (Some path) then [] else comps path.

Lemma path_append_comps buf path :
  strlen buf < PATH_MAX ->
  ensures (only [KLib]) no_stop (path_append buf path)
    (fun r => match r with Some s => strlen s < PATH_MAX /\ comps s = comps buf ++ comps' path | None => True end).
Proof.
  intros Hb. eapply ensures_post; [by apply path_append_ens|]. intros [s|]; [|done]. intros [Hs ->]. split; [done|].
  unfold comps'. destruct (str_empty (Some path)); [by rewrite app_nil_r|apply comps_append].
Qed.

Lemma path_new_comps path :
  ensures (only [KLib]) no_stop (path_new path)
    (fun r => match r with Some s => strlen s < PATH_MAX /\ comps s = comps' path | None => True end).
Proof. by apply (path_append_comps EmptyString). Qed.

Lemma path_join_comps p1 p2 :
  ensures (only [KLib]) no_stop (path_join p1 p2)
    (fun r => match r with Some s => strlen s < PATH_MAX /\ comps s = comps' p1 ++ comps' p2 | None => True end).
Proof.
  unfold path_join. eapply ensures_bind; [apply path_new_comps|]. intros [buf|]; [|intros _; ens]. intros [Hb Hc].
  eapply ensures_post; [by apply path_append_comps|]. intros [s|]; [|done]. intros [Hs ->]. by rewrite Hc.
Qed.

(** *** [dirname] *)

Lemma strip_slashes_rest (s : string) :
  exists r, s = strip_slashes s +:+ r /\ comps r = [] /\ (r = EmptyString \/ first_char r = "/"%char).
Proof.
  induction s as [|c s (r & Hs & Hr & Hf)]; [by exists EmptyString; auto|]. simpl.
  destruct (strip_slashes s) as [|c' s'] eqn:E.
  - destruct (Ascii.eqb_spec c "/") as [->|]; simpl in *.
    + exists (String "/" s). subst s. rewrite comps_lead. auto.
    + exists r. subst s. auto.
  - exists r. simpl in *. by rewrite Hs at 1.
Qed.

Lemma comps_strip (s : string) : comps (strip_slashes s) = comps s.
Proof.
  destruct (strip_slashes_rest s) as (r & Hs & Hr & [->|Hf]).
  - rewrite Hs at 2. by rewrite string_app_empty_r.
  - destruct r as [|c r]; [done|]. simpl in Hf. subst c. rewrite Hs at 2. rewrite comps_slash.
    rewrite comps_lead in Hr. by rewrite Hr, app_nil_r.
Qed.

Lemma strip_slashes_last (s : string) : Ascii.eqb (last_char (strip_slashes s)) "/" = false.
Proof.
  induction s as [|c s IH]; [done|]. simpl. destruct (strip_slashes s) as [|c' s'] eqn:E.
  - destruct (Ascii.eqb c "/") eqn:Ec; [done|]. exact Ec.
  - exact IH.
Qed.

Lemma strip_slashes_first (s : string) : strip_slashes s <> EmptyString -> first_char (strip_slashes s) = first_char s.
Proof.
  destruct (strip_slashes_rest s) as (r & Hs & _). intros Hn. rewrite Hs at 2. by destruct (strip_slashes s).
Qed.

Lemma comps_dirname (s c : string) (cs : list string) :
  Ascii.eqb (first_char s) "/" = true -> comps s = cs ++ [c] -> comps (dirname s) = cs.
Proof.
  intros Ha Hs. unfold dirname. pose proof (comps_strip s) as Et. pose proof (strip_slashes_last s) as El.
  pose proof (strip_slashes_first s) as Ef. destruct (strip_slashes s) as [|x t] eqn:E.
  { rewrite Hs in Et. by destruct cs. }
  specialize (Ef ltac:(done)). destruct (strrchr (String x t) "/") as [[a b]|] eqn:Er.
  - apply strrchr_Some in Er as (Er & b' & -> & Hb). rewrite Er in Et, El. rewrite comps_slash in Et.
    destruct b' as [|y b'].
    { by rewrite last_char_app in El. }
    rewrite (comps_one (String y b')) in Et by done. rewrite Hs in Et. apply app_inj_2 in Et as [Et _]; [|done].
    rewrite <- Et, <- (comps_strip a). destruct (strip_slashes a); [|done]. by destruct (str_equal a "/").
  - apply strrchr_None in Er. simpl in Ef, Er. apply Ascii.eqb_eq in Ha. rewrite <- Ef in Ha. by rewrite Ha in Er.
Qed.
