(* ===== verification/Resolve.v ===== *)
(** * What resolution computes

    [do_path_resolve] of [src/src/utils.c] in a file tree that does not change:
    [walk] says where the components of a path lead below a root, the way a
    process whose root directory it is would see it, and the code finds just
    that. *)
From S2P Require Import Prelude CString Effects Logic Errors Utils Paths Files Components.

(** ** A tree of files *)

Inductive node := NDir | NFile | NLink (target : string).

(** Where a file is: its names from the root of the host. *)
Abbreviation place := (list string).

Section Tree.
(** The files of the host; [base] is the place of the directory named [root]. *)
Context (files : place -> option node) (root : string) (base : place).

Definition is_directory (loc : place) : bool := match files loc with Some NDir => true | _ => false end.

(** ** The reference

    [cur] exists and has no links left in it; [miss] follows it and does not
    exist; [todo] is still to walk.  After [links] links no name is looked up any
    more, not even one that is not a link. *)
Fixpoint walk (links : nat) : place -> list string -> list string -> option (list string) :=
  fix go (cur miss todo : list string) {struct todo} : option (list string) :=
    match todo with
    | [] => Some (cur ++ miss)
    | c :: todo =>
        if str_equal c "." then go cur miss todo
        else if str_equal c ".." then
          match miss, cur with
          | _ :: _, _ => go cur (removelast miss) todo
          | [], [] => None
          | [], _ :: _ => if is_directory (base ++ cur) then go (removelast cur) [] todo else None
          end
        else
          match miss with
          | _ :: _ => go cur (miss ++ [c]) todo
          | [] =>
              match links with
              | O => None
              | S links' =>
                  if negb (is_directory (base ++ cur)) then None
                  else match files (base ++ cur ++ [c]) with
                       | None => go cur [c] todo
                       | Some (NLink target) =>
                           walk links' (if Ascii.eqb (first_char target) "/" then [] else cur) [] (comps target ++ todo)
                       | Some _ => go (cur ++ [c]) [] todo
                       end
              end
          end
    end.

(** ** A kernel that serves the tree *)

(** The places of the open descriptors. *)
Abbreviation fds := (gmap Z place).

(** What [openat] opens: links are not followed, and the only absolute path the
    code opens is the root. *)
Definition opened (g : fds) (dir : Z) (path : string) : option place :=
  if Ascii.eqb (first_char path) "/" then (if str_equal path root then Some base else None)
  else
    loc ← g !! dir;
    if negb (is_directory loc) then None
    else if str_equal path ".." then Some (removelast loc)
    else match files (loc ++ [path]) with Some _ => Some (loc ++ [path]) | None => None end.

Definition link_at (loc : place) (c : string) : sres string :=
  if negb (is_directory loc) then SErr ENOTDIR
  else match files (loc ++ [c]) with
       | None => SErr ENOENT
       | Some (NLink target) => SOk target
       | Some _ => SErr EINVAL
       end.

Definition fd_places (g : fds) (ev : event) : fds :=
  match ev with
  | Event (EOpenat dir path _) (SOk fd) =>
      match opened g dir path with Some loc => <[Z.of_N fd := loc]> g | None => g end
  | Event (EClose fd) _ => delete fd g
  | _ => g
  end.

(** A new descriptor is not one of the open ones. *)
Definition tree_says (g : fds) (ev : event) : Prop :=
  match ev with
  | Event (EOpenat dir path _) r =>
      match opened g dir path, r with
      | Some _, SOk fd => g !! Z.of_N fd = None
      | None, SErr _ => True
      | _, _ => False
      end
  | Event (EReadlinkat dir c) r =>
      match g !! dir with Some loc => r = link_at loc c | None => True end
  | _ => True
  end.

(** The links are those of a file system: they have a target, of a bounded
    length [width]. *)
Definition tame (width : Z) : Prop :=
  forall loc target, files loc = Some (NLink target) ->
    target <> EmptyString /\ c_string target /\ strlen target <= width.
End Tree.

(** ** Short paths fit *)

Lemma append_piece_short (buf path : string) : strlen (append_piece buf path) <= strlen path + 1.
Proof.
  unfold append_piece. rewrite strlen_app. pose proof (str_drop_strlen 1 path).
  assert (forall b : bool, strlen (if b then "/" else "") <= 1) as Hone by by intros [].
  specialize (Hone (negb (Ascii.eqb (first_char path) "/") && negb (Ascii.eqb (last_char buf) "/"))).
  destruct (Ascii.eqb (first_char path) "/" && Ascii.eqb (last_char buf) "/"); lia.
Qed.

(** The contents of a buffer after a successful [path_append]. *)
Definition appended (buf path : string) : string :=
  if str_empty (Some path) then buf else buf +:+ append_piece buf path.

Lemma path_append_at_fits off buf path :
  0 <= off -> off + strlen buf + strlen path + 2 <= PATH_MAX ->
  path_append_at off buf path = ret (Some (appended buf path)).
Proof.
  intros Hoff Hlen. unfold path_append_at, appended. destruct (str_empty (Some path)); [done|].
  pose proof (append_piece_short buf path). cbv zeta.
  destruct (Z.ltb_spec PATH_MAX (off + strlen buf + Z.min (strlen (append_piece buf path) + 1) (PATH_MAX - strlen buf))); [lia|].
  by destruct (Z.leb_spec (PATH_MAX - strlen buf) (strlen (append_piece buf path))); [lia|].
Qed.

Lemma c_string_empty (s : string) : c_string s -> str_empty (Some s) = str_equal s EmptyString.
Proof.
  intros Hs. destruct s as [|c s]; [done|]. unfold c_string in Hs. simpl in *.
  apply orb_false_elim in Hs as [Hc _]. by rewrite Ascii.eqb_sym.
Qed.

Lemma comps_appended (buf path : string) :
  c_string path -> comps (appended buf path) = comps buf ++ comps path.
Proof.
  intros Hp. unfold appended. rewrite c_string_empty by done. unfold str_equal.
  destruct (String.eqb_spec path EmptyString) as [->|]; [by rewrite app_nil_r|apply comps_append].
Qed.

Lemma str_mem_drop (c : ascii) (n : nat) (s : string) : str_mem c s = false -> str_mem c (str_drop n s) = false.
Proof. rewrite <- (str_take_drop n s) at 1. rewrite str_mem_app. by intros [_ ?]%orb_false_elim. Qed.

Lemma c_string_appended (buf path : string) : c_string buf -> c_string path -> c_string (appended buf path).
Proof.
  intros Hb Hp. unfold appended. destruct (str_empty _); [done|]. unfold c_string, append_piece in *.
  assert (forall b : bool, str_mem NUL (if b then "/" else "") = false) as Hs by by intros [].
  rewrite !str_mem_app, Hb, Hs. cbn [orb]. destruct (_ && _); [by apply str_mem_drop|done].
Qed.

Lemma strlen_appended (buf path : string) : strlen (appended buf path) <= strlen buf + strlen path + 1.
Proof.
  unfold appended. pose proof (append_piece_short buf path). pose proof (strlen_nonneg path).
  destruct (str_empty _); [lia|]. rewrite strlen_app. lia.
Qed.

(** What is left to walk, and the room it takes. *)
Definition pending (ptr : option string) : list string := match ptr with Some p => comps p | None => [] end.
Definition room (ptr : option string) : Z := match ptr with Some p => strlen p + 1 | None => 0 end.
Definition c_pointer (ptr : option string) : Prop := match ptr with Some p => c_string p | None => True end.

Lemma strsep_pending (ptr ptr' : option string) (file : string) :
  c_pointer ptr -> strsep "/" ptr = Some (file, ptr') ->
  c_string file /\ c_pointer ptr' /\ str_mem "/" file = false /\
  pending ptr = (if str_equal file EmptyString then [] else [file]) ++ pending ptr' /\
  room ptr = strlen file + 1 + room ptr'.
Proof.
  intros Hc Hsep. destruct ptr as [p|]; [|done]. cbn [strsep] in Hsep. injection Hsep as Hsep.
  unfold pending, comps. rewrite (tokens_split_at "/" p), Hsep.
  apply split_at_spec in Hsep as [Hm ->]. unfold c_pointer, c_string, room in *. destruct ptr' as [r|].
  - rewrite str_mem_app in Hc. apply orb_false_elim in Hc as [Hf Hr]. cbn in Hr.
    rewrite strlen_app, strlen_cons. split_and!; [done..| |lia]. cbn [List.filter]. unfold nonnil at 1.
    by destruct (str_equal file EmptyString).
  - split_and!; [done..| |lia]. cbn [List.filter]. unfold nonnil. by destruct (str_equal file EmptyString).
Qed.

Section Correct.
Context (files : place -> option node) (root : string) (base : place).

Lemma relies_open_next g dir path s :
  dir < 0 \/ is_Some (g !! dir) ->
  relies (fd_places files root base) (tree_says files root base) (open_next dir path) g s
    (fun r _ g' => match opened files root base g dir path with
                   | Some loc => exists fd, r = Some fd /\ g' !! fd = Some loc
                   | None => r = None
                   end).
Proof.
  intros Hdir. unfold open_next. cbv zeta. eapply relies_bind with (R1 := fun r _ g' =>
    match opened files root base g dir path, r with
    | Some loc, SOk fd => g' = <[Z.of_N fd := loc]> g /\ g !! Z.of_N fd = None
    | None, SErr _ => True
    | _, _ => False
    end).
  { apply relies_call. intros r Hr. cbn in *. by destruct (opened _ _ _ _ _ _), r. }
  intros r s' g' Hr. destruct (opened _ _ _ _ _ _) as [loc|], r as [fd|e]; try done.
  - destruct Hr as [-> Hnew]. unfold xclose. destruct (Z.ltb_spec dir 0) as [Hd|Hd].
    { intros _. exists (Z.of_N fd). split; [done|]. apply lookup_insert_eq. }
    destruct Hdir as [?|[d Hd']]; [lia|]. intros [[]|e] _; (exists (Z.of_N fd)); (split; [done|]); cbn [fold_left fd_places];
      rewrite lookup_delete_ne, lookup_insert_eq; congruence.
  - eapply relies_bind with (R1 := fun r _ _ => r = None); [by intros _|]. intros ? ? ? ->.
    eapply relies_ensures with (P := only [KLib]) (Rm := fun r => r = None); [ens|intros [[] ?]; done|done].
Qed.

(** ** The loop follows the reference *)

Lemma walk_nil links cur miss : walk files base links cur miss [] = Some (cur ++ miss).
Proof. by destruct links. Qed.

Lemma walk_cons links cur miss c todo :
  walk files base links cur miss (c :: todo) =
  if str_equal c "." then walk files base links cur miss todo
  else if str_equal c ".." then
    match miss, cur with
    | _ :: _, _ => walk files base links cur (removelast miss) todo
    | [], [] => None
    | [], _ :: _ => if is_directory files (base ++ cur) then walk files base links (removelast cur) [] todo else None
    end
  else
    match miss with
    | _ :: _ => walk files base links cur (miss ++ [c]) todo
    | [] =>
        match links with
        | O => None
        | S links' =>
            if negb (is_directory files (base ++ cur)) then None
            else match files (base ++ cur ++ [c]) with
                 | None => walk files base links cur [c] todo
                 | Some (NLink target) =>
                     walk files base links' (if Ascii.eqb (first_char target) "/" then [] else cur) [] (comps target ++ todo)
                 | Some _ => walk files base links (cur ++ [c]) [] todo
                 end
        end
    end.
Proof. by destruct links. Qed.

Context (width len : Z) (path : string).
Hypothesis root_absolute : Ascii.eqb (first_char root) "/" = true.
Hypothesis links_tame : tame files width.
Hypothesis width_nonneg : 0 <= width.
Hypothesis len_nonneg : 0 <= len.
Hypothesis short : len + MAXSYMLINKS * width + 2 <= PATH_MAX.

Abbreviation follows := (relies (fd_places files root base) (tree_says files root base)).

Definition agrees (want : option (list string)) (r : Z * option string) (_ : st) (_ : gmap Z place) : Prop :=
  match want with
  | Some cs => snd r = Some (render cs) /\ Forall normal cs /\ strlen (render cs) <= len + MAXSYMLINKS * width
  | None => snd r = None
  end.

Lemma follows_error text fd g s : ErrText text -> follows (do error_set text in ret (fd, None)) g s (agrees None).
Proof.
  intros Ht. eapply relies_ensures with (P := only [KLib]) (Rm := fun r => r = (fd, None)); [ens|intros [[] ?]; done|].
  by intros ? ? ->.
Qed.

(** Opening an existing entry, or failing. *)
Lemma follows_open_next loc loc' g fd c s (k : Z -> M (Z * option string)) (ok : bool) want :
  g !! fd = Some loc -> str_mem "/" c = false ->
  opened files root base g fd c = (if ok then Some loc' else None) ->
  (forall fd' g' s', g' !! fd' = Some loc' -> ok = true -> follows (k fd') g' s' (agrees want)) ->
  (ok = false -> want = None) ->
  follows (let? fd := open_next fd c else ret (-1, None) in k fd) g s (agrees want).
Proof.
  intros Hg Hc Ho Hk Hno. eapply relies_bind; [apply relies_open_next; right; by rewrite Hg|].
  intros r s' g' Hr. rewrite Ho in Hr. destruct ok.
  - destruct Hr as (fd' & -> & Hfd). by apply Hk.
  - subst r. rewrite Hno by done. by apply relies_ret.
Qed.

(** The state of the loop: the open directory, the resolved path, what is left
    of the path, and the room for both. *)
Record going (cur miss : list string) (fd : Z) (ptr : option string) (nlinks : Z) (g : gmap Z place) : Prop := {
  go_normal : Forall normal (cur ++ miss);
  go_fd : g !! fd = Some (base ++ cur);
  go_links : 0 <= nlinks <= MAXSYMLINKS;
  go_text : c_pointer ptr;
  go_room : strlen (render (cur ++ miss)) + room ptr <= len + nlinks * width
}.

Definition links_left (nlinks : Z) : nat := Z.to_nat (MAXSYMLINKS - nlinks).

Definition loop_walks (fuel : nat) : Prop := forall cur miss fd ptr nlinks g s,
  going cur miss fd ptr nlinks g ->
  follows (resolve_loop fuel root path fd (render (cur ++ miss)) ptr (Z.of_nat (length miss)) nlinks) g s
    (agrees (walk files base (links_left nlinks) cur miss (pending ptr))).

Lemma going_room cur miss fd ptr nlinks g :
  going cur miss fd ptr nlinks g -> strlen (render (cur ++ miss)) + room ptr + 2 <= PATH_MAX.
Proof. intros []. nia. Qed.

(** The component [c] is appended to the resolved path. *)
Lemma append_walks fuel cur miss cur' miss' fd c ptr nlinks g s :
  loop_walks fuel -> normal c -> c_string c -> cur' ++ miss' = (cur ++ miss) ++ [c] ->
  Forall normal (cur ++ miss) -> g !! fd = Some (base ++ cur') -> 0 <= nlinks <= MAXSYMLINKS -> c_pointer ptr ->
  strlen (render (cur ++ miss)) + strlen c + 1 + room ptr <= len + nlinks * width ->
  follows (let? realpath := path_append (render (cur ++ miss)) c else ret (fd, None) in
           resolve_loop fuel root path fd realpath ptr (Z.of_nat (length miss')) nlinks) g s
    (agrees (walk files base (links_left nlinks) cur' miss' (pending ptr))).
Proof.
  intros IH Hn Hc Happ Hns Hg Hl Ht Hr. unfold path_append.
  assert (0 <= room ptr) as Hp by (destruct ptr as [p|]; cbn; [pose proof (strlen_nonneg p)|]; lia).
  rewrite path_append_at_fits by nia. apply relies_bind_ret.
  assert (appended (render (cur ++ miss)) c = render (cur' ++ miss')) as ->.
  { rewrite Happ, render_snoc. unfold appended. rewrite c_string_empty by done. destruct Hn as (Hne & _ & _ & Hs).
    unfold str_equal. destruct (String.eqb_spec c EmptyString); [done|]. by rewrite append_piece_render. }
  apply IH. split; [|done..|].
  - rewrite Happ. apply Forall_app. split; [done|]. by constructor.
  - rewrite Happ, render_snoc, strlen_app, strlen_cons. lia.
Qed.

(** A link: the walk goes on with its target and the rest. *)
Lemma link_walks fuel cur fd target ptr nlinks g s :
  loop_walks fuel -> Forall normal cur -> g !! fd = Some (base ++ cur) -> 0 <= nlinks < MAXSYMLINKS -> c_pointer ptr ->
  strlen (render cur) + 1 + room ptr <= len + nlinks * width -> target <> EmptyString -> c_string target -> strlen target <= width ->
  let absolute := Ascii.eqb (first_char target) "/" in
  let off := if absolute then 1 else 0 in
  let link := if absolute then str_drop 1 target else target in
  follows
    (let? fd := (if absolute then open_next fd root else ret (Some fd)) else ret (-1, None) in
     let? link := match ptr with
                  | Some rest => path_append_at off link rest
                  | None => ret (Some link)
                  end else ret (fd, None) in
     resolve_loop fuel root path fd (if absolute then EmptyString else render cur) (Some link) 0 (nlinks + 1)) g s
    (agrees (walk files base (links_left (nlinks + 1)) (if absolute then [] else cur) [] (comps target ++ pending ptr))).
Proof.
  intros IH Hn Hg Hl Ht Hr Hne Htc Htw absolute off link.
  assert (comps target = comps link /\ c_string link /\ off + strlen link = strlen target /\ 0 <= off) as (-> & Hlc & Hll & Ho).
  { subst link off absolute. destruct target as [|a t]; [done|]. cbn [first_char str_drop].
    destruct (Ascii.eqb_spec a "/") as [->|]; [|by split_and!]. rewrite strlen_cons.
    split_and!; [apply comps_lead|done|lia..]. }
  set (cur' := if absolute then [] else cur).
  assert (Forall normal cur' /\ strlen (render cur') <= strlen (render cur)) as [Hn' Hle].
  { subst cur'. destruct absolute; [|done]. split; [constructor|apply strlen_nonneg]. }
  assert (forall g' fd' s', g' !! fd' = Some (base ++ cur') -> follows
    (let? link := match ptr with Some rest => path_append_at off link rest | None => ret (Some link) end else ret (fd', None) in
     resolve_loop fuel root path fd' (render cur') (Some link) 0 (nlinks + 1)) g' s'
    (agrees (walk files base (links_left (nlinks + 1)) cur' [] (comps link ++ pending ptr)))) as Hk.
  { intros g' fd' s' Hg'. pose proof (strlen_nonneg link). destruct ptr as [rest|]; cbn [room pending] in *.
    - pose proof (strlen_appended link rest). pose proof (strlen_nonneg rest). pose proof (strlen_nonneg (render cur)).
      rewrite path_append_at_fits by nia. apply relies_bind_ret.
      rewrite <- comps_appended by done. rewrite <- (app_nil_r cur') at 1.
      apply (IH cur' [] fd' (Some _)). split; rewrite ?app_nil_r; [done..|lia|by apply c_string_appended|cbn [room]; nia].
    - apply relies_bind_ret. rewrite app_nil_r. rewrite <- (app_nil_r cur') at 1.
      apply (IH cur' [] fd' (Some link)). split; rewrite ?app_nil_r; [done..|lia|done|cbn [room]; nia]. }
  subst cur'. destruct absolute.
  - eapply relies_bind; [apply relies_open_next; right; by rewrite Hg|]. intros r s' g' Hr'.
    unfold opened in Hr'. rewrite root_absolute in Hr'. unfold str_equal in Hr'. rewrite String.eqb_refl in Hr'.
    destruct Hr' as (fd' & -> & Hfd). apply Hk. by rewrite app_nil_r.
  - apply relies_bind_ret. by apply Hk.
Qed.

(** An entry that is not a link is opened and appended. *)
Lemma regular_walks fuel cur fd file ptr nlinks g s :
  loop_walks fuel -> normal file -> c_string file -> Forall normal cur -> g !! fd = Some (base ++ cur) ->
  0 <= nlinks <= MAXSYMLINKS -> c_pointer ptr ->
  strlen (render cur) + strlen file + 1 + room ptr <= len + nlinks * width ->
  is_directory files (base ++ cur) = true -> is_Some (files ((base ++ cur) ++ [file])) ->
  follows
    (let? fd := open_next fd file else ret (-1, None) in
     let? realpath := path_append (render cur) file else ret (fd, None) in
     resolve_loop fuel root path fd realpath ptr 0 nlinks) g s
    (agrees (walk files base (links_left nlinks) (cur ++ [file]) [] (pending ptr))).
Proof.
  intros IH Hnf Hcf Hn Hg Hl Hcp Hr Hdir [x Hx]. pose proof Hnf as (Hne & Hnd & Hndd & Hns).
  eapply (follows_open_next (base ++ cur) (base ++ cur ++ [file]) _ _ _ _ _ true); [done..| | |done].
  - unfold opened. rewrite (proj1 (no_slash_chars _ Hns)), Hg. cbn. rewrite Hdir. unfold str_equal. cbn [negb].
    rewrite (proj2 (String.eqb_neq file "..")), Hx by done. by rewrite app_assoc.
  - intros fd' g' s2 Hg' _. rewrite <- (app_nil_r cur) at 1.
    eapply (append_walks fuel cur [] (cur ++ [file]) []); rewrite ?app_nil_r; done.
Qed.

(** The name of an entry, when everything before it exists. *)
Lemma entry_walks fuel cur fd file ptr nlinks g s :
  loop_walks fuel -> normal file -> c_string file -> Forall normal cur -> g !! fd = Some (base ++ cur) ->
  0 <= nlinks <= MAXSYMLINKS -> c_pointer ptr ->
  strlen (render cur) + strlen file + 1 + room ptr <= len + nlinks * width ->
  let missing_ent :=
    let? realpath := path_append (render cur) file else ret (fd, None) in
    resolve_loop fuel root path fd realpath ptr 1 nlinks in
  follows
    (let* r := call (EReadlinkat fd file) in
     let* rv := trap r in
     let '(n, link) := readlink_result rv in
     if (0 <? n) && (n <? PATH_MAX) && (nlinks <? MAXSYMLINKS) then
       let absolute := Ascii.eqb (first_char link) "/" in
       let off := if absolute then 1 else 0 in
       let link := if absolute then str_drop 1 link else link in
       let realpath := if absolute then EmptyString else render cur in
       let? fd := (if absolute then open_next fd root else ret (Some fd)) else ret (-1, None) in
       let? link := match ptr with
                    | Some rest => path_append_at off link rest
                    | None => ret (Some link)
                    end else ret (fd, None) in
       resolve_loop fuel root path fd realpath (Some link) 0 (nlinks + 1)
     else
       do (if PATH_MAX <=? n then set_errno ENAMETOOLONG
           else if MAXSYMLINKS <=? nlinks then set_errno ELOOP else ret tt) in
       let* errno := get_errno in
       if errno =? ENOENT then missing_ent
       else if errno =? EINVAL then
         let? fd := open_next fd file else ret (-1, None) in
         let? realpath := path_append (render cur) file else ret (fd, None) in
         resolve_loop fuel root path fd realpath ptr 0 nlinks
       else
         do error_set ("path error: " +:+ root +:+ "/" +:+ path) in
         ret (fd, None)) g s
    (agrees (walk files base (links_left nlinks) cur [] (file :: pending ptr))).
Proof.
  intros IH Hnf Hcf Hn Hg Hl Hcp Hr missing_ent.
  rewrite walk_cons. pose proof Hnf as (Hne & Hnd & Hndd & Hns). unfold str_equal.
  rewrite (proj2 (String.eqb_neq file ".")), (proj2 (String.eqb_neq file "..")) by done.
  eapply relies_bind with (R1 := fun r _ g' => g' = g /\ r = link_at files (base ++ cur) file).
  { apply relies_call. intros r Hr'. cbn in Hr'. rewrite Hg in Hr'. done. }
  intros r s' g' [-> ->]. apply relies_bind_trap. unfold link_at. rewrite app_assoc.
  destruct (links_left nlinks) as [|left] eqn:Hleft.
  { assert (nlinks = MAXSYMLINKS) as -> by (unfold links_left in Hleft; lia).
    destruct (readlink_result _) as [n link]. change (MAXSYMLINKS <? MAXSYMLINKS) with false. rewrite andb_false_r.
    eapply relies_bind with (R1 := fun _ s2 _ => errno s2 = ELOOP \/ errno s2 = ENAMETOOLONG).
    { destruct (PATH_MAX <=? n); intros _; cbn; auto. }
    intros _ s2 g2 He. apply relies_bind_errno. destruct He as [-> | ->]; apply follows_error, err_text_prefix; reflexivity. }
  assert (nlinks < MAXSYMLINKS) as Hlt by (unfold links_left in Hleft; lia).
  rewrite (proj2 (Z.ltb_lt nlinks MAXSYMLINKS)), (proj2 (Z.leb_gt MAXSYMLINKS nlinks)) by done.
  destruct (is_directory files (base ++ cur)) eqn:Hdir; cbn [negb].
  2:{ apply (follows_error _ fd), err_text_prefix; reflexivity. }
  destruct (files ((base ++ cur) ++ [file])) as [[| |target]|] eqn:Hfile.
  1,2: rewrite <- Hleft; eapply (regular_walks fuel cur fd file ptr nlinks g); done.
  - destruct (links_tame _ _ Hfile) as (Htne & Htc & Htw). pose proof (strlen_nonneg target).
    assert (strlen target <> 0) as Ht0 by by rewrite strlen_0.
    cbn [readlink_result]. unfold MAXSYMLINKS in short.
    rewrite Z.min_l, str_take_all by (unfold strlen in *; lia).
    rewrite (proj2 (Z.ltb_lt 0 (strlen target))), (proj2 (Z.ltb_lt (strlen target) PATH_MAX)) by lia. cbn [andb].
    assert (left = links_left (nlinks + 1)) as -> by (unfold links_left in *; lia).
    pose proof (strlen_nonneg file). eapply (link_walks fuel cur fd target ptr nlinks g); first [done|lia].
  - rewrite <- Hleft. pose proof (append_walks fuel cur [] cur [file] fd file ptr nlinks g (mkSt ENOENT (err s'))) as Ha.
    rewrite app_nil_r in Ha. by apply Ha.
Qed.

(** [".."] goes back over the last name. *)
Lemma dotdot_walks fuel cur miss fd ptr nlinks g s :
  loop_walks fuel -> going cur miss fd ptr nlinks g ->
  follows
    match strrchr (render (cur ++ miss)) "/" with
    | None =>
        do error_setx ("path error: " +:+ path +:+ " resolves outside of " +:+ root) in
        ret (fd, None)
    | Some (realpath, _) =>
        if 0 <? Z.of_nat (length miss) then
          resolve_loop fuel root path fd realpath ptr (Z.of_nat (length miss) - 1) nlinks
        else
          let? fd := open_next fd ".." else ret (-1, None) in
          resolve_loop fuel root path fd realpath ptr (Z.of_nat (length miss)) nlinks
    end g s
    (agrees (walk files base (links_left nlinks) cur miss (".." :: pending ptr))).
Proof.
  intros IH [Hn Hg Hl Ht Hr]. rewrite walk_cons.
  change (str_equal ".." ".") with false. change (str_equal ".." "..") with true. cbv iota.
  destruct miss as [|m miss _] using rev_ind.
  - rewrite app_nil_r in *. destruct cur as [|c cur _] using rev_ind.
    + change (strrchr (render []) "/") with (@None (string * string)). cbv iota.
      eapply relies_ensures with (P := only [KLib]) (Rm := fun r => r = (fd, None)); [ens|intros [[] ?]; done|].
      by intros ? ? ->.
    + apply Forall_app in Hn as [Hn Hc]. apply Forall_cons_1 in Hc as [(Hne & _ & _ & Hs) _].
      rewrite render_snoc, strrchr_app_last by done. rewrite render_snoc, strlen_app in Hr.
      destruct (cur ++ [c]) as [|x l] eqn:E; [by destruct cur|]. rewrite <- E in *. clear x l E.
      rewrite removelast_last. cbn [length]. change (0 <? Z.of_nat 0) with false. cbv iota.
      eapply (follows_open_next (base ++ cur ++ [c]) (base ++ cur) _ _ _ _ _ (is_directory files (base ++ cur ++ [c]))); [done..| | |].
      * unfold opened. rewrite Hg. cbn. destruct (is_directory _ _); [|done]. cbn [negb].
        by rewrite app_assoc, removelast_last.
      * intros fd' g' s' Hg' ->. rewrite <- (app_nil_r cur) at 1. pose proof (strlen_nonneg (String "/" c)).
        apply (IH cur [] fd'). split; rewrite ?app_nil_r; [done..|lia].
      * by intros ->.
  - rewrite app_assoc in *. apply Forall_app in Hn as [Hn Hc]. apply Forall_cons_1 in Hc as [(Hne & _ & _ & Hs) _].
    rewrite render_snoc, strrchr_app_last by done. rewrite render_snoc, strlen_app in Hr.
    pose proof (strlen_nonneg (String "/" m)). rewrite length_app. cbn [length].
    rewrite (proj2 (Z.ltb_lt 0 _)) by lia. replace (Z.of_nat (length miss + 1) - 1) with (Z.of_nat (length miss)) by lia.
    destruct (miss ++ [m]) as [|x l] eqn:E; [by destruct miss|]. rewrite <- E, removelast_last.
    apply IH. split; [done..|lia].
Qed.

Lemma resolve_loop_walks fuel : loop_walks fuel.
Proof.
  induction fuel as [|fuel IH]; intros cur miss fd ptr nlinks g s Hgo; cbn [resolve_loop]; [apply relies_fuel|].
  pose proof Hgo as [Hn Hg Hl Ht Hr].
  destruct (strsep "/" ptr) as [[file ptr']|] eqn:Hsep.
  2:{ destruct ptr as [p|]; [by cbn in Hsep|]. cbn [pending]. rewrite walk_nil. apply relies_ret.
      cbn [agrees snd room] in *. split_and!; [done..|]. nia. }
  destruct (strsep_pending _ _ _ Ht Hsep) as (Hcf & Hcp & Hslash & -> & Hroom).
  change (Ascii.eqb (first_char file) NUL) with (str_empty (Some file)). rewrite c_string_empty by done.
  pose proof (strlen_nonneg file) as Hf0.
  destruct (str_equal file EmptyString) eqn:He; cbn [orb app].
  { apply IH. split; [done..|lia]. }
  destruct (str_equal file ".") eqn:Hd.
  { rewrite walk_cons, Hd. apply IH. split; [done..|lia]. }
  destruct (str_equal file "..") eqn:Hdd.
  { unfold str_equal in Hdd. apply String.eqb_eq in Hdd as ->. apply dotdot_walks; [done|]. split; [done..|lia]. }
  assert (normal file) as Hnf.
  { unfold str_equal in *. apply String.eqb_neq in He, Hd, Hdd. done. }
  destruct miss as [|m miss]; cbn [length].
  - rewrite app_nil_r in *. change (0 <? Z.of_nat 0) with false. cbv iota.
    apply (entry_walks fuel cur fd file ptr' nlinks g); first [done|lia].
  - rewrite (proj2 (Z.ltb_lt 0 _)) by lia. rewrite walk_cons, Hd, Hdd.
    replace (Z.of_nat (S (length miss)) + 1) with (Z.of_nat (length ((m :: miss) ++ [file])))
      by (rewrite length_app; cbn; lia).
    apply (append_walks fuel cur (m :: miss)); first [done|by rewrite app_assoc|lia].
Qed.
End Correct.

(** ** The whole resolution *)

Lemma appended_under (root : string) (cs : list string) :
  Ascii.eqb (first_char root) "/" = true -> appended (appended EmptyString root) (render cs) = under root cs.
Proof.
  intros Hr. unfold appended. rewrite (str_empty_slash root), (append_piece_empty root) by done. destruct cs as [|c cs]; [done|].
  rewrite str_empty_slash by by apply render_first. unfold append_piece, under. rewrite render_first by done.
  cbn [negb andb String.append]. by destruct (Ascii.eqb (last_char root) "/").
Qed.

Lemma relies_xclose {G} (step : G -> event -> G) rely fd g s : relies step rely (xclose fd) g s (fun _ _ _ => True).
Proof. unfold xclose. destruct (fd <? 0); [by intros _|]. by intros [[]|e] _. Qed.

Section Whole.
Context (files : place -> option node) (root : string) (base : place) (width : Z) (path : string).
Hypothesis root_absolute : Ascii.eqb (first_char root) "/" = true.
Hypothesis links_tame : tame files width.
Hypothesis width_nonneg : 0 <= width.
Hypothesis path_text : c_string path.
Hypothesis path_short : strlen root + strlen path + MAXSYMLINKS * width + 6 <= PATH_MAX.

(** The components [path] leads to, seen from the root. *)
Definition destination : option (list string) :=
  walk files base (Z.to_nat MAXSYMLINKS) [] [] (comps path).

Abbreviation follows := (relies (fd_places files root base) (tree_says files root base)).

Lemma do_path_resolve_buf_walks buf s :
  follows (do_path_resolve_buf true buf root path) ∅ s (fun r _ _ => fst r = option_map (under root) destination).
Proof.
  unfold do_path_resolve_buf. rewrite root_absolute. cbn [negb].
  pose proof (strlen_nonneg root). pose proof (strlen_nonneg path).
  eapply relies_bind; [apply relies_open_next; by left|]. intros r s' g' Hr. unfold opened in Hr.
  rewrite root_absolute in Hr. unfold str_equal in Hr. rewrite String.eqb_refl in Hr. destruct Hr as (fd & -> & Hfd).
  unfold path_append at 1. rewrite path_append_at_fits by (cbn [strlen String.length]; unfold strlen, MAXSYMLINKS in *; simpl; lia).
  apply relies_bind_ret. pose proof (strlen_appended EmptyString path) as Hlen.
  eapply relies_bind.
  { apply (resolve_loop_walks files root base width (strlen path + 2) path root_absolute links_tame
      width_nonneg ltac:(lia) ltac:(unfold MAXSYMLINKS in *; lia) resolve_fuel [] [] fd). split; [constructor|by rewrite app_nil_r|done| |].
    - by apply c_string_appended.
    - change (strlen (render ([] ++ []))) with 0. change (strlen EmptyString) with 0 in Hlen. cbn [room]. lia. }
  intros [fd' res] s2 g2 Hag. cbn [pending] in Hag. rewrite comps_appended in Hag by done. rewrite comps_nil in Hag.
  unfold destination. change (links_left 0) with (Z.to_nat MAXSYMLINKS) in Hag. cbn [app] in Hag.
  destruct (walk _ _ _ _ _ _) as [cs|]; cbn [agrees snd option_map] in *.
  - destruct Hag as (-> & Hn & Hl). cbv zeta. unfold path_join, path_new, path_append.
    pose proof (strlen_appended EmptyString root) as Hlr. cbn [strlen String.length] in Hlr.
    rewrite path_append_at_fits by (unfold strlen, MAXSYMLINKS in *; simpl; lia). 
    change (bind (ret ?a) ?k) with (k a). cbv beta iota.
    rewrite path_append_at_fits by (unfold strlen, MAXSYMLINKS in *; simpl in *; lia).
    apply relies_bind_ret. rewrite appended_under by done.
    eapply relies_bind; [apply relies_xclose|]. intros _ ? ? _. by apply relies_ret.
  - subst res. eapply relies_bind; [apply relies_xclose|]. intros _ ? ? _. by apply relies_ret.
Qed.

(** C6: in a file tree that does not change and can be read, where no link is empty or longer than
    [width], and with an absolute root and a path so short that they fit in a
    buffer together with the 20 longest links that can be followed
    ([strlen root + strlen path + 20 * width + 6 <= PATH_MAX]; longer ones can
    overflow it, [Paths.path_resolve_overflows]), [path_resolve_full] always
    returns, and what it returns is what the reference [walk] says: the path below
    the root that the components lead to when the root directory is the one of the
    container, links included, or nothing when the walk leaves the root, enters a
    file or follows too many links. *)
Theorem path_resolve_full_resolves (o : env) (s : st) :
  always (fd_places files root base) (tree_says files root base) ∅ (fst (exec o (path_resolve_full root path) s)) ->
  exists s', snd (exec o (path_resolve_full root path) s) = Done (s', option_map (under root) destination).
Proof.
  intros Ht. pose proof (relies_run (fd_places files root base) (tree_says files root base) o (path_resolve_full root path) (∅ : gmap Z place) s (fun r _ _ => r = option_map (under root) destination)) as Hr.
  pose proof (ensures_run o _ _ _ _ s (do_path_resolve_total true root path root_absolute)) as Hf.
  unfold path_resolve_full in *. destruct (exec o _ s) as [t [[s' r]|w]]; cbn [fst snd] in *.
  - exists s'. f_equal. f_equal. apply Hr; [|done]. unfold do_path_resolve.
    eapply relies_bind; [apply do_path_resolve_buf_walks|]. intros r' ? ? <-. by apply relies_ret.
  - exfalso. destruct Hf as [_ Hf]. rewrite Hr in Hf; [done| |done]. unfold do_path_resolve.
    eapply relies_bind; [apply do_path_resolve_buf_walks|]. intros r' ? ? <-. by apply relies_ret.
Qed.
End Whole.

(** ** Resolved paths are fixed points *)

Section Stable.
Context (files : place -> option node) (base : place).

(** Directories down to the last name, which is there and is not a link. *)
Inductive settled : place -> Prop :=
| settled_nil : settled []
| settled_snoc cur c : settled cur -> is_directory files (base ++ cur) = true ->
    (files (base ++ cur ++ [c]) = Some NDir \/ files (base ++ cur ++ [c]) = Some NFile) -> settled (cur ++ [c]).

(** What follows does not exist. *)
Definition absent_after (cur miss : list string) : Prop :=
  match miss with
  | [] => True
  | m :: _ => is_directory files (base ++ cur) = true /\ files (base ++ cur ++ [m]) = None
  end.

Record reached (cs : list string) : Prop := {
  r_normal : Forall normal cs;
  r_split : exists cur miss, cs = cur ++ miss /\ settled cur /\ absent_after cur miss
}.

Definition name (c : string) : Prop := c <> EmptyString /\ str_mem "/" c = false.

Lemma comps_names (p : string) : Forall name (comps p).
Proof.
  apply Forall_forall. intros c Hc. unfold comps in Hc. apply list_elem_of_In, filter_In in Hc as [Hc Hn].
  split; [|by apply (tokens_no_sep "/" p), list_elem_of_In]. unfold nonnil, str_equal in Hn.
  intros ->. done.
Qed.

Lemma settled_removelast cur : settled cur -> settled (removelast cur).
Proof. intros Hs. destruct Hs as [|cur c Hs]; [constructor|]. by rewrite removelast_last. Qed.

Lemma Forall_removelast {A} (P : A -> Prop) (l : list A) : Forall P l -> Forall P (removelast l).
Proof.
  intros Hl. destruct l as [|x l _] using rev_ind; [done|]. rewrite removelast_last. by apply Forall_app in Hl as [? _].
Qed.

Lemma absent_removelast cur miss : absent_after cur miss -> absent_after cur (removelast miss).
Proof. intros Ha. destruct miss as [|m [|m' l]]; [done..|]. exact Ha. Qed.

Lemma walk_reached links : forall todo cur miss cs,
  Forall name todo -> Forall normal cur -> Forall normal miss -> settled cur -> absent_after cur miss ->
  walk files base links cur miss todo = Some cs -> reached cs.
Proof.
  induction links as [links IHl] using (well_founded_induction lt_wf).
  induction todo as [|c todo IH]; intros cur miss cs Ht Hnc Hnm Hs Ha Hw.
  { rewrite walk_nil in Hw. injection Hw as <-. split; [by apply Forall_app|eauto]. }
  apply Forall_cons_1 in Ht as [[Hce Hcs] Ht]. rewrite walk_cons in Hw. unfold str_equal in Hw.
  destruct (String.eqb_spec c ".") as [->|Hd]; [eauto|].
  destruct (String.eqb_spec c "..") as [->|Hdd].
  { destruct miss as [|m miss]; [destruct cur as [|x cur]; [done|]|].
    - destruct (is_directory _ _); [|done].
      by eapply (IH (removelast (x :: cur)) []); [done|apply Forall_removelast|done|apply settled_removelast|done|].
    - by eapply (IH cur (removelast (m :: miss))); [done..|apply Forall_removelast|done|apply absent_removelast|]. }
  assert (normal c) as Hn by done.
  destruct miss as [|m miss]; [|by eapply (IH cur ((m :: miss) ++ [c])); [..|exact Hw]; try done; apply Forall_app; split; [|constructor]].
  destruct links as [|links]; [done|]. destruct (is_directory files (base ++ cur)) eqn:Hdir; cbn [negb] in Hw; [|done].
  assert (Forall normal (cur ++ [c])) as Hn' by (apply Forall_app; split; [done|by constructor]).
  destruct (files (base ++ cur ++ [c])) as [[| |target]|] eqn:Hf.
  1,2: by eapply (IH (cur ++ [c]) []); [..|exact Hw]; try done; constructor; auto.
  - eapply (IHl links ltac:(lia) _ (if Ascii.eqb (first_char target) "/" then [] else cur) []); [..|exact Hw]; try done.
    + apply Forall_app. split; [apply comps_names|done].
    + by destruct (Ascii.eqb _ _).
    + destruct (Ascii.eqb _ _); [constructor|done].
  - eapply (IH cur [c]); [..|exact Hw]; try done. by constructor.
Qed.

Lemma walk_name links cur miss c todo : normal c ->
  walk files base (S links) cur miss (c :: todo) =
  match miss with
  | _ :: _ => walk files base (S links) cur (miss ++ [c]) todo
  | [] =>
      if negb (is_directory files (base ++ cur)) then None
      else match files (base ++ cur ++ [c]) with
           | None => walk files base (S links) cur [c] todo
           | Some (NLink target) =>
               walk files base links (if Ascii.eqb (first_char target) "/" then [] else cur) [] (comps target ++ todo)
           | Some _ => walk files base (S links) (cur ++ [c]) [] todo
           end
  end.
Proof.
  intros (_ & Hd & Hdd & _). rewrite walk_cons. unfold str_equal.
  by rewrite (proj2 (String.eqb_neq c ".")), (proj2 (String.eqb_neq c "..")).
Qed.

Lemma walk_settled links cur todo :
  settled cur -> Forall normal cur -> walk files base (S links) [] [] (cur ++ todo) = walk files base (S links) cur [] todo.
Proof.
  intros Hs. revert todo. induction Hs as [|cur c Hs IH Hdir Hf]; intros todo Hn; [done|].
  apply Forall_app in Hn as [Hn Hc%Forall_cons_1%proj1]. rewrite <- app_assoc. cbn [app].
  rewrite IH, walk_name, Hdir by done. cbn [negb]. by destruct Hf as [-> | ->].
Qed.

Lemma walk_missing links cur miss todo :
  miss <> [] -> Forall normal todo -> walk files base (S links) cur miss todo = Some (cur ++ miss ++ todo).
Proof.
  intros Hm Ht. revert miss Hm. induction Ht as [|c todo Hc _ IH]; intros miss Hm.
  - by rewrite walk_nil, app_nil_r.
  - rewrite walk_name by done. destruct miss as [|m miss]; [done|]. rewrite IH by done. by rewrite <- app_assoc.
Qed.

(** Walking a resolved path leads to it again. *)
Lemma destination_again path cs : destination files base path = Some cs -> destination files base (render cs) = Some cs.
Proof.
  intros Hd. assert (reached cs) as [Hn (cur & miss & -> & Hs & Ha)].
  { by eapply walk_reached; [apply comps_names|constructor..| |exact Hd]. }
  unfold destination. rewrite comps_render by done. change (Z.to_nat MAXSYMLINKS) with (S 19).
  apply Forall_app in Hn as [Hc Hm]. rewrite walk_settled by done.
  destruct miss as [|m miss]; [by rewrite walk_nil|]. apply Forall_cons_1 in Hm as [Hm Hms].
  destruct Ha as [Hdir Hf]. rewrite walk_name, Hdir, Hf by done. by apply walk_missing.
Qed.
End Stable.

(** ** A tree to try *)

(** A kernel with the given files, and nothing else that fails. *)
Definition tree_env (files : place -> option node) (root : string) (base : place) : env := fun hist e =>
  let g := fold_left (fd_places files root base) hist ∅ in
  match e return resp e with
  | EOpenat dir path _ =>
      match opened files root base g dir path with
      | Some _ => SOk (N.of_nat (length hist + 3))
      | None => SErr ENOENT
      end
  | EReadlinkat dir c => match g !! dir with Some loc => link_at files loc c | None => SErr ENOENT end
  | e => friendly e
  end.

(** A container in [/ctr] with a link of each kind. *)
Definition demo_files (loc : place) : option node :=
  snd <$> List.find (fun e => bool_decide (fst e = loc))
    [(["ctr"], NDir); (["ctr"; "usr"], NDir); (["ctr"; "usr"; "lib"], NDir);
     (["ctr"; "usr"; "lib"; "libGL"], NFile);
     (["ctr"; "lib"], NLink "usr/lib"); (["ctr"; "lib64"], NLink "/lib/../lib"); (["ctr"; "loop"], NLink "loop");
     (["ctr"; "out"], NLink "../etc")].

Lemma demo_files_tame : tame demo_files 11.
Proof.
  intros loc target. unfold demo_files. cbn [List.find fst].
  repeat (case_bool_decide; [cbn; intros [=]; (subst; split_and!; [done|reflexivity|unfold strlen; cbn; lia])|]). cbn. discriminate.
Qed.

Lemma path_resolve_full_resolves_witness :
  let run path := snd (exec (tree_env demo_files "/ctr" ["ctr"]) (path_resolve_full "/ctr" path) init_st) in
  (exists s, run "lib64/./libGL" = Done (s, Some "/ctr/usr/lib/libGL")) /\
  (exists s, run "lib64/new/../x" = Done (s, Some "/ctr/usr/lib/x")) /\
  (exists s, run "loop" = Done (s, None)) /\ (exists s, run "out/passwd" = Done (s, None)).
Proof.
  assert (forall path, c_string path -> strlen path <= 100 ->
    always (fd_places demo_files "/ctr" ["ctr"]) (tree_says demo_files "/ctr" ["ctr"]) ∅
      (fst (exec (tree_env demo_files "/ctr" ["ctr"]) (path_resolve_full "/ctr" path) init_st)) ->
    exists s, snd (exec (tree_env demo_files "/ctr" ["ctr"]) (path_resolve_full "/ctr" path) init_st) =
      Done (s, option_map (under "/ctr") (destination demo_files ["ctr"] path))) as Hp.
  { intros path Hc Hl. apply (path_resolve_full_resolves demo_files "/ctr" ["ctr"] 11); try done.
    - apply demo_files_tame.
    - change (strlen "/ctr") with 4. unfold MAXSYMLINKS, PATH_MAX. lia. }
  split_and!.
  - apply (Hp "lib64/./libGL"); [reflexivity|by vm_compute|vm_compute; repeat split].
  - apply (Hp "lib64/new/../x"); [reflexivity|by vm_compute|vm_compute; repeat split].
  - apply (Hp "loop"); [reflexivity|by vm_compute|vm_compute; repeat split].
  - apply (Hp "out/passwd"); [reflexivity|by vm_compute|vm_compute; repeat split].
Defined.
