(* ===== verification/Dsl.v ===== *)
(** * The language of container requirements

    [src/src/cli/dsl.c]: a predicate is a list of alternatives separated by
    spaces, each a list of conditions separated by commas; a condition compares
    a property of the driver or of a device with a version or a string. *)
From S2P Require Import Prelude CString Effects Logic Errors.

Inductive dsl_comparator := EQUAL | NOT_EQUAL | LESS | LESS_EQUAL | GREATER | GREATER_EQUAL.
#[export] Instance dsl_comparator_eq_dec : EqDecision dsl_comparator.
Proof. solve_decision. Defined.

Definition is_cmp (a b : dsl_comparator) : bool := bool_decide (a = b).

(** ** Comparisons *)

(** The loop of [dsl_compare_version]: [inl] is what it returns, [inr] the two
    strings left when one of them ends.  [None] is [-1]. *)
Fixpoint compare_loop (fuel : nat) (v1 : string) (cmp : dsl_comparator) (v2 : string)
  : option (bool + string * string) :=
  match fuel with
  | O => None
  | S fuel =>
    if Ascii.eqb (first_char v1) NUL || Ascii.eqb (first_char v2) NUL then Some (inr (v1, v2))
    else
      let '(n1, ptr1) := strtoumax v1 in
      if (n1 =? UINTMAX_MAX) || (v1 =? ptr1)%string then None
      else
        let '(n2, ptr2) := strtoumax v2 in
        if (n2 =? UINTMAX_MAX) || (v2 =? ptr2)%string then None
        else if negb (n1 =? n2) then
          Some (inl (if is_cmp cmp EQUAL then false
                     else if is_cmp cmp NOT_EQUAL then true
                     else if is_cmp cmp LESS || is_cmp cmp LESS_EQUAL then n1 <? n2
                     else n2 <? n1))
        else
          compare_loop fuel (str_drop (strspn ptr1 ".") ptr1) cmp (str_drop (strspn ptr2 ".") ptr2)
  end.

Definition dsl_compare_version (v1 : string) (cmp : dsl_comparator) (v2 : string) : option bool :=
  if negb (strspn v1 "0123456789." =? String.length v1)%nat then None
  else if negb (strspn v2 "0123456789." =? String.length v2)%nat then None
  else
    match compare_loop (S (String.length v1)) v1 cmp v2 with
    | None => None
    | Some (inl b) => Some b
    | Some (inr (v1, v2)) =>
        let end1 := Ascii.eqb (first_char (str_drop (strspn v1 ".0") v1)) NUL in
        let end2 := Ascii.eqb (first_char (str_drop (strspn v2 ".0") v2)) NUL in
        if is_cmp cmp NOT_EQUAL then Some (negb end1 || negb end2)
        else if (is_cmp cmp EQUAL || is_cmp cmp LESS_EQUAL || is_cmp cmp GREATER_EQUAL)
                && (end1 && end2) then Some true
        else if is_cmp cmp EQUAL then Some false
        else if is_cmp cmp LESS || is_cmp cmp LESS_EQUAL then Some (end1 && negb end2)
        else if is_cmp cmp GREATER || is_cmp cmp GREATER_EQUAL then Some (negb end1 && end2)
        else None
    end.

Definition dsl_compare_string (s1 : string) (cmp : dsl_comparator) (s2 : string) : option bool :=
  match cmp with
  | EQUAL => Some (str_case_equal s1 s2)
  | NOT_EQUAL => Some (negb (str_case_equal s1 s2))
  | _ => None
  end.

(** ** Evaluation *)

Definition operators : list (string * dsl_comparator) :=
  [("=", EQUAL); ("!=", NOT_EQUAL); ("<", LESS); ("<=", LESS_EQUAL);
   (">", GREATER); (">=", GREATER_EQUAL)].

Definition EXPR_MAX : Z := 128.

(** A rule: its name and the function it calls (on the context it is given). *)
Definition dsl_rule : Type := string * (dsl_comparator -> string -> option bool).

Fixpoint find_operator (ptr : string) (n : nat) (ops : list (string * dsl_comparator))
  : option (string * dsl_comparator) :=
  match ops with
  | [] => None
  | (str, cmp) :: ops' => if strneq n ptr str then Some (str, cmp) else find_operator ptr n ops'
  end.

Fixpoint apply_rule (expr op : string) (cmp : dsl_comparator) (val : string) (rules : list dsl_rule)
  : option bool :=
  match rules with
  | [] => None
  | (name, func) :: rules' =>
      if str_case_equal expr name then
        match func cmp val with
        | Some false =>
            if EXPR_MAX <=? strlen (expr +:+ " " +:+ op +:+ " " +:+ val) then None else Some false
        | r => r
        end
      else apply_rule expr op cmp val rules'
  end.

Definition evaluate_rule (expr : string) (rules : list dsl_rule) : option bool :=
  let n := strcspn expr "<>=!" in
  if (n =? 0)%nat then None
  else
    let ptr := str_drop n expr in
    let name := str_take n expr in
    let n := strspn ptr "<>=!" in
    if (n =? 0)%nat then None
    else
      match find_operator ptr n operators with
      | None => None
      | Some (op, cmp) =>
          let val := str_drop n ptr in
          if Ascii.eqb (first_char val) NUL then None else apply_rule name op cmp val rules
      end.

(** The loop over the conditions of an alternative: the last value of [ret], and
    whether the loop came to its end ([and_expr == NULL]). *)
Fixpoint and_loop (exprs : list string) (rules : list dsl_rule) (ret : bool) : option (bool * bool) :=
  match exprs with
  | [] => Some (ret, true)
  | e :: exprs' =>
      if Ascii.eqb (first_char e) NUL then and_loop exprs' rules ret
      else match evaluate_rule e rules with
           | None => None
           | Some false => Some (false, false)
           | Some true => and_loop exprs' rules true
           end
  end.

Fixpoint or_loop (alts : list string) (rules : list dsl_rule) (ret : bool) : option bool :=
  match alts with
  | [] => Some ret
  | a :: alts' =>
      if Ascii.eqb (first_char a) NUL then or_loop alts' rules ret
      else match and_loop (tokens "," a) rules ret with
           | None => None
           | Some (ret, true) => Some ret
           | Some (ret, false) => or_loop alts' rules ret
           end
  end.

Definition CUDA_REQUIRE_GREATER : string := "cuda>=".

Definition dsl_evaluate (predicate : string) (rules : list dsl_rule) : M (option unit) :=
  let? expr := xstrdup predicate else ret None in
  match or_loop (tokens " " expr) rules true with
  | None => do error_setx "invalid expression" in ret None
  | Some true => ret (Some tt)
  | Some false =>
      let? copy := xstrdup predicate else ret None in
      let predicate_format := fst (split_at " " copy) in
      do (if (strlen CUDA_REQUIRE_GREATER <=? strlen predicate_format)
             && strneq (String.length CUDA_REQUIRE_GREATER) predicate_format CUDA_REQUIRE_GREATER
          then error_setx ("unsatisfied condition: " +:+ predicate_format +:+
                 ", please update your driver to a newer version, or use an earlier cuda container")
          else error_setx ("unsatisfied condition: " +:+ predicate_format)) in
      ret None
  end.

(** ** Versions *)

Definition is_digit (c : ascii) : bool := str_mem c "0123456789".
Fixpoint str_forall (f : ascii -> bool) (s : string) : bool :=
  match s with EmptyString => true | String c s' => f c && str_forall f s' end.
Definition digits_val (ds : string) : Z := fst (fst (read_digits 10 0 0 ds)).

(** The numbers a version is made of: digits, separated by dots. *)
Inductive is_version : string -> list Z -> Prop :=
| version_end : is_version EmptyString []
| version_number (ds dots s : string) (l : list Z) :
    ds <> EmptyString -> str_forall is_digit ds = true -> digits_val ds < UINTMAX_MAX ->
    str_forall (Ascii.eqb ".") dots = true -> (s = EmptyString \/ dots <> EmptyString) ->
    is_version s l -> is_version (ds +:+ dots +:+ s) (digits_val ds :: l).

(** Lexicographic comparison; a missing number counts as zero. *)
Fixpoint version_compare (l1 l2 : list Z) : comparison :=
  match l1, l2 with
  | [], [] => Eq
  | n1 :: l1', [] => if n1 =? 0 then version_compare l1' [] else Gt
  | [], _ :: _ => if forallb (Z.eqb 0) l2 then Eq else Lt
  | n1 :: l1', n2 :: l2' => match n1 ?= n2 with Eq => version_compare l1' l2' | c => c end
  end.

Definition holds (cmp : dsl_comparator) (c : comparison) : bool :=
  match cmp, c with
  | EQUAL, Eq | NOT_EQUAL, (Lt | Gt) | LESS, Lt | LESS_EQUAL, (Lt | Eq)
  | GREATER, Gt | GREATER_EQUAL, (Gt | Eq) => true
  | _, _ => false
  end.

(** *** Reading a number *)

Lemma is_digit_spec (c : ascii) :
  is_digit c = true ->
  is_space c = false /\ Ascii.eqb c "-" = false /\ Ascii.eqb c "+" = false /\
  exists d, digit_val 10 c = Some d /\ 0 <= d /\ (d = 0 <-> Ascii.eqb "0" c = true).
Proof.
  destruct c as [[] [] [] [] [] [] [] []]; vm_compute; intros H; try discriminate H;
    (split_and!; [done..|]); eexists; (split; [reflexivity|]); by split.
Qed.

Lemma not_digit_spec (c : ascii) : is_digit c = false -> digit_val 10 c = None.
Proof. destruct c as [[] [] [] [] [] [] [] []]; vm_compute; congruence. Qed.

Lemma read_digits_app (ds rest : string) acc n :
  str_forall is_digit ds = true -> is_digit (first_char rest) = false ->
  read_digits 10 acc n (ds +:+ rest) =
    (fst (fst (read_digits 10 acc n ds)), (n + String.length ds)%nat, rest).
Proof.
  revert acc n. induction ds as [|c ds IH]; intros acc n Hds Hr; simpl in *.
  - rewrite Nat.add_0_r. destruct rest as [|c rest]; [done|]. simpl in *. by rewrite not_digit_spec.
  - apply andb_prop in Hds as [Hc Hds]. apply is_digit_spec in Hc as (_ & _ & _ & d & -> & _).
    rewrite IH by done. f_equal. f_equal. lia.
Qed.

Lemma read_digits_zero (ds : string) acc n :
  str_forall is_digit ds = true -> 0 <= acc ->
  0 <= fst (fst (read_digits 10 acc n ds)) /\
  (fst (fst (read_digits 10 acc n ds)) = 0 <-> acc = 0 /\ str_forall (Ascii.eqb "0") ds = true).
Proof.
  revert acc n. induction ds as [|c ds IH]; intros acc n Hds Ha; simpl in *.
  - split; [done|]. split; [by intros ->|by intros [-> _]].
  - apply andb_prop in Hds as [Hc Hds]. apply is_digit_spec in Hc as (_ & _ & _ & d & -> & Hd & Hz).
    destruct (IH (acc * 10 + d) (S n) Hds ltac:(lia)) as [H1 H2]. split; [done|].
    rewrite H2, andb_true_iff, <- Hz. split; [intros [? ?]; split; [lia|split; [lia|done]]|].
    intros (? & ? & ?). split; [lia|done].
Qed.

Lemma strtoumax_digits (ds rest : string) :
  ds <> EmptyString -> str_forall is_digit ds = true -> is_digit (first_char rest) = false ->
  digits_val ds < UINTMAX_MAX ->
  strtoumax (ds +:+ rest) = (digits_val ds, rest).
Proof.
  intros Hne Hds Hr Hv. unfold strtoumax, scan_number.
  destruct ds as [|c ds]; [done|]. pose proof Hds as Hds'. simpl in Hds'.
  apply andb_prop in Hds' as [Hc _]. apply is_digit_spec in Hc as (H1 & H2 & H3 & _).
  assert (skip_spaces (String c ds +:+ rest) = String c ds +:+ rest) as ->.
  { change (String c ds +:+ rest) with (String c (ds +:+ rest)). simpl. by rewrite H1. }
  assert (match String c ds +:+ rest with
          | String c' s' => if Ascii.eqb c' "-" then (true, s')
                            else if Ascii.eqb c' "+" then (false, s')
                            else (false, String c ds +:+ rest)
          | EmptyString => (false, String c ds +:+ rest)
          end = (false, String c ds +:+ rest)) as ->.
  { change (String c ds +:+ rest) with (String c (ds +:+ rest)). cbv iota beta. by rewrite H2, H3. }
  rewrite read_digits_app by done. fold (digits_val (String c ds)).
  assert (0 + String.length (String c ds) =? 0 = false)%nat as -> by done.
  rewrite (proj2 (Z.ltb_ge UINTMAX_MAX _)) by lia. done.
Qed.

(** *** Versions as strings *)

Definition version_char (c : ascii) : bool := str_mem c "0123456789.".

Lemma str_forall_app f a b : str_forall f (a +:+ b) = str_forall f a && str_forall f b.
Proof. induction a as [|c a IH]; simpl; [done|]. by rewrite IH, andb_assoc. Qed.

Lemma str_forall_impl (f g : ascii -> bool) s :
  (forall c, f c = true -> g c = true) -> str_forall f s = true -> str_forall g s = true.
Proof.
  intros Hfg. induction s as [|c s IH]; simpl; [done|]. intros [Hc Hs]%andb_prop.
  by rewrite Hfg, IH.
Qed.

Lemma digit_version_char c : is_digit c = true -> version_char c = true.
Proof. destruct c as [[] [] [] [] [] [] [] []]; vm_compute; congruence. Qed.
Lemma dot_version_char c : Ascii.eqb "." c = true -> version_char c = true.
Proof. intros <-%Ascii.eqb_eq. done. Qed.
Lemma version_char_not_nul c : version_char c = true -> Ascii.eqb c NUL = false.
Proof. destruct c as [[] [] [] [] [] [] [] []]; vm_compute; congruence. Qed.

Lemma version_chars s l : is_version s l -> str_forall version_char s = true.
Proof.
  induction 1 as [|ds dots s l _ Hds _ Hdots _ _ IH]; [done|].
  rewrite !str_forall_app, IH. rewrite (str_forall_impl is_digit version_char) by (done || apply digit_version_char).
  rewrite (str_forall_impl (Ascii.eqb ".") version_char) by (done || apply dot_version_char). done.
Qed.

Lemma strspn_forall s accept :
  str_forall (fun c => str_mem c accept) s = true -> strspn s accept = String.length s.
Proof. induction s as [|c s IH]; simpl; [done|]. intros [-> Hs]%andb_prop. by rewrite IH. Qed.

Lemma span_ends (s accept : string) :
  str_forall version_char s = true ->
  Ascii.eqb (first_char (str_drop (strspn s accept) s)) NUL = str_forall (fun c => str_mem c accept) s.
Proof.
  induction s as [|c s IH]; [done|]. simpl. intros [Hc Hs]%andb_prop.
  destruct (str_mem c accept); simpl; [by apply IH|]. by apply version_char_not_nul.
Qed.

Lemma zero_char c : is_digit c = true -> str_mem c ".0" = true -> Ascii.eqb "0" c = true.
Proof. destruct c as [[] [] [] [] [] [] [] []]; vm_compute; congruence. Qed.

Lemma version_zero s l :
  is_version s l ->
  str_forall (fun c => str_mem c ".0") s = forallb (Z.eqb 0) l.
Proof.
  induction 1 as [|ds dots s l Hne Hds Hv Hdots Hs Hver IH]; [done|].
  rewrite !str_forall_app, IH. cbn [forallb].
  rewrite (str_forall_impl (Ascii.eqb ".") (fun c => str_mem c ".0") dots)
    by (done || (intros c <-%Ascii.eqb_eq; done)).
  rewrite andb_true_l. f_equal. apply eq_true_iff_eq. rewrite Z.eqb_eq.
  pose proof (read_digits_zero ds 0 0 Hds ltac:(lia)) as [_ Hz]. fold (digits_val ds) in Hz.
  split.
  - intros H. symmetry. apply Hz. split; [done|]. clear -H Hds.
    induction ds as [|c ds IH]; [done|]. simpl in *. apply andb_prop in H as [Hc H].
    apply andb_prop in Hds as [Hd Hds]. by rewrite (zero_char c Hd Hc), IH.
  - intros H. symmetry in H. apply Hz in H as [_ H]. eapply str_forall_impl; [|exact H].
    by intros c <-%Ascii.eqb_eq.
Qed.

Lemma version_first s l : is_version s l -> s = EmptyString \/ is_digit (first_char s) = true.
Proof.
  intros [|ds dots s' l' Hne Hds _ _ _ _]; [by left|]. right.
  destruct ds as [|c ds]; [done|]. simpl in *. by apply andb_prop in Hds as [? _].
Qed.

Lemma not_digit_dots dots s l :
  str_forall (Ascii.eqb ".") dots = true -> (s = EmptyString \/ dots <> EmptyString) ->
  is_version s l ->
  is_digit (first_char (dots +:+ s)) = false /\ str_drop (strspn (dots +:+ s) ".") (dots +:+ s) = s.
Proof.
  intros Hd Hs Hv. split.
  - destruct dots as [|c dots]; [by destruct Hs as [->|]|]. simpl in *.
    by apply andb_prop in Hd as [<-%Ascii.eqb_eq _].
  - clear Hs. induction dots as [|c dots IH]; simpl.
    + apply version_first in Hv as [->|Hv]; [done|]. destruct s as [|c s]; [done|]. simpl in *.
      assert (Ascii.eqb c "." = false) as ->; [|done].
      revert Hv. destruct c as [[] [] [] [] [] [] [] []]; vm_compute; congruence.
    + simpl in Hd. apply andb_prop in Hd as [<-%Ascii.eqb_eq Hd]. by apply IH.
Qed.

(** One step of the loop, on two versions that both have a number left. *)
Lemma compare_loop_step fuel cmp ds1 dots1 s1 l1 ds2 dots2 s2 l2 :
  ds1 <> EmptyString -> str_forall is_digit ds1 = true -> digits_val ds1 < UINTMAX_MAX ->
  str_forall (Ascii.eqb ".") dots1 = true -> (s1 = EmptyString \/ dots1 <> EmptyString) ->
  is_version s1 l1 ->
  ds2 <> EmptyString -> str_forall is_digit ds2 = true -> digits_val ds2 < UINTMAX_MAX ->
  str_forall (Ascii.eqb ".") dots2 = true -> (s2 = EmptyString \/ dots2 <> EmptyString) ->
  is_version s2 l2 ->
  compare_loop (S fuel) (ds1 +:+ dots1 +:+ s1) cmp (ds2 +:+ dots2 +:+ s2) =
    if negb (digits_val ds1 =? digits_val ds2)
    then Some (inl (holds cmp (digits_val ds1 ?= digits_val ds2)))
    else compare_loop fuel s1 cmp s2.
Proof.
  intros Hn1 Hd1 Hb1 Hp1 Hs1 Hv1 Hn2 Hd2 Hb2 Hp2 Hs2 Hv2. cbn [compare_loop].
  assert (forall ds r, ds <> EmptyString -> str_forall is_digit ds = true ->
            Ascii.eqb (first_char (ds +:+ r)) NUL = false) as Hf.
  { intros [|c ds] r Hne Hds; [done|]. simpl in *. apply andb_prop in Hds as [Hc _].
    by apply version_char_not_nul, digit_version_char. }
  assert (forall ds r, ds <> EmptyString -> (ds +:+ r =? r)%string = false) as Hneq.
  { intros ds r Hne. apply String.eqb_neq. intros E. apply (f_equal String.length) in E.
    rewrite string_length_app in E. destruct ds; [done|]. simpl in E. lia. }
  rewrite !Hf by done.
  destruct (not_digit_dots _ _ _ Hp1 Hs1 Hv1) as [Hx1 Hy1].
  destruct (not_digit_dots _ _ _ Hp2 Hs2 Hv2) as [Hx2 Hy2].
  rewrite !strtoumax_digits by done. rewrite !Hneq by done.
  rewrite (proj2 (Z.eqb_neq (digits_val ds1) UINTMAX_MAX)) by lia.
  rewrite (proj2 (Z.eqb_neq (digits_val ds2) UINTMAX_MAX)) by lia. simpl orb. cbv iota.
  rewrite Hy1, Hy2. destruct (Z.eqb_spec (digits_val ds1) (digits_val ds2)) as [|Hne]; [done|].
  simpl negb. cbv iota. do 2 f_equal. unfold Z.ltb.
  rewrite (Z.compare_antisym (digits_val ds1)).
  destruct (Z.compare_spec (digits_val ds1) (digits_val ds2)); [lia| |]; by destruct cmp.
Qed.

Lemma compare_loop_version (fuel : nat) cmp s1 l1 s2 l2 :
  is_version s1 l1 -> is_version s2 l2 -> (String.length s1 < fuel)%nat ->
  match compare_loop fuel s1 cmp s2 with
  | Some (inl b) => b = holds cmp (version_compare l1 l2)
  | Some (inr (r1, r2)) =>
      exists k1 k2, is_version r1 k1 /\ is_version r2 k2 /\ (k1 = [] \/ k2 = []) /\
        version_compare l1 l2 = version_compare k1 k2
  | None => False
  end.
Proof.
  intros H1. revert fuel s2 l2.
  induction H1 as [|ds1 dots1 s1 l1 Hn1 Hd1 Hb1 Hp1 Hs1 Hv1 IH]; intros fuel s2 l2 H2 Hf;
    (destruct fuel as [|fuel]; [lia|]).
  - cbn. exists [], l2. split_and!; [constructor|done|by left|done].
  - destruct H2 as [|ds2 dots2 s2 l2 Hn2 Hd2 Hb2 Hp2 Hs2 Hv2].
    { cbn [compare_loop]. rewrite orb_true_r.
      exists (digits_val ds1 :: l1), []. split_and!; [by constructor|constructor|by right|done]. }
    rewrite (compare_loop_step fuel cmp ds1 dots1 s1 l1 ds2 dots2 s2 l2) by done.
    cbn [version_compare]. destruct (Z.eqb_spec (digits_val ds1) (digits_val ds2)) as [->|Hne]; simpl negb; cbv iota.
    + rewrite Z.compare_refl. apply IH; [done|].
      rewrite !string_length_app in Hf. destruct ds1; [done|]. simpl in Hf. lia.
    + by destruct (Z.compare_spec (digits_val ds1) (digits_val ds2)).
Qed.

Lemma version_compare_nil_r l :
  version_compare l [] = if forallb (Z.eqb 0) l then Eq else Gt.
Proof.
  induction l as [|n l IH]; [done|]. cbn [version_compare forallb]. rewrite (Z.eqb_sym 0).
  destruct (n =? 0); [done|done].
Qed.

Lemma version_compare_nil_l l :
  version_compare [] l = if forallb (Z.eqb 0) l then Eq else Lt.
Proof.
  by destruct l.
Qed.

(** On two versions, [dsl_compare_version] decides the comparison of the
    lists of their numbers, lexicographic, a missing number counting as zero
    (["1.0"] equals ["1"], ["1.10"] is greater than ["1.9"]). *)
Theorem dsl_compare_version_correct v1 v2 l1 l2 cmp :
  is_version v1 l1 -> is_version v2 l2 ->
  dsl_compare_version v1 cmp v2 = Some (holds cmp (version_compare l1 l2)).
Proof.
  intros H1 H2. unfold dsl_compare_version.
  rewrite (strspn_forall v1), (strspn_forall v2) by (by eapply version_chars).
  rewrite !Nat.eqb_refl. simpl negb. cbv iota.
  pose proof (compare_loop_version (S (String.length v1)) cmp v1 l1 v2 l2 H1 H2 ltac:(lia)) as H.
  destruct (compare_loop _ _ _ _) as [[b|[r1 r2]]|]; [by subst|..|done].
  destruct H as (k1 & k2 & Hr1 & Hr2 & Hk & ->).
  rewrite !span_ends by (by eapply version_chars). rewrite (version_zero _ _ Hr1), (version_zero _ _ Hr2).
  destruct Hk as [->| ->]; [rewrite version_compare_nil_l|rewrite version_compare_nil_r];
    simpl (forallb _ []); [destruct (forallb _ k2)|destruct (forallb _ k1)]; by destruct cmp.
Qed.

Lemma is_version_11_2 : is_version "11.2" [11; 2].
Proof.
  apply (version_number "11" "." "2" [2]); [done|done|done|done|by right|].
  apply (version_number "2" "" "" []); [done|done|done|done|by left|constructor].
Defined.

Lemma is_version_11_10_0 : is_version "11.10.0" [11; 10; 0].
Proof.
  apply (version_number "11" "." "10.0" [10; 0]); [done|done|done|done|by right|].
  apply (version_number "10" "." "0" [0]); [done|done|done|done|by right|].
  apply (version_number "0" "" "" []); [done|done|done|done|by left|constructor].
Defined.

Lemma dsl_compare_version_correct_witness :
  dsl_compare_version "11.2" LESS "11.10.0" = Some (holds LESS (version_compare [11; 2] [11; 10; 0])) /\
  holds LESS (version_compare [11; 2] [11; 10; 0]) = true.
Proof.
  split; [|reflexivity].
  apply (dsl_compare_version_correct "11.2" "11.10.0" [11; 2] [11; 10; 0] LESS);
    [apply is_version_11_2|apply is_version_11_10_0].
Defined.

(** ** Predicates *)

Definition nonempty (s : string) : bool := negb (Ascii.eqb (first_char s) NUL).

(** The alternatives of a predicate, each the list of its conditions. *)
Definition alternatives (predicate : string) : list (list string) :=
  map (fun a => List.filter nonempty (tokens "," a)) (List.filter nonempty (tokens " " predicate)).

Definition condition_holds (rules : list dsl_rule) (e : string) : bool :=
  match evaluate_rule e rules with Some b => b | None => false end.

(** Some alternative has all its conditions; no requirement is no restriction. *)
Definition satisfied (rules : list dsl_rule) (predicate : string) : bool :=
  match alternatives predicate with
  | [] => true
  | alts => existsb (forallb (condition_holds rules)) alts
  end.

(** Every condition parses, and compares something known. *)
Definition well_formed (rules : list dsl_rule) (predicate : string) : Prop :=
  Forall (fun a => a <> [] /\ Forall (fun e => evaluate_rule e rules <> None) a)
         (alternatives predicate).

Lemma dsl_evaluate_ens rules predicate :
  ensures (only [KLib]) no_stop (dsl_evaluate predicate rules)
    (fun r => match r with Some _ => or_loop (tokens " " predicate) rules true = Some true | None => True end).
Proof. unfold dsl_evaluate. ens; subst; auto. Qed.
#[export] Hint Resolve dsl_evaluate_ens : ens.

(** *** What any predicate says *)

(** The conditions of an alternative are read in order, up to the first that does
    not hold or is malformed. *)
Inductive reads (rules : list dsl_rule) : list string -> option bool -> Prop :=
| reads_true a : Forall (fun e => evaluate_rule e rules = Some true) a -> reads rules a (Some true)
| reads_false pre e post : Forall (fun e => evaluate_rule e rules = Some true) pre ->
    evaluate_rule e rules = Some false -> reads rules (pre ++ e :: post) (Some false)
| reads_malformed pre e post : Forall (fun e => evaluate_rule e rules = Some true) pre ->
    evaluate_rule e rules = None -> reads rules (pre ++ e :: post) None.

(** The alternatives are read in order, up to the first that does not fail: it
    accepts the predicate, or is malformed.  One without conditions accepts only
    when it is the first. *)
Inductive judged (rules : list dsl_rule) : list (list string) -> option bool -> Prop :=
| judged_nothing : judged rules [] (Some true)
| judged_true pre a post : Forall (fun a => reads rules a (Some false)) pre -> reads rules a (Some true) ->
    a <> [] \/ pre = [] -> judged rules (pre ++ a :: post) (Some true)
| judged_false alts : Forall (fun a => reads rules a (Some false)) alts -> alts <> [] -> judged rules alts (Some false)
| judged_empty pre post : Forall (fun a => reads rules a (Some false)) pre -> pre <> [] ->
    judged rules (pre ++ [] :: post) (Some false)
| judged_malformed pre a post : Forall (fun a => reads rules a (Some false)) pre -> reads rules a None ->
    judged rules (pre ++ a :: post) None.

Lemma reads_more rules e a r : evaluate_rule e rules = Some true -> reads rules a r -> reads rules (e :: a) r.
Proof.
  intros He [b Hb|pre e' post Hp He'|pre e' post Hp He'].
  - by repeat constructor.
  - by apply (reads_false rules (e :: pre)); [constructor|].
  - by apply (reads_malformed rules (e :: pre)); [constructor|].
Qed.

Lemma and_loop_reads rules exprs ret : match and_loop exprs rules ret with
  | Some (b, true) => reads rules (List.filter nonempty exprs) (Some true) /\
      b = match List.filter nonempty exprs with [] => ret | _ => true end
  | Some (b, false) => reads rules (List.filter nonempty exprs) (Some false) /\ b = false
  | None => reads rules (List.filter nonempty exprs) None
  end.
Proof.
  revert ret. induction exprs as [|e exprs IH]; intros ret; cbn [and_loop List.filter]; [by repeat constructor|].
  change (nonempty e) with (negb (Ascii.eqb (first_char e) NUL)). destruct (Ascii.eqb (first_char e) NUL); cbn [negb]; [apply IH|].
  destruct (evaluate_rule e rules) as [[]|] eqn:E.
  - specialize (IH true). destruct (and_loop exprs rules true) as [[b []]|].
    + destruct IH as [H ->]. split; [by apply reads_more|]. by destruct (List.filter _ _).
    + destruct IH as [H ->]. split; [by apply reads_more|done].
    + by apply reads_more.
  - split; [|done]. by apply (reads_false rules []).
  - by apply (reads_malformed rules []).
Qed.

(** The loop after the alternatives [pre], which all failed. *)
Lemma or_loop_judged rules pre alts :
  Forall (fun a => reads rules a (Some false)) pre ->
  judged rules (pre ++ map (fun a => List.filter nonempty (tokens "," a)) (List.filter nonempty alts))
    (or_loop alts rules (match pre with [] => true | _ => false end)).
Proof.
  revert pre. induction alts as [|a alts IH]; intros pre Hp; cbn [or_loop List.filter map].
  { rewrite app_nil_r. destruct pre; by constructor. }
  change (nonempty a) with (negb (Ascii.eqb (first_char a) NUL)). destruct (Ascii.eqb (first_char a) NUL); cbn [negb]; [by apply IH|]. cbn [map].
  pose proof (and_loop_reads rules (tokens "," a) (match pre with [] => true | _ => false end)) as Ha.
  destruct (and_loop _ _ _) as [[b []]|].
  - destruct Ha as [Ha ->]. destruct (List.filter nonempty (tokens "," a)) as [|c l] eqn:El.
    + destruct pre as [|p pre]; [apply (judged_true rules []); auto|by apply judged_empty].
    + apply judged_true; [done..|by left].
  - destruct Ha as [Ha ->]. set (c := List.filter nonempty (tokens "," a)) in *.
    specialize (IH (pre ++ [c]) ltac:(apply Forall_app; auto)). rewrite <- app_assoc in IH. by destruct pre.
  - by apply judged_malformed.
Qed.

Lemma reads_false_fails rules a : reads rules a (Some false) -> forallb (condition_holds rules) a = false.
Proof.
  inversion 1 as [|pre e post _ He|]; subst. rewrite forallb_app. cbn [forallb]. unfold condition_holds at 2.
  rewrite He. by destruct (forallb _ pre).
Qed.

Lemma judged_satisfied rules predicate :
  judged rules (alternatives predicate) (Some true) -> satisfied rules predicate = true.
Proof.
  unfold satisfied. remember (Some true) as r. destruct 1 as [|pre a post _ Ha _| | |]; simplify_eq; [done|].
  assert (existsb (forallb (condition_holds rules)) (pre ++ a :: post) = true) as E.
  { apply existsb_exists. exists a. split; [apply in_or_app; right; by left|]. apply forallb_forall. intros e He.
    inversion Ha as [? Hall| |]; subst. unfold condition_holds.
    by rewrite (proj1 (List.Forall_forall _ _) Hall e He). }
  destruct (pre ++ a :: post) eqn:El; [by destruct pre|exact E].
Qed.

Lemma judged_not_well_formed rules predicate :
  judged rules (alternatives predicate) None -> ~ well_formed rules predicate.
Proof.
  unfold well_formed. remember None as r. destruct 1 as [| | | |pre a post _ Ha]; simplify_eq.
  intros [_ [[_ Hw] _]%Forall_cons_1]%Forall_app. inversion Ha as [| |p e q _ He]; subst.
  apply Forall_app in Hw as [_ [Hw _]%Forall_cons_1]. done.
Qed.

Lemma judged_refused rules predicate :
  judged rules (alternatives predicate) (Some false) -> well_formed rules predicate -> satisfied rules predicate = false.
Proof.
  unfold well_formed, satisfied. remember (Some false) as r. destruct 1 as [| |alts Ha Hne|pre post _ _|]; simplify_eq.
  - intros _. destruct alts as [|a alts]; [done|]. apply not_true_iff_false. intros (b & Hb & Hf)%existsb_exists.
    rewrite List.Forall_forall in Ha. by rewrite (reads_false_fails _ _ (Ha _ Hb)) in Hf.
  - by intros [_ [[? _] _]%Forall_cons_1]%Forall_app.
Qed.

(** Every failure says so in the error. *)
Definition reports (e : option error) : Prop := exists e', e = Some e' /\ code e' <> 0.

Definition oom (t : trace) : Prop := fold_left oom_step t false = true.

Lemma oom_app t t' : oom t \/ oom t' -> oom (t ++ t').
Proof.
  unfold oom. rewrite fold_left_app. destruct (fold_left oom_step t false) eqn:E; [|intros [H|H]; [done|exact H]].
  intros _. clear E. by induction t' as [|[[] []] t' IH].
Qed.

(** Every run of [m] from [s] ends with [R]. *)
Definition ends {A} (m : M A) (s : st) (R : trace -> st -> A -> Prop) : Prop :=
  wp (m s) (fun t o => match o with Done (s', a) => R t s' a | Halted _ => False end).

Lemma ends_bind {A B} (m : M A) (k : A -> M B) s R1 R :
  ends m s R1 -> (forall t s' a, R1 t s' a -> ends (k a) s' (fun t' => R (t ++ t'))) -> ends (bind m k) s R.
Proof.
  intros Hm Hk. apply wp_bind. eapply wp_mono; [|exact Hm]. intros t [[s' a]|w] H; [|done]. by apply Hk.
Qed.

Lemma ends_post {A} (m : M A) s (R R' : trace -> st -> A -> Prop) :
  ends m s R -> (forall t s' a, R t s' a -> R' t s' a) -> ends m s R'.
Proof. intros Hm HR. eapply wp_mono; [|exact Hm]. intros t [[s' a]|w] H; [by apply HR|done]. Qed.

Lemma error_setx_reports text s : err s <> None ->
  ends (error_setx text) s (fun t s' _ => reports (err s') /\
    (err s' = Some (mkError (-1) (Some text)) \/ oom t)).
Proof.
  destruct s as [n [e|]]; [intros _|done]. intros [|]; cbn; (split; [by eexists|]); [by left|by right].
Qed.

Lemma error_set_reports text s : ErrText text -> errno s <> 0 -> err s <> None ->
  ends (error_set text) s (fun t s' _ => reports (err s')).
Proof.
  destruct s as [n [e|]]; [|done]. intros Ht Hn _. unfold error_set, error_vset.
  eapply (ends_bind get_errno _ _ (fun _ s' r => s' = mkSt n (Some e) /\ r = n)); [done|]. intros _ _ _ [-> ->].
  eapply (ends_bind (call _) _ _ (fun _ s' r => s' = mkSt n (Some e))); [by intros r|]. intros _ _ em ->.
  generalize (Ht em). generalize (errmsg_has_colon text em) as b. intros b ->. intros [|]; [intros [|]|]; by eexists.
Qed.

Lemma xstrdup_reports x s : err s <> None ->
  ends (xstrdup x) s (fun t s' r =>
    match r with Some y => y = x /\ err s' <> None | None => reports (err s') /\ oom t end).
Proof.
  intros He. unfold xstrdup, xalloc. apply (ends_bind _ _ _ (fun t s' r =>
    match r with Some _ => err s' <> None | None => reports (err s') /\ oom t end)).
  - apply (ends_bind (call EAlloc) _ _ (fun t s' r => s' = s /\ (r = false -> oom t))); [by intros [|]|].
    intros t s1 [|] [-> Ho]; [exact He|]. eapply (ends_bind _ _ _ (fun _ s' _ => s' = mkSt ENOMEM (err s))); [done|].
    intros t1 s1 z ->. eapply ends_bind; [by apply error_set_reports|]. intros t2 s' y Hr. split; [exact Hr|].
    apply oom_app. left. by apply Ho.
  - intros t s' [[]|] H; [by split|]. destruct H as [Hr H]. split; [exact Hr|]. apply oom_app. by left.
Qed.

(** C32: [dsl_evaluate] always returns.  It reads the alternatives in order
    ([judged]): it accepts the predicate at the first one whose conditions all
    hold; it fails, with an error that is set, when every one has a condition that
    does not hold, at the first malformed condition it comes to ("invalid
    expression"), and otherwise only when memory runs out.  An accepted predicate
    is [satisfied], a refused one whose parts are all well-formed is not; what
    stands behind the condition that decides is not read. *)
Theorem dsl_evaluate_correct (o : env) (rules : list dsl_rule) (predicate : string) (s : st) :
  err s <> None ->
  match exec o (dsl_evaluate predicate rules) s with
  | (_, Done (_, Some _)) => judged rules (alternatives predicate) (Some true) /\ satisfied rules predicate = true
  | (t, Done (s', None)) => reports (err s') /\
      (judged rules (alternatives predicate) (Some false) /\ (well_formed rules predicate -> satisfied rules predicate = false) \/
       judged rules (alternatives predicate) None /\ ~ well_formed rules predicate /\
         err s' = Some (mkError (-1) (Some "invalid expression")) \/
       oom t)
  | (_, Halted _) => False
  end.
Proof.
  intros He. destruct (err s) as [e|] eqn:Ee; [clear He|done].
  pose proof (or_loop_judged rules [] (tokens " " predicate) ltac:(constructor)) as Hj. cbn [app] in Hj.
  fold (alternatives predicate) in Hj.
  rename predicate into p.
  assert (ends (dsl_evaluate p rules) s (fun t s' r => match r with
    | Some _ => judged rules (alternatives p) (Some true)
    | None => reports (err s') /\
        (judged rules (alternatives p) (Some false) \/
         judged rules (alternatives p) None /\ err s' = Some (mkError (-1) (Some "invalid expression")) \/ oom t)
    end)) as Hw.
  { unfold dsl_evaluate. eapply ends_bind; [apply xstrdup_reports; by rewrite Ee|].
    intros t s1 [y|] H1; [destruct H1 as [-> H1]|by split; [apply H1|right; right; apply oom_app; left; apply H1]].
    destruct (or_loop (tokens " " p) rules true) as [[]|]; [exact Hj| |].
    - eapply ends_bind; [by apply xstrdup_reports|].
      intros t2 s2 [y|] H2; [destruct H2 as [-> H2]|by split; [apply H2|left]]. cbv zeta.
      eapply (ends_bind _ _ _ (fun _ s' _ => reports (err s'))).
      + case_match; (eapply ends_post; [by apply error_setx_reports|]); by intros ? ? ? [? _].
      + intros t3 s3 z H3. split; [exact H3|]. by left.
    - eapply ends_bind; [by apply error_setx_reports|]. intros t2 s2 z [H2 Ho]. split; [exact H2|]. right.
      destruct Ho as [Ho|Ho]; [left; by split|right]. apply oom_app. right. apply oom_app. by left. }
  apply (wp_run _ _ o []) in Hw. unfold exec. destruct (run o [] _) as [t [[s' [[]|]]|w]]; cbn [fst snd] in Hw; [..|done].
  - split; [exact Hw|by apply judged_satisfied].
  - destruct Hw as [Hr [H|[[H He]|H]]]; (split; [exact Hr|]); [left|right; left|by right; right].
    + split; [exact H|]. by apply judged_refused.
    + split; [exact H|]. split; [by apply judged_not_well_formed|exact He].
Qed.

Definition demo_rules : list dsl_rule :=
  [("cuda", dsl_compare_version "11.2"); ("brand", dsl_compare_string "Tesla")].

Lemma dsl_evaluate_correct_witness :
  (satisfied demo_rules "cuda>=11.4 brand=tesla,cuda>=10.0" = true /\
   snd (exec (fun _ e => friendly e) (dsl_evaluate "cuda>=11.4 brand=tesla,cuda>=10.0" demo_rules) init_st)
     = Done (init_st, Some tt)) /\
  exists s', snd (exec (fun _ e => friendly e) (dsl_evaluate "cuda>=11.4 brand=tesla,cuda10 brand=quadro" demo_rules) init_st)
    = Done (s', None) /\ reports (err s').
Proof.
  split.
  - pose proof (dsl_evaluate_correct (fun _ e => friendly e) demo_rules "cuda>=11.4 brand=tesla,cuda>=10.0" init_st
      ltac:(discriminate)) as H.
    assert (snd (exec (fun _ e => friendly e) (dsl_evaluate "cuda>=11.4 brand=tesla,cuda>=10.0" demo_rules) init_st)
      = Done (init_st, Some tt)) as E by (vm_compute; reflexivity).
    split; [|exact E]. destruct (exec _ _ _) as [t out]. cbn in E. subst out. apply H.
  - pose proof (dsl_evaluate_correct (fun _ e => friendly e) demo_rules "cuda>=11.4 brand=tesla,cuda10 brand=quadro" init_st
      ltac:(discriminate)) as H.
    assert (snd (exec (fun _ e => friendly e) (dsl_evaluate "cuda>=11.4 brand=tesla,cuda10 brand=quadro" demo_rules) init_st)
      = Done (mkSt 0 (Some (mkError (-1) (Some "invalid expression"))), None)) as E by (vm_compute; reflexivity).
    eexists. split; [exact E|]. destruct (exec _ _ _) as [t out]. cbn in E. subst out. apply H.
Defined.

(** A condition written with ["!"] alone is taken for one with ["!="]: the
    operator is looked up by the characters that are there. *)
Theorem bang_is_not_equal (rules : list dsl_rule) :
  evaluate_rule "cuda!11.0" rules = evaluate_rule "cuda!=11.0" rules.
Proof. reflexivity. Qed.
