(* ===== verification/Devices.v ===== *)
(** * Selecting devices on the command line

    [src/src/cli/common.c].  The pointers kept in [struct devices] point into the
    array of available GPUs: a GPU is its index, a MIG device the index of its
    GPU and its own. *)
From S2P Require Import Prelude CString Effects Logic Errors Types.

Record devices := mkDevices {
  all : bool;
  gpus : list nat;
  max_gpus : nat;
  migs : list (nat * nat);
  max_migs : nat
}.

(** ** Formats *)

(** [%x], at most [width] characters: value and rest. *)
Definition scan_hex (width : nat) (s : string) : option (Z * string) :=
  let s := skip_spaces s in
  let '(neg, s, width) :=
    match s with
    | String c s' =>
        if Ascii.eqb c "-" then (true, s', (width - 1)%nat)
        else if Ascii.eqb c "+" then (false, s', (width - 1)%nat) else (false, s, width)
    | EmptyString => (false, s, width)
    end in
  let field := str_take width s in
  let prefix := str_case_equal (str_take 2 field) "0x" in
  let '(v, n, rest) := read_digits 16 0 0 (if prefix then str_drop 2 field else field) in
  if (n =? 0)%nat && negb prefix then None
  else
    let used := (String.length field - String.length rest)%nat in
    let v := if UINTMAX_MAX <? v then UINTMAX_MAX else v in
    Some (to_uint32 (if neg then - v else v), str_drop used s).

Definition hex_digit (d : Z) : ascii :=
  ascii_of_nat (Z.to_nat (if d <? 10 then 48 + d else 87 + d)).

Fixpoint print_hex_loop (fuel : nat) (z : Z) (acc : string) : string :=
  match fuel with
  | O => acc
  | S fuel => if z =? 0 then acc else print_hex_loop fuel (z / 16) (String (hex_digit (z mod 16)) acc)
  end.

Fixpoint pad0 (n : nat) (s : string) : string :=
  match n with O => s | S n => String "0" (pad0 n s) end.

(** [%0<width>x] of a 32-bit number. *)
Definition print_hex (width : nat) (z : Z) : string :=
  let s := print_hex_loop 8 z EmptyString in
  pad0 (Nat.max width 1 - String.length s) s.

Definition skip_colon (s : string) : option string :=
  if Ascii.eqb (first_char s) ":" then Some (str_drop 1 s) else None.

(** [matches_pci_format]: what it leaves in [buf]. *)
Definition matches_pci_format (gpu : string) : option string :=
  match scan_hex (String.length gpu) gpu with
  | None => None
  | Some (domainid, s) =>
      match skip_colon s with
      | None => None
      | Some s =>
          match scan_hex 2 s with
          | None => None
          | Some (busid, s) =>
              match skip_colon s with
              | None => None
              | Some s =>
                  match scan_hex 2 s with
                  | None => None
                  | Some (deviceid, _) =>
                      Some (print_hex 8 domainid +:+ ":" +:+ print_hex 2 busid +:+ ":" +:+
                            print_hex 2 deviceid +:+ ".0")
                  end
              end
          end
      end
  end.

(** ** Building the selection *)

Definition count_mig_devices (available : nvc_device_info) : nat :=
  fold_left (fun count g => (count + length (mig_devices g))%nat) available O.

Definition already_present {A} `{EqDecision A} (ptr : A) (ptrs : list A) : bool :=
  existsb (fun x => bool_decide (x = ptr)) ptrs.

Definition add_gpu_device (gpu : nat) (d : devices) : M (option devices) :=
  if negb (already_present gpu (gpus d)) then
    if (max_gpus d <? length (gpus d) + 1)%nat then
      do error_setx "exceeds maximum GPU device count" in ret None
    else ret (Some (mkDevices (all d) (gpus d ++ [gpu]) (max_gpus d) (migs d) (max_migs d)))
  else ret (Some d).

Definition add_mig_device (mig : nat * nat) (d : devices) : M (option devices) :=
  if negb (already_present mig (migs d)) then
    if (max_migs d <? length (migs d) + 1)%nat then
      do error_setx "exceeds maximum MIG device count" in ret None
    else ret (Some (mkDevices (all d) (gpus d) (max_gpus d) (migs d ++ [mig]) (max_migs d)))
  else ret (Some d).

(** Run with a local [struct error ierr]; on failure report it with [prefix]. *)
Definition with_ierr {A} (prefix : string) (m : M (option A)) : M (option A) :=
  let* r := with_err err0 m in
  match fst r with
  | Some a => ret (Some a)
  | None =>
      do error_setx (prefix +:+ opt_str (e ← snd r; msg e)) in ret None
  end.

Definition select_all_gpu_devices (available : nvc_device_info) (selected : devices)
  : M (option devices) :=
  with_ierr "error adding all GPU devices: "
    (foldM (fun d i => add_gpu_device i d) selected (seq 0 (length available))).

(** The MIG devices of all the GPUs, in order. *)
Definition all_migs (available : nvc_device_info) : list (nat * nat) :=
  mbind (fun '(i, g) => map (fun j => (i, j)) (seq 0 (length (mig_devices g))))
        (zip (seq 0 (length available)) available).

Definition select_all_mig_devices (available : nvc_device_info) (selected : devices)
  : M (option devices) :=
  with_ierr "error adding all MIG devices: "
    (foldM (fun d m => add_mig_device m d) selected (all_migs available)).

Definition select_all_devices (available : nvc_device_info) (selected : devices)
  : M (option devices) :=
  let? d := select_all_gpu_devices available selected else ret None in
  select_all_mig_devices available d.

(** *** One device *)

(** The string at [dev + 2]: behind a token of one character is what follows its
    terminator, the rest of the list; after the last token there is nothing. *)
Definition dev_plus_2 (dev : string) (rest : option string) : option string :=
  match dev with
  | String _ (String _ tail) => Some tail
  | String _ EmptyString => rest
  | EmptyString => None
  end.

Fixpoint match_uuid (i : nat) (tmp : string) (l : list nvc_device) : M (option nat) :=
  match l with
  | [] => ret None
  | g :: l' =>
      if negb (strlen (uuid g) =? strlen tmp) then
        do call (EPrint ("available->gpus[i].uuid: " +:+ uuid g)) in
        do call (EPrint ("gpus_uuid_tmp: " +:+ tmp)) in
        match_uuid (S i) tmp l'
      else if strcaseeq (uuid g) tmp then ret (Some i)
      else match_uuid (S i) tmp l'
  end.

Fixpoint match_busid (i : nat) (buf : string) (l : list nvc_device) : option nat :=
  match l with
  | [] => None
  | g :: l' => if strncaseeq (String.length buf) (busid g) buf then Some i else match_busid (S i) buf l'
  end.

(** The GPU that [dev] names, in the order the code looks. *)
Definition find_gpu (dev : string) (rest : option string) (available : nvc_device_info)
  : M (option nat) :=
  let* by_uuid :=
    match available, dev_plus_2 dev rest with
    | [], _ => ret None
    | _, None => halt (Undefined "read past the end of the device list")
    | _, Some tmp => match_uuid 0 tmp available
    end in
  match by_uuid with
  | Some i => ret (Some i)
  | None =>
      let by_bus := match matches_pci_format dev with
                    | Some buf => match_busid 0 buf available
                    | None => None
                    end in
      match by_bus with
      | Some i => ret (Some i)
      | None =>
          let '(n, ptr) := strtoumax dev in
          if Ascii.eqb (first_char ptr) NUL && (n <? UINTMAX_MAX) && (n <? Z.of_nat (length available))
          then ret (Some (Z.to_nat n)) else ret None
      end
  end.

(** [select_gpu_device]: whether a GPU was found, and the selection with it. *)
Definition select_gpu_device (dev : string) (rest : option string) (available : nvc_device_info)
    (selected : devices) : M (option (bool * devices)) :=
  let* gpu := find_gpu dev rest available in
  match gpu with
  | None => ret (Some (false, selected))
  | Some i =>
      let? d := with_ierr "error adding GPU device: " (add_gpu_device i selected) else ret None in
      ret (Some (true, d))
  end.

Definition match_mig_uuid (dev : string) (available : nvc_device_info) : option (nat * nat) :=
  let same '(i, j) :=
    match available !! i with
    | Some g => match mig_devices g !! j with
                | Some m => (strlen (mig_uuid m) =? strlen dev) && strcaseeq (mig_uuid m) dev
                | None => false
                end
    | None => false
    end in
  List.find same (all_migs available).

(** [sscanf(dev, "%lu:%lu", &i, &j) == 2] *)
Definition scan_mig_index (dev : string) : option (Z * Z) :=
  match scan_number dev with
  | None => None
  | Some (_, _, rest) =>
      match skip_colon rest with
      | None => None
      | Some rest =>
          match scan_number rest with
          | None => None
          | Some _ => Some (fst (strtoumax dev), fst (strtoumax rest))
          end
      end
  end.

Definition find_mig (dev : string) (available : nvc_device_info) : option (nat * nat) :=
  let by_uuid := if strncaseeq 4 dev "MIG-" && (4 <? strlen dev) then match_mig_uuid dev available else None in
  match by_uuid with
  | Some m => Some m
  | None =>
      match scan_mig_index dev with
      | None => None
      | Some (i, j) =>
          if i <? Z.of_nat (length available) then
            match available !! Z.to_nat i with
            | Some g => if j <? Z.of_nat (length (mig_devices g)) then Some (Z.to_nat i, Z.to_nat j) else None
            | None => None
            end
          else None
      end
  end.

Definition mig_parent (available : nvc_device_info) (m : nat * nat) : nat :=
  match available !! fst m with
  | Some g => match mig_devices g !! snd m with Some mig => parent mig | None => O end
  | None => O
  end.

Definition select_mig_device (dev : string) (available : nvc_device_info) (selected : devices)
  : M (option (bool * devices)) :=
  match find_mig dev available with
  | None => ret (Some (false, selected))
  | Some m =>
      let? d := with_ierr "error adding MIG device: " (add_mig_device m selected) else ret None in
      let? d := with_ierr "error adding GPU device: " (add_gpu_device (mig_parent available m) d) else ret None in
      ret (Some (true, d))
  end.

(** *** Lists of devices *)

Definition set_all (d : devices) : devices := mkDevices true (gpus d) (max_gpus d) (migs d) (max_migs d).

(** The body of the loop of [select_devices]: whether the loop goes on. *)
Definition select_device (dev : string) (rest : option string) (available : nvc_device_info)
    (selected : devices) : M (option (bool * devices)) :=
  if str_case_equal dev "all" then
    let? d := select_all_devices available selected else ret None in
    ret (Some (false, set_all d))
  else
    let? r := select_gpu_device dev rest available selected else ret None in
    let '(found, d) := r in
    if found : bool then ret (Some (true, d))
    else
      let? r := select_mig_device dev available d else ret None in
      let '(found, d) := r in
      if found : bool then ret (Some (true, d))
      else do error_setx "unknown device" in ret None.

Fixpoint select_loop (fuel : nat) (devs : option string) (available : nvc_device_info)
    (selected : devices) : M (option devices) :=
  match fuel with
  | O => halt OutOfFuel
  | S fuel =>
    match strsep "," devs with
    | None => ret (Some selected)
    | Some (dev, devs) =>
        if Ascii.eqb (first_char dev) NUL then select_loop fuel devs available selected
        else
          let? r := with_ierr (dev +:+ ": ") (select_device dev devs available selected) else ret None in
          let '(go_on, d) := r in
          if go_on : bool then select_loop fuel devs available d else ret (Some d)
    end
  end.

Definition select_devices (devs : option string) (available : nvc_device_info) (selected : devices)
  : M (option devices) :=
  select_loop (S (S (match devs with Some s => String.length s | None => O end))) devs available selected.

(** *** Devices for MIG management *)

Definition gpu_mig_capable (available : nvc_device_info) (i : nat) : bool :=
  match available !! i with Some g => mig_capable g | None => false end.

Definition add_capable (available : nvc_device_info) (d : devices) (i : nat) : M (option devices) :=
  if gpu_mig_capable available i then add_gpu_device i d else ret (Some d).

(** The loop of both functions below; [text] is what the error says. *)
Fixpoint select_mig_loop (fuel : nat) (text : string) (devs : option string)
    (available : nvc_device_info) (visible selected : devices) : M (option devices) :=
  match fuel with
  | O => halt OutOfFuel
  | S fuel =>
    match strsep "," devs with
    | None => ret (Some selected)
    | Some (dev, devs) =>
        if Ascii.eqb (first_char dev) NUL then select_mig_loop fuel text devs available visible selected
        else
          with_ierr (dev +:+ ": ")
            (if str_case_equal dev "all" then
               if negb (all visible) && (0 <? Z.of_nat (length (migs visible))) then
                 do error_setx text in ret None
               else
                 let? d := foldM (add_capable available) selected (gpus visible) else ret None in
                 let? d := foldM (add_capable available) d
                             (map (mig_parent available) (migs visible)) else ret None in
                 ret (Some (set_all d))
             else do error_setx "only 'all' devices are currently supported" in ret None)
    end
  end.

Definition mig_fuel (devs : option string) : nat :=
  S (S (match devs with Some s => String.length s | None => O end)).

Definition select_mig_config_devices (devs : option string) (available : nvc_device_info)
    (visible selected : devices) : M (option devices) :=
  select_mig_loop (mig_fuel devs) "cannot enable mig-config with specific MIG devices selected"
    devs available visible selected.

Definition select_mig_monitor_devices (devs : option string) (available : nvc_device_info)
    (visible selected : devices) : M (option devices) :=
  select_mig_loop (mig_fuel devs) "cannot enable mig-monitor with specific MIG devices selected"
    devs available visible selected.

Definition new_devices (dev : nvc_device_info) : M (option devices) :=
  let? _ := xcalloc else ret None in
  let? _ := xcalloc else ret None in
  ret (Some (mkDevices false [] (length dev) [] (count_mig_devices dev))).

(** ** Printing *)

(** [print_all_mig_minor_devices]: [fclose(fp)] also when [fopen] failed. *)
Definition print_all_mig_minor_devices (n : nvc_device_node) : M (option unit) :=
  let* r := call (EFopen NV_CAPS_MIG_MINORS_PATH "r") in
  let* fp := trap r in
  match fp with
  | None => halt (Undefined "fclose(NULL)")
  | Some fp =>
      do mapM_ (fun line =>
           match scan_mig_line line with
           | Some (gpu_minor, mig_minor) =>
               if negb (gpu_minor =? minor (node_id n)) then ret tt
               else call (EPrint (NV_CAPS_DEVICE_PATH mig_minor +:+ String "010" EmptyString))
           | None => ret tt
           end) (fgets_all (PATH_MAX - 1) fp) in
      ret (Some tt)
  end.

(** ** The invariant of a selection *)

Lemma list_subseteq_app_l {A} (l k : list A) : l ⊆ l ++ k.
Proof. intros x Hx. apply elem_of_app. by left. Qed.

(** A MIG device points back to the GPU it is listed under. *)
Definition wf_info (available : nvc_device_info) : Prop :=
  forall i g j m, available !! i = Some g -> mig_devices g !! j = Some m -> parent m = i.

Definition valid_gpu (available : nvc_device_info) (i : nat) : Prop := (i < length available)%nat.

(** The pointers are distinct, point to available devices, and fit the arrays. *)
Record Inv (available : nvc_device_info) (d : devices) : Prop := mkInv {
  inv_gpus : NoDup (gpus d);
  inv_gpus_valid : Forall (valid_gpu available) (gpus d);
  inv_max_gpus : max_gpus d = length available;
  inv_migs : NoDup (migs d);
  inv_migs_valid : Forall (fun m => m ∈ all_migs available) (migs d);
  inv_max_migs : max_migs d = length (all_migs available)
}.

(** Nothing that was selected is lost. *)
Definition extends (d d' : devices) : Prop :=
  gpus d ⊆ gpus d' /\ migs d ⊆ migs d' /\ all d' = all d.

#[export] Instance extends_refl : Reflexive extends.
Proof. intros d. split_and!; done. Qed.
#[export] Instance extends_trans : Transitive extends.
Proof. intros a b c (? & ? & ?) (? & ? & ?). split_and!; [by etrans..|congruence]. Qed.

Lemma already_present_spec {A} `{EqDecision A} (x : A) l : already_present x l = true <-> x ∈ l.
Proof.
  unfold already_present. rewrite existsb_exists, list_elem_of_In. split.
  - intros (y & Hy & ->%bool_decide_eq_true). done.
  - intros Hx. exists x. split; [done|]. by apply bool_decide_eq_true.
Qed.

Lemma valid_gpu_length available l :
  NoDup l -> Forall (valid_gpu available) l -> (length l <= length available)%nat.
Proof.
  intros Hn Hv. rewrite <- (length_seq (length available) 0). apply NoDup_incl_length; [done|].
  intros x Hx. rewrite Forall_forall in Hv. specialize (Hv x Hx). apply elem_of_seq. unfold valid_gpu in Hv. lia.
Qed.

Definition added_gpu available (d : devices) (i : nat) (r : option devices) : Prop :=
  exists d', r = Some d' /\ Inv available d' /\ extends d d' /\ i ∈ gpus d' /\
             (forall x, x ∈ gpus d' -> x ∈ gpus d \/ x = i) /\ migs d' = migs d.

(** There is always room for a GPU that is available. *)
Lemma add_gpu_device_ens available d i :
  Inv available d -> valid_gpu available i ->
  ensures (only [KLib]) no_stop (add_gpu_device i d) (added_gpu available d i).
Proof.
  intros HI Hi. unfold add_gpu_device. destruct (already_present i (gpus d)) eqn:E; simpl.
  - apply already_present_spec in E. apply ensures_ret. exists d. split_and!; try done; auto.
  - assert (i ∉ gpus d) as Hn by (intros Hx%already_present_spec; congruence).
    destruct HI as [H1 H2 H3 H4 H5 H6].
    assert (NoDup (gpus d ++ [i])) as Hnd by by apply NoDup_snoc.
    assert (Forall (valid_gpu available) (gpus d ++ [i])) as Hv by (apply Forall_app; auto).
    pose proof (valid_gpu_length _ _ Hnd Hv) as Hl. rewrite length_app in Hl. simpl in Hl.
    rewrite H3, (proj2 (Nat.ltb_ge _ _)) by lia. apply ensures_ret.
    eexists. split; [done|]. split; [by constructor|].
    split; [by split_and!; [apply list_subseteq_app_l|..]|]. simpl. split_and!; try done.
    + apply elem_of_app. right. apply list_elem_of_here.
    + by intros x [?|?%list_elem_of_singleton]%elem_of_app; [left|right].
Qed.

Definition added_mig available (d : devices) (m : nat * nat) (r : option devices) : Prop :=
  exists d', r = Some d' /\ Inv available d' /\ extends d d' /\ m ∈ migs d' /\ gpus d' = gpus d.

Lemma add_mig_device_ens available d m :
  Inv available d -> m ∈ all_migs available ->
  ensures (only [KLib]) no_stop (add_mig_device m d) (added_mig available d m).
Proof.
  intros HI Hm. unfold add_mig_device. destruct (already_present m (migs d)) eqn:E; simpl.
  - apply already_present_spec in E. apply ensures_ret. exists d. split_and!; try done; auto.
  - assert (m ∉ migs d) as Hn by (intros Hx%already_present_spec; congruence).
    destruct HI as [H1 H2 H3 H4 H5 H6].
    assert (NoDup (migs d ++ [m])) as Hnd by by apply NoDup_snoc.
    assert (Forall (fun m => m ∈ all_migs available) (migs d ++ [m])) as Hv by (apply Forall_app; auto).
    assert (length (migs d ++ [m]) <= length (all_migs available))%nat as Hl.
    { apply NoDup_incl_length; [done|]. intros x Hx. rewrite Forall_forall in Hv. auto. }
    rewrite length_app in Hl. simpl in Hl.
    rewrite H6, (proj2 (Nat.ltb_ge _ _)) by lia. apply ensures_ret.
    eexists. split; [done|]. split; [by constructor|].
    split; [by split_and!; [|apply list_subseteq_app_l|]|]. simpl. split_and!; try done.
    apply elem_of_app. right. apply list_elem_of_here.
Qed.

(** A local error is reported, or there is none. *)
Lemma with_ierr_ens {A} P H (text : string) (m : M (option A)) R :
  (forall ev, only [KLib] ev -> P ev) -> 
  ensures P H m R ->
  ensures P H (with_ierr text m) R.
Proof.
  intros HP Hm. unfold with_ierr. eapply ensures_bind.
  - apply (ensures_with_err _ _ _ _ R (fun p => R (fst p))); [done|auto].
  - intros [[a|] e] Hr; [by apply ensures_ret|].
    eapply ensures_bind with (R := any); [eapply ensures_weaken; [apply error_setx_ens|done..]|].
    intros _ _. by apply ensures_ret.
Qed.

(** *** Whole lists *)

Lemma select_all_gpu_devices_ens available d :
  Inv available d ->
  ensures (only [KLib]) no_stop (select_all_gpu_devices available d)
    (fun r => exists d', r = Some d' /\ Inv available d' /\ extends d d' /\
                forall i, valid_gpu available i -> i ∈ gpus d').
Proof.
  intros HI. apply with_ierr_ens; [done|].
  enough (forall l d, Forall (valid_gpu available) l -> Inv available d ->
    ensures (only [KLib]) no_stop (foldM (fun d i => add_gpu_device i d) d l)
      (fun r => exists d', r = Some d' /\ Inv available d' /\ extends d d' /\ l ⊆ gpus d')) as H.
  { eapply ensures_post; [apply (H _ d); [|done]|].
    - apply Forall_forall. intros i Hi%elem_of_seq. unfold valid_gpu. lia.
    - intros r (d' & -> & ? & ? & Hl). exists d'. split_and!; try done. intros i Hi. apply Hl, elem_of_seq.
      unfold valid_gpu in Hi. lia. }
  clear d HI. induction l as [|i l IH]; intros d Hl HI; simpl.
  - apply ensures_ret. exists d. split_and!; try done. by intros x ?%not_elem_of_nil.
  - apply Forall_cons_1 in Hl as [Hi Hl].
    eapply ensures_bind; [by apply add_gpu_device_ens|].
    intros r (d1 & -> & H1 & H2 & H3 & _). eapply ensures_post; [by apply IH|].
    intros r (d2 & -> & G1 & G2 & G3). exists d2. split_and!; try done; [by etrans|].
    intros x [->|Hx]%elem_of_cons; [by apply G2|by apply G3].
Qed.

Lemma select_all_mig_devices_ens available d :
  Inv available d ->
  ensures (only [KLib]) no_stop (select_all_mig_devices available d)
    (fun r => exists d', r = Some d' /\ Inv available d' /\ extends d d' /\
                all_migs available ⊆ migs d').
Proof.
  intros HI. apply with_ierr_ens; [done|].
  enough (forall l d, l ⊆ all_migs available -> Inv available d ->
    ensures (only [KLib]) no_stop (foldM (fun d m => add_mig_device m d) d l)
      (fun r => exists d', r = Some d' /\ Inv available d' /\ extends d d' /\ l ⊆ migs d')) as H.
  { by apply H. }
  clear d HI. induction l as [|m l IH]; intros d Hl HI; simpl.
  - apply ensures_ret. exists d. split_and!; try done. by intros x ?%not_elem_of_nil.
  - eapply ensures_bind; [apply add_mig_device_ens; [done|apply Hl, list_elem_of_here]|].
    intros r (d1 & -> & H1 & H2 & H3 & _).
    eapply ensures_post; [apply IH; [intros x Hx; by apply Hl, list_elem_of_further|done]|].
    intros r (d2 & -> & G1 & G2 & G3). exists d2. split_and!; try done; [by etrans|].
    intros x [->|Hx]%elem_of_cons; [by apply G2|by apply G3].
Qed.

(** *** Looking a device up *)

Lemma match_uuid_ens i tmp l :
  ensures (only [KLib]) no_stop (match_uuid i tmp l)
    (fun r => match r with Some k => (i <= k < i + length l)%nat | None => True end).
Proof.
  revert i. induction l as [|g l IH]; intros i; simpl; [ens|].
  assert (ensures (only [KLib]) no_stop (match_uuid (S i) tmp l)
    (fun r => match r with Some k => (i <= k < i + S (length l))%nat | None => True end)) as H.
  { eapply ensures_post; [apply IH|]. intros [k|]; [lia|done]. }
  destruct (negb _); [ens_step; ens_step; exact H|]. destruct (strcaseeq _ _); [|exact H].
  apply ensures_ret. lia.
Qed.

Lemma match_busid_range i buf l k :
  match_busid i buf l = Some k -> (i <= k < i + length l)%nat.
Proof.
  revert i. induction l as [|g l IH]; intros i; simpl; [done|].
  destruct (strncaseeq _ _ _); [intros; simplify_eq; lia|]. intros H%IH. lia.
Qed.

Definition overread (w : stop) : Prop := w = Undefined "read past the end of the device list".

Lemma find_gpu_ens dev rest available :
  ensures (only [KLib]) overread (find_gpu dev rest available)
    (fun r => match r with Some i => valid_gpu available i | None => True end).
Proof.
  unfold find_gpu. eapply ensures_bind with (R := fun r => match r with Some i => valid_gpu available i | None => True end).
  { destruct available as [|g l]; [by apply ensures_ret|]. destruct (dev_plus_2 dev rest) as [tmp|]; [|by apply ensures_halt].
    eapply ensures_weaken; [apply match_uuid_ens|done|done|]. intros [k|]; [|done]. unfold valid_gpu. lia. }
  intros [i|] Hi; [by apply ensures_ret|]. cbv zeta.
  destruct (match matches_pci_format dev with Some buf => match_busid 0 buf available | None => None end) as [i|] eqn:Eb.
  { apply ensures_ret. destruct (matches_pci_format dev); [|done]. apply match_busid_range in Eb.
    unfold valid_gpu. lia. }
  destruct (strtoumax dev) as [n ptr] eqn:En. destruct (_ && _) eqn:E; [|by apply ensures_ret].
  apply ensures_ret. bool_hyps. pose proof (strtoumax_range dev) as Hr. rewrite En in Hr. simpl in Hr. unfold valid_gpu. lia.
Qed.

Lemma elem_of_all_migs available i j :
  (i, j) ∈ all_migs available <->
  exists g, available !! i = Some g /\ (j < length (mig_devices g))%nat.
Proof.
  unfold all_migs. rewrite list_elem_of_bind. split.
  - intros ([i' g] & Hm & Hz). apply list_elem_of_fmap in Hm as (j' & [= -> ->] & Hj%elem_of_seq).
    apply list_elem_of_lookup in Hz as [k Hk]. apply lookup_zip_with_Some in Hk as (a & b & [= -> ->] & Ha & Hb).
    apply lookup_seq in Ha as [-> _]. exists b. split; [done|lia].
  - intros (g & Hg & Hj). exists (i, g). split.
    + apply list_elem_of_fmap. exists j. split; [done|]. apply elem_of_seq. lia.
    + apply list_elem_of_lookup. exists i. apply lookup_zip_with_Some. exists i, g. split_and!; [done| |done].
      apply lookup_seq. split; [lia|]. by apply lookup_lt_Some in Hg.
Qed.

Lemma count_all_migs available : count_mig_devices available = length (all_migs available).
Proof.
  unfold count_mig_devices, all_migs.
  assert (forall l i acc, fold_left (fun count g => (count + length (mig_devices g))%nat) l acc =
    (acc + length (mbind (fun '(i, g) => map (fun j => (i, j)) (seq 0 (length (mig_devices g))))
                         (zip (seq i (length l)) l)))%nat) as H.
  { induction l as [|g l IH]; intros i acc; [simpl; lia|].
    cbn [fold_left length seq zip zip_with]. rewrite (IH (S i)), bind_cons, length_app, length_map, length_seq. lia. }
  apply (H available 0%nat 0%nat).
Qed.

Lemma find_mig_valid dev available m : find_mig dev available = Some m -> m ∈ all_migs available.
Proof.
  unfold find_mig, match_mig_uuid. intros H. case_match eqn:E.
  - simplify_eq. destruct (_ && _); [|done]. apply find_some in E as [E _]. by apply list_elem_of_In.
  - destruct (scan_mig_index dev) as [[i j]|] eqn:Es; [|done].
    destruct (i <? _); [|done]. destruct (available !! Z.to_nat i) as [g|] eqn:Eg; [|done].
    destruct (j <? _) eqn:Ej; [|done]. simplify_eq. apply elem_of_all_migs. exists g. split; [done|].
    bool_hyps. assert (0 <= j).
    { unfold scan_mig_index in Es. repeat case_match; simplify_eq; apply strtoumax_range. }
    lia.
Qed.

Lemma mig_parent_valid available m :
  wf_info available -> m ∈ all_migs available -> valid_gpu available (mig_parent available m).
Proof.
  destruct m as [i j]. intros Hwf (g & Hg & Hj)%elem_of_all_migs. unfold mig_parent. simpl. rewrite Hg.
  destruct (mig_devices g !! j) as [mig|] eqn:Em; [|apply lookup_ge_None in Em; lia].
  rewrite (Hwf _ _ _ _ Hg Em). by apply lookup_lt_Some in Hg.
Qed.

Lemma set_all_inv available d : Inv available d -> Inv available (set_all d).
Proof. by intros []. Qed.

(** What [select_device] gives: the selection grows; it fails only on a string
    that names nothing. *)
Definition selected_one available (d : devices) (dev : string) (r : option (bool * devices)) : Prop :=
  match r with
  | None => str_case_equal dev "all" = false /\ find_mig dev available = None
  | Some (go_on, d') =>
      Inv available d' /\ gpus d ⊆ gpus d' /\ migs d ⊆ migs d' /\
      (if go_on then all d' = all d
       else all d' = true /\ (forall i, valid_gpu available i -> i ∈ gpus d') /\
            all_migs available ⊆ migs d')
  end.

Lemma select_device_ens dev rest available d :
  wf_info available -> Inv available d ->
  ensures (only [KLib]) overread (select_device dev rest available d) (selected_one available d dev).
Proof.
  intros Hwf HI. unfold select_device. destruct (str_case_equal dev "all") eqn:Eall.
  - unfold select_all_devices. apply ensures_bind_bind.
    eapply ensures_bind; [eapply ensures_weaken; [by apply select_all_gpu_devices_ens|done|done|intros r Hr; exact Hr]|].
    intros r (d1 & -> & H1 & (H2 & H3 & _) & H4).
    eapply ensures_bind; [eapply ensures_weaken; [by apply select_all_mig_devices_ens|done|done|intros r Hr; exact Hr]|].
    intros r (d2 & -> & G1 & (G2 & G3 & _) & G4). apply ensures_ret. simpl.
    split; [by apply set_all_inv|]. split; [by etrans|]. split; [by etrans|]. split_and!; [done| |done].
    intros i Hi. by apply G2, H4.
  - unfold select_gpu_device. apply ensures_bind_bind. eapply ensures_bind; [apply find_gpu_ens|].
    intros [i|] Hi.
    { apply ensures_bind_bind. eapply ensures_bind.
      - apply with_ierr_ens; [done|]. eapply ensures_weaken; [by apply add_gpu_device_ens|done|done|intros r Hr; exact Hr].
      - intros r (d1 & -> & H1 & (H2 & H3 & H4) & _). apply ensures_bind_ret, ensures_ret. done. }
    apply ensures_bind_ret. cbv beta iota. unfold select_mig_device.
    destruct (find_mig dev available) as [m|] eqn:Em.
    + pose proof (find_mig_valid _ _ _ Em) as Hm. apply ensures_bind_bind. eapply ensures_bind.
      { apply with_ierr_ens; [done|]. eapply ensures_weaken; [by apply add_mig_device_ens|done|done|intros r Hr; exact Hr]. }
      intros r (d1 & -> & H1 & (H2 & H3 & H4) & _). apply ensures_bind_bind. eapply ensures_bind.
      { apply with_ierr_ens; [done|].
        eapply ensures_weaken; [apply add_gpu_device_ens; [done|by apply mig_parent_valid]|done|done|intros r Hr; exact Hr]. }
      intros r (d2 & -> & G1 & (G2 & G3 & G4) & _). apply ensures_bind_ret, ensures_ret. simpl.
      split_and!; [done|by etrans|by etrans|congruence].
    + apply ensures_bind_ret. cbv beta iota. eapply ensures_bind with (R := any); [ens|].
      intros _ _. by apply ensures_ret.
Qed.

(** *** The loops *)

Lemma strsep_length (d : ascii) (s tok : string) (rest : option string) :
  strsep d (Some s) = Some (tok, rest) ->
  match rest with Some r => (String.length r < String.length s)%nat | None => True end.
Proof. simpl. intros [= H]. destruct rest; [|done]. by apply split_at_shorter in H. Qed.

Lemma strsep_tokens (d : ascii) (s tok : string) (rest : option string) :
  strsep d (Some s) = Some (tok, rest) ->
  tokens d s = tok :: match rest with Some r => tokens d r | None => [] end.
Proof. simpl. intros [= H]. rewrite tokens_split_at, H. by destruct rest. Qed.

(** What a list of devices gives. *)
Definition selected_list available (d : devices) (devs : option string) (r : option devices) : Prop :=
  match r with
  | None => exists dev s, devs = Some s /\ dev ∈ tokens "," s /\ Ascii.eqb (first_char dev) NUL = false /\
              str_case_equal dev "all" = false /\ find_mig dev available = None
  | Some d' => Inv available d' /\ gpus d ⊆ gpus d' /\ migs d ⊆ migs d' /\
      (all d' = all d \/ (all d' = true /\ (forall i, valid_gpu available i -> i ∈ gpus d') /\
                          all_migs available ⊆ migs d'))
  end.

Lemma select_loop_ens fuel devs available d :
  wf_info available -> Inv available d ->
  (match devs with Some s => S (String.length s) | None => O end < fuel)%nat ->
  ensures (only [KLib]) overread (select_loop fuel devs available d) (selected_list available d devs).
Proof.
  intros Hwf. revert devs d. induction fuel as [|fuel IH]; intros devs d HI Hf; [lia|].
  cbn [select_loop]. destruct devs as [s|]; [|apply ensures_ret; simpl; split_and!; auto].
  destruct (strsep "," (Some s)) as [[dev rest]|] eqn:Es; [|done].
  pose proof (strsep_length _ _ _ _ Es) as Hl. pose proof (strsep_tokens _ _ _ _ Es) as Ht.
  assert (forall d', Inv available d' -> ensures (only [KLib]) overread
    (select_loop fuel rest available d') (selected_list available d' rest)) as Hrec.
  { intros d' HI'. apply IH; [done|]. destruct rest; lia. }
  assert (forall d' r, selected_list available d' rest r -> gpus d ⊆ gpus d' -> migs d ⊆ migs d' ->
    all d' = all d -> selected_list available d (Some s) r) as Hlift.
  { intros d' [d2|] Hr Hg Hm Ha; simpl in *.
    - destruct Hr as (? & ? & ? & Hr). split_and!; [done|by etrans|by etrans|]. rewrite <- Ha. exact Hr.
    - destruct Hr as (dv & s' & -> & Hin & ?). exists dv, s. split_and!; [done| |tauto..].
      rewrite Ht. by apply list_elem_of_further. }
  destruct (Ascii.eqb (first_char dev) NUL) eqn:E0.
  { eapply ensures_post; [by apply Hrec|]. intros r Hr. by eapply Hlift. }
  eapply ensures_bind; [apply with_ierr_ens; [done|by apply select_device_ens]|].
  intros [[[] d1]|]; simpl.
  - intros (H1 & H2 & H3 & H4). eapply ensures_post; [by apply Hrec|]. intros r Hr. by eapply Hlift.
  - intros (H1 & H2 & H3 & H4). apply ensures_ret. split_and!; auto.
  - intros [H1 H2]. apply ensures_ret. exists dev, s. split_and!; try done.
    rewrite Ht. apply list_elem_of_here.
Qed.

Lemma select_devices_ens devs available d :
  wf_info available -> Inv available d ->
  ensures (only [KLib]) overread (select_devices devs available d) (selected_list available d devs).
Proof. intros Hwf HI. apply select_loop_ens; [done|done|]. destruct devs; lia. Qed.

(** ** What the names of a list designate *)

(** The first element of [l] with [Q] is [a], at [k]. *)
Definition first_of {A} (Q : A -> bool) (l : list A) (k : nat) (a : A) : Prop :=
  l !! k = Some a /\ Q a = true /\ forall j b, (j < k)%nat -> l !! j = Some b -> Q b = false.

Lemma first_of_here {A} (Q : A -> bool) a l : Q a = true -> first_of Q (a :: l) 0 a.
Proof. intros Ha. split_and!; [done..|]. lia. Qed.

Lemma first_of_there {A} (Q : A -> bool) b l k a : Q b = false -> first_of Q l k a -> first_of Q (b :: l) (S k) a.
Proof. intros Hb (Hk & Ha & Hf). split_and!; [done..|]. intros [|j] x Hj; [by intros [= <-]|]. apply Hf. lia. Qed.

Lemma find_first {A} (Q : A -> bool) l : match List.find Q l with
  | Some a => exists k, first_of Q l k a
  | None => Forall (fun a => Q a = false) l
  end.
Proof.
  induction l as [|b l IH]; cbn [List.find]; [done|]. destruct (Q b) eqn:Hb; [exists O; by apply first_of_here|].
  destruct (List.find Q l) as [a|]; [|by constructor]. destruct IH as [k Hk]. exists (S k). by apply first_of_there.
Qed.

Definition uuid_is (s : string) (g : nvc_device) : bool := (strlen (uuid g) =? strlen s) && strcaseeq (uuid g) s.
Definition busid_starts (s : string) (g : nvc_device) : bool := strncaseeq (String.length s) (busid g) s.

Section Names.
Variable available : nvc_device_info.

(** No GPU has the UUID behind the two characters in front, the bus address. *)
Definition no_uuid (dev : string) (rest : option string) : Prop :=
  forall s, dev_plus_2 dev rest = Some s -> Forall (fun g => uuid_is s g = false) available.
Definition no_busid (dev : string) : Prop :=
  forall s, matches_pci_format dev = Some s -> Forall (fun g => busid_starts s g = false) available.

(** [dev] names the GPU [i]: by its UUID behind two characters, else by the start of
    its bus address, else by its index. *)
Inductive names_gpu (dev : string) (rest : option string) : nat -> Prop :=
| gpu_by_uuid s i g : dev_plus_2 dev rest = Some s -> first_of (uuid_is s) available i g -> names_gpu dev rest i
| gpu_by_busid s i g : no_uuid dev rest -> matches_pci_format dev = Some s ->
    first_of (busid_starts s) available i g -> names_gpu dev rest i
| gpu_by_index i ptr : no_uuid dev rest -> no_busid dev -> strtoumax dev = (Z.of_nat i, ptr) -> first_char ptr = NUL ->
    Z.of_nat i < UINTMAX_MAX -> (i < length available)%nat -> names_gpu dev rest i.

Definition mig_uuid_is (s : string) (m : nat * nat) : bool :=
  match available !! fst m with
  | Some g => match mig_devices g !! snd m with
              | Some mig => (strlen (mig_uuid mig) =? strlen s) && strcaseeq (mig_uuid mig) s
              | None => false
              end
  | None => false
  end.

Definition has_mig_prefix (dev : string) : bool := strncaseeq 4 dev "MIG-" && (4 <? strlen dev).

(** [dev] names a MIG device: by its UUID, else by the indices of its GPU and of
    itself. *)
Inductive names_mig (dev : string) : nat * nat -> Prop :=
| mig_by_uuid k m : has_mig_prefix dev = true -> first_of (mig_uuid_is dev) (all_migs available) k m -> names_mig dev m
| mig_by_index i j : (has_mig_prefix dev = true -> Forall (fun m => mig_uuid_is dev m = false) (all_migs available)) ->
    scan_mig_index dev = Some (Z.of_nat i, Z.of_nat j) -> (i, j) ∈ all_migs available -> names_mig dev (i, j).

Definition with_gpu (i : nat) (d : devices) : devices :=
  if already_present i (gpus d) then d else mkDevices (all d) (gpus d ++ [i]) (max_gpus d) (migs d) (max_migs d).
Definition with_mig (m : nat * nat) (d : devices) : devices :=
  if already_present m (migs d) then d else mkDevices (all d) (gpus d) (max_gpus d) (migs d ++ [m]) (max_migs d).

(** All of them, in order. *)
Definition everything (d : devices) : devices :=
  set_all (fold_left (fun d m => with_mig m d) (all_migs available)
            (fold_left (fun d i => with_gpu i d) (seq 0 (length available)) d)).

(** What the list [devs] makes of the selection [d]: one name after the other adds
    the GPU that it designates, else the MIG device and the GPU that has it; ["all"]
    adds everything and ends the list; another name is an error. *)
Inductive selects : option string -> devices -> option devices -> Prop :=
| selects_end d : selects None d (Some d)
| selects_empty s dev rest d r : strsep "," (Some s) = Some (dev, rest) -> first_char dev = NUL ->
    selects rest d r -> selects (Some s) d r
| selects_everything s dev rest d : strsep "," (Some s) = Some (dev, rest) -> first_char dev <> NUL ->
    str_case_equal dev "all" = true -> selects (Some s) d (Some (everything d))
| selects_gpu s dev rest i d r : strsep "," (Some s) = Some (dev, rest) -> first_char dev <> NUL ->
    str_case_equal dev "all" = false -> names_gpu dev rest i -> selects rest (with_gpu i d) r -> selects (Some s) d r
| selects_mig s dev rest m d r : strsep "," (Some s) = Some (dev, rest) -> first_char dev <> NUL ->
    str_case_equal dev "all" = false -> (forall i, ~ names_gpu dev rest i) -> names_mig dev m ->
    selects rest (with_gpu (mig_parent available m) (with_mig m d)) r -> selects (Some s) d r
| selects_unknown s dev rest d : strsep "," (Some s) = Some (dev, rest) -> first_char dev <> NUL ->
    str_case_equal dev "all" = false -> (forall i, ~ names_gpu dev rest i) -> (forall m, ~ names_mig dev m) ->
    selects (Some s) d None.

(** *** The lookups *)

Lemma match_uuid_first s i l :
  ensures (only [KLib]) no_stop (match_uuid i s l) (fun r => match r with
    | Some k => exists j g, k = (i + j)%nat /\ first_of (uuid_is s) l j g
    | None => Forall (fun g => uuid_is s g = false) l
    end).
Proof.
  revert i. induction l as [|g l IH]; intros i; cbn [match_uuid]; [by apply ensures_ret|].
  assert (uuid_is s g = false -> ensures (only [KLib]) no_stop (match_uuid (S i) s l) (fun r => match r with
    | Some k => exists j g', k = (i + j)%nat /\ first_of (uuid_is s) (g :: l) j g'
    | None => Forall (fun g => uuid_is s g = false) (g :: l)
    end)) as Hmore.
  { intros Hg. eapply ensures_post; [apply IH|]. intros [k|]; [|by constructor]. intros (j & g' & -> & Hj).
    exists (S j), g'. split; [lia|]. by apply first_of_there. }
  unfold uuid_is in *. destruct (strlen (uuid g) =? strlen s) eqn:El; cbn [negb andb] in *.
  - destruct (strcaseeq (uuid g) s) eqn:Es; [|by apply Hmore]. apply ensures_ret. exists O, g. split; [lia|].
    apply first_of_here. by rewrite El, Es.
  - ens_step. ens_step. by apply Hmore.
Qed.

Lemma match_busid_first s i l : match match_busid i s l with
  | Some k => exists j g, k = (i + j)%nat /\ first_of (busid_starts s) l j g
  | None => Forall (fun g => busid_starts s g = false) l
  end.
Proof.
  revert i. induction l as [|g l IH]; intros i; cbn [match_busid]; [done|]. fold (busid_starts s g).
  destruct (busid_starts s g) eqn:Hg; [exists O, g; split; [lia|by apply first_of_here]|]. specialize (IH (S i)).
  destruct (match_busid (S i) s l) as [k|]; [|by constructor]. destruct IH as (j & g' & -> & Hj). exists (S j), g'.
  split; [lia|by apply first_of_there].
Qed.

Lemma first_of_none {A} (Q : A -> bool) l k a : first_of Q l k a -> Forall (fun a => Q a = false) l -> False.
Proof.
  intros (Hk & Ha & _) Hf. rewrite (proj1 (Forall_forall _ _) Hf a) in Ha; [done|]. by eapply list_elem_of_lookup_2.
Qed.

(** [find_gpu] finds what the name designates. *)
Lemma find_gpu_names dev rest :
  ensures (only [KLib]) overread (find_gpu dev rest available) (fun r => match r with
    | Some i => names_gpu dev rest i
    | None => forall i, ~ names_gpu dev rest i
    end).
Proof.
  unfold find_gpu. eapply ensures_bind with (R := fun r => match r with
    | Some i => names_gpu dev rest i | None => no_uuid dev rest end).
  { destruct available as [|g l] eqn:Ea; [apply ensures_ret; intros s _; rewrite Ea; constructor|].
    destruct (dev_plus_2 dev rest) as [s|] eqn:Es; [|by apply ensures_halt]. rewrite <- Ea in *.
    eapply ensures_weaken; [apply match_uuid_first|done|done|]. intros [k|].
    - intros (j & g' & -> & Hj). by eapply gpu_by_uuid.
    - intros Hn s' Hs'. rewrite Es in Hs'. by simplify_eq. }
  intros [i|] Hu; [by apply ensures_ret|]. cbv zeta.
  destruct (match matches_pci_format dev with Some buf => match_busid 0 buf available | None => None end) as [i|] eqn:Eb.
  { apply ensures_ret. destruct (matches_pci_format dev) as [s|] eqn:Es; [|done]. pose proof (match_busid_first s 0 available) as Hb.
    rewrite Eb in Hb. destruct Hb as (j & g & -> & Hj). by eapply gpu_by_busid. }
  assert (no_busid dev) as Hn.
  { intros s Es. rewrite Es in Eb. pose proof (match_busid_first s 0 available) as Hb. by rewrite Eb in Hb. }
  assert (forall i, names_gpu dev rest i -> exists ptr, strtoumax dev = (Z.of_nat i, ptr) /\ first_char ptr = NUL /\
    Z.of_nat i < UINTMAX_MAX /\ (i < length available)%nat) as Hindex.
  { intros i [s k g Hs Hf|s k g _ Hs Hf|k ptr _ _ Hk Hp Hm Hl]; [by edestruct @first_of_none; [|apply Hu]|
      by edestruct @first_of_none; [|apply Hn]|by exists ptr]. }
  destruct (strtoumax dev) as [n ptr] eqn:En. pose proof (strtoumax_range dev) as Hr. rewrite En in Hr. cbn in Hr.
  destruct (_ && _) eqn:E; apply ensures_ret.
  - apply andb_prop in E as [[Hp Hm]%andb_prop Hl]. apply Ascii.eqb_eq in Hp. bool_hyps.
    apply (gpu_by_index dev rest _ ptr); try done; rewrite ?Z2Nat.id by lia; try done. lia.
  - intros i (ptr' & [= -> ->] & Hp & Hm & Hl)%Hindex. rewrite Hp, Ascii.eqb_refl in E. cbn [andb] in E.
    apply andb_false_iff in E as [E|E]; bool_hyps; lia.
Qed.

Lemma scan_mig_index_nonneg dev i j : scan_mig_index dev = Some (i, j) -> 0 <= i /\ 0 <= j.
Proof. unfold scan_mig_index. intros H. repeat case_match; simplify_eq; split; apply strtoumax_range. Qed.

(** So does [find_mig]. *)
Lemma find_mig_names dev : match find_mig dev available with
  | Some m => names_mig dev m
  | None => forall m, ~ names_mig dev m
  end.
Proof.
  unfold find_mig. fold (has_mig_prefix dev). set (by_uuid := if has_mig_prefix dev then _ else _).
  assert (match by_uuid with
    | Some m => names_mig dev m
    | None => has_mig_prefix dev = true -> Forall (fun m => mig_uuid_is dev m = false) (all_migs available)
    end) as Hu.
  { subst by_uuid. destruct (has_mig_prefix dev) eqn:Ep; [|done]. unfold match_mig_uuid.
    match goal with |- context [List.find ?q _] => replace (List.find q (all_migs available))
      with (List.find (mig_uuid_is dev) (all_migs available)) end.
    2:{ generalize (all_migs available). intros l. induction l as [|[i j] l IH]; cbn [List.find]; [done|]. by rewrite IH. }
    pose proof (find_first (mig_uuid_is dev) (all_migs available)) as Hf.
    destruct (List.find _ _) as [m|]; [|done]. destruct Hf as [k Hk]. by eapply mig_by_uuid. }
  destruct by_uuid as [m|]; [done|].
  assert (forall m, names_mig dev m -> exists i j, m = (i, j) /\ scan_mig_index dev = Some (Z.of_nat i, Z.of_nat j) /\
    (i, j) ∈ all_migs available) as Hindex.
  { intros m [k m' Hp Hf|i j _ Hs Hm]; [by edestruct @first_of_none; [|apply Hu]|]. eauto. }
  destruct (scan_mig_index dev) as [[i j]|] eqn:Es; [|by intros m (? & ? & _ & ? & _)%Hindex].
  destruct (scan_mig_index_nonneg _ _ _ Es) as [Hi Hj].
  destruct (Z.ltb_spec i (Z.of_nat (length available))) as [Hil|Hil].
  - destruct (available !! Z.to_nat i) as [g|] eqn:Eg; [|apply lookup_ge_None in Eg; lia].
    destruct (Z.ltb_spec j (Z.of_nat (length (mig_devices g)))) as [Hjl|Hjl].
    + apply mig_by_index; [done|by rewrite !Z2Nat.id|]. apply elem_of_all_migs. exists g. split; [done|lia].
    + intros m (i' & j' & -> & [= -> ->] & (g' & Hg & Hj')%elem_of_all_migs)%Hindex. rewrite Nat2Z.id in Eg. simplify_eq. lia.
  - intros m (i' & j' & -> & [= -> ->] & (g' & Hg%lookup_lt_Some & Hj')%elem_of_all_migs)%Hindex. lia.
Qed.

(** *** The selection *)

Lemma add_gpu_device_is i d :
  Inv available d -> valid_gpu available i ->
  ensures (only [KLib]) no_stop (add_gpu_device i d) (fun r => r = Some (with_gpu i d) /\ Inv available (with_gpu i d)).
Proof.
  intros HI Hi. eapply ensures_weaken; [eapply (ensures_and _ no_stop no_stop _ (fun r => r = None \/ r = Some (with_gpu i d)))|done|..].
  - unfold add_gpu_device, with_gpu. destruct (already_present i (gpus d)); cbn [negb]; [apply ensures_ret; by right|].
    destruct (_ <? _)%nat; [|apply ensures_ret; by right]. eapply ensures_bind with (R := any); [ens|]. intros _ _.
    apply ensures_ret. by left.
  - by apply add_gpu_device_ens.
  - by intros w [? _].
  - intros r [[->| ->] (d' & [=] & ? & _)]; by subst.
Qed.

Lemma add_mig_device_is m d :
  Inv available d -> m ∈ all_migs available ->
  ensures (only [KLib]) no_stop (add_mig_device m d) (fun r => r = Some (with_mig m d) /\ Inv available (with_mig m d)).
Proof.
  intros HI Hi. eapply ensures_weaken; [eapply (ensures_and _ no_stop no_stop _ (fun r => r = None \/ r = Some (with_mig m d)))|done|..].
  - unfold add_mig_device, with_mig. destruct (already_present m (migs d)); cbn [negb]; [apply ensures_ret; by right|].
    destruct (_ <? _)%nat; [|apply ensures_ret; by right]. eapply ensures_bind with (R := any); [ens|]. intros _ _.
    apply ensures_ret. by left.
  - by apply add_mig_device_ens.
  - by intros w [? _].
  - intros r [[->| ->] (d' & [=] & ? & _)]; by subst.
Qed.

Lemma foldM_is {A} (add : A -> devices -> M (option devices)) (with_ : A -> devices -> devices) (Q : A -> Prop) l d :
  (forall a d, Q a -> Inv available d ->
     ensures (only [KLib]) no_stop (add a d) (fun r => r = Some (with_ a d) /\ Inv available (with_ a d))) ->
  Forall Q l -> Inv available d ->
  ensures (only [KLib]) no_stop (foldM (fun d a => add a d) d l)
    (fun r => r = Some (fold_left (fun d a => with_ a d) l d) /\ Inv available (fold_left (fun d a => with_ a d) l d)).
Proof.
  intros Hadd Hl. revert d. induction Hl as [|a l Ha Hl IH]; intros d HI; cbn [foldM fold_left]; [by apply ensures_ret|].
  eapply ensures_bind; [by apply Hadd|]. intros r [-> HI']. by apply IH.
Qed.

Lemma select_all_devices_is d :
  Inv available d ->
  ensures (only [KLib]) no_stop (select_all_devices available d) (fun r => (set_all <$> r) = Some (everything d)).
Proof.
  intros HI. unfold select_all_devices. eapply ensures_bind.
  { apply with_ierr_ens; [done|]. apply (foldM_is add_gpu_device with_gpu (valid_gpu available)); [|apply Forall_forall|done].
    - intros i d' Hi HI'. by apply add_gpu_device_is.
    - intros i Hi%elem_of_seq. unfold valid_gpu. lia. }
  intros r [-> HI']. eapply ensures_post.
  - apply with_ierr_ens; [done|]. apply (foldM_is add_mig_device with_mig (fun m => m ∈ all_migs available)); [|by apply Forall_forall|done].
    intros m d' Hm HI2. by apply add_mig_device_is.
  - by intros ? [-> _].
Qed.

(** One name. *)
Definition selects_one (dev : string) (rest : option string) (d : devices) (r : option (bool * devices)) : Prop :=
  if str_case_equal dev "all" then r = Some (false, everything d)
  else (exists i, names_gpu dev rest i /\ r = Some (true, with_gpu i d)) \/
       (forall i, ~ names_gpu dev rest i) /\
         ((exists m, names_mig dev m /\ r = Some (true, with_gpu (mig_parent available m) (with_mig m d))) \/
          (forall m, ~ names_mig dev m) /\ r = None).

Lemma select_device_is dev rest d :
  wf_info available -> Inv available d ->
  ensures (only [KLib]) overread (select_device dev rest available d) (selects_one dev rest d).
Proof.
  intros Hwf HI. unfold select_device, selects_one. destruct (str_case_equal dev "all").
  { eapply ensures_bind; [eapply ensures_weaken; [by apply select_all_devices_is|done|done|intros r Hr; exact Hr]|].
    intros [d'|] Hd'; [|done]. apply ensures_ret. cbn in Hd'. congruence. }
  unfold select_gpu_device. apply ensures_bind_bind. eapply ensures_bind.
  { eapply ensures_weaken; [apply (ensures_and _ _ _ _ _ _ (find_gpu_names dev rest) (find_gpu_ens dev rest available))|done|
      by intros w [? _]|intros r Hr; exact Hr]. }
  intros [i|] [Hi Hv].
  - apply ensures_bind_bind. eapply ensures_bind.
    { apply with_ierr_ens; [done|]. eapply ensures_weaken; [by apply add_gpu_device_is|done|done|intros r Hr; exact Hr]. }
    intros r [-> _]. apply ensures_bind_ret, ensures_ret. left. eauto.
  - apply ensures_bind_ret. cbv beta iota. unfold select_mig_device. pose proof (find_mig_names dev) as Hm.
    destruct (find_mig dev available) as [m|] eqn:Em.
    + pose proof (find_mig_valid _ _ _ Em) as Hmv. apply ensures_bind_bind. eapply ensures_bind.
      { apply with_ierr_ens; [done|]. eapply ensures_weaken; [by apply add_mig_device_is|done|done|intros r Hr; exact Hr]. }
      intros r [-> HI']. apply ensures_bind_bind. eapply ensures_bind.
      { apply with_ierr_ens; [done|].
        eapply ensures_weaken; [apply add_gpu_device_is; [done|by apply mig_parent_valid]|done|done|intros r Hr; exact Hr]. }
      intros r [-> _]. apply ensures_bind_ret, ensures_ret. right. split; [done|]. left. eauto.
    + apply ensures_bind_ret. cbv beta iota. eapply ensures_bind with (R := any); [ens|].
      intros _ _. apply ensures_ret. right. split; [done|]. by right.
Qed.

Lemma select_loop_is fuel devs d :
  wf_info available -> Inv available d ->
  (match devs with Some s => S (String.length s) | None => O end < fuel)%nat ->
  ensures (only [KLib]) overread (select_loop fuel devs available d) (selects devs d).
Proof.
  intros Hwf. revert devs d. induction fuel as [|fuel IH]; intros devs d HI Hf; [lia|].
  cbn [select_loop]. destruct devs as [s|]; [|apply ensures_ret; constructor].
  destruct (strsep "," (Some s)) as [[dev rest]|] eqn:Es; [|done].
  pose proof (strsep_length _ _ _ _ Es) as Hl.
  assert (forall d', Inv available d' -> ensures (only [KLib]) overread (select_loop fuel rest available d') (selects rest d')) as Hrec.
  { intros d' HI'. apply IH; [done|]. destruct rest; lia. }
  destruct (Ascii.eqb_spec (first_char dev) NUL) as [E0|E0].
  { eapply ensures_post; [by apply Hrec|]. intros r Hr. by eapply selects_empty. }
  eapply ensures_bind.
  { apply with_ierr_ens; [done|]. eapply ensures_weaken;
      [apply (ensures_and _ _ _ _ _ _ (select_device_is dev rest d Hwf HI) (select_device_ens dev rest available d Hwf HI))|done|
      by intros w [? _]|intros r Hr; exact Hr]. }
  intros r [Hone Hinv]. unfold selects_one in Hone. destruct (str_case_equal dev "all") eqn:Eall.
  - subst r. apply ensures_ret. by eapply selects_everything.
  - destruct Hone as [(i & Hi & ->)|[Hn [(m & Hm & ->)|[Hm ->]]]].
    + eapply ensures_post; [apply Hrec, Hinv|]. intros r Hr. by eapply selects_gpu.
    + eapply ensures_post; [apply Hrec, Hinv|]. intros r Hr. by eapply selects_mig.
    + apply ensures_ret. by eapply selects_unknown.
Qed.
End Names.

Lemma new_devices_ens available :
  ensures (only [KLib]) no_stop (new_devices available)
    (fun r => match r with
              | Some d => Inv available d /\ gpus d = [] /\ migs d = [] /\ all d = false
              | None => True
              end).
Proof.
  unfold new_devices. ens. split; [|done]. constructor; simpl; try done; try constructor.
  apply count_all_migs.
Qed.

(** The GPUs for MIG management: visible, and capable of it. *)
Definition for_mig available (visible : devices) (i : nat) : Prop :=
  gpu_mig_capable available i = true /\
  (i ∈ gpus visible \/ exists m, m ∈ migs visible /\ i = mig_parent available m).

Lemma add_capable_loop available (Q : nat -> Prop) l d :
  Forall (valid_gpu available) l -> Inv available d ->
  (forall i, i ∈ l -> gpu_mig_capable available i = true -> Q i) -> (forall i, i ∈ gpus d -> Q i) ->
  ensures (only [KLib]) no_stop (foldM (add_capable available) d l)
    (fun r => exists d', r = Some d' /\ Inv available d' /\ extends d d' /\
                (forall i, i ∈ gpus d' -> Q i) /\
                (forall i, i ∈ l -> gpu_mig_capable available i = true -> i ∈ gpus d')).
Proof.
  intros Hl. revert d. induction Hl as [|i l Hi Hl IH]; intros d HI HQ Hd; simpl.
  - apply ensures_ret. exists d. split_and!; try done. by intros i ?%not_elem_of_nil.
  - unfold add_capable at 1. destruct (gpu_mig_capable available i) eqn:Ec.
    + eapply ensures_bind; [by apply add_gpu_device_ens|].
      intros r (d1 & -> & H1 & H2 & H3 & H4 & _). eapply ensures_post; [apply IH|].
      * done.
      * intros x Hx. by apply HQ, list_elem_of_further.
      * intros x [?| ->]%H4; [by apply Hd|]. apply HQ; [apply list_elem_of_here|done].
      * intros r (d2 & -> & G1 & G2 & G3 & G4). exists d2. split_and!; try done; [by etrans|].
        intros x [->|Hx]%elem_of_cons Hc; [by apply G2|by apply G4].
    + apply ensures_bind_ret. eapply ensures_post; [apply IH; [done| |done]|].
      * intros x Hx. by apply HQ, list_elem_of_further.
      * intros r (d2 & -> & G1 & G2 & G3 & G4). exists d2. split_and!; try done.
        intros x [->|Hx]%elem_of_cons Hc; [congruence|by apply G4].
Qed.

Lemma select_mig_loop_ens fuel text devs available visible d :
  wf_info available -> Inv available visible -> Inv available d -> gpus d = [] ->
  (match devs with Some s => S (String.length s) | None => O end < fuel)%nat ->
  ensures (only [KLib]) no_stop (select_mig_loop fuel text devs available visible d)
    (fun r => match r with
              | Some d' => Inv available d' /\ (forall i, i ∈ gpus d' -> for_mig available visible i) /\
                           (all d = false -> all d' = true -> all visible = false -> migs visible = []) /\
                           (all d = false -> all d' = true ->
                            forall i, for_mig available visible i -> i ∈ gpus d')
              | None => True
              end).
Proof.
  intros Hwf Hvis HI He. revert devs. induction fuel as [|fuel IH]; intros devs Hf; [lia|].
  cbn [select_mig_loop]. destruct devs as [s|]; [|apply ensures_ret].
  2:{ split_and!; [done|rewrite He; by intros i ?%not_elem_of_nil|congruence..]. }
  destruct (strsep "," (Some s)) as [[dev rest]|] eqn:Es; [|done].
  pose proof (strsep_length _ _ _ _ Es) as Hl.
  destruct (Ascii.eqb _ NUL); [apply IH; destruct rest; lia|].
  apply with_ierr_ens; [done|]. destruct (str_case_equal dev "all"); [|ens].
  destruct (negb _ && _) eqn:Ev; [ens|].
  eapply ensures_bind; [apply (add_capable_loop available (for_mig available visible)); [apply Hvis|done| |]|].
  - intros i Hi Hc. split; [done|by left].
  - rewrite He. by intros i ?%not_elem_of_nil.
  - intros r (d1 & -> & H1 & H2 & H3 & H4).
    eapply ensures_bind; [apply (add_capable_loop available (for_mig available visible)); [|done| |done]|].
    + apply Forall_forall. intros i (m & -> & Hm)%list_elem_of_fmap. apply mig_parent_valid; [done|].
      destruct Hvis as [_ _ _ _ Hv _]. rewrite Forall_forall in Hv. auto.
    + intros i (m & -> & Hm)%list_elem_of_fmap Hc. split; [done|]. right. by exists m.
    + intros r (d2 & -> & G1 & G2 & G3 & G4). apply ensures_ret. split_and!; [by apply set_all_inv|done| |].
      * intros _ _ Hall. rewrite Hall in Ev. simpl in Ev. bool_hyps. by destruct (migs visible).
      * intros _ _ i [Hc [Hi|(m & Hm & ->)]]; simpl; [by apply G2, H4|]. apply G4; [|done].
        apply list_elem_of_fmap. eauto.
Qed.

(** ** What holds of every run *)

(** C28: [select_devices] adds exactly what the names of the list designate, in their
    order ([selects]): the GPU whose UUID stands behind the first two characters,
    else whose bus address starts as given, else with that index; else the MIG
    device with that UUID or those indices, and the GPU it is on; everything for
    ["all"], which ends the list; it fails at the first other name, and only then:
    the "exceeds maximum" errors cannot happen.  The selection stays without
    duplicates, of available devices only, and within the arrays [new_devices]
    allocated, and loses nothing.  The one undefined behaviour is the reading behind
    the end of a list that ends with a single character. *)
Theorem select_devices_correct (o : env) devs available d (s : st) :
  wf_info available -> Inv available d ->
  match exec o (select_devices devs available d) s with
  | (_, Done (_, r)) => selects available devs d r /\ selected_list available d devs r
  | (_, Halted w) => w = Undefined "read past the end of the device list"
  end.
Proof.
  intros Hwf HI. pose proof (ensures_run o _ _ _ _ s (select_devices_ens devs available d Hwf HI)) as H.
  assert (ensures (only [KLib]) overread (select_devices devs available d) (selects available devs d)) as Hs
    by (apply select_loop_is; [done..|]; destruct devs; lia).
  apply (ensures_run o _ _ _ _ s) in Hs. destruct (exec o _ s) as [t [[s' r]|w]]; [|apply H]. split; [apply Hs|apply H].
Qed.

Definition gpu_a : nvc_device :=
  mkDevice None "aaaa-0" "00000000:01:00.0" None None (mkNode None 0) true None
    [mkMig 0 "MIG-aa" 1 0 "" ""].
Definition gpu_b : nvc_device :=
  mkDevice None "bbbb-1" "00000000:02:00.0" None None (mkNode None 0) false None [].

Lemma wf_demo : wf_info [gpu_a; gpu_b].
Proof.
  intros i g j m Hi Hj. destruct i as [|[|i]]; simpl in Hi; simplify_eq;
    destruct j as [|j]; simpl in Hj; by simplify_eq.
Defined.

Lemma inv_demo : Inv [gpu_a; gpu_b] (mkDevices false [] 2 [] 1).
Proof. constructor; simpl; try done; constructor. Defined.

Definition demo_list : option string := Some "GPbbbb-1,0:2:0.0,,xxaaaa-0,0:0,".
Definition demo_selected : devices := mkDevices false [1%nat; 0%nat] 2 [(0%nat, 0%nat)] 1.

Lemma select_devices_correct_witness :
  snd (exec (fun _ e => friendly e)
        (select_devices demo_list [gpu_a; gpu_b] (mkDevices false [] 2 [] 1)) init_st)
    = Done (init_st, Some demo_selected) /\
  Inv [gpu_a; gpu_b] demo_selected /\
  selects [gpu_a; gpu_b] demo_list (mkDevices false [] 2 [] 1) (Some demo_selected).
Proof.
  pose proof (select_devices_correct (fun _ e => friendly e) demo_list
    [gpu_a; gpu_b] (mkDevices false [] 2 [] 1) init_st wf_demo inv_demo) as H.
  assert (snd (exec (fun _ e => friendly e)
        (select_devices demo_list [gpu_a; gpu_b] (mkDevices false [] 2 [] 1)) init_st)
    = Done (init_st, Some demo_selected)) as E by (vm_compute; reflexivity).
  split; [exact E|]. destruct (exec _ _ _) as [t out]. simpl in E. subst out. split; apply H.
Defined.

(** The devices [select_mig_config_devices] selects are exactly the visible
    ones that can be partitioned, when ["all"] is asked; single MIG devices are
    refused together with it, and nothing else is ever selected. *)
Lemma select_mig_config_devices_correct (o : env) devs available visible d (s : st) :
  wf_info available -> Inv available visible -> Inv available d -> gpus d = [] -> all d = false ->
  match exec o (select_mig_config_devices devs available visible d) s with
  | (_, Done (_, Some d')) =>
      Inv available d' /\ (forall i, i ∈ gpus d' -> for_mig available visible i) /\
      (all d' = true -> (all visible = false -> migs visible = []) /\
         forall i, for_mig available visible i -> i ∈ gpus d')
  | (_, Done (_, None)) => True
  | (_, Halted _) => False
  end.
Proof.
  intros Hwf Hv HI He Ha.
  assert (match devs with Some s => S (String.length s) | None => O end < mig_fuel devs)%nat as Hf
    by (unfold mig_fuel; destruct devs; lia).
  pose proof (select_mig_loop_ens _ "cannot enable mig-config with specific MIG devices selected"
    devs available visible d Hwf Hv HI He Hf) as Hens. fold (select_mig_config_devices devs available visible d) in Hens.
  pose proof (ensures_run o _ _ _ _ s Hens) as H.
  destruct (exec o _ s) as [t [[s' [d'|]]|w]]; [|done|by destruct H].
  destruct H as (_ & H1 & H2 & H3 & H4). split_and!; auto.
Qed.

Lemma select_mig_config_devices_correct_witness :
  snd (exec (fun _ e => friendly e)
        (select_mig_config_devices (Some "all") [gpu_a; gpu_b] (mkDevices true [0%nat; 1%nat] 2 [] 1)
           (mkDevices false [] 2 [] 1)) init_st)
    = Done (init_st, Some (mkDevices true [0%nat] 2 [] 1)) /\
  Inv [gpu_a; gpu_b] (mkDevices true [0%nat] 2 [] 1).
Proof.
  assert (Inv [gpu_a; gpu_b] (mkDevices true [0%nat; 1%nat] 2 [] 1)) as Hv.
  { constructor; simpl; try done; [|repeat constructor; unfold valid_gpu; simpl; lia|constructor..].
    apply NoDup_cons. split; [intros [=]%list_elem_of_singleton|apply NoDup_singleton]. }
  pose proof (select_mig_config_devices_correct (fun _ e => friendly e) (Some "all") [gpu_a; gpu_b]
    (mkDevices true [0%nat; 1%nat] 2 [] 1) (mkDevices false [] 2 [] 1) init_st
    wf_demo Hv inv_demo eq_refl eq_refl) as H.
  assert (snd (exec (fun _ e => friendly e)
        (select_mig_config_devices (Some "all") [gpu_a; gpu_b] (mkDevices true [0%nat; 1%nat] 2 [] 1)
           (mkDevices false [] 2 [] 1)) init_st)
    = Done (init_st, Some (mkDevices true [0%nat] 2 [] 1))) as E by (vm_compute; reflexivity).
  split; [exact E|]. destruct (exec _ _ _) as [t out]. simpl in E. subst out. apply H.
Defined.

(** A device list that ends with a single digit makes the lookup read past
    the end of the list: the UUID is compared with [dev + 2]. *)
Theorem select_devices_overreads (o : env) (s : st) :
  snd (exec o (select_devices (Some "0") [gpu_a; gpu_b] (mkDevices false [] 2 [] 1)) s)
    = Halted (Undefined "read past the end of the device list").
Proof. reflexivity. Qed.

(** A single digit followed by a UUID selects the device of the UUID and not
    the one with that index. *)
Theorem find_gpu_aliases :
  snd (exec (fun _ e => friendly e) (find_gpu "0" (Some "bbbb-1") [gpu_a; gpu_b]) init_st)
    = Done (init_st, Some 1%nat).
Proof. vm_compute. reflexivity. Qed.
