(* ===== verification/Pci.v ===== *)
(** * The PCI devices of the host

    [pci-sysfs.c] and [pci-enum.h] of [nvidia-modprobe], under [src/deps/]: the
    devices are found in sysfs, and their configuration space is a file.  A
    function returns 0 or the number of an error, which [errno] gives. *)
From S2P Require Import Prelude CString Effects Logic Errors Utils Types Devices.

(** ** Constants *)

Definition EIO : Z := 5.
Definition ENXIO : Z := 6.
Definition ETIME : Z := 62.

Definition SYS_BUS_PCI : string := "/sys/bus/pci/".
Definition SYS_BUS_PCI_DEVICES : string := SYS_BUS_PCI +:+ "devices".
Definition SYS_BUS_PCI_RESCAN : string := SYS_BUS_PCI +:+ "rescan".
Definition SYSFS_RESCAN_STRING : string := "1" +:+ String "010" EmptyString.
Definition SYSFS_RESCAN_STRING_SIZE : Z := 2.
Definition PCI_CAP_TTL_MAX : nat := 20.
Definition SYSFS_PATH_SIZE : Z := 256.

Definition PCI_CAPABILITY_LIST : Z := 52.
Definition PCI_CAP_LIST_ID : Z := 0.
Definition PCI_CAP_LIST_NEXT : Z := 1.
Definition PCI_STD_HEADER_SIZEOF : Z := 64.
Definition PCI_CAP_ID_EXP : Z := 16.
Definition PCI_EXP_LNKCAP : Z := 12.
Definition PCI_EXP_LNKCAP_DLLLARC : Z := 1048576.
Definition PCI_EXP_LNKCTL : Z := 16.
Definition PCI_EXP_LNKCTL_LD : Z := 16.
Definition PCI_EXP_LNKSTA : Z := 18.
Definition PCI_EXP_LNKSTA_DLLLA : Z := 8192.
Definition PCI_LINK_WAIT_US : Z := 200000.
Definition PCI_LINK_DELAY_NS : Z := 100000000.
Definition PCI_LINK_DLLLAR_DISABLE_DELAY_NS : Z := 30000000.

Definition PCI_MATCH_ANY : Z := 2 ^ 32 - 1.
Definition PCI_BASE_CLASS_MASK : Z := 65280.

Abbreviation to_uint16 := (uint_wrap 16).
Abbreviation to_uint8 := (uint_wrap 8).

(** [PCI_DBDF_FORMAT]: ["%04x:%02x:%02x.%1u"], to print and to read. *)
Definition print_dbdf (domain bus device function : Z) : string :=
  print_hex 4 domain +:+ ":" +:+ print_hex 2 bus +:+ ":" +:+ print_hex 2 device +:+ "." +:+ print_Z function.

(** [%1u] *)
Definition scan_digit (s : string) : option (Z * string) :=
  match skip_spaces s with
  | String c s' => (fun d => (d, s')) <$> digit_val 10 c
  | EmptyString => None
  end.
Definition skip_char (c : ascii) (s : string) : option string :=
  match s with
  | String d s' => if Ascii.eqb c d then Some s' else None
  | EmptyString => None
  end.

(** The numbers that are assigned before the first directive that fails. *)
Definition scan_dbdf (s : string) : list Z :=
  match scan_hex 4 s with
  | None => []
  | Some (domain, s) =>
      domain ::
      match skip_char ":" s ≫= scan_hex 2 with
      | None => []
      | Some (bus, s) =>
          bus ::
          match skip_char ":" s ≫= scan_hex 2 with
          | None => []
          | Some (device, s) =>
              device ::
              match skip_char "." s ≫= scan_digit with
              | None => []
              | Some (function, _) => [function]
              end
          end
      end
  end.

(** The integer at [off] of a little-endian configuration space, [n] bytes. *)
Fixpoint le_val (bytes : list Z) : Z :=
  match bytes with [] => 0 | b :: bytes => b + 256 * le_val bytes end.
Fixpoint to_le (n : nat) (z : Z) : list Z :=
  match n with O => [] | S n => z mod 256 :: to_le n (z / 256) end.

(** ** The configuration space *)

(** [snprintf(name, SYSFS_PATH_SIZE - 1, ...)] *)
Definition config_path (domain bus device function : Z) : string :=
  str_take (Z.to_nat (SYSFS_PATH_SIZE - 2))
    (SYS_BUS_PCI_DEVICES +:+ "/" +:+ print_dbdf domain bus device function +:+ "/config").

(** [lseek] unless [off] is 0. *)
Definition seek (fd off : Z) : M (option unit) :=
  if off =? 0 then ret (Some tt) else let* r := call (ELseek fd off) in trap r.

(** Read [temp_size] bytes: the error and what was read. *)
Fixpoint read_cfg_loop (fuel : nat) (fd temp_size : Z) (data : list Z) : M (Z * list Z) :=
  if temp_size <=? 0 then ret (0, data)
  else
    match fuel with
    | O => halt OutOfFuel
    | S fuel =>
        let* r := call (ERead fd temp_size) in
        let* bytes := trap r in
        match bytes with
        | None | Some [] => let* e := get_errno in ret (e, data)
        | Some bytes =>
            let bytes := map to_uint8 (take (Z.to_nat temp_size) bytes) in
            read_cfg_loop fuel fd (temp_size - Z.of_nat (length bytes)) (data ++ bytes)
        end
    end.

(** The error and the bytes that were read. *)
Definition pci_sysfs_read_cfg (domain bus device function off size : Z) : M (Z * list Z) :=
  let* r := call (EOpen (config_path domain (to_uint16 bus) (to_uint16 device) (to_uint16 function)) O_RDONLY) in
  let? fd := trap r else let* e := get_errno in ret (e, []) in
  let fd := Z.of_N fd in
  let? _ := seek fd (to_uint16 off) else
    do close fd in let* e := get_errno in ret (e, []) in
  let* q := read_cfg_loop (Z.to_nat size) fd size [] in
  do close fd in
  ret q.

(** Write [data]: the error and how much was written. *)
Fixpoint write_cfg_loop (fuel : nat) (fd : Z) (data : list Z) (written : Z) : M (Z * Z) :=
  match data with
  | [] => ret (0, written)
  | _ :: _ =>
      match fuel with
      | O => halt OutOfFuel
      | S fuel =>
          let* r := call (EWrite fd (String.string_of_list_ascii (map (fun b => ascii_of_nat (Z.to_nat b)) data))) in
          let* n := trap r in
          match n with
          | None => let* e := get_errno in ret (e, written)
          | Some n =>
              let n := Z.to_nat (Z.min n (Z.of_nat (length data))) in
              if (n =? 0)%nat then ret (0, written)
              else write_cfg_loop fuel fd (drop n data) (written + Z.of_nat n)
          end
      end
  end.

Definition pci_sysfs_write_cfg (domain bus device function off : Z) (data : list Z) : M (Z * Z) :=
  let* r := call (EOpen (config_path domain (to_uint16 bus) (to_uint16 device) (to_uint16 function)) O_WRONLY) in
  let? fd := trap r else let* e := get_errno in ret (e, 0) in
  let fd := Z.of_N fd in
  let? _ := seek fd (to_uint16 off) else
    do close fd in let* e := get_errno in ret (e, 0) in
  let* q := write_cfg_loop (length data) fd data 0 in
  do close fd in
  ret q.

(** ** Enumeration *)

Record pci_id_match := mkMatch {
  vendor_id : Z; device_id : Z; subvendor_id : Z; subdevice_id : Z;
  device_class : Z; device_class_mask : Z; num_matches : Z
}.

Definition PCI_ID_COMPARE (a b : Z) : bool := (a =? PCI_MATCH_ANY) || (a =? b).

(** The two bytes at [i]. *)
Definition config16 (config : list Z) (i : nat) : Z :=
  nth i config 0 + Z.shiftl (nth (S i) config 0) 8.

Definition matches (m : pci_id_match) (config : list Z) : bool :=
  PCI_ID_COMPARE (vendor_id m) (config16 config 0) && PCI_ID_COMPARE (device_id m) (config16 config 2) &&
  PCI_ID_COMPARE (subvendor_id m) (config16 config 44) && PCI_ID_COMPARE (subdevice_id m) (config16 config 46) &&
  (Z.land (config16 config 10) (device_class_mask m) =? device_class m).

Definition one_more (m : pci_id_match) : pci_id_match :=
  mkMatch (vendor_id m) (device_id m) (subvendor_id m) (subdevice_id m) (device_class m) (device_class_mask m)
    (to_uint16 (num_matches m + 1)).

Fixpoint match_entries (names : list string) (m : pci_id_match) : M (Z * pci_id_match) :=
  match names with
  | [] => ret (0, m)
  | name :: names =>
      if str_equal name "." || str_equal name ".." then match_entries names m
      else
        match scan_dbdf name with
        | [dom; bus; dev; func] =>
            let* q := pci_sysfs_read_cfg dom bus dev func 0 48 in
            let '(err, config) := q in
            let m := if (length config =? 48)%nat && (err =? 0) && matches m config then one_more m else m in
            if err =? 0 then match_entries names m else ret (err, m)
        | _ => halt (Undefined "find_matches: the location is not initialised")
        end
  end.

(** The loop ends with the entries or with the first device that cannot be read. *)
Definition find_matches (m : pci_id_match) : M (Z * pci_id_match) :=
  let* r := call (EOpendir SYS_BUS_PCI_DEVICES) in
  let? names := trap r else let* e := get_errno in ret (e, m) in
  match_entries names m.

Definition pci_enum_match_id (m : pci_id_match) : M (Z * pci_id_match) :=
  let m := mkMatch (vendor_id m) (device_id m) (subvendor_id m) (subdevice_id m) (device_class m)
             (device_class_mask m) 0 in
  let* r := call (EStat SYS_BUS_PCI_DEVICES) in
  let? _ := trap r else let* e := get_errno in ret (e, m) in
  find_matches m.

(** ** Bridges *)

Definition pci_rescan (domain bus slot function : Z) : M Z :=
  let node :=
    if Z.lor (Z.lor domain bus) (Z.lor slot function) =? 0 then SYS_BUS_PCI_RESCAN
    else str_take (Z.to_nat (SYSFS_PATH_SIZE - 2))
           (SYS_BUS_PCI_DEVICES +:+ "/" +:+ print_dbdf domain bus slot function +:+ "/rescan") in
  let* r := call (EOpen node O_WRONLY) in
  let? fd := trap r else get_errno in
  let* w := call (EWrite (Z.of_N fd) SYSFS_RESCAN_STRING) in
  let* cnt := trap w in
  do close (Z.of_N fd) in
  ret (if default (-1) cnt =? SYSFS_RESCAN_STRING_SIZE then 0 else EIO).

Record pci_info_t := mkPciInfo { pi_domain : Z; pi_bus : Z; pi_dev : Z; pi_ftn : Z }.

(** The error, and the location of the bridge when there is none. *)
Definition pci_find_parent_bridge (gpu : pci_info_t) : M (Z * option pci_info_t) :=
  let path := str_take (Z.to_nat (SYSFS_PATH_SIZE - 2))
    (SYS_BUS_PCI_DEVICES +:+ "/" +:+ print_dbdf (pi_domain gpu) (pi_bus gpu) (pi_dev gpu) (pi_ftn gpu) +:+ "/..") in
  let* r := call (ERealpath path) in
  let? bridge := trap r else let* e := get_errno in ret (e, None) in
  match strrchr bridge "/" with
  | None => ret (ENOENT, None)
  | Some (_, node) =>
      match scan_dbdf (str_drop 1 node) with
      | [domain; bus; dev; ftn] => ret (0, Some (mkPciInfo domain bus dev ftn))
      | _ => ret (ENOENT, None)
      end
  end.

(** [BAIL_ON_IO_ERR]: [size] is that of the buffer. *)
Definition io_err (err : Z) (data : list Z) (size : nat) : option Z :=
  if negb (err =? 0) || (length data <? size)%nat then Some (if err =? 0 then EIO else err) else None.

(** Walk the list of capabilities: the error, and the offset when the PCI Express
    capability was found.  Leaving the loop keeps the error of the last read. *)
Fixpoint find_caps_loop (ttl : nat) (domain bus device ftn off err : Z) : M (Z * option Z) :=
  match ttl with
  | O => ret (err, None)
  | S ttl =>
      let* q := pci_sysfs_read_cfg domain bus device ftn off 1 in
      match io_err (fst q) (snd q) 1 with
      | Some err => ret (err, None)
      | None =>
          let off := le_val (snd q) in
          if (off <? PCI_STD_HEADER_SIZEOF) || (off =? 255) then ret (fst q, None)
          else
            let off := Z.land off 252 in
            let* q := pci_sysfs_read_cfg domain bus device ftn (off + PCI_CAP_LIST_ID) 1 in
            match io_err (fst q) (snd q) 1 with
            | Some err => ret (err, None)
            | None =>
                let cap_id := le_val (snd q) in
                if cap_id =? PCI_CAP_ID_EXP then ret (0, Some off)
                else if cap_id =? 255 then ret (fst q, None)
                else find_caps_loop ttl domain bus device ftn (to_uint8 (off + PCI_CAP_LIST_NEXT)) (fst q)
            end
      end
  end.
Definition pci_find_pcie_caps (domain bus device ftn : Z) : M (Z * option Z) :=
  find_caps_loop PCI_CAP_TTL_MAX domain bus device ftn PCI_CAPABILITY_LIST ENXIO.

(** [timersub(curr, start)], normalised. *)
Definition timersub (curr start : Z * Z) : Z * Z :=
  if snd curr - snd start <? 0 then (fst curr - fst start - 1, snd curr - snd start + 1000000)
  else (fst curr - fst start, snd curr - snd start).
Definition waited (diff : Z * Z) : bool := (0 <? fst diff) || (PCI_LINK_WAIT_US <=? snd diff).

(** Wait until the link is up: the error. *)
Fixpoint wait_link (fuel : nat) (domain bus device ftn reg : Z) (start : Z * Z) : M Z :=
  match fuel with
  | O => halt OutOfFuel
  | S fuel =>
      let* q := pci_sysfs_read_cfg domain bus device ftn reg 2 in
      match io_err (fst q) (snd q) 2 with
      | Some err => ret err
      | None =>
          if negb (Z.land (le_val (snd q)) PCI_EXP_LNKSTA_DLLLA =? 0) then ret 0
          else
            let* curr := call EGettimeofday in
            if waited (timersub curr start) then ret ETIME else wait_link fuel domain bus device ftn reg start
      end
  end.

Definition set_link (enable : bool) (reg : Z) : Z :=
  if enable then Z.land reg (Z.lnot PCI_EXP_LNKCTL_LD) else Z.lor reg PCI_EXP_LNKCTL_LD.

(** [fuel] bounds how often the state of the link is read. *)
Definition pci_bridge_link_set_enable (fuel : nat) (domain bus device ftn : Z) (enable : bool) : M Z :=
  let* q := pci_find_pcie_caps domain bus device ftn in
  if negb (fst q =? 0) then ret (fst q)
  else
    let pcie_caps := default 0 (snd q) in
    let* r := pci_sysfs_read_cfg domain bus device ftn (pcie_caps + PCI_EXP_LNKCTL) 2 in
    match io_err (fst r) (snd r) 2 with
    | Some err => ret err
    | None =>
        let reg := set_link enable (le_val (snd r)) in
        let* w := pci_sysfs_write_cfg domain bus device ftn (pcie_caps + PCI_EXP_LNKCTL) (to_le 2 reg) in
        if negb (fst w =? 0) || (snd w <? 2) then ret (if fst w =? 0 then EIO else fst w)
        else if negb enable then ret 0
        else
          let* c := pci_sysfs_read_cfg domain bus device ftn (pcie_caps + PCI_EXP_LNKCAP) 4 in
          match io_err (fst c) (snd c) 4 with
          | Some err => ret err
          | None =>
              let* err :=
                (if negb (Z.land (le_val (snd c)) PCI_EXP_LNKCAP_DLLLARC =? 0) then
                   let* start := call EGettimeofday in
                   wait_link fuel domain bus device ftn (pcie_caps + PCI_EXP_LNKSTA) start
                 else do call (ENanosleep PCI_LINK_DLLLAR_DISABLE_DELAY_NS) in ret 0) in
              if negb (err =? 0) then ret err else do call (ENanosleep PCI_LINK_DELAY_NS) in ret 0
          end
    end.

(** ** What the functions do *)

Definition is_byte (b : Z) : Prop := 0 <= b < 256.

(** The devices are looked at in sysfs. *)
Definition pci_read (ev : event) : Prop :=
  match ev_call ev with
  | EOpen _ flags => flags = O_RDONLY
  | ELseek _ _ | ERead _ _ | EClose _ | EOpendir _ | EStat _ => True
  | _ => False
  end.

Lemma pci_read_only ev : pci_read ev -> only [KLib; KRead] ev.
Proof. by destruct ev as [[] r]. Qed.
Lemma close_pci fd : ensures pci_read no_stop (close fd) any.
Proof. unfold close. ens. Qed.
#[export] Hint Resolve pci_read_only : ens.

(** The bytes that are read are appended, no more than there is room for. *)
Lemma read_cfg_loop_ens fuel fd size data : (size <= Z.of_nat fuel) ->
  ensures pci_read no_stop (read_cfg_loop fuel fd size data)
    (fun r => exists bytes, snd r = data ++ bytes /\ Z.of_nat (length bytes) <= Z.max 0 size /\ Forall is_byte bytes).
Proof.
  revert size data. induction fuel as [|fuel IH]; intros size data Hf; simpl.
  - destruct (size <=? 0) eqn:E; [|lia]. apply ensures_ret. exists []. rewrite app_nil_r. by repeat split; simpl; lia || constructor.
  - assert (forall e, exists bytes, (e : Z, data).2 = data ++ bytes /\ Z.of_nat (length bytes) <= Z.max 0 size /\ Forall is_byte bytes) as Hn.
    { intros e. exists []. rewrite app_nil_r. repeat split; simpl; [lia|constructor]. }
    destruct (size <=? 0) eqn:E; [by apply ensures_ret|].
    ens_step. ens_step. destruct a0 as [[|b bytes]|]; [ens| |ens]. set (bs := b :: bytes).
    change (match bs with [] => _ | _ => _ end) with
      (read_cfg_loop fuel fd (size - Z.of_nat (length (map to_uint8 (take (Z.to_nat size) bs))))
         (data ++ map to_uint8 (take (Z.to_nat size) bs))).
    set (got := map to_uint8 (take (Z.to_nat size) bs)).
    assert (1 <= Z.of_nat (length got) <= size) as Hg.
    { unfold got. rewrite length_map, length_take. unfold bs. simpl length. lia. }
    eapply ensures_post; [apply IH; lia|]. intros r (more & -> & Hl & Hb). exists (got ++ more).
    rewrite app_assoc, length_app. split; [done|]. split; [lia|]. apply Forall_app. split; [|done].
    unfold got. apply Forall_map, Forall_true. intros x. apply (uint_wrap_range 8 x). lia.
Qed.

Lemma seek_ens fd off : ensures pci_read no_stop (seek fd off) any.
Proof. unfold seek. ens. Qed.

Lemma pci_sysfs_read_cfg_ens domain bus device function off size : 0 <= size ->
  ensures pci_read no_stop (pci_sysfs_read_cfg domain bus device function off size)
    (fun r => Z.of_nat (length (snd r)) <= size /\ Forall is_byte (snd r)).
Proof.
  intros Hs. unfold pci_sysfs_read_cfg. pose proof seek_ens as Hseek. cbv zeta.
  assert (forall e, Z.of_nat (length (e : Z, [] : list Z).2) <= size /\ Forall is_byte (e, []).2) as Hn
    by (intros; split; [simpl; lia|constructor]).
  ens_step. ens_step. destruct a0 as [fd|]; [|ens].
  eapply ensures_bind; [apply Hseek|]. intros [[]|] _; [|eapply ensures_bind; [apply close_pci|]; intros _ _; ens].
  eapply ensures_bind; [apply read_cfg_loop_ens; lia|]. intros r (bytes & Hr & Hl & Hb).
  simpl in Hr. pose proof close_pci as Hc. eapply ensures_bind; [apply Hc|]. intros _ _. apply ensures_ret. rewrite Hr. split; [lia|done].
Qed.

(** The name of an entry is not a location. *)
Definition no_location (w : stop) : Prop := w = Undefined "find_matches: the location is not initialised".

Lemma match_entries_ens names m :
  ensures pci_read no_location (match_entries names m) any.
Proof.
  revert m. induction names as [|name names IH]; intros m; simpl; [ens|].
  destruct (_ || _); [apply IH|].
  destruct (scan_dbdf name) as [|dom [|bus [|dev [|func [|]]]]]; try (apply ensures_halt; done).
  eapply ensures_bind; [eapply ensures_weaken; [apply (pci_sysfs_read_cfg_ens dom bus dev func 0 48); lia|done|done|intros ? HR; exact HR]|].
  intros [err config] _. cbv zeta. destruct (err =? 0); [apply IH|ens].
Qed.

Lemma pci_enum_match_id_ens m : ensures pci_read no_location (pci_enum_match_id m) any.
Proof. unfold pci_enum_match_id, find_matches. pose proof match_entries_ens. ens. Qed.
#[export] Hint Resolve pci_enum_match_id_ens : ens.
