(* ===== verification/Modprobe.v ===== *)
(** * Kernel modules and device nodes

    [nvidia-modprobe-utils.c] of [nvidia-modprobe], under [src/deps/]: the parent
    of the library loads the modules of the kernel with it and makes the nodes
    of [/dev].  A function returns 1 when it did what it is for, 0 otherwise;
    the length of the names is that of the C buffers. *)
From S2P Require Import Prelude CString Scanf Effects Logic Errors Utils Types Files Devices Pci.

(** ** Constants *)

Definition NV_PROC_MODPROBE_PATH : string := "/proc/sys/kernel/modprobe".
Definition NV_PROC_MODULES_PATH : string := "/proc/modules".
Definition NV_PROC_DEVICES_PATH : string := "/proc/devices".
Definition NV_PROC_MODPROBE_PATH_MAX : nat := 1024.
Definition NV_MAX_LINE_LENGTH : Z := 256.
Definition NV_PROC_REGISTRY_PATH : string := "/proc/driver/nvidia/params".
Definition NV_NVIDIA_MODULE_NAME : string := "nvidia".
Definition NV_UVM_MODULE_NAME : string := "nvidia-uvm".
Definition NV_UVM_DEVICE_NAME : string := "/dev/nvidia-uvm".
Definition NV_UVM_TOOLS_DEVICE_NAME : string := "/dev/nvidia-uvm-tools".
Definition NV_MODESET_MODULE_NAME : string := "nvidia-modeset".
Definition NV_VGPU_VFIO_MODULE_NAME : string := "nvidia-vgpu-vfio".
Definition NV_NVLINK_MODULE_NAME : string := "nvidia-nvlink".
Definition NV_NVLINK_PROC_PERM_PATH : string := "/proc/driver/nvidia-nvlink/permissions".
Definition NV_NVSWITCH_MODULE_NAME : string := "nvidia-nvswitch".
Definition NV_NVSWITCH_PROC_PERM_PATH : string := "/proc/driver/nvidia-nvswitch/permissions".
Definition NV_SYS_DEVICES_SOC_FAMILY : string := "/sys/devices/soc0/family".
Definition NV_MAX_SOC_FAMILY_NAME_SIZE : nat := 6.
Definition NV_SOC_FAMILY_NAME_TEGRA : string := "Tegra".
Definition NV_MSR_MODULE_NAME : string := "msr".
Definition NV_DEVICE_FILE_MODE_MASK : Z := 511.
Definition NV_DEVICE_FILE_MODE : Z := 438.
Definition NV_DEVICE_FILE_UID : Z := 0.
Definition NV_DEVICE_FILE_GID : Z := 0.
Definition NV_MAJOR_DEVICE_NUMBER : Z := 195.
Definition NV_PCI_VENDOR_ID : Z := 4318.

Definition NV_MAX_CHARACTER_DEVICE_FILE_STRLEN : Z := 128.
Definition NV_CTL_DEVICE_NUM : Z := 255.
Definition NV_MODESET_MINOR_DEVICE_NUM : Z := 254.
Definition NV_NVSWITCH_CTL_MINOR : Z := 255.
Definition NV_DEVICE_FILE_PATH (minor : Z) : string := "/dev/nvidia" +:+ print_Z minor.
Definition NV_CTRL_DEVICE_FILE_PATH : string := "/dev/nvidiactl".
Definition NV_MODESET_DEVICE_NAME : string := "/dev/nvidia-modeset".
Definition NV_VGPU_VFIO_DEVICE_NAME (minor : Z) : string := "/dev/nvidia-vgpu" +:+ print_Z minor.
Definition NV_NVLINK_DEVICE_NAME : string := "/dev/nvidia-nvlink".
Definition NV_NVSWITCH_CTL_NAME : string := "/dev/nvidia-nvswitchctl".
Definition NV_NVSWITCH_DEVICE_NAME (minor : Z) : string := "/dev/nvidia-nvswitch" +:+ print_Z minor.
Definition NV_CAPS_MODULE_NAME : string := "nvidia-caps".
Definition NV_CAP_DEVICE_NAME (minor : Z) : string :=
  "/dev/" +:+ NV_CAPS_MODULE_NAME +:+ "/nvidia-cap" +:+ print_Z minor.

(** In 32-bit arithmetic: what is shifted out is lost, and a negative result is
    extended to the 64 bits of [dev_t]. *)
Definition NV_MAKE_DEVICE (major minor : Z) : Z :=
  to_uint64 (Z.lor (Z.lor (Z.land minor 255) (to_int32 (Z.shiftl major 8)))
                   (to_int32 (Z.shiftl (Z.land minor (Z.lnot 255)) 12))).

(** [snprintf(name, NV_MAX_CHARACTER_DEVICE_FILE_STRLEN, ...)], when it fits. *)
Definition device_name (s : string) : option string :=
  if NV_MAX_CHARACTER_DEVICE_FILE_STRLEN <=? strlen s then None else Some s.

Definition assign_device_file_name (minor : Z) : string :=
  if (minor <? 0) || (NV_CTL_DEVICE_NUM <? minor) then EmptyString
  else
    str_take (Z.to_nat (NV_MAX_CHARACTER_DEVICE_FILE_STRLEN - 1))
      (if minor =? NV_CTL_DEVICE_NUM then NV_CTRL_DEVICE_FILE_PATH else NV_DEVICE_FILE_PATH minor).

(** ** Modules *)

(** Both are [-] or [_]. *)
Definition same_dash (a b : ascii) : bool :=
  (Ascii.eqb a "-" || Ascii.eqb a "_") && (Ascii.eqb b "-" || Ascii.eqb b "_").

(** The difference of the characters where the names differ. *)
Fixpoint modcmp (a b : string) : Z :=
  match a, b with
  | String c a', String d b' =>
      if Ascii.eqb c d || same_dash c d then modcmp a' b'
      else Z.of_nat (nat_of_ascii c) - Z.of_nat (nat_of_ascii d)
  | _, _ => Z.of_nat (nat_of_ascii (first_char a)) - Z.of_nat (nat_of_ascii (first_char b))
  end.

(** The lines of [/proc/modules]: ["%15s%*[^\n]\n"]. *)
Definition module_line : list fdirective := [FWord 15; FSkipUntil "010"; FDir DSpace].

Definition is_kernel_module_loaded (nv_module_name : string) : M bool :=
  let* r := call (EFopen NV_PROC_MODULES_PATH "r") in
  let? fp := trap r else ret false in
  ret (existsb (fun vs => match vs with
                          | [VStr module_name] => modcmp (c_str module_name) nv_module_name =? 0
                          | _ => false
                          end) (fscanf_all module_line 1 (s_text fp))).

Definition silence_current_process : M unit :=
  let* r := call (EOpen "/dev/null" O_RDWR) in
  let? dev_null_fd := trap r else ret tt in
  let fd := Z.of_N dev_null_fd in
  let* a := call (EDup2 fd 1) in do trap a in
  let* b := call (EDup2 fd 2) in do trap b in
  close fd.

(** The family is cut to five characters. *)
Definition is_tegra : M bool :=
  let* r := call (EFopen NV_SYS_DEVICES_SOC_FAMILY "r") in
  let? fp := trap r else ret false in
  ret (str_equal (c_str (str_take (NV_MAX_SOC_FAMILY_NAME_SIZE - 1) (s_text fp))) NV_SOC_FAMILY_NAME_TEGRA).

(** The display controllers of NVIDIA. *)
Definition display_match : pci_id_match :=
  mkMatch NV_PCI_VENDOR_ID PCI_MATCH_ANY PCI_MATCH_ANY PCI_MATCH_ANY 768 PCI_BASE_CLASS_MASK 0.

(** The first line of [/proc/sys/kernel/modprobe], or [/sbin/modprobe]. *)
Definition modprobe_program : M string :=
  let* r := call (EFopen NV_PROC_MODPROBE_PATH "r") in
  let* fp := trap r in
  let path :=
    match fp with
    | None => EmptyString
    | Some fp => fst (split_at "010" (c_str (str_take (NV_PROC_MODPROBE_PATH_MAX - 1) (s_text fp))))
    end in
  ret (if (path =? "")%string then "/sbin/modprobe" else path).

(** The child: [exit(1)] when the program cannot be run. *)
Definition run_modprobe {A} (print_errors : bool) (modprobe_path module_name : string) : M A :=
  do silence_current_process in
  let* r := call (EExecle modprobe_path ["modprobe"; module_name] ["PATH=/sbin"]) in
  match r with
  | SOk _ => halt Executed
  | SErr n =>
      do set_errno n in
      do (if print_errors then
            let* e := get_errno in
            let* text := call (EStrerror e) in
            call (EWarn ("NVIDIA: failed to execute `" +:+ modprobe_path +:+ "`: " +:+ text +:+ "."))
          else ret tt) in
      halt (Exited 1)
  end.

Definition modprobe_helper (print_errors : bool) (module_name : string) (allow_on_tegra : bool) : M bool :=
  if (module_name =? "")%string then ret false
  else
    let* loaded := is_kernel_module_loaded module_name in
    if loaded : bool then ret true
    else
      let* q := pci_enum_match_id display_match in
      let* go :=
        (if (fst q =? 0) && (num_matches (snd q) =? 0) then
           let* tegra := (if allow_on_tegra then is_tegra else ret false) in
           do (if negb tegra && print_errors then call (EWarn "NVIDIA: no NVIDIA devices found") else ret tt) in
           ret tegra
         else ret true) in
      if negb go then ret false
      else
        let* euid := call EGeteuid in
        if negb (euid =? 0) then ret false
        else
          let* modprobe_path := modprobe_program in
          let* s := call (EStat modprobe_path) in
          let? file_status := trap s else ret false in
          if negb (S_ISREG (st_mode file_status)) || negb (Z.land (st_mode file_status) S_IXUSR =? S_IXUSR)
          then ret false
          else
            let* f := call (EFork 0) in
            let? pid := trap f else ret false in
            if (pid =? 0)%N then run_modprobe print_errors modprobe_path module_name
            else
              let* w := call (EWaitpid (Z.of_N pid)) in
              do trap w in
              is_kernel_module_loaded module_name.

Definition nvidia_modprobe (print_errors : bool) : M bool :=
  modprobe_helper print_errors NV_NVIDIA_MODULE_NAME false.
Definition nvidia_uvm_modprobe : M bool := modprobe_helper false NV_UVM_MODULE_NAME false.
Definition nvidia_msr_modprobe : M bool := modprobe_helper false NV_MSR_MODULE_NAME false.
Definition nvidia_modeset_modprobe : M bool := modprobe_helper false NV_MODESET_MODULE_NAME true.

(** ** The parameters of the device files *)

Record file_parameters := mkParams { fp_uid : Z; fp_gid : Z; fp_mode : Z; fp_modify : Z }.
Definition default_parameters : file_parameters :=
  mkParams NV_DEVICE_FILE_UID NV_DEVICE_FILE_GID NV_DEVICE_FILE_MODE 1.

(** ["%31[^:]: %u\n"] and ["%31[^:]: %d\n"] *)
Definition parameter_line (number : directive) : list fdirective :=
  [FUntil 31 ":"; FDir (DChar ":"); FDir DSpace; FDir number; FDir DSpace].

Definition set_parameter (p : file_parameters) (vs : list scanned) : file_parameters :=
  match vs with
  | [VStr name; VInt value] =>
      let name := c_str name in
      let p := if str_equal name "DeviceFileUID" then mkParams value (fp_gid p) (fp_mode p) (fp_modify p) else p in
      let p := if str_equal name "DeviceFileGID" then mkParams (fp_uid p) value (fp_mode p) (fp_modify p) else p in
      let p := if str_equal name "DeviceFileMode" then mkParams (fp_uid p) (fp_gid p) value (fp_modify p) else p in
      if str_equal name "ModifyDeviceFiles" || str_equal name "DeviceFileModify"
      then mkParams (fp_uid p) (fp_gid p) (fp_mode p) (to_int32 value) else p
  | _ => p
  end.

(** [proc_path] may be [NULL]. *)
Definition init_device_file_parameters (proc_path : option string) : M file_parameters :=
  match proc_path with
  | None | Some EmptyString => ret default_parameters
  | Some proc_path =>
      let* r := call (EFopen proc_path "r") in
      let? fp := trap r else ret default_parameters in
      ret (fold_left set_parameter (fscanf_all (parameter_line DUint) 2 (s_text fp)) default_parameters)
  end.

(** ** The state of a device file *)

Inductive NvDeviceFileState := NvDeviceFileStateFileExists | NvDeviceFileStateChrDevOk | NvDeviceFileStatePermissionsOk.
Definition state_bit (value : NvDeviceFileState) : Z :=
  match value with
  | NvDeviceFileStateFileExists => 0
  | NvDeviceFileStateChrDevOk => 1
  | NvDeviceFileStatePermissionsOk => 2
  end.
Definition nvidia_update_file_state (state : Z) (value : NvDeviceFileState) : Z :=
  Z.lor state (Z.shiftl 1 (state_bit value)).
Definition nvidia_test_file_state (state : Z) (value : NvDeviceFileState) : bool :=
  negb (Z.land state (Z.shiftl 1 (state_bit value)) =? 0).

(** The state that the [stat] of a file stands for. *)
Definition file_state (stat_buf : statbuf) (dev : Z) (p : file_parameters) : Z :=
  let state := nvidia_update_file_state 0 NvDeviceFileStateFileExists in
  let state :=
    if S_ISCHR (st_mode stat_buf) && (st_rdev stat_buf =? dev)
    then nvidia_update_file_state state NvDeviceFileStateChrDevOk else state in
  if (Z.land (st_mode stat_buf) NV_DEVICE_FILE_MODE_MASK =? fp_mode p) &&
     (st_uid stat_buf =? fp_uid p) && (st_gid stat_buf =? fp_gid p)
  then nvidia_update_file_state state NvDeviceFileStatePermissionsOk else state.

Definition get_file_state_helper (path : string) (major minor : Z) (p : file_parameters) : M Z :=
  let* r := call (EStat path) in
  let? stat_buf := trap r else ret 0 in
  ret (file_state stat_buf (NV_MAKE_DEVICE major minor) p).

Definition nvidia_get_file_state (minor : Z) : M Z :=
  let* p := init_device_file_parameters (Some NV_PROC_REGISTRY_PATH) in
  get_file_state_helper (assign_device_file_name minor) NV_MAJOR_DEVICE_NUMBER minor p.

(** ** Making a node *)

Definition mknod_helper (major minor : Z) (path : string) (proc_path : option string) : M bool :=
  let dev := NV_MAKE_DEVICE major minor in
  if (path =? "")%string then ret false
  else
    let* p := init_device_file_parameters proc_path in
    if negb (fp_modify p =? 1) then ret true
    else
      let* state := get_file_state_helper path major minor p in
      let test := nvidia_test_file_state state in
      if test NvDeviceFileStateFileExists && test NvDeviceFileStateChrDevOk && test NvDeviceFileStatePermissionsOk
      then ret true
      else
        let* do_mknod :=
          (if negb (test NvDeviceFileStateFileExists) then ret (Some true)
           else if negb (test NvDeviceFileStateChrDevOk) then
             let* r := call (ERemove path) in
             let? _ := trap r else ret None in
             ret (Some true)
           else ret (Some false)) in
        match do_mknod with
        | None => ret false
        | Some do_mknod =>
            let? _ := (if do_mknod then let* r := call (EMknod path (Z.lor S_IFCHR (fp_mode p)) dev) in trap r
                       else ret (Some tt)) else ret false in
            let* c := call (EChmod path (fp_mode p)) in
            let* c := trap c in
            let* o := match c with
                      | None => ret None
                      | Some _ => let* o := call (EChown path (fp_uid p) (fp_gid p)) in trap o
                      end in
            match o with
            | Some _ => ret true
            | None =>
                do (if do_mknod then let* r := call (ERemove path) in do trap r in ret tt else ret tt) in
                ret false
            end
        end.

Definition nvidia_mknod (minor : Z) : M bool :=
  mknod_helper NV_MAJOR_DEVICE_NUMBER minor (assign_device_file_name minor) (Some NV_PROC_REGISTRY_PATH).

(** ** The major number of a driver *)

Definition text_line (s : string) : string := s +:+ String "010" EmptyString.

(** The lines after the first [Character devices:]. *)
Fixpoint character_devices (lines : list string) : list string :=
  match lines with
  | [] => []
  | line :: lines =>
      if str_equal (c_str line) (text_line "Character devices:") then lines
      else character_devices lines
  end.

(** The line has the name followed by a newline where it occurs first. *)
Definition names_driver (line name : string) : bool :=
  match strstr line name with
  | Some found => Ascii.eqb (first_char (str_drop (String.length name) found)) "010"
  | None => false
  end.

Fixpoint find_major (lines : list string) (name : string) : Z :=
  match lines with
  | [] => -1
  | line :: lines =>
      let line := c_str line in
      if str_equal line (String "010" EmptyString) then -1
      else if names_driver line name then
        match scan [DSpace; DInt] line with major :: _ => major | [] => -1 end
      else find_major lines name
  end.

(** -1 when there is none.  An error of the stream ends it, and the lines are all
    that was read before. *)
Definition nvidia_get_chardev_major (name : string) : M Z :=
  let* r := call (EFopen NV_PROC_DEVICES_PATH "r") in
  let? fp := trap r else ret (-1) in
  ret (find_major (character_devices (fgets_all (NV_MAX_LINE_LENGTH - 1) fp)) name).

(** ** The drivers *)

Definition nvidia_nvlink_get_file_state : M Z :=
  let* major := nvidia_get_chardev_major NV_NVLINK_MODULE_NAME in
  let path := if major <? 0 then EmptyString else default EmptyString (device_name NV_NVLINK_DEVICE_NAME) in
  let* p := init_device_file_parameters (Some NV_NVLINK_PROC_PERM_PATH) in
  get_file_state_helper path major 0 p.

Definition nvswitch_name (minor : Z) : option string :=
  device_name (if minor =? NV_NVSWITCH_CTL_MINOR then NV_NVSWITCH_CTL_NAME else NV_NVSWITCH_DEVICE_NAME minor).

Definition nvidia_nvswitch_get_file_state (minor : Z) : M Z :=
  let* major := nvidia_get_chardev_major NV_NVSWITCH_MODULE_NAME in
  let path :=
    if (major <? 0) || (minor <? 0) || (NV_NVSWITCH_CTL_MINOR <? minor) then EmptyString
    else default EmptyString (nvswitch_name minor) in
  let* p := init_device_file_parameters (Some NV_NVSWITCH_PROC_PERM_PATH) in
  get_file_state_helper path major minor p.

(** The second node is not made when the first one cannot. *)
Definition nvidia_uvm_mknod (base_minor : Z) : M bool :=
  let* major := nvidia_get_chardev_major NV_UVM_MODULE_NAME in
  if major <? 0 then ret false
  else
    let* first := mknod_helper major base_minor NV_UVM_DEVICE_NAME None in
    if first : bool then mknod_helper major (base_minor + 1) NV_UVM_TOOLS_DEVICE_NAME None else ret false.

Definition nvidia_modeset_mknod : M bool :=
  mknod_helper NV_MAJOR_DEVICE_NUMBER NV_MODESET_MINOR_DEVICE_NUM NV_MODESET_DEVICE_NAME (Some NV_PROC_REGISTRY_PATH).

Definition nvidia_nvlink_mknod : M bool :=
  let* major := nvidia_get_chardev_major NV_NVLINK_MODULE_NAME in
  if major <? 0 then ret false
  else mknod_helper major 0 NV_NVLINK_DEVICE_NAME (Some NV_NVLINK_PROC_PERM_PATH).

Definition nvidia_nvswitch_mknod (minor : Z) : M bool :=
  let* major := nvidia_get_chardev_major NV_NVSWITCH_MODULE_NAME in
  if major <? 0 then ret false
  else
    match nvswitch_name minor with
    | None => ret false
    | Some name => mknod_helper major minor name (Some NV_NVSWITCH_PROC_PERM_PATH)
    end.

Definition nvidia_vgpu_vfio_mknod (minor_num : Z) : M bool :=
  let* major := nvidia_get_chardev_major NV_VGPU_VFIO_MODULE_NAME in
  if major <? 0 then ret false
  else
    mknod_helper major minor_num
      (str_take (Z.to_nat (NV_MAX_CHARACTER_DEVICE_FILE_STRLEN - 1)) (NV_VGPU_VFIO_DEVICE_NAME minor_num))
      (Some NV_PROC_REGISTRY_PATH).

(** ** Capabilities *)

(** The value of the first [DeviceFileMinor]. *)
Fixpoint find_minor (fields : list (list scanned)) : Z :=
  match fields with
  | [VStr field; VInt value] :: fields =>
      if str_equal (c_str field) "DeviceFileMinor" then value else find_minor fields
  | _ => -1
  end.

(** [minor0] is what [*minor] holds: it is kept when there is no such driver or
    file.  The name comes with success. *)
Definition nvidia_cap_get_device_file_attrs (cap_file_path : string) (minor0 : Z) : M (option string * Z * Z) :=
  let* major := nvidia_get_chardev_major NV_CAPS_MODULE_NAME in
  if major <? 0 then ret (None, major, minor0)
  else
    let* r := call (EFopen cap_file_path "r") in
    let? fp := trap r else ret (None, major, minor0) in
    let minor := find_minor (fscanf_all (parameter_line DInt) 2 (s_text fp)) in
    ret (if minor <? 0 then None else device_name (NV_CAP_DEVICE_NAME minor), major, minor).

(** The result and [*minor]. *)
Definition nvidia_cap_mknod (cap_file_path : string) (minor0 : Z) : M (bool * Z) :=
  let* q := nvidia_cap_get_device_file_attrs cap_file_path minor0 in
  let '(name, major, minor) := q in
  match name with
  | None => ret (false, minor)
  | Some name =>
      let* r := call (EMkdir ("/dev/" +:+ NV_CAPS_MODULE_NAME) m755) in
      let* ok := trap r in
      let* e := get_errno in
      if match ok with None => negb (e =? EEXIST) | Some _ => false end then ret (false, minor)
      else
        let* b := mknod_helper major minor name (Some cap_file_path) in
        ret (b, minor)
  end.

(** [junk] is the value of a local that is not initialised, and that the call may
    not set. *)
Definition nvidia_cap_get_file_state (junk : Z) (cap_file_path : string) : M Z :=
  let* q := nvidia_cap_get_device_file_attrs cap_file_path junk in
  let '(path, major, minor) := q in
  let* p := init_device_file_parameters (Some cap_file_path) in
  get_file_state_helper (default EmptyString path) major minor p.

(** ** What the functions touch *)

Lemma nvidia_get_chardev_major_ens name : ensures (only [KLib; KRead]) no_stop (nvidia_get_chardev_major name) any.
Proof. unfold nvidia_get_chardev_major. ens. Qed.
Lemma is_kernel_module_loaded_ens name : ensures (only [KLib; KRead]) no_stop (is_kernel_module_loaded name) any.
Proof. unfold is_kernel_module_loaded. ens. Qed.
Lemma is_tegra_ens : ensures (only [KLib; KRead]) no_stop is_tegra any.
Proof. unfold is_tegra. ens. Qed.
Lemma init_device_file_parameters_ens proc_path :
  ensures (only [KLib; KRead]) no_stop (init_device_file_parameters proc_path) any.
Proof. unfold init_device_file_parameters. ens. Qed.
Lemma get_file_state_helper_ens path major minor p :
  ensures (only [KLib; KRead]) no_stop (get_file_state_helper path major minor p) any.
Proof. unfold get_file_state_helper. ens. Qed.
#[export] Hint Resolve nvidia_get_chardev_major_ens is_kernel_module_loaded_ens is_tegra_ens
  init_device_file_parameters_ens get_file_state_helper_ens : ens.

Lemma nvidia_cap_get_device_file_attrs_ens path minor0 :
  ensures (only [KLib; KRead]) no_stop (nvidia_cap_get_device_file_attrs path minor0) any.
Proof. unfold nvidia_cap_get_device_file_attrs. ens. Qed.
#[export] Hint Resolve nvidia_cap_get_device_file_attrs_ens : ens.

(** Only the node is made, removed or changed. *)
Definition on_node (path : string) (ev : event) : Prop :=
  match ev_call ev with
  | EMknod q _ _ | EChmod q _ | EChown q _ _ | ERemove q => q = path
  | _ => only [KLib; KRead] ev
  end.

Lemma on_node_read path ev : only [KLib; KRead] ev -> on_node path ev.
Proof. by destruct ev as [[] r]. Qed.
#[export] Hint Resolve on_node_read : ens.

Lemma mknod_helper_ens major minor path proc_path :
  ensures (on_node path) no_stop (mknod_helper major minor path proc_path) any.
Proof. unfold mknod_helper. ens. Qed.

(** Only nodes of [/dev/nvidia...] are made, removed or changed. *)
Definition dev_nvidia (path : string) : bool := str_has_prefix path "/dev/nvidia".
Definition makes_nodes (ev : event) : Prop :=
  match ev_call ev with
  | EMknod q _ _ | EChmod q _ | EChown q _ _ | ERemove q | EMkdir q _ => dev_nvidia q = true
  | _ => only [KLib; KRead] ev
  end.

Lemma makes_nodes_read ev : only [KLib; KRead] ev -> makes_nodes ev.
Proof. by destruct ev as [[] r]. Qed.
#[export] Hint Resolve makes_nodes_read : ens.

(** A node that has no name is not made. *)
Lemma mknod_helper_nodes major minor path proc_path : path = "" \/ dev_nvidia path = true ->
  ensures makes_nodes no_stop (mknod_helper major minor path proc_path) any.
Proof.
  intros [-> |Hp]; [unfold mknod_helper; ens|].
  eapply ensures_weaken; [apply mknod_helper_ens| |done|done].
  intros [ev r] Hev. by destruct ev; try exact Hev; cbn in *; subst.
Qed.

Lemma nvidia_mknod_ens minor : ensures makes_nodes no_stop (nvidia_mknod minor) any.
Proof.
  apply mknod_helper_nodes. unfold assign_device_file_name.
  destruct (_ || _); [by left|]. right. by destruct (minor =? _).
Qed.

Lemma nvidia_uvm_mknod_ens minor : ensures makes_nodes no_stop (nvidia_uvm_mknod minor) any.
Proof.
  unfold nvidia_uvm_mknod. pose proof (mknod_helper_nodes) as H.
  ens_step. destruct (_ <? 0); [ens|]. eapply ensures_bind; [apply H; by right|]. intros [] _; [apply H; by right|ens].
Qed.

Lemma nvidia_modeset_mknod_ens : ensures makes_nodes no_stop nvidia_modeset_mknod any.
Proof. apply mknod_helper_nodes. by right. Qed.

Lemma nvidia_cap_get_device_file_attrs_name path minor0 :
  ensures (only [KLib; KRead]) no_stop (nvidia_cap_get_device_file_attrs path minor0)
    (fun q => match fst (fst q) with Some name => dev_nvidia name = true | None => True end).
Proof.
  unfold nvidia_cap_get_device_file_attrs, device_name. ens; try done.
  set (m := find_minor _). clearbody m. destruct (m <? 0); [done|]. by destruct (_ <=? strlen _).
Qed.

Lemma nvidia_cap_mknod_ens path minor0 : ensures makes_nodes no_stop (nvidia_cap_mknod path minor0) any.
Proof.
  unfold nvidia_cap_mknod.
  eapply ensures_bind; [eapply ensures_weaken; [apply nvidia_cap_get_device_file_attrs_name|apply makes_nodes_read|done|intros ? HR; exact HR]|].
  intros [[[name|] major] minor] Hn; [|ens]. cbn in Hn. pose proof (fun a b => mknod_helper_nodes a b name (Some path) (or_intror Hn)) as H.
  ens_step. ens_step. ens_step.
  match goal with |- ensures _ _ (if ?b then _ else _) _ => destruct b end; [ens|].
  eapply ensures_bind; [apply H|]. intros b _. ens.
Qed.
#[export] Hint Resolve nvidia_mknod_ens nvidia_uvm_mknod_ens nvidia_modeset_mknod_ens nvidia_cap_mknod_ens : ens.

(** Nothing but [modprobe] with the name of the module is executed. *)
Definition modprobe_event (module_name : string) (ev : event) : Prop :=
  match ev_call ev with
  | EExecle _ argv envp => argv = ["modprobe"; module_name] /\ envp = ["PATH=/sbin"]
  | EExec _ _ | EFexec _ _ | EKill _ _ => False
  | EGeteuid => True
  | _ => only [KLib; KRead; KProc] ev
  end.

Lemma modprobe_event_read name ev : only [KLib; KRead] ev -> modprobe_event name ev.
Proof. by destruct ev as [[] r]. Qed.
Lemma modprobe_event_read1 name ev : only [KRead] ev -> modprobe_event name ev.
Proof. by destruct ev as [[] r]. Qed.
#[export] Hint Resolve modprobe_event_read modprobe_event_read1 : ens.

(** The child ends, and a parent does too when the name of a device is not one. *)
Definition modprobe_stop (w : stop) : Prop := no_location w \/ w = Executed \/ w = Exited 1.

Lemma modprobe_stop_location w : no_location w -> modprobe_stop w.
Proof. by left. Qed.
Lemma modprobe_stop_executed : modprobe_stop Executed.
Proof. by right; left. Qed.
Lemma modprobe_stop_exited : modprobe_stop (Exited 1).
Proof. by right; right. Qed.
#[export] Hint Resolve modprobe_stop_location modprobe_stop_executed modprobe_stop_exited : ens.

Lemma modprobe_program_ens : ensures (only [KLib; KRead]) no_stop modprobe_program any.
Proof. unfold modprobe_program. ens. Qed.
Lemma silence_current_process_ens : ensures (only [KLib; KRead; KProc]) no_stop silence_current_process any.
Proof. unfold silence_current_process. ens. Qed.
#[export] Hint Resolve modprobe_program_ens : ens.

Lemma modprobe_helper_ens print_errors name tegra :
  ensures (modprobe_event name) modprobe_stop (modprobe_helper print_errors name tegra) any.
Proof.
  unfold modprobe_helper, run_modprobe, silence_current_process. ens.
Qed.
#[export] Hint Resolve modprobe_helper_ens : ens.

(** The devices of a host that has the capability driver. *)
Definition demo_proc_devices : stream := mkStream (map text_line ["Character devices:"; "  1 mem"; "237 nvidia-caps"; ""]) false.
