(* ===== verification/Nodes.v ===== *)
(** * What the device nodes are afterwards

    The functions of [Modprobe.v] on a kernel that keeps one node: what [stat],
    [mknod], [chmod], [chown] and [remove] say and do to it. *)
From S2P Require Import Prelude CString Scanf Effects Logic Errors Utils Types Files Devices Pci Modprobe.

(** ** A kernel with a node *)

Definition S_IALLUGO : Z := 4095.
Definition S_ISUGID : Z := 3072.

(** The node, and whether a removal failed. *)
Record node_state := mkNodeState { ns_node : option statbuf; ns_stuck : bool }.

Section Node.
(** The path, the file mask and the identity of the process. *)
Variables (path : string) (umask uid0 gid0 : Z).

Definition chmod_node (mode : Z) (n : statbuf) : statbuf :=
  mkStat (Z.lor (Z.land (st_mode n) (Z.lnot S_IALLUGO)) (Z.land mode S_IALLUGO)) (st_uid n) (st_gid n) (st_rdev n) (st_size n).
(** A change of owner clears the set-id bits. *)
Definition chown_node (uid gid : Z) (n : statbuf) : statbuf :=
  mkStat (Z.land (st_mode n) (Z.lnot S_ISUGID)) uid gid (st_rdev n) (st_size n).

Definition node_step (g : node_state) (ev : event) : node_state :=
  match ev with
  | Event (EMknod q mode dev) (SOk _) =>
      if str_equal q path then mkNodeState (Some (mkStat (Z.land mode (Z.lnot umask)) uid0 gid0 dev 0)) (ns_stuck g) else g
  | Event (EChmod q mode) (SOk _) =>
      if str_equal q path then mkNodeState (chmod_node mode <$> ns_node g) (ns_stuck g) else g
  | Event (EChown q uid gid) (SOk _) =>
      if str_equal q path then mkNodeState (chown_node uid gid <$> ns_node g) (ns_stuck g) else g
  | Event (ERemove q) (SOk _) => if str_equal q path then mkNodeState None (ns_stuck g) else g
  | Event (ERemove q) (SErr _) => if str_equal q path then mkNodeState (ns_node g) true else g
  | _ => g
  end.

(** A node is shown as it is, made only where there is none and changed only
    where there is one; every call may fail.  [p] are the parameters of the
    files. *)
Definition keeps_node (p : file_parameters) (g : node_state) (ev : event) : Prop :=
  match ev with
  | Event (EStat q) (SOk n) => q = path -> ns_node g = Some n
  | Event (EMknod q _ _) (SOk _) => q = path -> ns_node g = None
  | Event (EChmod q _) (SOk _) | Event (EChown q _ _) (SOk _) => q = path -> is_Some (ns_node g)
  | Event (EFopen _ _) (SOk fp) =>
      fold_left set_parameter (fscanf_all (parameter_line DUint) 2 (s_text fp)) default_parameters = p
  | Event (EFopen _ _) (SErr _) => p = default_parameters
  | _ => True
  end.

(** ** The node that is wanted *)

(** A character device with this number. *)
Definition is_device (dev : Z) (n : statbuf) : Prop := S_ISCHR (st_mode n) = true /\ st_rdev n = dev.
(** Its permissions and owner are those of the parameters. *)
Definition permitted (p : file_parameters) (n : statbuf) : Prop :=
  Z.land (st_mode n) NV_DEVICE_FILE_MODE_MASK = Z.land (fp_mode p) NV_DEVICE_FILE_MODE_MASK /\
  st_uid n = fp_uid p /\ st_gid n = fp_gid p.

(** What a call leaves that answers [made]. *)
Definition node_made (p : file_parameters) (dev : Z) (g g' : node_state) (made : bool) : Prop :=
  if negb (fp_modify p =? 1) then made = true /\ g' = g
  else if made then exists n, ns_node g' = Some n /\ is_device dev n /\ permitted p n
  else ns_stuck g' = false ->
       ns_node g' = None \/ g' = g \/
       exists n n', ns_node g = Some n /\ ns_node g' = Some n' /\ is_device dev n /\ is_device dev n'.

(** *** Bits *)

Lemma land_type_lor a b m :
  Z.land (Z.lor (Z.land a (Z.lnot S_IALLUGO)) (Z.land b S_IALLUGO)) S_IFMT = Z.land a S_IFMT /\
  Z.land (Z.land (Z.lor (Z.land a (Z.lnot S_IALLUGO)) (Z.land b S_IALLUGO)) (Z.lnot S_ISUGID)) NV_DEVICE_FILE_MODE_MASK =
    Z.land b NV_DEVICE_FILE_MODE_MASK /\
  Z.land (Z.land m (Z.lnot S_ISUGID)) S_IFMT = Z.land m S_IFMT.
Proof.
  rewrite !Z.land_lor_distr_l, <- !Z.land_assoc. repeat split.
  - change (Z.land (Z.lnot S_IALLUGO) S_IFMT) with S_IFMT. change (Z.land S_IALLUGO S_IFMT) with 0.
    by rewrite Z.land_0_r, Z.lor_0_r.
  - change (Z.land (Z.lnot S_IALLUGO) (Z.land (Z.lnot S_ISUGID) NV_DEVICE_FILE_MODE_MASK)) with 0.
    change (Z.land S_IALLUGO (Z.land (Z.lnot S_ISUGID) NV_DEVICE_FILE_MODE_MASK)) with NV_DEVICE_FILE_MODE_MASK.
    by rewrite Z.land_0_r.
Qed.

Lemma chown_device uid gid dev n : is_device dev n -> is_device dev (chown_node uid gid n).
Proof.
  unfold is_device, S_ISCHR. cbn. destruct (land_type_lor 0 0 (st_mode n)) as (_ & _ & ->). done.
Qed.

Lemma chmod_device mode dev n : is_device dev n -> is_device dev (chmod_node mode n).
Proof.
  unfold is_device, S_ISCHR. cbn. destruct (land_type_lor (st_mode n) mode 0) as (-> & _). done.
Qed.

Lemma chowned_permitted p n : permitted p (chown_node (fp_uid p) (fp_gid p) (chmod_node (fp_mode p) n)).
Proof. by destruct (land_type_lor (st_mode n) (fp_mode p) 0) as (_ & H & _). Qed.

(** The mask of the process has permission bits only. *)
Lemma mknod_device mode dev : 0 <= umask < 512 -> Z.land mode S_IFMT = 0 \/ Z.land mode S_IFMT = S_IFCHR ->
  is_device dev (mkStat (Z.land (Z.lor S_IFCHR mode) (Z.lnot umask)) uid0 gid0 dev 0).
Proof.
  intros Hu Hm. split; [|done]. unfold S_ISCHR. cbn [st_mode].
  assert (Z.land (Z.lnot umask) S_IFMT = S_IFMT) as Hl.
  { apply Z.bits_inj'. intros i Hi. rewrite Z.land_spec, Z.lnot_spec by lia.
    destruct (Z.testbit S_IFMT i) eqn:E; [|by rewrite andb_false_r].
    rewrite andb_true_r, negb_true_iff. destruct (Z.lt_ge_cases i 9) as [Hlt|Hge].
    - exfalso. assert (i ∈ seqZ 0 9) as Hin by (apply elem_of_seqZ; lia).
      revert E. apply not_true_iff_false.
      assert (Forall (fun i => Z.testbit S_IFMT i = false) (seqZ 0 9)) as Hall by (vm_compute; repeat constructor).
      by apply (proj1 (Forall_forall _ _) Hall).
    - destruct (Z.eq_dec umask 0) as [->|Hne]; [by rewrite Z.testbit_0_l|]. apply Z.bits_above_log2; [lia|].
      enough (Z.log2 umask < 9) by lia. apply Z.log2_lt_pow2; lia. }
  rewrite <- Z.land_assoc, Hl, Z.land_lor_distr_l. change (Z.land S_IFCHR S_IFMT) with S_IFCHR.
  by destruct Hm as [-> | ->].
Qed.

(** *** The calls *)

Variable p : file_parameters.
Abbreviation on_kernel := (relies node_step (keeps_node p)).

Definition knows_parameters (proc_path : option string) : Prop :=
  match proc_path with None | Some EmptyString => p = default_parameters | Some _ => True end.

Lemma init_parameters_kept proc_path g s :
  knows_parameters proc_path -> on_kernel (init_device_file_parameters proc_path) g s (fun q _ g' => q = p /\ g' = g).
Proof.
  unfold init_device_file_parameters. destruct proc_path as [[|c q]|]; intros Hp; [by lstep..| |by lstep].
  lstep. lstep. cbn in Hr. destruct r as [fp|e]; cbn beta iota; lstep; by subst.
Qed.

Lemma state_tests n dev :
  let state := file_state n dev p in
  nvidia_test_file_state state NvDeviceFileStateFileExists = true /\
  (nvidia_test_file_state state NvDeviceFileStateChrDevOk = true <-> is_device dev n) /\
  (nvidia_test_file_state state NvDeviceFileStatePermissionsOk = true -> permitted p n).
Proof.
  cbv zeta.
  assert (forall value, nvidia_test_file_state (file_state n dev p) value =
    match value with
    | NvDeviceFileStateFileExists => true
    | NvDeviceFileStateChrDevOk => S_ISCHR (st_mode n) && (st_rdev n =? dev)
    | NvDeviceFileStatePermissionsOk =>
        (Z.land (st_mode n) NV_DEVICE_FILE_MODE_MASK =? fp_mode p) && (st_uid n =? fp_uid p) && (st_gid n =? fp_gid p)
    end) as Ht.
  { intros value. unfold file_state. destruct (S_ISCHR _ && _), (_ && _ && _); by destruct value. }
  rewrite !Ht. unfold is_device, permitted. rewrite !andb_true_iff, !Z.eqb_eq. split_and!; [done..|].
  intros [[Hm Hu] Hg]. split_and!; [|done..]. by rewrite <- Hm, <- Z.land_assoc, Z.land_diag.
Qed.

(** The permissions and the owner of the node are set; a node that was [made] is
    removed again when they cannot. *)
Lemma permissions_kept (made : bool) dev g g0 s n :
  ns_node g = Some n -> is_device dev n -> fp_modify p = 1 ->
  (made = false -> ns_node g0 = Some n) ->
  on_kernel
    (let* c := call (EChmod path (fp_mode p)) in
     let* c := trap c in
     let* o := match c with
               | None => ret None
               | Some _ => let* o := call (EChown path (fp_uid p) (fp_gid p)) in trap o
               end in
     match o with
     | Some _ => ret true
     | None =>
         do (if made then let* r := call (ERemove path) in do trap r in ret tt else ret tt) in
         ret false
     end) g s (fun b _ g' => node_made p dev g0 g' b).
Proof.
  intros Hn Hd Hm H0.
  assert (forall b g', (if b : bool then exists n, ns_node g' = Some n /\ is_device dev n /\ permitted p n
    else ns_stuck g' = false ->
      ns_node g' = None \/ g' = g0 \/
      exists n n', ns_node g0 = Some n /\ ns_node g' = Some n' /\ is_device dev n /\ is_device dev n') ->
    node_made p dev g0 g' b) as Hend by (unfold node_made; rewrite Hm; done).
  assert (Hundo : forall g1 n1 s, ns_node g1 = Some n1 -> is_device dev n1 ->
    on_kernel (do (if made then let* r := call (ERemove path) in do trap r in ret tt else ret tt) in ret false) g1 s
      (fun b _ g' => node_made p dev g0 g' b)).
  { intros g1 n1 s1 Hn1 Hd1. destruct made.
    - do 6 lstep. apply Hend. destruct r as [[]|e]; cbn; unfold str_equal; rewrite String.eqb_refl; [|done].
      intros _. by left.
    - do 2 lstep. apply Hend. intros _. right; right. exists n, n1. split_and!; auto. }
  lstep. lstep. destruct r as [[]|e]; cbn beta iota.
  - cbn in Hr. assert (Hg : ns_node (node_step g (Event (EChmod path (fp_mode p)) (SOk tt))) = Some (chmod_node (fp_mode p) n)).
    { cbn. unfold str_equal. rewrite String.eqb_refl. cbn. by rewrite Hn. }
    set (g1 := node_step _ _) in *. clearbody g1. lstep. lstep. lstep. destruct r as [[]|e]; cbn beta iota.
    + lstep. apply Hend. exists (chown_node (fp_uid p) (fp_gid p) (chmod_node (fp_mode p) n)). split_and!.
      * cbn. unfold str_equal. rewrite String.eqb_refl. cbn. by rewrite Hg.
      * by apply chown_device, chmod_device.
      * apply chowned_permitted.
    + eapply Hundo; [exact Hg|by apply chmod_device].
  - lstep. eapply Hundo; [exact Hn|exact Hd].
Qed.

Hypothesis named : path <> "".
Hypothesis mask : 0 <= umask < 512.
Hypothesis mode_type : Z.land (fp_mode p) S_IFMT = 0 \/ Z.land (fp_mode p) S_IFMT = S_IFCHR.

Lemma here q : str_equal q path = true <-> q = path.
Proof. apply String.eqb_eq. Qed.

Lemma mknod_helper_kept major minor proc_path g s :
  knows_parameters proc_path ->
  on_kernel (mknod_helper major minor path proc_path) g s
    (fun b _ g' => node_made p (NV_MAKE_DEVICE major minor) g g' b).
Proof.
  intros Hp. unfold mknod_helper. cbv zeta. set (dev := NV_MAKE_DEVICE major minor).
  rewrite (proj2 (String.eqb_neq _ _) named).
  eapply relies_bind; [by apply init_parameters_kept|]. intros q s1 g1 [-> ->]. cbv beta.
  destruct (fp_modify p =? 1) eqn:Hm; cbn [negb].
  2:{ apply relies_ret. unfold node_made. by rewrite Hm. }
  assert (Hmade : forall g' b, (if b : bool then exists n, ns_node g' = Some n /\ is_device dev n /\ permitted p n
    else ns_stuck g' = false -> ns_node g' = None \/ g' = g) -> node_made p dev g g' b).
  { unfold node_made. rewrite Hm. intros g' [] H; [done|]. intros Hs. destruct (H Hs); auto. }
  apply Z.eqb_eq in Hm.
  (* a node that is made *)
  assert (Hnew : forall g1 s1, ns_node g1 = None \/ g1 = g -> on_kernel
    (let? _ := (let* r := call (EMknod path (Z.lor S_IFCHR (fp_mode p)) dev) in trap r) else ret false in
     let* c := call (EChmod path (fp_mode p)) in
     let* c := trap c in
     let* o := match c with
               | None => ret None
               | Some _ => let* o := call (EChown path (fp_uid p) (fp_gid p)) in trap o
               end in
     match o with
     | Some _ => ret true
     | None => do (let* r := call (ERemove path) in do trap r in ret tt) in ret false
     end) g1 s1 (fun b _ g' => node_made p dev g g' b)).
  { intros g1 s2 Hg1. lstep. lstep. lstep. destruct r as [[]|e]; cbn beta iota.
    - apply (permissions_kept true dev _ g _ (mkStat (Z.land (Z.lor S_IFCHR (fp_mode p)) (Z.lnot umask)) uid0 gid0 dev 0));
        [|by apply mknod_device|done|done].
      cbn. by rewrite (proj2 (here path) eq_refl).
    - lstep. apply Hmade. cbn. tauto. }
  unfold get_file_state_helper. fold dev. do 4 lstep. destruct r as [n|e]; cbn beta iota; lstep; cbv zeta.
  - specialize (Hr eq_refl). destruct (state_tests n dev) as (He & Hd & Hpe). rewrite He. cbn [andb negb].
    change (node_step g _) with g. destruct (nvidia_test_file_state _ NvDeviceFileStateChrDevOk) eqn:Ed.
    + pose proof (proj1 Hd eq_refl) as Hdev. destruct (nvidia_test_file_state _ NvDeviceFileStatePermissionsOk) eqn:Ep; cbn [andb negb].
      * lstep. apply Hmade. eauto.
      * lstep. lstep. by eapply (permissions_kept false).
    + cbn [andb negb]. lstep. lstep. lstep. lstep. destruct r as [[]|e]; cbn beta iota; lstep.
      * apply Hnew. left. cbn. by rewrite (proj2 (here path) eq_refl).
      * apply relies_ret, Hmade. cbn. by rewrite (proj2 (here path) eq_refl).
  - change (nvidia_test_file_state 0 NvDeviceFileStateFileExists) with false. cbn [andb negb]. lstep. apply Hnew. by right.
Qed.
End Node.

(** ** The program that loads a module *)

(** Whether the process is the child, is the superuser, the last file that was
    found to be a program, the name [/proc] gave for [modprobe], and whether the
    module was in the last list of modules. *)
Record loader := mkLoader {
  lo_child : bool; lo_root : bool; lo_program : option string; lo_modprobe : string; lo_loaded : bool
}.

Section Loader.
Variable module_name : string.

Definition listed (fp : stream) : bool :=
  existsb (fun vs => match vs with
                     | [VStr name] => modcmp (c_str name) module_name =? 0
                     | _ => false
                     end) (fscanf_all module_line 1 (s_text fp)).

Definition is_program (n : statbuf) : bool := S_ISREG (st_mode n) && (Z.land (st_mode n) S_IXUSR =? S_IXUSR).

Definition loader_step (g : loader) (ev : event) : loader :=
  let '(mkLoader child root program modprobe loaded) := g in
  match ev with
  | Event (EFork _) (SOk 0%N) => mkLoader true root program modprobe loaded
  | Event EGeteuid uid => mkLoader child (uid =? 0) program modprobe loaded
  | Event (EStat q) (SOk n) => mkLoader child root (if is_program n then Some q else None) modprobe loaded
  | Event (EStat _) (SErr _) => mkLoader child root None modprobe loaded
  | Event (EFopen q _) r =>
      if str_equal q NV_PROC_MODULES_PATH then
        mkLoader child root program modprobe (match r with SOk fp => listed fp | SErr _ => false end)
      else if str_equal q NV_PROC_MODPROBE_PATH then
        mkLoader child root program
          (match r with
           | SOk fp => fst (split_at "010" (c_str (str_take (NV_PROC_MODPROBE_PATH_MAX - 1) (s_text fp))))
           | SErr _ => EmptyString
           end) loaded
      else g
  | _ => g
  end.

(** The child alone runs a program, the one [/proc] names or [/sbin/modprobe]: as
    the superuser, after it was found to be a regular file that can be executed,
    when the module is not loaded, with the name of the module as its argument
    and nothing of the environment.  The parent only looks, forks and waits. *)
Definition loads_module (g : loader) (ev : event) : Prop :=
  match ev_call ev with
  | EExecle q argv envp =>
      lo_child g = true /\ lo_root g = true /\ lo_program g = Some q /\ lo_loaded g = false /\
      q = (if (lo_modprobe g =? "")%string then "/sbin/modprobe" else lo_modprobe g) /\
      argv = ["modprobe"; module_name] /\ envp = ["PATH=/sbin"]
  | EFork _ | EWaitpid _ => lo_child g = false
  | EDup2 _ _ => lo_child g = true
  | EGeteuid => True
  | _ => only [KLib; KRead] ev
  end.

Abbreviation loading := (guarded loader_step loads_module).

Lemma is_kernel_module_loaded_loads g :
  loading (is_kernel_module_loaded module_name) g
    (fun b g' => g' = mkLoader (lo_child g) (lo_root g) (lo_program g) (lo_modprobe g) b).
Proof.
  unfold is_kernel_module_loaded. destruct g. astep. astep. by destruct r; astep.
Qed.

(** What the search of the devices does not change. *)
Lemma pci_enum_loads m g :
  loading (pci_enum_match_id m) g (fun _ g' => lo_child g' = lo_child g /\ lo_loaded g' = lo_loaded g).
Proof.
  eapply guarded_post; [eapply guarded_ghost with (R := fun _ g' => (lo_child g', lo_loaded g') = (lo_child g, lo_loaded g));
    [apply pci_enum_match_id_ens| |]|].
  - intros ev g0. destruct ev as [[] ?]; done.
  - eapply ghost_post; [eapply (ghost_pres _ _ _ _ _ (fun g => (lo_child g, lo_loaded g))); [apply pci_enum_match_id_ens|]|].
    2: by intros a g' [H _].
    intros ev [c ro pr mo lo] Hev. destruct ev as [[] ans]; try done; simpl in *; by destruct ans.
  - by intros a g' [[= -> ->] _].
Qed.

Lemma is_tegra_loads g : loading is_tegra g (fun _ g' => g' = g).
Proof. unfold is_tegra. destruct g. astep. astep. by destruct r; astep. Qed.

Lemma modprobe_program_loads g :
  loading modprobe_program g
    (fun q g' => exists m, g' = mkLoader (lo_child g) (lo_root g) (lo_program g) m (lo_loaded g) /\
      q = (if (m =? "")%string then "/sbin/modprobe" else m)).
Proof.
  unfold modprobe_program. destruct g. astep. astep. destruct r as [fp|e]; astep; by eexists.
Qed.

Lemma run_modprobe_loads {A} print_errors q g (R : A -> loader -> Prop) :
  lo_child g = true -> lo_root g = true -> lo_program g = Some q -> lo_loaded g = false ->
  q = (if (lo_modprobe g =? "")%string then "/sbin/modprobe" else lo_modprobe g) ->
  loading (run_modprobe print_errors q module_name) g R.
Proof.
  intros Hc Hr Hp Hl Hq. unfold run_modprobe.
  eapply guarded_bind with (R1 := fun _ g' => g' = g).
  - unfold silence_current_process, close. destruct g. astep. astep. destruct r as [fd|e]; [|by astep].
    repeat astep. done.
  - intros [] g' ->. astep. destruct r as [[]|e]; [astep|]. repeat astep.
    destruct print_errors; repeat astep.
Qed.

Lemma modprobe_helper_loads print_errors tegra g :
  lo_child g = false ->
  loading (modprobe_helper print_errors module_name tegra) g
    (fun b g' => lo_child g' = false /\ (b = true -> lo_loaded g' = true)).
Proof.
  intros Hc. unfold modprobe_helper. destruct (module_name =? "")%string; [by astep|].
  eapply guarded_bind; [apply is_kernel_module_loaded_loads|]. intros [|] g1 ->; [by astep|].
  eapply guarded_bind; [apply pci_enum_loads|]. intros q g2 [Hc2 Hl2]. cbn in Hc2, Hl2. rewrite Hc in Hc2.
  eapply guarded_bind with (R1 := fun _ g' => lo_child g' = false /\ lo_loaded g' = false).
  { destruct (_ && _); [|by astep].
    eapply guarded_bind with (R1 := fun _ g' => g' = g2); [destruct tegra; [apply is_tegra_loads|by astep]|].
    intros t g' ->. destruct (negb t && print_errors); repeat astep; by destruct g2. }
  intros [|] g3 [Hc3 Hl3]; cbn [negb]; [|by astep]. destruct g3 as [c3 r3 p3 m3 l3]. cbn in Hc3, Hl3. subst.
  astep. destruct (r =? 0) eqn:Er; cbn [negb]; [|by astep]. cbn [loader_step]. rewrite Er.
  eapply guarded_bind; [apply modprobe_program_loads|]. intros program g4 (m & -> & Hm). cbn [lo_child lo_root lo_program lo_loaded].
  astep. astep. destruct r0 as [n|e]; cbn beta iota; [|by astep].
  destruct (negb (S_ISREG (st_mode n)) || _) eqn:En; [by astep|].
  apply orb_false_iff in En as [En1 En2]. apply negb_false_iff in En1, En2.
  cbn [loader_step]. unfold is_program. rewrite En1, En2. cbn [andb].
  astep. astep. destruct r0 as [pid|e]; cbn beta iota; [|by astep].
  destruct (pid =? 0)%N eqn:Ep; [apply N.eqb_eq in Ep as ->; by apply run_modprobe_loads|].
  replace (loader_step _ _) with (mkLoader false true (Some program) m false) by (by destruct pid).
  astep. astep. eapply guarded_post; [apply is_kernel_module_loaded_loads|]. by intros b g' ->.
Qed.
End Loader.

(** ** Device numbers *)

(** The bits a 32-bit integer has beyond its sign. *)
Lemma int32_high b i : - 2 ^ 31 <= b < 2 ^ 31 -> 31 <= i -> Z.testbit b i = (b <? 0).
Proof.
  intros Hb Hi. destruct (Z.ltb_spec b 0) as [Hn|Hp].
  - apply Z.bits_above_log2_neg; [done|]. destruct (Z.eq_dec (Z.pred (- b)) 0) as [-> |]; [simpl; lia|].
    enough (Z.log2 (Z.pred (- b)) < 31) by lia. apply Z.log2_lt_pow2; lia.
  - destruct (Z.eq_dec b 0) as [->|]; [apply Z.testbit_0_l|]. apply Z.bits_above_log2; [done|].
    enough (Z.log2 b < 31) by lia. apply Z.log2_lt_pow2; lia.
Qed.

(** All the bits from the 31st on are that of the sign. *)
Lemma NV_MAKE_DEVICE_high maj min i : 31 <= i < 64 ->
  Z.testbit (NV_MAKE_DEVICE maj min) i = Z.testbit (NV_MAKE_DEVICE maj min) 63.
Proof.
  intros Hi. unfold NV_MAKE_DEVICE, uint_wrap. rewrite !Z.mod_pow2_bits_low by lia. rewrite !Z.lor_spec.
  assert (0 <= Z.land min 255 < 256) as Hm by (change 255 with (Z.ones 8); rewrite Z.land_ones by lia; apply Z.mod_pos_bound; lia).
  pose proof (sint_wrap_range 32 (Z.shiftl maj 8) ltac:(lia)). pose proof (sint_wrap_range 32 (Z.shiftl (Z.land min (Z.lnot 255)) 12) ltac:(lia)).
  rewrite !int32_high by lia. done.
Qed.

Lemma makedev_bit maj min i : 0 <= maj -> 0 <= min -> 20 <= i ->
  Z.testbit (makedev maj min) i = (Z.testbit min (i - 12) || ((44 <=? i) && Z.testbit maj (i - 32))).
Proof.
  intros Ha Hb Hi. unfold makedev. rewrite !Z.lor_spec, !Z.shiftl_spec, !Z.land_spec by lia.
  change 4095 with (Z.ones 12). change 255 with (Z.ones 8). rewrite !Z.ones_spec_high by lia. rewrite !andb_false_r.
  replace (Z.testbit (Z.shiftr min 8) (i - 20)) with (Z.testbit min (i - 12)) by (rewrite Z.shiftr_spec by lia; f_equal; lia).
  destruct (Z.leb_spec 44 i); cbn [andb orb].
  - rewrite (Z.shiftr_spec maj 12 (i - 44)) by lia. by replace (i - 44 + 12) with (i - 32) by lia.
  - by rewrite (Z.testbit_neg_r _ (i - 44)) by lia.
Qed.

Lemma NV_MAKE_DEVICE_small maj min : 0 <= maj < 4096 -> 0 <= min < 2 ^ 19 -> NV_MAKE_DEVICE maj min = makedev maj min.
Proof.
  intros Ha Hb. unfold NV_MAKE_DEVICE, makedev.
  assert (0 <= Z.land min (Z.lnot 255) <= min) as Hl.
  { replace (Z.land min (Z.lnot 255)) with (Z.ldiff min 255) by (by rewrite Z.ldiff_land).
    change 255 with (Z.ones 8). rewrite Z.ldiff_ones_r by lia. rewrite Z.shiftl_mul_pow2, Z.shiftr_div_pow2 by lia.
    change (2 ^ 8) with 256. pose proof (Z.div_mod min 256). pose proof (Z.mod_pos_bound min 256). lia. }
  rewrite !Z.shiftl_mul_pow2 by lia. rewrite (sint_wrap_id 32 (maj * _)) by lia.
  rewrite (sint_wrap_id 32 (Z.land _ _ * _)) by lia. rewrite uint_wrap_id.
  - change 4095 with (Z.ones 12). rewrite (Z.land_ones maj 12), (Z.mod_small maj) by lia.
    replace (Z.shiftr maj 12) with 0 by (rewrite Z.shiftr_div_pow2, Z.div_small by lia; done).
    replace (Z.land min (Z.lnot 255) * 2 ^ 12) with (Z.shiftr min 8 * 2 ^ 20).
    + rewrite Z.mul_0_l, Z.lor_0_r. by rewrite (Z.lor_comm (Z.land min 255)).
    + rewrite <- Z.ldiff_land. change 255 with (Z.ones 8). rewrite Z.ldiff_ones_r by lia.
      rewrite Z.shiftl_mul_pow2 by lia. lia.
  - assert (forall x, 0 <= x < 2 ^ 31 -> Z.shiftr x 31 = 0) as Hz
      by (intros x Hx; rewrite Z.shiftr_div_pow2, Z.div_small by lia; done).
    assert (0 <= Z.land min 255 < 256) as Hm by (change 255 with (Z.ones 8); rewrite Z.land_ones by lia; apply Z.mod_pos_bound; lia).
    set (x := Z.lor _ _). assert (0 <= x) as Hx by (unfold x; rewrite !Z.lor_nonneg; lia).
    assert (Z.shiftr x 31 = 0) as Hs by (unfold x; rewrite !Z.shiftr_lor, !Hz by lia; done).
    rewrite Z.shiftr_div_pow2 in Hs by lia. apply Z.div_small_iff in Hs; lia.
Qed.

(** ** The properties *)

Lemma mknod_helper_returns (o : env) major minor path proc_path s :
  exists s' b, snd (exec o (mknod_helper major minor path proc_path) s) = Done (s', b).
Proof.
  pose proof (ensures_run o _ _ _ _ s (mknod_helper_ens major minor path proc_path)) as Hr.
  destruct (exec o _ s) as [t [[s' b]|w]]; [by exists s', b|by destruct Hr].
Qed.

(** C19: on a kernel that keeps a node, [mknod_helper] returns, and when it answers
    1 the node of the path is a character device of the number that was asked,
    with the permissions and the owner the parameters of the driver say, whatever
    was there before; when it answers 0 nothing half made is left: the node is
    missing, as it was, or the device it was.  When the driver forbids
    modifications nothing is touched. *)
Theorem mknod_helper_correct (o : env) major minor path proc_path umask uid0 gid0 p g (s : st) :
  path <> "" -> 0 <= umask < 512 -> Z.land (fp_mode p) S_IFMT = 0 \/ Z.land (fp_mode p) S_IFMT = S_IFCHR ->
  knows_parameters p proc_path ->
  let '(t, out) := exec o (mknod_helper major minor path proc_path) s in
  always (node_step path umask uid0 gid0) (keeps_node path p) g t ->
  exists s' b, out = Done (s', b) /\
    node_made p (NV_MAKE_DEVICE major minor) g (fold_left (node_step path umask uid0 gid0) t g) b.
Proof.
  intros Hn Hu Hm Hp. pose proof (mknod_helper_returns o major minor path proc_path s) as (s' & b & Hd).
  pose proof (relies_run _ _ o _ g s _ (mknod_helper_kept path umask uid0 gid0 p Hn Hu Hm major minor proc_path g s Hp)) as Hr.
  destruct (exec o _ s) as [t out]. cbn in Hd. subst out. intros Ht. exists s', b. split; [done|by apply Hr].
Qed.

(** C18: whatever the kernel answers, loading a module runs no program but the one
    [/proc/sys/kernel/modprobe] names (or [/sbin/modprobe]), only in a child, as
    the superuser, after it was found to be an executable file, when the module is
    not loaded, with the name of the module as its argument and an environment of
    its own; the parent only reads, forks and waits, and answers 1 only when the
    module is in the list of the kernel. *)
Theorem modprobe_helper_safe (o : env) print_errors module_name tegra g (s : st) :
  lo_child g = false ->
  let '(t, out) := exec o (modprobe_helper print_errors module_name tegra) s in
  always (loader_step module_name) (loads_module module_name) g t /\
  (forall s' b, out = Done (s', b) ->
     lo_child (fold_left (loader_step module_name) t g) = false /\
     (b = true -> lo_loaded (fold_left (loader_step module_name) t g) = true)).
Proof.
  intros Hc. pose proof (guarded_run _ _ o _ g _ s (modprobe_helper_loads module_name print_errors tegra g Hc)) as Hr.
  destruct (exec o _ s) as [t [[s' b]|w]]; [|done]. destruct Hr as [Ha Hb]. split; [done|].
  by intros s2 b2 [= _ <-].
Qed.

(** C34: the number [NV_MAKE_DEVICE] computes with 32-bit integers is the one
    [makedev] gives to the same major and minor exactly for majors below 4096 and
    minors below [2^19]: above, bits are lost, or the sign of the intermediate
    result spreads. *)
Theorem NV_MAKE_DEVICE_makedev maj min :
  0 <= maj < 2 ^ 31 -> 0 <= min < 2 ^ 31 ->
  NV_MAKE_DEVICE maj min = makedev maj min <-> maj < 4096 /\ min < 2 ^ 19.
Proof.
  intros Ha Hb. split; [|intros []; apply NV_MAKE_DEVICE_small; lia].
  intros He. pose proof (NV_MAKE_DEVICE_high maj min) as Hh. rewrite He in Hh.
  assert (forall x i, 0 <= x < 2 ^ 31 -> 31 <= i -> Z.testbit x i = false) as H0
    by (intros x i Hx Hi; rewrite int32_high by lia; apply Z.ltb_ge; lia).
  assert (Z.testbit (makedev maj min) 63 = false) as H63 by (rewrite makedev_bit by lia; by rewrite !H0 by lia).
  rewrite H63 in Hh. split; apply Z.lt_nge; intros Hge.
  - assert (12 <= Z.log2 maj <= 30) as Hl by (split; [apply Z.log2_le_pow2; lia|enough (Z.log2 maj < 31) by lia; apply Z.log2_lt_pow2; lia]).
    specialize (Hh (Z.log2 maj + 32) ltac:(lia)). rewrite makedev_bit in Hh by lia. apply orb_false_iff in Hh as [_ Hh].
    rewrite (proj2 (Z.leb_le _ _)) in Hh by lia. replace (Z.log2 maj + 32 - 32) with (Z.log2 maj) in Hh by lia.
    cbn [andb] in Hh. rewrite Z.bit_log2 in Hh by lia. done.
  - assert (19 <= Z.log2 min <= 30) as Hl by (split; [apply Z.log2_le_pow2; lia|enough (Z.log2 min < 31) by lia; apply Z.log2_lt_pow2; lia]).
    specialize (Hh (Z.log2 min + 12) ltac:(lia)). rewrite makedev_bit in Hh by lia. apply orb_false_iff in Hh as [Hh _].
    replace (Z.log2 min + 12 - 12) with (Z.log2 min) in Hh by lia. rewrite Z.bit_log2 in Hh by lia. done.
Qed.

(** ** Concrete runs *)

(** The driver gives the node to a group; the path is a regular file at first. *)
Definition demo_params : stream :=
  mkStream (map text_line ["ResmanDebugLevel: 4294967295"; "ModifyDeviceFiles: 1"; "DeviceFileUID: 0"; "DeviceFileGID: 27";
                           "DeviceFileMode: 432"]) false.
Definition demo_parameters : file_parameters := mkParams 0 27 432 1.
Definition demo_node : node_state := mkNodeState (Some (mkStat (Z.lor S_IFREG m644) 0 0 0 12)) false.

Definition node_host : env := fun h e =>
  match e return resp e with
  | EFopen _ _ => SOk demo_params
  | EStat _ =>
      match ns_node (fold_left (node_step "/dev/nvidia0" 18 0 0) h demo_node) with Some n => SOk n | None => SErr ENOENT end
  | e => friendly e
  end.

Lemma mknod_helper_correct_witness :
  let '(t, out) := exec node_host (nvidia_mknod 0) init_st in
  exists s', out = Done (s', true) /\
    node_made demo_parameters (NV_MAKE_DEVICE 195 0) demo_node (fold_left (node_step "/dev/nvidia0" 18 0 0) t demo_node) true.
Proof.
  pose proof (mknod_helper_correct node_host 195 0 "/dev/nvidia0" (Some NV_PROC_REGISTRY_PATH) 18 0 0 demo_parameters demo_node init_st
    ltac:(done) ltac:(lia) ltac:(by left) I) as H.
  change (nvidia_mknod 0) with (mknod_helper 195 0 "/dev/nvidia0" (Some NV_PROC_REGISTRY_PATH)).
  destruct (exec _ _ _) as [t out] eqn:E.
  assert (out = snd (exec node_host (mknod_helper 195 0 "/dev/nvidia0" (Some NV_PROC_REGISTRY_PATH)) init_st)) as Ho by by rewrite E.
  assert (t = fst (exec node_host (mknod_helper 195 0 "/dev/nvidia0" (Some NV_PROC_REGISTRY_PATH)) init_st)) as Ht by by rewrite E.
  destruct H as (s' & b & Hd & Hm).
  - rewrite Ht. vm_compute. by repeat split; eauto.
  - exists s'. rewrite Hd in Ho. vm_compute in Ho. injection Ho as _ ->. by split.
Defined.

(** A host with a device of NVIDIA whose module is not loaded; the process becomes
    the child. *)
Definition module_host : env := fun h e =>
  match e return resp e with
  | EFopen q _ => if str_equal q NV_PROC_MODPROBE_PATH then SOk (mkStream [text_line "/usr/sbin/modprobe"] false)
                  else SOk (mkStream [text_line "nvidia_drm 16384 0 - Live 0x0"] false)
  | EStat _ => SOk (mkStat (Z.lor S_IFREG m755) 0 0 0 0)
  | EOpendir _ => SErr ENOENT
  | EFork _ => SOk 0%N
  | e => friendly e
  end.

Lemma modprobe_helper_safe_witness :
  let '(t, out) := exec module_host (nvidia_modprobe false) init_st in
  out = Halted Executed /\
  Event (EExecle "/usr/sbin/modprobe" ["modprobe"; "nvidia"] ["PATH=/sbin"]) (SOk tt) ∈ t /\
  always (loader_step "nvidia") (loads_module "nvidia") (mkLoader false false None "" false) t.
Proof.
  pose proof (modprobe_helper_safe module_host false "nvidia" false (mkLoader false false None "" false) init_st eq_refl) as H.
  change (nvidia_modprobe false) with (modprobe_helper false "nvidia" false).
  destruct (exec _ _ _) as [t out] eqn:E.
  assert (out = snd (exec module_host (modprobe_helper false "nvidia" false) init_st)) as Ho by by rewrite E.
  assert (t = fst (exec module_host (modprobe_helper false "nvidia" false) init_st)) as Ht by by rewrite E.
  split; [rewrite Ho; by vm_compute|]. split; [rewrite Ht; vm_compute; by repeat constructor|apply H].
Defined.

Lemma NV_MAKE_DEVICE_makedev_witness :
  0 <= 195 < 2 ^ 31 /\ 0 <= 255 < 2 ^ 31 /\ (NV_MAKE_DEVICE 195 255 = makedev 195 255 <-> 195 < 4096 /\ 255 < 2 ^ 19).
Proof. split; [lia|]. split; [lia|]. apply (NV_MAKE_DEVICE_makedev 195 255); lia. Defined.
