(* ===== verification/Chardev.v ===== *)
(** * The major number of a driver

    [nvidia_get_chardev_major] on the text the kernel gives for [/proc/devices]. *)
From stdpp Require Import pretty.
From S2P Require Import Prelude CString Scanf Effects Logic Errors Utils Types Files Devices Pci Modprobe.

(** ** A number that is printed is read back *)

Lemma pretty_char_digit n : (n < 10)%N -> digit_val 10 (pretty_N_char n) = Some (Z.of_N n).
Proof.
  intros Hn.
  assert (forallb (fun k => bool_decide (digit_val 10 (pretty_N_char k) = Some (Z.of_N k))) (map N.of_nat (seq 0 10)) = true) as H
    by (vm_compute; reflexivity).
  rewrite forallb_forall in H. specialize (H n). apply bool_decide_eq_true_1 in H; [done|].
  apply in_map_iff. exists (N.to_nat n). rewrite in_seq. lia.
Qed.

Lemma read_printed_go n s : exists d, ((0 < n)%N -> (0 < d)%nat) /\ forall acc k,
  read_digits 10 acc k (pretty_N_go n s) = read_digits 10 (acc * 10 ^ Z.of_nat d + Z.of_N n) (k + d)%nat s.
Proof.
  revert s. induction (N.lt_wf_0 n) as [n _ IH]. intros s. destruct (N.eq_dec n 0) as [->|Hn].
  - exists O. split; [lia|]. intros acc k. rewrite pretty_N_go_0, Nat.add_0_r. change (10 ^ Z.of_nat 0) with 1.
    by rewrite Z.mul_1_r, Z.add_0_r.
  - rewrite pretty_N_go_step by lia.
    destruct (IH (n / 10)%N ltac:(apply N.div_lt; lia) (String (pretty_N_char (n mod 10)) s)) as (d & _ & Hd).
    exists (S d). split; [lia|]. intros acc k. rewrite Hd. cbn [read_digits].
    rewrite pretty_char_digit by (apply N.mod_lt; lia). rewrite Nat.add_succ_r. f_equal.
    rewrite N2Z.inj_div, N2Z.inj_mod, Nat2Z.inj_succ, Z.pow_succ_r by lia.
    change (Z.of_N 10) with 10. pose proof (Z.div_mod (Z.of_N n) 10). lia.
Qed.

Lemma pretty_go_app n s t : pretty_N_go n s +:+ t = pretty_N_go n (s +:+ t).
Proof.
  revert s. induction (N.lt_wf_0 n) as [n _ IH]. intros s. destruct (N.eq_dec n 0) as [->|Hn]; [done|].
  rewrite !(pretty_N_go_step n) by lia. apply IH. apply N.div_lt; lia.
Qed.

Lemma read_printed z s : 0 <= z -> digit_val 10 (first_char s) = None ->
  exists d, (0 < d)%nat /\ read_digits 10 0 0 (print_Z z +:+ s) = (z, d, s).
Proof.
  intros Hz Hs. unfold print_Z. assert (forall acc k, read_digits 10 acc k s = (acc, k, s)) as He.
  { intros acc k. destruct s as [|c s]; [done|]. cbn [read_digits first_char] in *. by rewrite Hs. }
  destruct z as [|p|p]; [|change (pretty (Z.pos p)) with (pretty_N_go (N.pos p) "")|lia].
  - exists 1%nat. split; [lia|]. change (pretty 0 +:+ s) with (String "0" s). simpl. apply He.
  - rewrite pretty_go_app. destruct (read_printed_go (N.pos p) ("" +:+ s)) as (d & Hd & Hr). exists d.
    split; [apply Hd; lia|]. rewrite Hr. simpl. by rewrite He.
Qed.

Lemma digit_plain c d : digit_val 10 c = Some d ->
  is_space c = false /\ Ascii.eqb c "-" = false /\ Ascii.eqb c "+" = false.
Proof.
  assert (forallb (fun n => let c := ascii_of_nat n in
    match digit_val 10 c with
    | Some _ => negb (is_space c) && negb (Ascii.eqb c "-") && negb (Ascii.eqb c "+")
    | None => true
    end) (seq 0 256) = true) as H by (vm_compute; reflexivity).
  rewrite forallb_forall in H. specialize (H (nat_of_ascii c)). cbv zeta in H. rewrite ascii_nat_embedding in H.
  intros Hd. rewrite Hd in H. pose proof (nat_ascii_bounded c).
  destruct (is_space c), (Ascii.eqb c "-"), (Ascii.eqb c "+"); try done; discriminate H; apply in_seq; lia.
Qed.

Lemma print_Z_first z : 0 <= z -> exists c s d, print_Z z = String c s /\ digit_val 10 c = Some d.
Proof.
  intros Hz. destruct (read_printed z "" Hz eq_refl) as (n & Hn & Hr). rewrite string_app_empty_r in Hr.
  destruct (print_Z z) as [|c s]; [simplify_eq/=; lia|]. exists c, s. cbn [read_digits] in Hr.
  destruct (digit_val 10 c) as [d|]; [by exists d|]. simplify_eq.
Qed.

(** A printed number has digits only. *)
Lemma print_Z_digits z c : 0 <= z -> digit_val 10 c = None -> str_mem c (print_Z z) = false.
Proof.
  intros Hz Hc. assert (forall n s, str_mem c (pretty_N_go n s) = str_mem c s) as Hgo.
  { intros n. induction (N.lt_wf_0 n) as [n _ IH]. intros s. destruct (N.eq_dec n 0) as [->|Hn]; [done|].
    rewrite pretty_N_go_step by lia. rewrite IH by (apply N.div_lt; lia). cbn [str_mem].
    destruct (Ascii.eqb_spec c (pretty_N_char (n mod 10))) as [He|]; [|done].
    pose proof (pretty_char_digit (n mod 10) ltac:(apply N.mod_lt; lia)) as Hd. rewrite <- He in Hd. congruence. }
  unfold print_Z. destruct z as [|p|p]; [|apply Hgo|lia]. change (pretty 0) with "0". cbn [str_mem].
  by destruct (Ascii.eqb_spec c "0") as [-> |].
Qed.

Lemma scan_number_printed z s : 0 <= z -> digit_val 10 (first_char s) = None ->
  scan_number (print_Z z +:+ s) = Some (false, z, s).
Proof.
  intros Hz Hs. destruct (print_Z_first z Hz) as (c & r & d & Hp & Hd). destruct (digit_plain c d Hd) as (H1 & H2 & H3).
  destruct (read_printed z s Hz Hs) as (n & Hn & Hr). unfold scan_number.
  assert (skip_spaces (print_Z z +:+ s) = print_Z z +:+ s) as -> by (rewrite Hp; simpl; by rewrite H1).
  rewrite Hp in Hr |- *. simpl String.append in *. cbv beta iota. rewrite H2, H3, Hr. by destruct n; [lia|].
Qed.

(** ** Searching a text *)

Lemma strneq_refl s : strneq (String.length s) s s = true.
Proof. induction s as [|c s IH]; [done|]. simpl. by rewrite Ascii.eqb_refl. Qed.

(** What does not have the first character of the name is skipped. *)
Lemma strstr_skip a b c name : str_mem c a = false -> strstr (a +:+ b) (String c name) = strstr b (String c name).
Proof.
  induction a as [|x a IH]; [done|]. cbn [str_mem]. intros [Hx Ha]%orb_false_iff.
  change (String x a +:+ b) with (String x (a +:+ b)). cbn [strstr String.length strneq].
  by rewrite Ascii.eqb_sym, Hx, <- IH.
Qed.

Lemma strneq_snoc u c name : str_mem c name = false ->
  strneq (String.length name) (u +:+ String c "") name = strneq (String.length name) u name.
Proof.
  revert u. induction name as [|d name IH]; intros u; [by destruct u|]. cbn [str_mem]. intros [Hd Hn]%orb_false_iff.
  destruct u as [|x u]; simpl.
  - by rewrite Hd.
  - by rewrite IH.
Qed.

(** A character the name does not have changes nothing at the end. *)
Lemma strstr_snoc u c name : str_mem c name = false ->
  strstr (u +:+ String c "") name = (fun f => f +:+ String c "") <$> strstr u name.
Proof.
  intros Hc. induction u as [|x u IH].
  - pose proof (strneq_snoc "" c name Hc) as H. simpl String.append in *. cbn [strstr]. rewrite H.
    by destruct name.
  - pose proof (strneq_snoc (String x u) c name Hc) as H. simpl String.append in *. cbn [strstr]. rewrite H.
    rewrite IH. destruct (strneq (String.length name) (String x u) name); reflexivity.
Qed.

(** ** The lines of the kernel *)

Fixpoint blanks (n : nat) : string := match n with O => "" | S n => String " " (blanks n) end.

(** [%3d %s]: the padding, the major number and the name of a driver. *)
Record chardev := mkChardev { cd_pad : nat; cd_major : Z; cd_name : string }.
Definition dev_line (e : chardev) : string := blanks (cd_pad e) +:+ print_Z (cd_major e) +:+ " " +:+ text_line (cd_name e).

(** Names are looked for as a whole: no name of the list has it as a part. *)
Definition entry_ok (name : string) (e : chardev) : Prop :=
  0 <= cd_major e < 2 ^ 31 /\ c_string (cd_name e) /\ (cd_name e = name \/ strstr (cd_name e) name = None).

Definition driver_name (name : string) : Prop :=
  name <> "" /\ first_char name <> " "%char /\ digit_val 10 (first_char name) = None /\ str_mem "010" name = false.

Fixpoint major_of (entries : list chardev) (name : string) : Z :=
  match entries with
  | [] => -1
  | e :: entries => if str_equal (cd_name e) name then cd_major e else major_of entries name
  end.

(** *** One line *)

Lemma blanks_mem c n : c <> " "%char -> str_mem c (blanks n) = false.
Proof. intros Hc. induction n as [|n IH]; [done|]. cbn [blanks str_mem]. by destruct (Ascii.eqb_spec c " "). Qed.

Lemma skip_blanks n s : skip_spaces (blanks n +:+ s) = skip_spaces s.
Proof. by induction n. Qed.

(** Before the name there are blanks and digits. *)
Definition line_head (e : chardev) : string := blanks (cd_pad e) +:+ print_Z (cd_major e) +:+ " ".

Lemma dev_line_head e : dev_line e = line_head e +:+ text_line (cd_name e).
Proof. unfold dev_line, line_head. by rewrite !string_app_assoc. Qed.

Lemma line_head_mem e c : 0 <= cd_major e -> c <> " "%char -> digit_val 10 c = None -> str_mem c (line_head e) = false.
Proof.
  intros Hm Hc Hd. unfold line_head. rewrite !str_mem_app, blanks_mem, print_Z_digits by done.
  cbn [str_mem]. by destruct (Ascii.eqb_spec c " ").
Qed.

Lemma dev_line_c e : 0 <= cd_major e -> c_string (cd_name e) -> c_str (dev_line e) = dev_line e.
Proof.
  intros Hm Hc. apply c_str_id. rewrite dev_line_head. apply c_string_app. split; [by apply line_head_mem|].
  by apply c_string_app.
Qed.

Lemma scan_dev_line e : 0 <= cd_major e < 2 ^ 31 -> scan [DSpace; DInt] (dev_line e) = [cd_major e].
Proof.
  intros Hm. unfold dev_line. cbn [scan]. rewrite skip_blanks.
  destruct (print_Z_first (cd_major e) ltac:(lia)) as (c & r & d & Hp & Hd). destruct (digit_plain c d Hd) as (Hs & _ & _).
  set (tail := " " +:+ text_line (cd_name e)).
  replace (skip_spaces (print_Z (cd_major e) +:+ tail)) with (print_Z (cd_major e) +:+ tail)
    by (rewrite Hp; simpl; by rewrite Hs).
  unfold strtoimax. rewrite scan_number_printed by (done || lia). cbn [fst]. f_equal.
  unfold INTMAX_MIN, INTMAX_MAX. rewrite Z.min_r, Z.max_r by lia. apply sint_wrap_id; lia.
Qed.

Lemma names_driver_line e name : driver_name name -> entry_ok name e ->
  names_driver (dev_line e) name = str_equal (cd_name e) name.
Proof.
  intros (Hn & Hb & Hd & Hl) (Hm & _ & He). unfold names_driver, text_line. rewrite dev_line_head.
  destruct name as [|c name]; [done|]. cbn [first_char] in *.
  rewrite strstr_skip by (apply line_head_mem; done || lia). unfold text_line. rewrite strstr_snoc by done.
  unfold str_equal. destruct He as [He|He].
  - rewrite He, String.eqb_refl. assert (strstr (String c name) (String c name) = Some (String c name)) as ->
      by (cbn [strstr]; by rewrite strneq_refl).
    cbn [fmap option_fmap option_map]. by rewrite str_drop_app.
  - rewrite He. destruct (String.eqb_spec (cd_name e) (String c name)) as [Heq|]; [|done].
    rewrite Heq in He. cbn [strstr] in He. by rewrite strneq_refl in He.
Qed.

Lemma dev_line_not_blank e : 0 <= cd_major e -> str_equal (dev_line e) (String "010" "") = false.
Proof.
  intros Hm. apply String.eqb_neq. intros H. apply (f_equal String.length) in H. revert H.
  unfold dev_line, text_line. rewrite !string_length_app. destruct (print_Z_first _ Hm) as (c & r & d & -> & _). simpl. lia.
Qed.

(** *** All of them *)

Lemma find_major_lines entries rest name : driver_name name -> Forall (entry_ok name) entries ->
  find_major (map dev_line entries ++ text_line "" :: rest) name = major_of entries name.
Proof.
  intros Hn. induction 1 as [|e entries He _ IH]; [done|]. cbn [map app find_major major_of].
  destruct (He) as (Hm & Hc & _). rewrite dev_line_c by (done || lia).
  rewrite dev_line_not_blank, names_driver_line, scan_dev_line by (done || lia). by destruct (str_equal _ _).
Qed.

Lemma character_devices_after header rest :
  Forall (fun l => c_str l <> text_line "Character devices:") header ->
  character_devices (header ++ text_line "Character devices:" :: rest) = rest.
Proof.
  induction 1 as [|l header Hl _ IH]; [done|]. cbn [app character_devices]. unfold str_equal.
  by rewrite (proj2 (String.eqb_neq _ _) Hl).
Qed.

Lemma fgets_lines size f : Forall (fun l => l <> "" /\ (String.length l <= Z.to_nat (size - 1))%nat) (s_lines f) ->
  fgets_all size f = s_lines f.
Proof.
  intros H. unfold fgets_all. induction H as [|l ls [Hl Hs] _ IH]; [done|]. rewrite bind_cons, IH.
  destruct l as [|c l]; [done|]. cbn [String.length chunks]. rewrite str_take_all by done.
  assert (str_drop (Z.to_nat (size - 1)) (String c l) = "") as ->.
  { pose proof (str_drop_length (Z.to_nat (size - 1)) (String c l)) as H. destruct (str_drop _ _); [done|]. simpl in *. lia. }
  by destruct (String.length l).
Qed.

(** C31: on a list of devices as the kernel prints it, with lines that fit the
    buffer, a name that starts with neither a space nor a digit, and no entry whose
    name contains the name looked for without being equal to it ([entry_ok]: such an
    entry can be taken for it, [a_suffix_matches]), [nvidia_get_chardev_major] gives
    the major number of the first character device that has this name, and -1 when
    there is none: block devices and the lines before the section are not looked
    at. *)
Theorem nvidia_get_chardev_major_finds (o : env) header entries rest fp name (s : st) :
  o [] (EFopen NV_PROC_DEVICES_PATH "r") = SOk fp ->
  s_lines fp = header ++ text_line "Character devices:" :: map dev_line entries ++ text_line "" :: rest ->
  Forall (fun l => l <> "" /\ (String.length l <= 254)%nat) (s_lines fp) ->
  Forall (fun l => c_str l <> text_line "Character devices:") header ->
  driver_name name -> Forall (entry_ok name) entries ->
  snd (exec o (nvidia_get_chardev_major name) s) = Done (s, major_of entries name).
Proof.
  intros Ho Hl Hs Hh Hn He. unfold exec, nvidia_get_chardev_major, bind, call. cbn [pbind run]. rewrite Ho. cbn.
  rewrite fgets_lines by done. by rewrite Hl, character_devices_after, find_major_lines.
Qed.

Definition devices_host : env := fun _ e =>
  match e return resp e with
  | EFopen _ _ => SOk (mkStream (map text_line ["Character devices:"; "  1 mem"; "195 nvidia-frontend"; "237 nvidia-caps"; "";
                                                "Block devices:"; "259 nvidia-caps"]) false)
  | e => friendly e
  end.

Lemma nvidia_get_chardev_major_finds_witness :
  snd (exec devices_host (nvidia_get_chardev_major NV_CAPS_MODULE_NAME) init_st) = Done (init_st, 237).
Proof.
  apply (nvidia_get_chardev_major_finds devices_host []
    [mkChardev 2 1 "mem"; mkChardev 0 195 "nvidia-frontend"; mkChardev 0 237 "nvidia-caps"]
    (map text_line ["Block devices:"; "259 nvidia-caps"]) _ NV_CAPS_MODULE_NAME init_st eq_refl eq_refl).
  - repeat constructor; simpl; done || lia.
  - constructor.
  - by split_and!.
  - repeat constructor; simpl; try lia; by (left + right).
Defined.

(** The newline that is looked for excludes the names that are longer, not those
    that end like the name: the comment says partial matches are avoided. *)
Lemma a_suffix_matches : find_major [text_line "240 my-nvidia-caps"; text_line "237 nvidia-caps"; text_line ""] NV_CAPS_MODULE_NAME = 240.
Proof. reflexivity. Qed.
