(* ===== verification/Sysfs.v ===== *)
(** * The PCI devices, as sysfs shows them

    The functions of [Pci.v] on a kernel that has a list of devices: the search
    counts those that match; and what the functions for the bridges read, write
    and wait for. *)
From S2P Require Import Prelude CString Effects Logic Errors Utils Types Devices Pci Chardev.

(** ** A location that is printed is read back *)

(** The digits that are printed before [acc]: how many and their value. *)
Lemma read_hex_loop fuel z acc : 0 <= z < 16 ^ Z.of_nat fuel -> exists d,
  String.length (print_hex_loop fuel z acc) = (d + String.length acc)%nat /\
  (forall w, z < 16 ^ Z.of_nat w -> (d <= w)%nat) /\
  forall a k, read_digits 16 a k (print_hex_loop fuel z acc) = read_digits 16 (a * 16 ^ Z.of_nat d + z) (k + d)%nat acc.
Proof.
  revert z acc. induction fuel as [|fuel IH]; intros z acc Hz.
  - change (16 ^ Z.of_nat 0) with 1 in Hz. exists O. split_and!; [done|lia|]. intros a k.
    replace (a * _ + z) with a by (change (16 ^ Z.of_nat 0) with 1; lia). by rewrite Nat.add_0_r.
  - cbn [print_hex_loop]. destruct (Z.eqb_spec z 0) as [->|Hn].
    + exists O. split_and!; [done|lia|]. intros a k. replace (a * _ + 0) with a by (change (16 ^ Z.of_nat 0) with 1; lia).
      by rewrite Nat.add_0_r.
    + rewrite Nat2Z.inj_succ, Z.pow_succ_r in Hz by lia. pose proof (Z.div_mod z 16). pose proof (Z.mod_pos_bound z 16).
      destruct (IH (z / 16) (String (hex_digit (z mod 16)) acc)) as (d & Hl & Hw & Hr); [lia|].
      exists (S d). split_and!; [rewrite Hl; simpl; lia| |].
      * intros [|w] Hlt; [change (16 ^ Z.of_nat 0) with 1 in Hlt; lia|]. apply le_n_S, Hw.
        rewrite Nat2Z.inj_succ, Z.pow_succ_r in Hlt by lia. lia.
      * intros a k. rewrite Hr. cbn [read_digits].
        assert (digit_val 16 (hex_digit (z mod 16)) = Some (z mod 16)) as ->.
        { assert (forallb (fun d => bool_decide (digit_val 16 (hex_digit d) = Some d)) (seqZ 0 16) = true) as H' by (vm_compute; reflexivity).
          rewrite forallb_forall in H'. specialize (H' (z mod 16)). apply bool_decide_eq_true_1 in H'; [done|].
          apply list_elem_of_In, elem_of_seqZ. lia. }
        rewrite Nat.add_succ_r. f_equal. rewrite Nat2Z.inj_succ, Z.pow_succ_r by lia. nia.
Qed.

Lemma read_pad n k s : read_digits 16 0 k (pad0 n s) = read_digits 16 0 (k + n)%nat s.
Proof.
  revert k. induction n as [|n IH]; intros k; simpl; [by rewrite Nat.add_0_r|]. rewrite IH. f_equal. lia.
Qed.

Lemma pad_length n s : String.length (pad0 n s) = (n + String.length s)%nat.
Proof. induction n as [|n IH]; simpl; [done|]. by rewrite IH. Qed.

(** A number that fits fills its field. *)
Lemma print_hex_field (w : nat) z : (0 < w <= 8)%nat -> 0 <= z < 16 ^ Z.of_nat w ->
  String.length (print_hex w z) = w /\ read_digits 16 0 0 (print_hex w z) = (z, w, "").
Proof.
  intros Hw Hz. unfold print_hex.
  assert (16 ^ Z.of_nat w <= 16 ^ Z.of_nat 8) by (apply Z.pow_le_mono_r; lia).
  destruct (read_hex_loop 8 z "") as (d & Hl & Hd & Hr); [lia|]. specialize (Hd w ltac:(lia)).
  rewrite Nat.max_l by lia. rewrite pad_length, read_pad, Hr, Hl. cbn [String.length read_digits]. split; [lia|].
  repeat first [apply (f_equal2 pair)|reflexivity|lia].
Qed.

(** Everything that is read up to the end is a digit. *)
Lemma all_digits base a k s v n : read_digits base a k s = (v, n, "") ->
  forall c, str_mem c s = true -> digit_val base c <> None.
Proof.
  revert a k. induction s as [|x s IH]; intros a k H c; [done|]. cbn [read_digits str_mem] in *.
  destruct (digit_val base x) as [d|] eqn:E; [|done]. destruct (Ascii.eqb_spec c x) as [->|]; [by rewrite E|]. by eapply IH.
Qed.

Lemma hex_plain c : digit_val 16 c <> None ->
  is_space c = false /\ Ascii.eqb c "-" = false /\ Ascii.eqb c "+" = false /\ Ascii.eqb (tolower c) "x" = false.
Proof.
  assert (forallb (fun n => let c := ascii_of_nat n in
    match digit_val 16 c with
    | Some _ => negb (is_space c) && negb (Ascii.eqb c "-") && negb (Ascii.eqb c "+") && negb (Ascii.eqb (tolower c) "x")
    | None => true
    end) (seq 0 256) = true) as H by (vm_compute; reflexivity).
  rewrite forallb_forall in H. specialize (H (nat_of_ascii c)). cbv zeta in H. rewrite ascii_nat_embedding in H.
  intros Hd. destruct (digit_val 16 c); [|done]. pose proof (nat_ascii_bounded c).
  destruct (is_space c), (Ascii.eqb c "-"), (Ascii.eqb c "+"), (Ascii.eqb (tolower c) "x"); try done;
    discriminate H; apply in_seq; lia.
Qed.

(** [%<w>x] reads a field of [w] digits. *)
Lemma scan_hex_field w z p rest : (0 < w)%nat -> 0 <= z < 2 ^ 32 ->
  String.length p = w -> read_digits 16 0 0 p = (z, w, "") -> scan_hex w (p +:+ rest) = Some (z, rest).
Proof.
  intros Hw Hz Hl Hr. pose proof (all_digits _ _ _ _ _ _ Hr) as Hd.
  destruct p as [|c p]; [simpl in Hl; lia|].
  destruct (hex_plain c) as (H1 & H2 & H3 & H4); [apply Hd; simpl; by rewrite Ascii.eqb_refl|].
  unfold scan_hex. change (String c p +:+ rest) with (String c (p +:+ rest)). cbn [skip_spaces]. rewrite H1. cbv beta iota. rewrite H2, H3.
  change (String c (p +:+ rest)) with (String c p +:+ rest). rewrite <- Hl, str_take_app.
  assert (str_case_equal (str_take 2 (String c p)) "0x" = false) as ->.
  { unfold str_case_equal, strcaseeq. apply String.eqb_neq. intros He. destruct p as [|x p]; [done|]. cbn in He.
    destruct (hex_plain x) as (_ & _ & _ & Hx); [apply Hd; simpl; by rewrite Ascii.eqb_refl, orb_true_r|].
    injection He as _ He. destruct p; rewrite He in Hx; done. }
  rewrite Hr. destruct (Nat.eqb_spec w 0) as [|_]; [lia|]. cbn [andb negb]. rewrite Hl. cbn [String.length].
  rewrite Nat.sub_0_r, <- Hl, str_drop_app. unfold UINTMAX_MAX. rewrite (proj2 (Z.ltb_ge _ _)) by lia.
  by rewrite uint_wrap_id by lia.
Qed.

Lemma print_digit f : 0 <= f < 10 -> scan_digit (print_Z f) = Some (f, "").
Proof.
  intros Hf. assert (forallb (fun f => bool_decide (scan_digit (print_Z f) = Some (f, ""))) (seqZ 0 10) = true) as H by (vm_compute; reflexivity).
  rewrite forallb_forall in H. specialize (H f). apply bool_decide_eq_true_1 in H; [done|].
  apply list_elem_of_In, elem_of_seqZ. lia.
Qed.

(** A device: its domain has four digits. *)
Record location := mkLocation { lo_domain : Z; lo_bus : Z; lo_device : Z; lo_function : Z }.
Definition location_ok (l : location) : Prop :=
  0 <= lo_domain l < 2 ^ 16 /\ 0 <= lo_bus l < 2 ^ 8 /\ 0 <= lo_device l < 2 ^ 8 /\ 0 <= lo_function l < 10.
Definition location_name (l : location) : string := print_dbdf (lo_domain l) (lo_bus l) (lo_device l) (lo_function l).

Lemma scan_print_dbdf l : location_ok l ->
  scan_dbdf (location_name l) = [lo_domain l; lo_bus l; lo_device l; lo_function l].
Proof.
  intros (Hd & Hb & Hv & Hf). unfold location_name, print_dbdf, scan_dbdf.
  destruct (print_hex_field 4 (lo_domain l)) as [Hl Hr]; [lia|exact Hd|]. rewrite (scan_hex_field 4 (lo_domain l) _ _ ltac:(lia) ltac:(lia) Hl Hr).
  destruct (print_hex_field 2 (lo_bus l)) as [Hl2 Hr2]; [lia|exact Hb|]. cbn [skip_char mbind option_bind].
  change (skip_char ":" (":" +:+ ?s)) with (Some s). cbn [mbind option_bind]. rewrite (scan_hex_field 2 (lo_bus l) _ _ ltac:(lia) ltac:(lia) Hl2 Hr2).
  destruct (print_hex_field 2 (lo_device l)) as [Hl3 Hr3]; [lia|exact Hv|].
  change (skip_char ":" (":" +:+ ?s)) with (Some s). cbn [mbind option_bind]. rewrite (scan_hex_field 2 (lo_device l) _ _ ltac:(lia) ltac:(lia) Hl3 Hr3).
  change (skip_char "." ("." +:+ ?s)) with (Some s). cbn [mbind option_bind]. by rewrite print_digit.
Qed.

(** ** A host with devices *)

Section Host.
(** The configuration spaces, by path. *)
Variable config_at : string -> list Z.

Definition location_path (l : location) : string :=
  config_path (lo_domain l) (lo_bus l) (lo_device l) (lo_function l).

(** What is left to read behind the descriptor that is open. *)
Definition open_config := option (Z * list Z).

Definition sysfs_step (g : open_config) (ev : event) : open_config :=
  match ev with
  | Event (EOpen q _) (SOk fd) => Some (Z.of_N fd, config_at q)
  | Event (ERead fd _) (SOk bytes) => (fun '(n, more) => (n, drop (length bytes) more)) <$> g
  | Event (EClose _) _ => None
  | _ => g
  end.

(** The directory is there and lists [names]; the configuration spaces can be
    opened, and reading gives what comes next, as much as the kernel likes but
    something. *)
Definition sysfs_answers (names : list string) (g : open_config) (ev : event) : Prop :=
  match ev with
  | Event (EStat _) r => exists n, r = SOk n
  | Event (EOpendir _) r => r = SOk names
  | Event (EOpen _ _) r => exists fd, r = SOk fd
  | Event (ERead fd size) r =>
      forall more, g = Some (fd, more) -> exists bytes, r = SOk bytes /\ bytes = take (length bytes) more /\
        (0 <= size -> Z.of_nat (length bytes) <= size) /\ (more <> [] -> 0 < size -> bytes <> [])
  | _ => True
  end.

Variable names : list string.
Abbreviation in_sysfs := (relies sysfs_step (sysfs_answers names)).

Lemma bytes_kept l : Forall is_byte l -> map to_uint8 l = l.
Proof. induction 1 as [|b l Hb _ IH]; [done|]. simpl. rewrite IH. by rewrite uint_wrap_id. Qed.

Lemma read_cfg_loop_reads fuel fd size data more s :
  0 <= size <= Z.of_nat fuel -> size <= Z.of_nat (length more) -> Forall is_byte more ->
  in_sysfs (read_cfg_loop fuel fd size data) (Some (fd, more)) s
    (fun r _ _ => r = (0, data ++ take (Z.to_nat size) more)).
Proof.
  revert size data more s. induction fuel as [|fuel IH]; intros size data more s Hs Hl Hb.
  { simpl. replace size with 0 by lia. apply relies_ret. by rewrite app_nil_r. }
  cbn [read_cfg_loop]. destruct (Z.leb_spec size 0).
  { replace size with 0 by lia. apply relies_ret. by rewrite app_nil_r. }
  lstep. destruct (Hr more eq_refl) as (bytes & -> & Hp & Hn & Hne). lstep.
  destruct bytes as [|b bytes]; [exfalso; apply Hne; [destruct more; simpl in *; [lia|done]|lia|done]|].
  set (bs := b :: bytes) in *.
  change (match bs with [] => _ | _ => _ end) with
    (read_cfg_loop fuel fd (size - Z.of_nat (length (map to_uint8 (take (Z.to_nat size) bs))))
       (data ++ map to_uint8 (take (Z.to_nat size) bs))).
  rewrite (take_ge bs) by lia. rewrite bytes_kept by (rewrite Hp; by apply Forall_take).
  assert (length bs <= length more)%nat by (rewrite Hp at 1; rewrite length_take; lia).
  assert (0 < length bs)%nat by (simpl; lia).
  eapply relies_post; [apply (IH _ _ (drop (length bs) more)); [lia|rewrite length_drop; lia|by apply Forall_drop]|].
  intros r s' g' ->. f_equal. rewrite <- app_assoc. f_equal.
  rewrite Hp at 1. rewrite take_take_drop. f_equal. lia.
Qed.

(** The first bytes of a configuration space. *)
Lemma pci_sysfs_read_cfg_reads d b v f size g s :
  0 <= b < 2 ^ 16 -> 0 <= v < 2 ^ 16 -> 0 <= f < 2 ^ 16 ->
  0 <= size <= Z.of_nat (length (config_at (config_path d b v f))) -> Forall is_byte (config_at (config_path d b v f)) ->
  in_sysfs (pci_sysfs_read_cfg d b v f 0 size) g s
    (fun r _ _ => r = (0, take (Z.to_nat size) (config_at (config_path d b v f)))).
Proof.
  intros Hb Hv Hf Hs Hby. unfold pci_sysfs_read_cfg. rewrite !uint_wrap_id by lia.
  lstep. destruct Hr as [fd ->]. lstep. cbv beta iota. unfold seek. rewrite Z.eqb_refl. lstep. cbv beta iota.
  eapply relies_bind; [apply read_cfg_loop_reads; [lia|lia|done]|]. intros r s' g' ->.
  unfold close. lstep. lstep. lstep. lstep. lstep. by lstep.
Qed.

(** *** Counting *)

Definition with_matches (m : pci_id_match) (n : Z) : pci_id_match :=
  mkMatch (vendor_id m) (device_id m) (subvendor_id m) (subdevice_id m) (device_class m) (device_class_mask m) n.

(** The device has the header of a configuration space. *)
Definition device_ok (l : location) : Prop :=
  location_ok l /\ (48 <= length (config_at (location_path l)))%nat /\ Forall is_byte (config_at (location_path l)).

Definition device_matches (m : pci_id_match) (l : location) : bool := matches m (take 48 (config_at (location_path l))).

Definition count_matches (m : pci_id_match) (ls : list location) : Z := Z.of_nat (length (List.filter (device_matches m) ls)).

Definition is_entry (name : string) : bool := negb (str_equal name "." || str_equal name "..").

Lemma matches_with m n c : matches (with_matches m n) c = matches m c.
Proof. done. Qed.

Lemma wrap_step n k : to_uint16 (to_uint16 n + k) = to_uint16 (n + k).
Proof. apply Z.add_mod_idemp_l. lia. Qed.

Lemma match_entries_counts entries ls m n g s :
  List.filter is_entry entries = map location_name ls -> Forall device_ok ls ->
  in_sysfs (match_entries entries (with_matches m (to_uint16 n))) g s
    (fun r _ _ => r = (0, with_matches m (to_uint16 (n + count_matches m ls)))).
Proof.
  revert ls n g s. induction entries as [|name entries IH]; intros ls n g s Hl Hok.
  { destruct ls; [|done]. apply relies_ret. unfold count_matches. simpl. by rewrite Z.add_0_r. }
  cbn [match_entries]. cbn [List.filter] in Hl. unfold is_entry in Hl at 1.
  destruct (str_equal name "." || str_equal name "..") eqn:Ed; cbn [negb] in Hl; [by apply IH|].
  destruct ls as [|l ls]; [done|]. injection Hl as -> Hl. inversion Hok as [|? ? (Hlo & H48 & Hby) Hok']; subst.
  rewrite scan_print_dbdf by done. destruct Hlo as (_ & Hb & Hv & Hf).
  eapply relies_bind; [apply pci_sysfs_read_cfg_reads; [lia..| |]|].
  { split; [lia|]. unfold location_path in H48. lia. }
  { exact Hby. }
  intros r s' g' ->. change (Z.to_nat 48) with 48%nat. change (take 48 (config_at (config_path _ _ _ _))) with
    (take 48 (config_at (location_path l))).
  rewrite length_take, Nat.min_l by done. cbn [Nat.eqb Z.eqb andb]. cbv zeta.
  rewrite matches_with. change (matches m _) with (device_matches m l).
  unfold count_matches. cbn [List.filter]. destruct (device_matches m l) eqn:Em.
  - change (one_more (with_matches m (to_uint16 n))) with (with_matches m (to_uint16 (to_uint16 n + 1))).
    rewrite wrap_step. eapply relies_post; [by apply (IH ls)|]. intros r s2 g2 ->. unfold count_matches.
    cbn [length]. by replace (n + 1 + Z.of_nat (length (List.filter (device_matches m) ls)))
      with (n + Z.of_nat (S (length (List.filter (device_matches m) ls)))) by lia.
  - by apply (IH ls).
Qed.
End Host.

(** C30: on a host whose sysfs answers, however it cuts the reads, and where every
    entry of the directory of the devices is the address of a device with a domain
    of four digits ([location_ok]; a wider one makes the search undefined,
    [wide_domain_undefined]) and a configuration space of at least the 48 bytes
    that are read ([device_ok]), the search counts exactly the devices whose
    identifiers and class match, modulo [2^16], and reports no error. *)
Theorem pci_enum_match_id_counts (o : env) config_at names ls m (s : st) :
  List.filter is_entry names = map location_name ls -> Forall (device_ok config_at) ls ->
  always (sysfs_step config_at) (sysfs_answers names) None (fst (exec o (pci_enum_match_id m) s)) ->
  exists s', snd (exec o (pci_enum_match_id m) s) =
    Done (s', (0, with_matches m (to_uint16 (count_matches config_at m ls)))).
Proof.
  intros Hl Hok Ht.
  assert (relies (sysfs_step config_at) (sysfs_answers names) (pci_enum_match_id m) None s
    (fun r _ _ => r = (0, with_matches m (to_uint16 (count_matches config_at m ls))))) as Hm.
  { unfold pci_enum_match_id, find_matches. lstep. destruct Hr as [n ->]. lstep. cbv beta iota.
    lstep. cbn in Hr. subst r. lstep. cbv beta iota. by apply (match_entries_counts config_at names names ls m 0). }
  pose proof (relies_run _ _ o _ _ s _ Hm Ht) as Hr.
  pose proof (ensures_run o _ _ _ _ s (pci_enum_match_id_ens m)) as Hs.
  destruct (exec o _ s) as [t [[s' r]|w]]; cbn [fst snd] in *; [exists s'; by subst r|].
  subst w. by destruct Hs.
Qed.

(** *** A host *)

Definition sysfs_host (config_at : string -> list Z) (names : list string) : env := fun h e =>
  match e return resp e with
  | EOpendir _ => SOk names
  | ERead _ size =>
      match fold_left (sysfs_step config_at) h None with
      | Some (_, more) => SOk (take (Nat.min 7 (Z.to_nat size)) more)
      | None => SOk []
      end
  | e => friendly e
  end.

Lemma sysfs_host_answers config_at names h e :
  sysfs_answers names (fold_left (sysfs_step config_at) h None) (Event e (sysfs_host config_at names h e)).
Proof.
  destruct e; try done; cbn [sysfs_answers sysfs_host]; try by eexists. intros more Hm. rewrite Hm. eexists. split; [done|].
  rewrite length_take. split; [|split; [lia|]].
  - generalize (Nat.min 7 (Z.to_nat size)). intros k. destruct (Nat.le_gt_cases k (length more)); [by rewrite Nat.min_l by lia|].
    rewrite Nat.min_r by lia. by rewrite !take_ge by lia.
  - intros Hne Hs. destruct more as [|b more]; [done|]. by destruct (Nat.min 7 (Z.to_nat size)) eqn:E; [lia|].
Qed.

Lemma answers_always {G A} (step : G -> event -> G) rely (o : env) g h (p : prog A) :
  (forall h e, rely (fold_left step h g) (Event e (o h e))) -> always step rely (fold_left step h g) (fst (run o h p)).
Proof.
  intros Ho. revert h. induction p as [a|w|e k IH]; intros h; simpl; [done..|].
  specialize (IH (o h e) (h ++ [Event e (o h e)])). rewrite fold_left_app in IH. cbn [fold_left] in IH.
  destruct (run o _ _) as [t out]. by split; [apply Ho|].
Qed.

(** A display controller of NVIDIA, one of another vendor, and a sound device. *)
Definition header (vendor class : Z) : list Z :=
  [vendor mod 256; vendor / 256; 4; 28] ++ replicate 6 0 ++ [class mod 256; class / 256] ++ replicate 52 0.
Definition demo_config (path : string) : list Z :=
  if str_equal path "/sys/bus/pci/devices/0000:01:00.0/config" then header 4318 768
  else if str_equal path "/sys/bus/pci/devices/0000:01:00.1/config" then header 4318 1027
  else header 32902 770.
Definition demo_names : list string := ["."; "0000:00:02.0"; ".."; "0000:01:00.0"; "0000:01:00.1"].
Definition nvidia_displays : pci_id_match := mkMatch 4318 PCI_MATCH_ANY PCI_MATCH_ANY PCI_MATCH_ANY 768 PCI_BASE_CLASS_MASK 0.

#[export] Instance is_byte_dec b : Decision (is_byte b) := _.
#[export] Instance location_ok_dec l : Decision (location_ok l) := _.
#[export] Instance device_ok_dec config_at l : Decision (device_ok config_at l) := _.

Lemma pci_enum_match_id_counts_witness :
  exists s', snd (exec (sysfs_host demo_config demo_names) (pci_enum_match_id nvidia_displays) init_st) =
    Done (s', (0, with_matches nvidia_displays 1)).
Proof.
  apply (pci_enum_match_id_counts (sysfs_host demo_config demo_names) demo_config demo_names
    [mkLocation 0 0 2 0; mkLocation 0 1 0 0; mkLocation 0 1 0 1] nvidia_displays init_st).
  - by vm_compute.
  - apply (bool_decide_eq_true_1 _). by vm_compute.
  - apply (answers_always _ _ _ None []). apply sysfs_host_answers.
Defined.

(** The domain of a device behind a volume management controller has five digits,
    which [%04x] does not read: the location is used without being set. *)
Lemma wide_domain_undefined :
  snd (exec (sysfs_host demo_config ["10000:e1:00.0"]) (pci_enum_match_id nvidia_displays) init_st) =
    Halted (Undefined "find_matches: the location is not initialised").
Proof. reflexivity. Qed.

(** ** Bridges *)

(** *** The capability of PCI Express *)

Lemma le_val_byte l : (length l <= 1)%nat -> Forall is_byte l -> 0 <= le_val l < 256.
Proof.
  intros Hl Hb. destruct Hb as [|b l Hb Hl']; simpl; [lia|]. destruct l; [|simpl in Hl; lia]. unfold is_byte in Hb. simpl. lia.
Qed.

Lemma io_err_size err data size e : io_err err data size = None -> e = err -> e = 0 /\ (size <= length data)%nat.
Proof.
  unfold io_err. intros H ->. destruct (Z.eqb_spec err 0); [|done]. cbn [negb orb] in H.
  destruct (Nat.ltb_spec (length data) size); [done|]. done.
Qed.

Lemma aligned_offset off : 64 <= off < 256 -> 64 <= Z.land off 252 <= 252 /\ Z.land off 252 mod 4 = 0.
Proof.
  intros Ho. assert (forallb (fun off => (64 <=? Z.land off 252) && (Z.land off 252 <=? 252) && (Z.land off 252 mod 4 =? 0)) (seqZ 64 192) = true) as H
    by (vm_compute; reflexivity).
  rewrite forallb_forall in H. specialize (H off ltac:(apply list_elem_of_In, elem_of_seqZ; lia)). lia.
Qed.

(** An offset that is found is that of a capability: after the header, aligned, in
    the first 256 bytes. *)
Definition cap_offset (r : Z * option Z) : Prop :=
  match snd r with Some off => fst r = 0 /\ 64 <= off <= 252 /\ off mod 4 = 0 | None => True end.

Lemma find_caps_loop_ens ttl d b v f off err :
  ensures pci_read no_stop (find_caps_loop ttl d b v f off err) cap_offset.
Proof.
  revert off err. induction ttl as [|ttl IH]; intros off err; cbn [find_caps_loop]; [by apply ensures_ret|].
  eapply ensures_bind; [apply pci_sysfs_read_cfg_ens; lia|]. intros [e data] [Hl Hb]. cbn [fst snd] in *.
  destruct (io_err e data 1); [by apply ensures_ret|]. cbv zeta.
  pose proof (le_val_byte data ltac:(lia) Hb) as Hv.
  destruct ((le_val data <? PCI_STD_HEADER_SIZEOF) || (le_val data =? 255)) eqn:E; [by apply ensures_ret|].
  apply orb_false_iff in E as [E _]. apply Z.ltb_ge in E. unfold PCI_STD_HEADER_SIZEOF in E.
  eapply ensures_bind; [apply pci_sysfs_read_cfg_ens; lia|]. intros [e2 data2] _. cbn [fst snd].
  destruct (io_err e2 data2 1); [by apply ensures_ret|].
  destruct (le_val data2 =? PCI_CAP_ID_EXP); [apply ensures_ret; split; [done|]; apply aligned_offset; lia|].
  destruct (le_val data2 =? 255); [by apply ensures_ret|]. apply IH.
Qed.

(** *** Waiting for the link *)

Section Surely.
Context {G : Type} (step : G -> event -> G) (rely : G -> event -> Prop).

(** The run returns when the answers satisfy [rely]. *)
Definition surely {A} (m : M A) (g : G) (R : A -> G -> Prop) : Prop :=
  forall s, wp (m s) (fun t o => always step rely g t ->
    match o with Done (_, a) => R a (fold_left step t g) | Halted _ => False end).

Lemma surely_bind {A B} (m : M A) (k : A -> M B) g R1 (R2 : B -> G -> Prop) :
  surely m g R1 -> (forall a g', R1 a g' -> surely (k a) g' R2) -> surely (bind m k) g R2.
Proof.
  intros Hm Hk s. apply wp_bind. eapply wp_mono; [|apply Hm]. intros t [[s' a]|w] Ho.
  - apply (wp_mono _ (fun t' o' => always step rely g t -> always step rely (fold_left step t g) t' ->
      match o' with Done (_, b) => R2 b (fold_left step t' (fold_left step t g)) | Halted _ => False end)).
    { intros t' o' Ho' Ht. apply always_app in Ht as [Ht Ht']. specialize (Ho' Ht Ht').
      destruct o' as [[s2 b]|w]; [|done]. by rewrite fold_left_app. }
    apply wp_impl. intros Ht. by apply Hk, Ho.
  - intros Ht. by apply Ho.
Qed.

Lemma surely_ret {A} (a : A) g (R : A -> G -> Prop) : R a g -> surely (ret a) g R.
Proof. intros HR s _. exact HR. Qed.

Lemma surely_bind_call {B} (e : sys) (k : resp e -> M B) g R :
  (forall r, rely g (Event e r) -> surely (k r) (step g (Event e r)) R) -> surely (bind (call e) k) g R.
Proof.
  intros Hk. eapply surely_bind with (R1 := fun r g' => rely g (Event e r) /\ g' = step g (Event e r)).
  - intros s r [Hr _]. done.
  - intros r g' [Hr ->]. by apply Hk.
Qed.

Lemma surely_ensures {A} P (m : M A) Rm g (R : A -> G -> Prop) :
  ensures P no_stop m Rm -> (forall ev, P ev -> forall g, step g ev = g) -> (forall a, Rm a -> R a g) -> surely m g R.
Proof.
  intros Hm HP HR s. eapply wp_mono; [|apply Hm]. intros t [[s' a]|w] [Ht Ho] _; [|done].
  rewrite (fold_ignored step P) by done. by apply HR.
Qed.
End Surely.

Definition usec (t : Z * Z) : Z := fst t * 1000000 + snd t.

Lemma waited_long start curr : 0 <= snd start < 1000000 -> 0 <= snd curr < 1000000 ->
  PCI_LINK_WAIT_US <= usec curr - usec start -> waited (timersub curr start) = true.
Proof.
  unfold waited, timersub, PCI_LINK_WAIT_US, usec. intros Hs Hc Hw. apply orb_true_iff.
  destruct (Z.ltb_spec (snd curr - snd start) 0); cbn [fst snd]; rewrite Z.ltb_lt, Z.leb_le; lia.
Qed.

Section Clock.
Variables (start : Z * Z) (tick : Z).

(** How often the clock was read. *)
Definition clock_step (n : Z) (ev : event) : Z := match ev with Event EGettimeofday _ => n + 1 | _ => n end.
(** It advances by [tick] microseconds at least every time. *)
Definition clock_runs (n : Z) (ev : event) : Prop :=
  match ev with Event EGettimeofday t => 0 <= snd t < 1000000 /\ usec start + (n + 1) * tick <= usec t | _ => True end.

Lemma wait_link_ends fuel d b v f reg n :
  0 <= snd start < 1000000 -> 0 < Z.of_nat fuel -> PCI_LINK_WAIT_US <= (n + Z.of_nat fuel) * tick ->
  surely clock_step clock_runs (wait_link fuel d b v f reg start) n (fun _ _ => True).
Proof.
  intros Hs. revert n. induction fuel as [|fuel IH]; intros n Hf Hn; [lia|]. cbn [wait_link].
  eapply surely_bind.
  { eapply surely_ensures with (R := fun _ g => g = n); [apply pci_sysfs_read_cfg_ens; lia| |done].
    intros ev Hev g. by destruct ev as [[] r]. }
  intros q n' ->. destruct (io_err _ _ _); [by apply surely_ret|]. destruct (negb _); [by apply surely_ret|].
  apply surely_bind_call. intros t [Ht1 Ht2]. destruct (waited (timersub t start)) eqn:E; [by apply surely_ret|].
  destruct fuel as [|fuel].
  - rewrite waited_long in E by (done || lia). done.
  - change (clock_step n _) with (n + 1). apply IH; lia.
Qed.
End Clock.

(** The offset [pci_find_pcie_caps] finds is that of a capability, after the
    standard header and in the first 256 bytes, aligned to four, and comes without
    an error; the search always returns, and only reads. *)
Lemma pci_find_pcie_caps_bounds (o : env) d b v f (s : st) :
  exists s' r, snd (exec o (pci_find_pcie_caps d b v f) s) = Done (s', r) /\ cap_offset r /\
    Forall pci_read (fst (exec o (pci_find_pcie_caps d b v f) s)).
Proof.
  pose proof (ensures_run o _ _ _ _ s (find_caps_loop_ens PCI_CAP_TTL_MAX d b v f PCI_CAPABILITY_LIST ENXIO)) as Hr.
  unfold pci_find_pcie_caps. destruct (exec o _ s) as [t [[s' r]|w]]; [|by destruct Hr]. exists s', r. by destruct Hr.
Qed.

(** C35: the wait for the link of a bridge ends: when the clock advances by [tick]
    microseconds at least between two looks at it, as many turns as fit in 200
    milliseconds and one more are enough, whatever the bridge answers. *)
Theorem wait_link_terminates (o : env) start tick fuel d b v f reg (s : st) :
  0 <= snd start < 1000000 -> 0 < tick -> PCI_LINK_WAIT_US / tick < Z.of_nat fuel ->
  always clock_step (clock_runs start tick) 0 (fst (exec o (wait_link fuel d b v f reg start) s)) ->
  exists s' err, snd (exec o (wait_link fuel d b v f reg start) s) = Done (s', err).
Proof.
  intros Hs Ht Hf Ha. unfold PCI_LINK_WAIT_US in Hf.
  assert (PCI_LINK_WAIT_US <= (0 + Z.of_nat fuel) * tick) as Hw.
  { unfold PCI_LINK_WAIT_US. pose proof (Z.div_mod 200000 tick). pose proof (Z.mod_pos_bound 200000 tick). nia. }
  assert (0 <= 200000 / tick) by (apply Z.div_pos; lia).
  pose proof (wp_run _ _ o [] (wait_link_ends start tick fuel d b v f reg 0 Hs ltac:(lia) Hw s)) as Hr.
  unfold exec in *. destruct (run o [] _) as [t [[s' e]|w]]; [by exists s', e|]. by destruct (Hr Ha).
Qed.

(** A clock of one millisecond, and a bridge whose link stays down. *)
Definition slow_bridge : env := fun h e =>
  match e return resp e with
  | EGettimeofday => (0, 1000 * (1 + Z.of_nat (length (List.filter (fun ev => match ev_call ev with EGettimeofday => true | _ => false end) h))))
  | ERead _ size => SOk (replicate (Z.to_nat size) 0)
  | e => friendly e
  end.

Lemma wait_link_terminates_witness :
  exists s', snd (exec slow_bridge (wait_link 201 0 0 28 0 210 (0, 0)) init_st) = Done (s', ETIME).
Proof.
  destruct (wait_link_terminates slow_bridge (0, 0) 1000 201 0 0 28 0 210 init_st) as (s' & err & H).
  - simpl. lia.
  - lia.
  - by vm_compute.
  - vm_compute. repeat split; intros H; discriminate H.
  - exists s'. assert (snd (exec slow_bridge (wait_link 201 0 0 28 0 210 (0, 0)) init_st) =
      Done (match snd (exec slow_bridge (wait_link 201 0 0 28 0 210 (0, 0)) init_st) with Done (s, _) => s | _ => init_st end, ETIME)) as He
      by (vm_compute; reflexivity).
    rewrite H in He |- *. congruence.
Defined.

(** A bridge without the capability is not refused: the search reports no error
    and no offset, and the link control register is looked for at 16 bytes from 0,
    which is the first base address of the device. *)
Definition no_capability : env := fun _ e =>
  match e return resp e with ERead _ size => SOk (replicate (Z.to_nat size) 0) | e => friendly e end.

Lemma base_address_rewritten :
  let t := fst (exec no_capability (pci_bridge_link_set_enable 1 0 0 28 0 false) init_st) in
  let reg := String "016" (String "000" EmptyString) in
  (exists before after, t = before ++ [Event (ELseek 3 16) (SOk tt); Event (EWrite 3 reg) (SOk 2)] ++ after) /\
  exists s, snd (exec no_capability (pci_bridge_link_set_enable 1 0 0 28 0 false) init_st) = Done (s, 0).
Proof.
  split; [|eexists; vm_compute; reflexivity].
  exists (take 9 (fst (exec no_capability (pci_bridge_link_set_enable 1 0 0 28 0 false) init_st))).
  eexists. vm_compute. reflexivity.
Qed.
