(* ===== verification/Ldcache.v ===== *)
(** * The cache of the dynamic linker

    [src/src/ldcache.c]: the cache file is mapped and its entries read in place.
    The mapping is a list of bytes; reading outside of it is undefined. *)
From S2P Require Import Prelude CString Effects Logic Errors Utils Paths Files.

(** ** Reading the mapping *)

Fixpoint le_bytes (l : list Z) : Z :=
  match l with [] => 0 | b :: l' => b + 256 * le_bytes l' end.

(** The [n] bytes at offset [off]. *)
Definition slice (m : list Z) (off n : Z) : option (list Z) :=
  if (0 <=? off) && (off + n <=? Z.of_nat (length m))
  then Some (take (Z.to_nat n) (drop (Z.to_nat off) m)) else None.

Definition rd32 (m : list Z) (off : Z) : option Z := le_bytes <$> slice m off 4.

Fixpoint cstr_of (l : list Z) : option string :=
  match l with
  | [] => None
  | b :: l' => if b =? 0 then Some EmptyString
               else String (ascii_of_nat (Z.to_nat b)) <$> cstr_of l'
  end.

(** The C string at offset [off]. *)
Definition rdstr (m : list Z) (off : Z) : option string :=
  if (0 <=? off) && (off <=? Z.of_nat (length m)) then cstr_of (drop (Z.to_nat off) m) else None.

Fixpoint bytes_of (s : string) : list Z :=
  match s with EmptyString => [] | String c s' => Z.of_nat (nat_of_ascii c) :: bytes_of s' end.

Definition MAGIC_LIBC5 : string := "ld.so-1.7.0".
Definition MAGIC_LIBC6 : string := "glibc-ld.so.cache".
Definition MAGIC_VERSION : string := "1.1".

(** [!strncmp(m + off, s, strlen(s))] *)
Definition bytes_match (m : list Z) (off : Z) (s : string) : bool :=
  bool_decide (slice m off (strlen s) = Some (bytes_of s)).

(** Sizes and offsets of the packed structures on a 64-bit machine. *)
Definition sizeof_header_libc5 : Z := 16.
Definition offset_nlibs5 : Z := 12.
Definition sizeof_entry_libc5 : Z := 12.
Definition sizeof_header_libc6 : Z := 48.
Definition alignof_header_libc6 : Z := 8.
Definition offset_nlibs6 : Z := 20.
Definition sizeof_entry_libc6 : Z := 24.

(** [struct ldcache]: the path, the mapping, and [ptr] as an offset in it. *)
Record ldcache := mkLdcache { ld_path : string; ld_map : list Z; ld_ptr : Z }.

(** The offset of the libc6 header, behind the entries of an old header. *)
Definition header_offset (m : list Z) : Z :=
  if bytes_match m 0 MAGIC_LIBC5 then
    let ptr := sizeof_header_libc5 + sizeof_entry_libc5 * default 0 (rd32 m offset_nlibs5) in
    ptr + Z.land (- ptr) (alignof_header_libc6 - 1)
  else 0.

Definition ldcache_open (path : string) : M (option ldcache) :=
  let? m := file_map path else ret None in
  let size := Z.of_nat (length m) in
  let fail :=
    do error_setx ("unsupported file format: " +:+ path) in
    do null_err (file_unmap path) in
    ret None in
  if size <=? sizeof_header_libc5 then fail
  else
    let ptr := header_offset m in
    if size - ptr <=? sizeof_header_libc6 then fail
    else if negb (bytes_match m ptr MAGIC_LIBC6)
            || negb (bytes_match m (ptr + strlen MAGIC_LIBC6) MAGIC_VERSION) then fail
    else ret (Some (mkLdcache path m ptr)).

Definition ldcache_close (ctx : ldcache) : M (option unit) := file_unmap (ld_path ctx).

(** ** Entries *)

Definition LD_ELF : Z := 1.
Definition LD_ARCH_MASK : Z := 65280.
Definition LD_I386_LIB32 : Z := 0.
Definition LD_X8664_LIB64 : Z := 768.

Record entry := mkEntry { e_flags : Z; e_key : Z; e_value : Z }.

(** [h->libs[i]] *)
Definition read_entry (ctx : ldcache) (i : Z) : option entry :=
  let off := ld_ptr ctx + sizeof_header_libc6 + sizeof_entry_libc6 * i in
  match rd32 (ld_map ctx) off, rd32 (ld_map ctx) (off + 4), rd32 (ld_map ctx) (off + 8) with
  | Some f, Some k, Some v => Some (mkEntry (to_int32 f) k v)
  | _, _, _ => None
  end.

(** What the selection callback is given: [root], the path chosen so far and the
    candidate; [None] is an error. *)
Definition select_fn : Type := string -> option string -> string -> M (option bool).

Section Resolve.
Variables (ctx : ldcache) (arch : Z) (root : string) (libs : list string) (select : select_fn).

(** The loop over the libraries that are wanted, from the [j]-th on. *)
Fixpoint resolve_libs (key : string) (value : option string) (j : nat) (ls : list string) (paths : list (option string))
  : M (option (list (option string))) :=
  match ls with
  | [] => ret (Some paths)
  | lib :: ls' =>
      if negb (str_has_prefix key lib) then resolve_libs key value (S j) ls' paths
      else
        let? path := match value with
                     | Some value => path_resolve root value
                     | None => halt (Undefined "ldcache: string outside of the mapping")
                     end else ret None in
        let cur := mjoin (paths !! j) in
        if match cur with Some p => str_equal p path | None => false end
        then resolve_libs key value (S j) ls' paths
        else
          let? override := select root cur path else ret None in
          if override : bool then
            let? copy := xstrdup path else ret None in
            ret (Some (<[j := Some copy]> paths))
          else ret (Some paths)
  end.

Definition resolve_entry (paths : list (option string)) (i : Z) : M (option (list (option string))) :=
  match read_entry ctx i with
  | None => halt (Undefined "ldcache: entry outside of the mapping")
  | Some e =>
      if (Z.land (e_flags e) LD_ELF =? 0) || negb (Z.land (e_flags e) LD_ARCH_MASK =? arch)
      then ret (Some paths)
      else
        match rdstr (ld_map ctx) (ld_ptr ctx + e_key e) with
        | Some key =>
            resolve_libs key (rdstr (ld_map ctx) (ld_ptr ctx + e_value e)) 0 libs paths
        | None => halt (Undefined "ldcache: string outside of the mapping")
        end
  end.

Definition ldcache_resolve : M (option (list (option string))) :=
  match rd32 (ld_map ctx) (ld_ptr ctx + offset_nlibs6) with
  | None => halt (Undefined "ldcache: header outside of the mapping")
  | Some nlibs => foldM resolve_entry (replicate (length libs) None) (seqZ 0 nlibs)
  end.
End Resolve.

(** ** A cache as [ldconfig] writes it *)

Definition le32 (z : Z) : list Z :=
  [z mod 256; z / 256 mod 256; z / 65536 mod 256; z / 16777216 mod 256].

(** Flags, name and path of a library. *)
Abbreviation lib_entry := (Z * string * string)%type.

Definition entry_bytes (f k v : Z) : list Z :=
  le32 (to_uint32 f) ++ le32 k ++ le32 v ++ le32 0 ++ le32 0 ++ le32 0.

Fixpoint enc_entries (off : Z) (es : list lib_entry) : list Z :=
  match es with
  | [] => []
  | (f, k, v) :: es' =>
      entry_bytes f off (off + strlen k + 1) ++ enc_entries (off + strlen k + strlen v + 2) es'
  end.

Fixpoint enc_strings (es : list lib_entry) : list Z :=
  match es with
  | [] => []
  | (_, k, v) :: es' => bytes_of k ++ [0] ++ bytes_of v ++ [0] ++ enc_strings es'
  end.

Definition enc_header (n : Z) : list Z :=
  bytes_of MAGIC_LIBC6 ++ bytes_of MAGIC_VERSION ++ le32 n ++ le32 0 ++ replicate 20 0.

Definition encode (es : list lib_entry) : list Z :=
  let n := Z.of_nat (length es) in
  enc_header n ++ enc_entries (sizeof_header_libc6 + sizeof_entry_libc6 * n) es ++ enc_strings es.

(** *** Lemmas *)

Lemma le_bytes_le32 z : 0 <= z < 2 ^ 32 -> le_bytes (le32 z) = z.
Proof. intros H. unfold le_bytes, le32. pose proof Z.div_mod. Z.to_euclidean_division_equations. lia. Qed.

Lemma slice_app (a b c : list Z) :
  slice (a ++ b ++ c) (Z.of_nat (length a)) (Z.of_nat (length b)) = Some b.
Proof.
  unfold slice. rewrite !length_app.
  rewrite (proj2 (Z.leb_le 0 _)), (proj2 (Z.leb_le _ _)) by lia. simpl.
  rewrite !Nat2Z.id, drop_app_length, take_app_length. done.
Qed.

Lemma rd32_app (a c : list Z) z :
  0 <= z < 2 ^ 32 -> rd32 (a ++ le32 z ++ c) (Z.of_nat (length a)) = Some z.
Proof.
  intros Hz. unfold rd32. change 4 with (Z.of_nat (length (le32 z))). rewrite slice_app.
  change (Some (le_bytes (le32 z)) = Some z). by rewrite le_bytes_le32.
Qed.

Lemma cstr_of_bytes (s : string) (c : list Z) : c_string s -> cstr_of (bytes_of s ++ 0 :: c) = Some s.
Proof.
  induction s as [|a s IH]; [done|]. unfold c_string. simpl. intros [Ha Hs]%orb_false_elim.
  destruct (Z.eqb_spec (Z.of_nat (nat_of_ascii a)) 0) as [E|_].
  - exfalso. assert (a = NUL) as ->; [|done]. rewrite <- (ascii_nat_embedding a).
    replace (nat_of_ascii a) with O by lia. done.
  - rewrite IH by done. simpl. by rewrite Nat2Z.id, ascii_nat_embedding.
Qed.

Lemma rdstr_app (a c : list Z) (s : string) :
  c_string s -> rdstr (a ++ bytes_of s ++ 0 :: c) (Z.of_nat (length a)) = Some s.
Proof.
  intros Hs. unfold rdstr. rewrite length_app.
  rewrite (proj2 (Z.leb_le 0 _)), (proj2 (Z.leb_le _ _)) by lia. simpl.
  rewrite Nat2Z.id, drop_app_length. by apply cstr_of_bytes.
Qed.

Lemma length_bytes_of (s : string) : Z.of_nat (length (bytes_of s)) = strlen s.
Proof. unfold strlen. f_equal. induction s as [|c s IH]; simpl; [done|by rewrite IH]. Qed.

Lemma length_enc_entries off es : Z.of_nat (length (enc_entries off es)) = sizeof_entry_libc6 * Z.of_nat (length es).
Proof.
  revert off. induction es as [|[[f k] v] es IH]; intros off; [done|].
  cbn [enc_entries]. rewrite length_app. change (length (entry_bytes _ _ _)) with 24%nat.
  rewrite Nat2Z.inj_add, IH. unfold sizeof_entry_libc6. simpl length. lia.
Qed.

Lemma enc_strings_app es1 es2 : enc_strings (es1 ++ es2) = enc_strings es1 ++ enc_strings es2.
Proof.
  induction es1 as [|[[f k] v] es1 IH]; [done|]. simpl. rewrite IH, <- !app_assoc. simpl. by rewrite <- app_assoc.
Qed.

Lemma enc_entries_app off es1 es2 :
  enc_entries off (es1 ++ es2) =
  enc_entries off es1 ++ enc_entries (off + Z.of_nat (length (enc_strings es1))) es2.
Proof.
  revert off. induction es1 as [|[[f k] v] es1 IH]; intros off; [simpl; by rewrite Z.add_0_r|].
  cbn [enc_entries app enc_strings]. rewrite IH, <- app_assoc. do 3 f_equal.
  rewrite !length_app. simpl length. rewrite !length_app. simpl length.
  pose proof (length_bytes_of k). pose proof (length_bytes_of v). lia.
Qed.

Lemma length_enc_header n : length (enc_header n) = 48%nat.
Proof. reflexivity. Qed.

(** The libraries of a cache that can be written. *)
Definition wf_entries (es : list lib_entry) : Prop :=
  Z.of_nat (length (encode es)) < 2 ^ 32 /\
  Forall (fun '(f, k, v) => - 2 ^ 31 <= f < 2 ^ 31 /\ c_string k /\ c_string v) es.

Lemma to_int32_uint32 f : - 2 ^ 31 <= f < 2 ^ 31 -> to_int32 (to_uint32 f) = f.
Proof.
  intros Hf. unfold sint_wrap, uint_wrap. change (32 - 1) with 31.
  rewrite Zplus_mod_idemp_l. rewrite Z.mod_small by lia. lia.
Qed.

Lemma read_entry_at (path : string) (a c : list Z) (ptr i f k v : Z) :
  - 2 ^ 31 <= f < 2 ^ 31 -> 0 <= k < 2 ^ 32 -> 0 <= v < 2 ^ 32 ->
  ptr + sizeof_header_libc6 + sizeof_entry_libc6 * i = Z.of_nat (length a) ->
  read_entry (mkLdcache path (a ++ entry_bytes f k v ++ c) ptr) i = Some (mkEntry f k v).
Proof.
  intros Hf Hk Hv Hoff. unfold read_entry. cbn [ld_map ld_ptr]. rewrite Hoff. unfold entry_bytes.
  rewrite <- !app_assoc. rewrite rd32_app by (apply uint_wrap_range; lia).
  rewrite (app_assoc a (le32 (to_uint32 f))).
  replace (Z.of_nat (length a) + 4) with (Z.of_nat (length (a ++ le32 (to_uint32 f))))
    by (rewrite length_app; simpl; lia).
  rewrite rd32_app by done.
  rewrite (app_assoc (a ++ le32 (to_uint32 f)) (le32 k)).
  replace (Z.of_nat (length a) + 8) with (Z.of_nat (length ((a ++ le32 (to_uint32 f)) ++ le32 k)))
    by (rewrite !length_app; simpl; lia).
  rewrite rd32_app by done. by rewrite to_int32_uint32.
Qed.

Section Encoded.
Variables (es1 es2 : list lib_entry) (f : Z) (k v : string).
Let es := es1 ++ (f, k, v) :: es2.
Let base := sizeof_header_libc6 + sizeof_entry_libc6 * Z.of_nat (length es).
Let koff := base + Z.of_nat (length (enc_strings es1)).
Let voff := koff + strlen k + 1.

Lemma encode_entry :
  encode es = (enc_header (Z.of_nat (length es)) ++ enc_entries base es1) ++ entry_bytes f koff voff ++
              (enc_entries (koff + strlen k + strlen v + 2) es2 ++ enc_strings es).
Proof.
  unfold encode. fold base. unfold es at 2. rewrite enc_entries_app. fold koff.
  cbn [enc_entries]. fold voff. by rewrite <- !app_assoc.
Qed.

Let strings_start := enc_header (Z.of_nat (length es)) ++ enc_entries base es ++ enc_strings es1.

Lemma encode_key : encode es = strings_start ++ bytes_of k ++ 0 :: (bytes_of v ++ 0 :: enc_strings es2).
Proof.
  unfold encode, strings_start. fold base. unfold es at 3. rewrite enc_strings_app. cbn [enc_strings].
  by rewrite <- !app_assoc.
Qed.

Lemma encode_value :
  encode es = (strings_start ++ bytes_of k ++ [0]) ++ bytes_of v ++ 0 :: enc_strings es2.
Proof. rewrite encode_key, <- !app_assoc. done. Qed.

Lemma length_strings_start : Z.of_nat (length strings_start) = koff.
Proof.
  unfold strings_start. rewrite !length_app, length_enc_header, !Nat2Z.inj_add, length_enc_entries.
  unfold koff, base, sizeof_header_libc6. lia.
Qed.

Hypothesis Hwf : wf_entries es.

Lemma encode_bounds : 0 <= koff < 2 ^ 32 /\ 0 <= voff < 2 ^ 32 /\ - 2 ^ 31 <= f < 2 ^ 31 /\ c_string k /\ c_string v.
Proof.
  destruct Hwf as [Hlen Hall]. unfold es in Hall. apply Forall_app in Hall as [_ Hall].
  apply Forall_cons_1 in Hall as [(Hf & Hk & Hv) _].
  pose proof length_strings_start as Hs. rewrite encode_value in Hlen. clear Hwf.
  clearbody strings_start. rewrite !length_app in Hlen. cbn [length] in Hlen.
  pose proof (length_bytes_of k). pose proof (length_bytes_of v).
  pose proof (strlen_nonneg k). unfold voff. split_and!; try done; lia.
Qed.

Lemma read_encoded (path : string) :
  read_entry (mkLdcache path (encode es) 0) (Z.of_nat (length es1)) = Some (mkEntry f koff voff) /\
  rdstr (encode es) (0 + koff) = Some k /\ rdstr (encode es) (0 + voff) = Some v.
Proof.
  destruct encode_bounds as (H1 & H2 & H3 & H4 & H5). split_and!.
  - rewrite encode_entry. apply read_entry_at; [done..|].
    rewrite length_app, length_enc_header, Nat2Z.inj_add, length_enc_entries.
    unfold sizeof_header_libc6, sizeof_entry_libc6. lia.
  - rewrite encode_key, <- length_strings_start. by apply rdstr_app.
  - rewrite encode_value. replace (0 + voff) with (Z.of_nat (length (strings_start ++ bytes_of k ++ [0]))).
    { by apply rdstr_app. }
    rewrite !length_app, !Nat2Z.inj_add, length_strings_start, length_bytes_of. unfold voff. simpl. lia.
Qed.
End Encoded.

Lemma encode_header es :
  wf_entries es ->
  header_offset (encode es) = 0 /\ bytes_match (encode es) 0 MAGIC_LIBC6 = true /\
  bytes_match (encode es) (0 + strlen MAGIC_LIBC6) MAGIC_VERSION = true /\
  rd32 (encode es) (0 + offset_nlibs6) = Some (Z.of_nat (length es)) /\
  sizeof_header_libc6 <= Z.of_nat (length (encode es)).
Proof.
  intros [Hlen _]. unfold encode in *. set (n := Z.of_nat (length es)) in *.
  set (rest := enc_entries _ es ++ enc_strings es) in *.
  rewrite length_app, length_enc_header in Hlen.
  assert (0 <= n < 2 ^ 32) as Hn.
  { subst rest. rewrite length_app, !Nat2Z.inj_add, length_enc_entries in Hlen. fold n in Hlen.
    unfold sizeof_entry_libc6 in Hlen. lia. }
  set (tail := le32 n ++ le32 0 ++ replicate 20 0 ++ rest).
  assert (enc_header n ++ rest = bytes_of "glibc-ld.so" ++ bytes_of ".cache" ++ bytes_of MAGIC_VERSION ++ tail) as E5
    by (unfold tail, enc_header; by rewrite <- !app_assoc).
  assert (enc_header n ++ rest = bytes_of MAGIC_LIBC6 ++ bytes_of MAGIC_VERSION ++ tail) as E6
    by (unfold tail, enc_header; by rewrite <- !app_assoc).
  unfold header_offset, bytes_match. split_and!.
  - rewrite bool_decide_eq_false_2; [done|]. rewrite E5.
    intros H. pose proof (slice_app [] (bytes_of "glibc-ld.so") (bytes_of ".cache" ++ bytes_of MAGIC_VERSION ++ tail)) as H'.
    change (slice (bytes_of "glibc-ld.so" ++ bytes_of ".cache" ++ bytes_of MAGIC_VERSION ++ tail)
              0 (strlen MAGIC_LIBC5) = Some (bytes_of "glibc-ld.so")) in H'.
    rewrite H in H'. discriminate.
  - apply bool_decide_eq_true_2. rewrite E6. apply (slice_app [] (bytes_of MAGIC_LIBC6)).
  - apply bool_decide_eq_true_2. rewrite E6. apply (slice_app (bytes_of MAGIC_LIBC6) (bytes_of MAGIC_VERSION)).
  - rewrite E6. unfold tail. rewrite app_assoc.
    apply (rd32_app (bytes_of MAGIC_LIBC6 ++ bytes_of MAGIC_VERSION) (le32 0 ++ replicate 20 0 ++ rest) n Hn).
  - rewrite length_app, length_enc_header. unfold sizeof_header_libc6. lia.
Qed.

(** C39: reading back a cache written with the entries [es] gives exactly their
    number, and for each its flags, its name and its path. *)
Theorem ldcache_roundtrip (path : string) (es : list lib_entry) (i : nat) f k v :
  wf_entries es -> es !! i = Some (f, k, v) ->
  let ctx := mkLdcache path (encode es) (header_offset (encode es)) in
  rd32 (ld_map ctx) (ld_ptr ctx + offset_nlibs6) = Some (Z.of_nat (length es)) /\
  exists e, read_entry ctx (Z.of_nat i) = Some e /\ e_flags e = f /\
    rdstr (ld_map ctx) (ld_ptr ctx + e_key e) = Some k /\
    rdstr (ld_map ctx) (ld_ptr ctx + e_value e) = Some v.
Proof.
  intros Hwf Hi. destruct (encode_header es Hwf) as (-> & _ & _ & Hn & _). split; [exact Hn|].
  assert (es = take i es ++ (f, k, v) :: drop (S i) es) as E by by rewrite take_drop_middle.
  rewrite E in Hwf. pose proof (read_encoded _ _ _ _ _ Hwf path) as (H1 & H2 & H3).
  rewrite <- E, length_take_le in H1 by (apply lookup_lt_Some in Hi; lia). rewrite <- E in H2, H3.
  eexists. split; [exact H1|]. cbn [ld_map ld_ptr e_flags e_key e_value]. split_and!; [done|exact H2|exact H3].
Qed.

Definition demo_cache : list lib_entry :=
  [(769, "libdrm.so.2", "/usr/lib/libdrm.so.2"); (1, "libva.so.2", "/usr/lib32/libva.so.2")].

Lemma wf_demo_cache : wf_entries demo_cache.
Proof.
  split; [vm_compute; reflexivity|].
  repeat (apply Forall_cons_2; [split_and!; [vm_compute; congruence..|reflexivity|reflexivity]|]). constructor.
Defined.

Lemma ldcache_roundtrip_witness :
  exists e, read_entry (mkLdcache "/etc/ld.so.cache" (encode demo_cache) (header_offset (encode demo_cache))) 1 = Some e /\
    e_flags e = 1.
Proof.
  destruct (ldcache_roundtrip "/etc/ld.so.cache" demo_cache 1 1 "libva.so.2" "/usr/lib32/libva.so.2"
    wf_demo_cache eq_refl) as (_ & e & H1 & H2 & _).
  exists e. split; [exact H1|exact H2].
Defined.

(** ** Resolution *)

(** Every entry and its strings lie in the mapping. *)
Definition wf_map (ctx : ldcache) : Prop :=
  exists n, rd32 (ld_map ctx) (ld_ptr ctx + offset_nlibs6) = Some n /\
    forall i, 0 <= i < n -> exists e k v, read_entry ctx i = Some e /\
      rdstr (ld_map ctx) (ld_ptr ctx + e_key e) = Some k /\
      rdstr (ld_map ctx) (ld_ptr ctx + e_value e) = Some v.

Definition resolved_opt (o : option string) : Prop :=
  match o with Some p => resolved_path p | None => True end.

Section ResolveEns.
Variables (ctx : ldcache) (arch : Z) (root : string) (libs : list string) (select : select_fn).
Hypothesis Hroot : Ascii.eqb (first_char root) "/" = true.
Hypothesis Hsel : forall cur p, ensures (only [KLib; KRead]) no_stop (select root cur p) any.

Let P := only [KLib; KRead].
Let good (r : option (list (option string))) : Prop :=
  match r with Some ps => length ps = length libs /\ Forall resolved_opt ps | None => True end.

Lemma resolve_libs_ens (H : stop -> Prop) key value j ls paths :
  (forall w, overflow_only w -> H w) ->
  (value = None -> H (Undefined "ldcache: string outside of the mapping")) ->
  length paths = length libs -> Forall resolved_opt paths ->
  ensures P H (resolve_libs root select key value j ls paths) good.
Proof.
  intros Ho Hv Hlen Hp. revert j. induction ls as [|lib ls IH]; intros j; cbn [resolve_libs].
  - by apply ensures_ret.
  - destruct (negb _); [apply IH|].
    destruct value as [value|]; [|apply ensures_bind_halt; by apply Hv].
    eapply ensures_bind; [eapply ensures_weaken; [by apply path_resolve_ens|done|done|intros r Hr; exact Hr]|].
    intros [path|]; [|intros _; by apply ensures_ret]. intros Hpath. cbv zeta.
    destruct (match mjoin (paths !! j) with Some p => _ | None => _ end); [apply IH|].
    eapply ensures_bind; [eapply ensures_weaken; [apply Hsel|done|done|intros r Hr; exact Hr]|].
    intros [[]|] _; [|by apply ensures_ret..].
    eapply ensures_bind; [eapply ensures_weaken; [apply xstrdup_ens|intros ?; by apply only_mono|done|intros r Hr; exact Hr]|].
    intros [copy|]; [|intros _; by apply ensures_ret]. intros ->. apply ensures_ret. split.
    + by rewrite length_insert.
    + by apply Forall_insert.
Qed.

Lemma ldcache_resolve_ens :
  wf_map ctx -> ensures P overflow_only (ldcache_resolve ctx arch root libs select) good.
Proof.
  intros (n & Hn & Hwf). unfold ldcache_resolve. rewrite Hn.
  eapply ensures_post; [apply (ensures_foldM _ _ (fun ps => length ps = length libs /\ Forall resolved_opt ps))|].
  - intros ps i Hi [Hl Hp]. unfold resolve_entry. apply elem_of_seqZ in Hi.
    destruct (Hwf i ltac:(lia)) as (e & k & v & -> & -> & ->).
    destruct (_ || _); [by apply ensures_ret|]. by apply resolve_libs_ens.
  - split; [apply length_replicate|]. by apply Forall_replicate.
  - done.
Qed.
End ResolveEns.

(** Without knowing the file: the undefined behaviours there are. *)
Definition map_stops (w : stop) : Prop :=
  overflow_only w \/ w = Undefined "ldcache: entry outside of the mapping" \/
  w = Undefined "ldcache: string outside of the mapping" \/
  w = Undefined "ldcache: header outside of the mapping".

Lemma ldcache_resolve_any_ens ctx arch root libs select :
  Ascii.eqb (first_char root) "/" = true ->
  (forall cur p, ensures (only [KLib; KRead]) no_stop (select root cur p) any) ->
  ensures (only [KLib; KRead]) map_stops (ldcache_resolve ctx arch root libs select)
    (fun r => match r with Some ps => length ps = length libs /\ Forall resolved_opt ps | None => True end).
Proof.
  intros Hr Hs. unfold ldcache_resolve. destruct (rd32 _ _) as [n|]; [|apply ensures_halt; unfold map_stops; auto].
  eapply ensures_post; [apply (ensures_foldM _ _ (fun ps => length ps = length libs /\ Forall resolved_opt ps))|].
  - intros ps i Hi [Hl Hp]. unfold resolve_entry.
    destruct (read_entry ctx i) as [e|]; [|apply ensures_halt; unfold map_stops; auto].
    destruct (_ || _); [by apply ensures_ret|].
    destruct (rdstr (ld_map ctx) (ld_ptr ctx + e_key e)) as [k|]; [|apply ensures_halt; unfold map_stops; auto].
    apply resolve_libs_ens; [done|done|by left|unfold map_stops; auto|done|done].
  - split; [apply length_replicate|by apply Forall_replicate].
  - done.
Qed.

Lemma encode_wf path es : wf_entries es -> wf_map (mkLdcache path (encode es) 0).
Proof.
  intros Hwf. destruct (encode_header es Hwf) as (_ & _ & _ & Hn & _).
  exists (Z.of_nat (length es)). split; [exact Hn|]. intros i Hi.
  destruct (lookup_lt_is_Some_2 es (Z.to_nat i)) as [[[f k] v] He]; [lia|].
  assert (es = take (Z.to_nat i) es ++ (f, k, v) :: drop (S (Z.to_nat i)) es) as E by by rewrite take_drop_middle.
  pose proof Hwf as Hwf'. rewrite E in Hwf'. pose proof (read_encoded _ _ _ _ _ Hwf' path) as (H1 & H2 & H3).
  rewrite <- E, length_take_le in H1 by lia. rewrite <- E in H2, H3. rewrite Z2Nat.id in H1 by lia.
  eexists _, k, v. split; [exact H1|]. split; [exact H2|exact H3].
Qed.

Lemma ldcache_open_ens path :
  ensures (only [KLib; KRead]) no_stop (ldcache_open path) any.
Proof. unfold ldcache_open. ens. Qed.
Lemma ldcache_close_ens ctx : ensures (only [KLib; KRead]) no_stop (ldcache_close ctx) any.
Proof. unfold ldcache_close. ens. Qed.
#[export] Hint Resolve ldcache_open_ens ldcache_close_ens : ens.

(** *** What the slots hold *)

Section Slots.
Variables (ctx : ldcache) (arch : Z) (root : string) (libs : list string) (select : select_fn).

(** The [i]-th entry of the cache is an ELF library [k] for the architecture, at
    the path [v]. *)
Definition entry_for (i : Z) (k v : string) : Prop :=
  exists e, read_entry ctx i = Some e /\ Z.land (e_flags e) LD_ELF <> 0 /\ Z.land (e_flags e) LD_ARCH_MASK = arch /\
    rdstr (ld_map ctx) (ld_ptr ctx + e_key e) = Some k /\ rdstr (ld_map ctx) (ld_ptr ctx + e_value e) = Some v.

(** In the run [t], the path [v] resolved to [p], and [select] preferred it to what
    there was, or refused it. *)
Definition taken (v p : string) (t : trace) : Prop :=
  during (path_resolve root v) (Some p) t /\ exists cur, during (select root cur p) (Some true) t.
Definition refused (v : string) (t : trace) : Prop :=
  exists p, during (path_resolve root v) (Some p) t /\ during (select root None p) (Some false) t.

(** An entry called [k] went to a library asked for before the [j]-th. *)
Definition taken_before (j : nat) (k : string) : Prop :=
  exists j' lib, (j' < j)%nat /\ libs !! j' = Some lib /\ str_has_prefix k lib = true.

(** A slot holds the resolved path of an entry that has the name of its library as
    a prefix and that was selected; it is empty when every such entry went to an
    earlier library or was refused. *)
Record slots (n : Z) (ps : list (option string)) (t : trace) : Prop := {
  sl_length : length ps = length libs;
  sl_filled : forall j lib p, libs !! j = Some lib -> ps !! j = Some (Some p) ->
    exists i k v, 0 <= i < n /\ entry_for i k v /\ str_has_prefix k lib = true /\ taken v p t;
  sl_empty : forall j lib i k v, libs !! j = Some lib -> ps !! j = Some None ->
    0 <= i < n -> entry_for i k v -> str_has_prefix k lib = true -> taken_before j k \/ refused v t
}.

Lemma taken_app v p t t' : taken v p t \/ taken v p t' -> taken v p (t ++ t').
Proof. intros [[H [cur Hc]]|[H [cur Hc]]]; (split; [|exists cur]); apply during_app; auto. Qed.
Lemma refused_app v t t' : refused v t \/ refused v t' -> refused v (t ++ t').
Proof. intros [(p & H & Hc)|(p & H & Hc)]; exists p; split; apply during_app; auto. Qed.

(** The loop over the libraries [ls], from the [j]-th on, for an entry [k] at [v]. *)
Record one_entry (k v : string) (j : nat) (ls : list string) (paths ps : list (option string)) (t : trace) : Prop := {
  oe_length : length ps = length paths;
  oe_before : forall m, (m < j)%nat -> ps !! m = paths !! m;
  oe_slot : forall m lib, ls !! m = Some lib ->
    ps !! (j + m)%nat = paths !! (j + m)%nat \/
    str_has_prefix k lib = true /\ exists p, ps !! (j + m)%nat = Some (Some p) /\ taken v p t;
  oe_empty : forall m lib, ls !! m = Some lib -> ps !! (j + m)%nat = Some None -> str_has_prefix k lib = true ->
    (exists m' lib', (m' < m)%nat /\ ls !! m' = Some lib' /\ str_has_prefix k lib' = true) \/ refused v t
}.

(** A library that keeps what it has. *)
Lemma one_entry_skip k v j lib ls paths ps t1 t2 :
  (str_has_prefix k lib = true -> paths !! j <> Some None) ->
  one_entry k v (S j) ls paths ps t2 -> one_entry k v j (lib :: ls) paths ps (t1 ++ t2).
Proof.
  intros Hl [H1 H2 H3 H4]. split; [exact H1|intros m Hm; apply H2; lia|..].
  - intros [|m] lib' Hm; [left; rewrite Nat.add_0_r; apply H2; lia|]. cbn in Hm. replace (j + S m)%nat with (S j + m)%nat by lia.
    destruct (H3 m lib' Hm) as [H|[Hk (p & Hp & Ht)]]; [by left|right]. split; [done|]. exists p. split; [done|].
    apply taken_app. by right.
  - intros [|m] lib' Hm Hp Hk; cbn in Hm.
    + rewrite Nat.add_0_r, H2 in Hp by lia. simplify_eq. by destruct Hl.
    + replace (j + S m)%nat with (S j + m)%nat in Hp by lia. destruct (H4 m lib' Hm Hp Hk) as [(m' & l' & Hm' & Hl' & Hk')|Hr].
      * left. exists (S m'), l'. split; [lia|by split].
      * right. apply refused_app. by right.
Qed.

Lemma resolve_libs_one k v j ls paths :
  attains (resolve_libs root select k (Some v) j ls paths) (one_entry k v j ls paths).
Proof.
  revert j. induction ls as [|lib ls IH]; intros j; cbn [resolve_libs].
  { apply gives_ret. split; [done..|intros m l Hm|intros m l Hm]; by rewrite lookup_nil in Hm. }
  destruct (str_has_prefix k lib) eqn:Ek; cbn [negb].
  2:{ eapply gives_post; [apply (IH (S j))|]. intros [ps|] t; [|done]. apply (one_entry_skip k v j lib ls paths ps []). congruence. }
  eapply attains_bind; [apply attains_returned, attains_any|]. intros p t1 [Hp%returned_during _]. cbv zeta.
  destruct (match mjoin (paths !! j) with Some q => _ | None => _ end) eqn:Ec.
  { eapply gives_post; [apply (IH (S j))|]. intros [ps|] t; [|done]. apply (one_entry_skip k v j lib ls paths ps t1).
    intros _ E. by rewrite E in Ec. }
  eapply attains_bind; [apply attains_returned, attains_any|]. intros b t2 [Hs%returned_during _]. destruct b.
  - eapply attains_bind; [apply (attains_ensures _ _ _ _ (xstrdup_ens p))|]. intros q t3 [_ ->]. apply gives_ret. split.
    + by rewrite length_insert.
    + intros m Hm. by rewrite list_lookup_insert_ne by lia.
    + intros [|m] l Hm; [|left; by rewrite list_lookup_insert_ne by lia]. rewrite Nat.add_0_r. cbn in Hm. simplify_eq.
      destruct (decide (j < length paths)%nat) as [Hj|Hj]; [right|left; by rewrite list_insert_ge by lia]. split; [done|].
      exists p. split; [by apply list_lookup_insert_eq|]. split; [apply during_app; by left|].
      exists (mjoin (paths !! j)). apply during_app. right. apply during_app. by left.
    + intros [|m] l Hm Hn Hk; [|left; exists O, lib; split; [lia|done]]. rewrite Nat.add_0_r in Hn.
      destruct (decide (j < length paths)%nat) as [Hj|Hj]; [by rewrite list_lookup_insert_eq in Hn|].
      rewrite list_insert_ge in Hn by lia. by apply lookup_lt_Some in Hn.
  - apply gives_ret. split; [done|done|by left|]. intros [|m] l Hm Hn Hk; [right|left; exists O, lib; split; [lia|done]].
    rewrite Nat.add_0_r in Hn. rewrite Hn in Hs. exists p. split; apply during_app; [by left|]. right. apply during_app. by left.
Qed.

Lemma resolve_libs_no_value k j ls paths :
  attains (resolve_libs root select k None j ls paths) (fun ps _ => ps = paths).
Proof.
  revert j. induction ls as [|lib ls IH]; intros j; cbn [resolve_libs]; [by apply gives_ret|].
  destruct (negb _); [apply IH|by intros s].
Qed.

Lemma slots_more n ps t t' : slots n ps t -> slots n ps (t ++ t').
Proof.
  intros [H1 H2 H3]. split; [done|..].
  - intros j lib p Hl Hp. destruct (H2 j lib p Hl Hp) as (i & k & v & ? & ? & ? & Ht). exists i, k, v. split_and!; try done; try lia.
    apply taken_app. by left.
  - intros j lib i k v Hl Hp Hi He Hk. destruct (H3 j lib i k v Hl Hp Hi He Hk); [by left|right]. apply refused_app. by left.
Qed.

(** One entry more. *)
Lemma resolve_entry_slots n ps t : 0 <= n -> slots n ps t ->
  attains (resolve_entry ctx arch root libs select ps n) (fun ps' t' => slots (n + 1) ps' (t ++ t')).
Proof.
  intros Hn Hs. unfold resolve_entry. destruct (read_entry ctx n) as [e|] eqn:Ee; [|by intros s].
  destruct (_ || _) eqn:Ef.
  { apply gives_ret. destruct (slots_more _ _ _ [] Hs) as [H1 H2 H3]. split; [done|..].
    - intros j lib p Hl Hp. destruct (H2 j lib p Hl Hp) as (i & k & v & ? & ?). exists i, k, v. split; [lia|done].
    - intros j lib i k v Hl Hp Hi He Hk. destruct (decide (i = n)) as [->|]; [|apply (H3 j lib i k v); done || lia].
      destruct He as (e' & He & Hf & Ha & _). rewrite Ee in He. simplify_eq. apply orb_prop in Ef as [Ef|Ef]; bool_hyps; done. }
  apply orb_false_elim in Ef as [Hf Ha]. bool_hyps.
  destruct (rdstr (ld_map ctx) (ld_ptr ctx + e_key e)) as [k|] eqn:Ek; [|by intros s].
  destruct (rdstr (ld_map ctx) (ld_ptr ctx + e_value e)) as [v|] eqn:Ev.
  2:{ eapply gives_post; [apply resolve_libs_no_value|]. intros [ps'|] t' Ho; [|done]. subst ps'.
      destruct (slots_more _ _ _ t' Hs) as [H1 H2 H3]. split; [done|..].
      - intros j lib p Hl Hp. destruct (H2 j lib p Hl Hp) as (i & k' & v & ? & ?). exists i, k', v. split; [lia|done].
      - intros j lib i k' v Hl Hp Hi He Hk. destruct (decide (i = n)) as [->|]; [|apply (H3 j lib i k' v); done || lia].
        destruct He as (e' & He & _ & _ & _ & Hv). rewrite Ee in He. by simplify_eq. }
  eapply gives_post; [apply resolve_libs_one|]. intros [ps'|] t' Ho; [|done]. destruct Ho as [O1 _ O3 O4].
  assert (entry_for n k v) as Hnew by by exists e.
  destruct Hs as [H1 H2 H3]. split; [congruence|..].
  - intros j lib p Hl Hp. destruct (O3 j lib Hl) as [Hsame|[Hk (q & Hq & Ht)]]; cbn [Nat.add] in *.
    + rewrite Hsame in Hp. destruct (H2 j lib p Hl Hp) as (i & k' & v' & ? & ? & ? & Ht). exists i, k', v'.
      split_and!; try done; try lia. apply taken_app. by left.
    + rewrite Hp in Hq. simplify_eq. exists n, k, v. split_and!; try done; try lia. apply taken_app. by right.
  - intros j lib i k' v' Hl Hp Hi He Hk. destruct (decide (i = n)) as [->|].
    + destruct He as (e' & He & _ & _ & Hk' & Hv'). rewrite Ee in He. simplify_eq.
      destruct (O4 j lib Hl Hp Hk) as [(m & l & ?)|Hr]; [left; by exists m, l|right]. apply refused_app. by right.
    + assert (ps !! j = Some None) as Hp'.
      { destruct (O3 j lib Hl) as [Hsame|[_ (q & Hq & _)]]; cbn [Nat.add] in *; congruence. }
      destruct (H3 j lib i k' v' Hl Hp' ltac:(lia) He Hk); [by left|right]. apply refused_app. by left.
Qed.
End Slots.

Lemma ldcache_resolve_slots ctx arch root libs select n :
  rd32 (ld_map ctx) (ld_ptr ctx + offset_nlibs6) = Some n ->
  attains (ldcache_resolve ctx arch root libs select) (slots ctx arch root libs select (Z.max 0 n)).
Proof.
  intros Hn. unfold ldcache_resolve. rewrite Hn. eapply gives_post.
  - apply (attains_foldM _ (fun l => slots ctx arch root libs select (Z.of_nat (length l)))).
    + split; [apply length_replicate|..].
      * intros j lib p _ [? _]%lookup_replicate. done.
      * intros j lib i k v _ _ Hi. cbn in Hi. lia.
    + intros i l1 l2 ps t El Hs. rewrite length_app. cbn [length]. rewrite Nat2Z.inj_add.
      assert (i = Z.of_nat (length l1)) as ->.
      { assert ((l1 ++ i :: l2) !! length l1 = Some i) as Hi by by rewrite list_lookup_middle.
        rewrite <- El in Hi. apply lookup_seqZ in Hi. lia. }
      apply resolve_entry_slots; [lia|done].
  - intros [ps|] t; [|done]. rewrite length_seqZ. by replace (Z.of_nat (Z.to_nat n)) with (Z.max 0 n) by lia.
Qed.

(** C38: on a cache whose [n] entries and their strings lie in the file,
    [ldcache_resolve] returns a slot per library that is wanted.  One that is not
    empty holds the path, resolved below the root in this run, of an ELF entry for
    the architecture whose name has the library as a prefix, and which [select]
    took in this run; one is empty only when every such entry has the prefix of an
    earlier library too, or was resolved and refused by [select].  The paths have no
    [".."]; the resolution only reads, and always returns, unless a path overflows
    its buffer. *)
Theorem ldcache_resolve_correct (o : env) ctx arch root libs select n (s : st) :
  Ascii.eqb (first_char root) "/" = true ->
  (forall cur p, ensures (only [KLib; KRead]) no_stop (select root cur p) any) ->
  wf_map ctx -> rd32 (ld_map ctx) (ld_ptr ctx + offset_nlibs6) = Some n ->
  match exec o (ldcache_resolve ctx arch root libs select) s with
  | (t, Done (_, Some ps)) =>
      Forall (only [KLib; KRead]) t /\ slots ctx arch root libs select (Z.max 0 n) ps t /\ Forall resolved_opt ps
  | (t, Done (_, None)) => Forall (only [KLib; KRead]) t
  | (_, Halted w) => w = Undefined "path_append: overflow"
  end.
Proof.
  intros Hr Hs Hwf Hn. pose proof (ensures_run o _ _ _ _ s (ldcache_resolve_ens ctx arch root libs select Hr Hs Hwf)) as H.
  pose proof (gives_run o _ _ s (ldcache_resolve_slots ctx arch root libs select n Hn)) as Hg.
  destruct (exec o _ s) as [t [[s' [ps|]]|w]]; [split_and!; [apply H|exact Hg|apply H]|apply H..].
Qed.

Definition take_all : select_fn := fun _ _ _ => ret (Some true).

Lemma ldcache_resolve_correct_witness :
  snd (exec plain_dirs (ldcache_resolve (mkLdcache "/etc/ld.so.cache" (encode demo_cache) 0)
         LD_X8664_LIB64 "/" ["libva.so"; "libdrm.so"] take_all) init_st)
    = Done (mkSt EINVAL err0, Some [None; Some "/usr/lib/libdrm.so.2"]) /\
  Forall resolved_opt [None; Some "/usr/lib/libdrm.so.2"] /\
  exists i k v, 0 <= i < 2 /\ entry_for (mkLdcache "/etc/ld.so.cache" (encode demo_cache) 0) LD_X8664_LIB64 i k v /\
    str_has_prefix k "libdrm.so" = true.
Proof.
  pose proof (ldcache_resolve_correct plain_dirs (mkLdcache "/etc/ld.so.cache" (encode demo_cache) 0)
    LD_X8664_LIB64 "/" ["libva.so"; "libdrm.so"] take_all 2 init_st eq_refl
    ltac:(intros; by apply ensures_ret) (encode_wf _ _ wf_demo_cache) eq_refl) as H.
  assert (snd (exec plain_dirs (ldcache_resolve (mkLdcache "/etc/ld.so.cache" (encode demo_cache) 0)
         LD_X8664_LIB64 "/" ["libva.so"; "libdrm.so"] take_all) init_st)
    = Done (mkSt EINVAL err0, Some [None; Some "/usr/lib/libdrm.so.2"])) as E by (vm_compute; reflexivity).
  split; [exact E|]. destruct (exec _ _ _) as [t out]. simpl in E. subst out. destruct H as (_ & H & Hp). split; [exact Hp|].
  destruct (sl_filled _ _ _ _ _ _ _ _ H 1 "libdrm.so" "/usr/lib/libdrm.so.2" eq_refl eq_refl) as (i & k & v & Hi & He & Hk & _).
  exists i, k, v. split; [exact Hi|]. split; [exact He|exact Hk].
Defined.

(** The number of entries is not checked against the size of the file: a
    header that announces one entry too many makes the resolution read outside of
    the mapping. *)
Theorem ldcache_resolve_overreads (o : env) (s : st) :
  snd (exec o (ldcache_resolve (mkLdcache "/etc/ld.so.cache" (enc_header 2 ++ entry_bytes 0 72 72) 0)
         LD_X8664_LIB64 "/" ["libva.so"] take_all) s)
    = Halted (Undefined "ldcache: entry outside of the mapping").
Proof. reflexivity. Qed.
