(* ===== verification/Elf.v ===== *)
(** * What an object file says about itself

    [src/src/elftool.c] over an interface of [libelf]: the search of a section, the
    libraries an object needs, the ABI note.  [elftool_open] and [elftool_close]
    are in [Info].  No function of the tree calls the two queries any more
    ([nvc_info.c] has their calls in a comment). *)
From S2P Require Import Prelude CString Effects Logic Errors Devices Ldcache.

(** ** The library *)

(** [GElf_Shdr], [GElf_Dyn] and [Elf_Data], as far as they are read. *)
Record GElf_Shdr := mkShdr { sh_name : Z; sh_type : Z; sh_link : Z; sh_entsize : Z }.
Record GElf_Dyn := mkDyn { d_tag : Z; d_ptr : Z }.
Record Elf_Data := mkData { d_buf : list Z; d_size : Z }.

(** [libelf]: [None] is its [NULL], or its negative result.  [elf_scns] are the
    sections [elf_nextscn] gives one after the other. *)
Class LibElf (Elf Elf_Scn : Type) := {
  elf_getshdrstrndx : Elf -> option Z;
  elf_scns : Elf -> list Elf_Scn;
  gelf_getshdr : Elf_Scn -> option GElf_Shdr;
  elf_strptr : Elf -> Z -> Z -> option string;
  elf_getdata : Elf_Scn -> option Elf_Data;
  gelf_getdyn : Elf_Data -> Z -> option GElf_Dyn;
  elf_errno : Elf -> Z;
  elf_errmsg : Z -> option string
}.

(** What the library promises of the data of a section. *)
Class LibElfLaws (Elf Elf_Scn : Type) `{LibElf Elf Elf_Scn} := {
  elf_getdata_size scn data : elf_getdata scn = Some data -> d_size data = Z.of_nat (length (d_buf data))
}.

Definition SHT_DYNAMIC : Z := 6.
Definition SHT_NOTE : Z := 7.
Definition DT_NEEDED : Z := 1.
Definition ELF_NOTE_GNU : string := "GNU".
Definition ELF_NOTE_ABI : Z := 1.
Definition ELF_NOTE_OS_LINUX : Z := 0.
Definition sizeof_nhdr : Z := 12.
Definition sizeof_gnu : Z := strlen ELF_NOTE_GNU + 1.

Section Elf.
Context {Elf Elf_Scn : Type} `{LibElf Elf Elf_Scn}.

(** [struct elftool], once it is open. *)
Record elftool := mkElftool { et_fd : Z; et_elf : Elf; et_path : string }.

Definition error_set_elf (ctx : elftool) (text : string) : M Z :=
  let errcode := elf_errno (et_elf ctx) in
  error_vset errcode (elf_errmsg errcode) text.

(** The loop over the sections: [Some None] is its end, [None] a failed read. *)
Fixpoint find_section (elf : Elf) (shstrndx type : Z) (name : option string) (scns : list Elf_Scn)
    : option (option (GElf_Shdr * Elf_Scn)) :=
  match scns with
  | [] => Some None
  | scn :: scns' =>
      match gelf_getshdr scn with
      | None => None
      | Some shdr =>
          match elf_strptr elf shstrndx (sh_name shdr) with
          | None => None
          | Some shname =>
              if (sh_type shdr =? type) && bool_decide (name = None) then Some (Some (shdr, scn))
              else if (sh_type shdr =? type) && str_equal shname (default EmptyString name)
                   then Some (Some (shdr, scn))
                   else find_section elf shstrndx type name scns'
          end
      end
  end.

Definition lookup_section (ctx : elftool) (type : Z) (name : option string) : M (option (GElf_Shdr * Elf_Scn)) :=
  let fail_ := do error_set_elf ctx ("elf section read error: " +:+ et_path ctx) in ret None in
  match elf_getshdrstrndx (et_elf ctx) with
  | None => fail_
  | Some shstrndx =>
      match find_section (et_elf ctx) shstrndx type name (elf_scns (et_elf ctx)) with
      | None => fail_
      | Some (Some r) => ret (Some r)
      | Some None =>
          do error_setx ("elf section 0x" +:+ print_hex 1 type +:+ " missing: " +:+ et_path ctx) in ret None
      end
  end.

(** The loop over the [n] entries from [i] on: [None] is a failed read. *)
Fixpoint dep_loop (elf : Elf) (shdr : GElf_Shdr) (data : Elf_Data) (lib : string) (n : nat) (i : Z) : option bool :=
  match n with
  | O => Some false
  | S n' =>
      match gelf_getdyn data (sint_wrap 32 i) with
      | None => None
      | Some dyn =>
          if d_tag dyn =? DT_NEEDED then
            match elf_strptr elf (sh_link shdr) (d_ptr dyn) with
            | None => None
            | Some dep => if str_has_prefix dep lib then Some true else dep_loop elf shdr data lib n' (i + 1)
            end
          else dep_loop elf shdr data lib n' (i + 1)
      end
  end.

Definition elftool_has_dependency (ctx : elftool) (lib : string) : M (option bool) :=
  let? (shdr, scn) := lookup_section ctx SHT_DYNAMIC None else ret None in
  let fail_ := do error_set_elf ctx ("elf data read error: " +:+ et_path ctx) in ret None in
  match elf_getdata scn with
  | None => fail_
  | Some data =>
      if sh_entsize shdr =? 0 then halt (Undefined "division by zero")
      else match dep_loop (et_elf ctx) shdr data lib (Z.to_nat (d_size data / sh_entsize shdr)) 0 with
           | None => fail_
           | Some b => ret (Some b)
           end
  end.

(** The [n] bytes at [off], read by [memcpy] or [memcmp]. *)
Definition rd (data : Elf_Data) (off n : Z) (k : list Z -> M (option bool)) : M (option bool) :=
  match slice (d_buf data) off n with
  | None => halt (Undefined "out-of-bounds read")
  | Some bytes => k bytes
  end.

(** The 32-bit word [i] of a little-endian buffer. *)
Definition word (bytes : list Z) (i : nat) : Z := le_bytes (take 4 (drop (4 * i) bytes)).

Definition elftool_has_abi (ctx : elftool) (abi : Z * Z * Z) : M (option bool) :=
  let? (shdr, scn) := lookup_section ctx SHT_NOTE (Some ".note.ABI-tag") else ret None in
  match elf_getdata scn with
  | None => do error_set_elf ctx ("elf data read error: " +:+ et_path ctx) in ret None
  | Some data =>
      if d_size data <=? sizeof_nhdr then ret (Some false)
      else rd data 0 sizeof_nhdr (fun nhdr =>
        let n_namesz := word nhdr 0 in
        let n_descsz := word nhdr 1 in
        let n_type := word nhdr 2 in
        if d_size data <? sizeof_nhdr + n_namesz + n_descsz then ret (Some false)
        else if negb (n_type =? ELF_NOTE_ABI) || negb (n_namesz =? sizeof_gnu) || (n_descsz <? 16) then ret (Some false)
        else rd data sizeof_nhdr n_namesz (fun name =>
          if negb (bool_decide (name = bytes_of ELF_NOTE_GNU ++ [0])) then ret (Some false)
          else rd data (sizeof_nhdr + n_namesz) 16 (fun desc =>
            ret (Some ((word desc 0 =? ELF_NOTE_OS_LINUX)
                       && bool_decide ((word desc 1, word desc 2, word desc 3) = abi))))))
  end.

(** ** The note *)

(** The bytes of a 32-bit word, and of the ABI note of a system. *)
Definition le4 (x : Z) : list Z := [x mod 256; x / 256 mod 256; x / 65536 mod 256; x / 16777216 mod 256].

Definition abi_note (os a b c : Z) : list Z :=
  le4 sizeof_gnu ++ le4 16 ++ le4 ELF_NOTE_ABI ++ (bytes_of ELF_NOTE_GNU ++ [0]) ++
  le4 os ++ le4 a ++ le4 b ++ le4 c.

Definition is_u32 (x : Z) : Prop := 0 <= x < 2 ^ 32.

(** ** Facts *)

Lemma le_bytes_le4 x : is_u32 x -> le_bytes (le4 x) = x.
Proof. intros Hx. unfold is_u32 in Hx. cbn [le_bytes le4]. Z.to_euclidean_division_equations. lia. Qed.

(** An ABI note is read back: the answer is [true] exactly for a Linux system with
    the version that was asked for. *)
Lemma elftool_has_abi_reads_note ctx shstrndx shdr scn os a b c rest abi s :
  is_u32 os -> is_u32 a -> is_u32 b -> is_u32 c ->
  elf_getshdrstrndx (et_elf ctx) = Some shstrndx ->
  find_section (et_elf ctx) shstrndx SHT_NOTE (Some ".note.ABI-tag") (elf_scns (et_elf ctx)) = Some (Some (shdr, scn)) ->
  elf_getdata scn = Some (mkData (abi_note os a b c ++ rest) (Z.of_nat (length (abi_note os a b c ++ rest)))) ->
  elftool_has_abi ctx abi s = Ret (s, Some ((os =? ELF_NOTE_OS_LINUX) && bool_decide ((a, b, c) = abi))).
Proof.
  intros Hos Ha Hb Hc Hi Hf Hd. unfold elftool_has_abi, lookup_section, bind. rewrite Hi, Hf. cbn [pbind ret].
  rewrite Hd. cbn [d_size d_buf]. rewrite length_app. change (length (abi_note os a b c)) with 32%nat.
  rewrite (proj2 (Z.leb_gt _ _)) by (unfold sizeof_nhdr; lia).
  assert (forall off n, 0 <= off -> 0 <= n -> off + n <= 32 ->
    slice (abi_note os a b c ++ rest) off n = Some (take (Z.to_nat n) (drop (Z.to_nat off) (abi_note os a b c)))) as Hs.
  { intros off n H0 Hn H1. unfold slice. rewrite length_app. change (length (abi_note os a b c)) with 32%nat.
    rewrite (proj2 (Z.leb_le _ _)), (proj2 (Z.leb_le _ _)) by lia. cbn [andb].
    rewrite drop_app_le by (change (length (abi_note os a b c)) with 32%nat; lia).
    rewrite take_app_le; [done|]. rewrite length_drop. change (length (abi_note os a b c)) with 32%nat. lia. }
  set (note := abi_note os a b c) in *. unfold rd at 1. cbn [d_buf]. rewrite Hs by (unfold sizeof_nhdr; lia). cbv zeta.
  set (nhdr := take (Z.to_nat sizeof_nhdr) _).
  change (word nhdr 0) with 4. change (word nhdr 1) with 16. change (word nhdr 2) with 1.
  rewrite (proj2 (Z.ltb_ge _ _)) by (unfold sizeof_nhdr; lia).
  change (negb (1 =? ELF_NOTE_ABI) || negb (4 =? sizeof_gnu) || (16 <? 16)) with false. cbv iota.
  unfold rd at 1. cbn [d_buf]. rewrite Hs by (unfold sizeof_nhdr; lia).
  rewrite bool_decide_eq_true_2 by reflexivity. cbn [negb]. cbv iota.
  unfold rd. cbn [d_buf]. rewrite Hs by (unfold sizeof_nhdr; lia). set (desc := take (Z.to_nat 16) _). unfold ret.
  change (word desc 0) with (le_bytes (le4 os)). change (word desc 1) with (le_bytes (le4 a)).
  change (word desc 2) with (le_bytes (le4 b)). change (word desc 3) with (le_bytes (le4 c)).
  by rewrite !le_bytes_le4.
Qed.

(** The dynamic section of a file whose header gives an entry size of zero: the
    number of entries divides by it. *)
Lemma elftool_has_dependency_divides ctx lib shstrndx shdr scn data s :
  elf_getshdrstrndx (et_elf ctx) = Some shstrndx ->
  find_section (et_elf ctx) shstrndx SHT_DYNAMIC None (elf_scns (et_elf ctx)) = Some (Some (shdr, scn)) ->
  elf_getdata scn = Some data -> sh_entsize shdr = 0 ->
  elftool_has_dependency ctx lib s = Stop (Undefined "division by zero").
Proof.
  intros Hi Hf Hd Hz. unfold elftool_has_dependency, lookup_section, bind. rewrite Hi, Hf. cbn [pbind ret].
  by rewrite Hd, Hz.
Qed.

Lemma error_set_elf_ens ctx text : ErrText text -> ensures (only [KLib]) no_stop (error_set_elf ctx text) any.
Proof. apply error_vset_ens. Qed.
#[local] Hint Resolve error_set_elf_ens : ens.

Lemma lookup_section_ens ctx type name : ensures (only [KLib]) no_stop (lookup_section ctx type name) any.
Proof. unfold lookup_section. ens. Qed.
#[local] Hint Resolve lookup_section_ens : ens.

Lemma find_section_In elf shstrndx type name scns shdr scn :
  find_section elf shstrndx type name scns = Some (Some (shdr, scn)) ->
  In scn scns /\ gelf_getshdr scn = Some shdr /\ sh_type shdr = type /\
  match name with Some n => elf_strptr elf shstrndx (sh_name shdr) = Some n | None => True end.
Proof.
  induction scns as [|c scns IH]; simpl; [done|].
  destruct (gelf_getshdr c) as [sh|] eqn:Hsh; [|done]. destruct (elf_strptr elf shstrndx (sh_name sh)) as [shname|] eqn:Hn; [|done].
  destruct (Z.eqb_spec (sh_type sh) type) as [Ht|]; simpl;
    [|intros Hr; destruct (IH Hr) as (? & ?); split; [by right|done]].
  case_bool_decide as Hnone; [intros [= <- <-]; subst; split_and!; [by left|done..]|].
  destruct (str_equal shname _) eqn:He.
  - intros [= <- <-]. split_and!; [by left|done|done|]. destruct name; [|done].
    unfold str_equal in He. simpl in He. apply String.eqb_eq in He. by subst.
  - intros Hr. destruct (IH Hr) as (? & ?). split; [by right|done].
Qed.

(** A section is missing only when every one was examined and none is of the
    type, or none has the name. *)
Lemma find_section_missing elf shstrndx type name scns :
  find_section elf shstrndx type name scns = Some None ->
  Forall (fun scn => exists shdr shname, gelf_getshdr scn = Some shdr /\
    elf_strptr elf shstrndx (sh_name shdr) = Some shname /\
    ~ (sh_type shdr = type /\ (name = None \/ name = Some shname))) scns.
Proof.
  induction scns as [|c scns IH]; simpl; [constructor|].
  destruct (gelf_getshdr c) as [sh|] eqn:Hsh; [|done]. destruct (elf_strptr elf shstrndx (sh_name sh)) as [shname|] eqn:Hn; [|done].
  destruct (Z.eqb_spec (sh_type sh) type) as [Ht|Ht]; simpl.
  - case_bool_decide as Hnone; [done|]. destruct (str_equal shname _) eqn:He; [done|]. intros Hr.
    constructor; [|by apply IH]. exists sh, shname. split_and!; [done..|]. intros (_ & [?| ->]); [done|].
    unfold str_equal in He. simpl in He. by rewrite String.eqb_refl in He.
  - intros Hr. constructor; [|by apply IH]. exists sh, shname. split_and!; [done..|]. by intros (? & _).
Qed.

(** When every entry can be read, the loop says whether a needed library has the prefix. *)
Lemma dep_loop_spec elf shdr data lib n i (deps : list (option string)) :
  length deps = n ->
  (forall k d, deps !! k = Some d -> exists dyn, gelf_getdyn data (sint_wrap 32 (i + Z.of_nat k)) = Some dyn /\
     match d with
     | Some dep => d_tag dyn = DT_NEEDED /\ elf_strptr elf (sh_link shdr) (d_ptr dyn) = Some dep
     | None => d_tag dyn <> DT_NEEDED
     end) ->
  dep_loop elf shdr data lib n i =
    Some (existsb (fun d => match d with Some dep => str_has_prefix dep lib | None => false end) deps).
Proof.
  revert n i. induction deps as [|d deps IH]; intros n i <- Hd; [done|]. simpl.
  destruct (Hd O d eq_refl) as (dyn & Hdyn & Ht). rewrite Nat2Z.inj_0, Z.add_0_r in Hdyn. rewrite Hdyn.
  assert (dep_loop elf shdr data lib (length deps) (i + 1) =
    Some (existsb (fun d => match d with Some dep => str_has_prefix dep lib | None => false end) deps)) as Hrest.
  { apply IH; [done|]. intros k d' Hk. destruct (Hd (S k) d' Hk) as (dyn' & Hr & ?). exists dyn'.
    split; [|done]. rewrite <-Hr. do 2 f_equal. lia. }
  destruct d as [dep|].
  - destruct Ht as (-> & ->). rewrite Z.eqb_refl. by destruct (str_has_prefix dep lib).
  - apply Z.eqb_neq in Ht. by rewrite Ht.
Qed.

Lemma slice_in_bounds (m : list Z) off n :
  0 <= off -> off + n <= Z.of_nat (length m) -> exists b, slice m off n = Some b.
Proof. intros. unfold slice. rewrite (proj2 (Z.leb_le _ _)), (proj2 (Z.leb_le _ _)) by lia. by eexists. Qed.

Lemma rd_ens {P : event -> Prop} data off n k :
  0 <= off -> off + n <= Z.of_nat (length (d_buf data)) ->
  (forall bytes, ensures P no_stop (k bytes) any) -> ensures P no_stop (rd data off n k) any.
Proof.
  intros H0 H1 Hk. unfold rd. destruct (slice_in_bounds (d_buf data) off n H0 H1) as [b ->]. apply Hk.
Qed.

(** Whatever the bytes of the file are, the note is read within the data of its
    section: the sizes in its header are only used after they were compared. *)
Lemma elftool_has_abi_in_bounds `{!LibElfLaws Elf Elf_Scn} ctx abi :
  ensures (only [KLib]) no_stop (elftool_has_abi ctx abi) any.
Proof.
  unfold elftool_has_abi. ens_step. repeat ens_step; try exact I.
  pose proof (elf_getdata_size _ _ ltac:(eassumption)) as Hs.
  apply rd_ens; unfold sizeof_nhdr in *; [lia|lia|]. intros nhdr. cbv zeta.
  destruct (_ <? _) eqn:Hsz; [by apply ensures_ret|]. destruct (negb _ || _ || _) eqn:Hc; [by apply ensures_ret|].
  change sizeof_gnu with 4 in Hc.
  apply rd_ens; [lia|lia|]. intros nm. case_match; [by apply ensures_ret|].
  apply rd_ens; [lia|lia|]. intros desc. by apply ensures_ret.
Qed.
End Elf.

(** ** An instance

    An object as the list of its sections: header and data, with the strings of its tables. *)
Module Object.
Record section := mkSection { header : GElf_Shdr; data : list Z }.
Record object := mkObject { sections : list section; strings : list (Z * Z * string) }.

#[export] Instance libelf : LibElf object section := {|
  elf_getshdrstrndx := fun _ => Some 0;
  elf_scns := sections;
  gelf_getshdr := fun s => Some (header s);
  elf_strptr := fun o scn off =>
    snd <$> find (fun p => (fst (fst p) =? scn) && (snd (fst p) =? off)) (strings o);
  elf_getdata := fun s => Some (mkData (data s) (Z.of_nat (length (data s))));
  gelf_getdyn := fun d i =>
    let word k := le_bytes (take 8 (drop k (d_buf d))) in
    let off := Z.to_nat (16 * i) in
    if (0 <=? i) && (16 * i + 16 <=? d_size d) then Some (mkDyn (word off) (word (off + 8)%nat)) else None;
  elf_errno := fun _ => 1;
  elf_errmsg := fun _ => Some "unknown error"
|}.

#[export] Instance libelf_laws : LibElfLaws object section.
Proof. split. by intros scn data [= <-]. Qed.

Definition le8 (x : Z) : list Z := le4 x ++ [0; 0; 0; 0].

(** A library that needs [libc.so.6] and [libnvidia-glcore.so.1]. *)
Definition example : elftool := mkElftool 3 (mkObject
  [mkSection (mkShdr 1 SHT_NOTE 0 0) (abi_note 0 2 3 99);
   mkSection (mkShdr 2 SHT_DYNAMIC 5 16)
     (le8 DT_NEEDED ++ le8 10 ++ le8 14 ++ le8 0 ++ le8 DT_NEEDED ++ le8 20)]
  [(0, 1, ".note.ABI-tag"); (0, 2, ".dynamic"); (5, 10, "libc.so.6"); (5, 20, "libnvidia-glcore.so.1")]) "lib".

Example abi_of_example : elftool_has_abi example (2, 3, 99) init_st = Ret (init_st, Some true).
Proof. reflexivity. Qed.
Example abi_of_example_other : elftool_has_abi example (2, 3, 100) init_st = Ret (init_st, Some false).
Proof. reflexivity. Qed.
Example example_needs : elftool_has_dependency example "libnvidia-glcore.so" init_st = Ret (init_st, Some true).
Proof. reflexivity. Qed.
Example example_needs_not : elftool_has_dependency example "libnvidia-eglcore.so" init_st = Ret (init_st, Some false).
Proof. reflexivity. Qed.
End Object.
