(* ===== verification/Driver.v ===== *)
(** * The driver service

    [src/src/driver.c], the errors of [src/src/error.c] it uses and the
    [call_rpc] of [src/src/rpc.h]: a client asks a service process, which runs
    with reduced privileges, to query the management library.  A device is the
    slot of the table of handles its pointer points to. *)
From stdpp Require Import pretty.
From S2P Require Import Prelude CString Effects Logic Errors Utils Paths Files Types Devices.

(** ** Errors that travel *)

(** [error_set_nvml]: [errmsg] is the text of the library for [errcode]. *)
Definition error_set_nvml (errcode : Z) (errmsg text : string) : M Z := error_vset errcode (Some errmsg) text.

Definition RPC_CANTENCODEARGS : Z := 1.
Definition RPC_CANTDECODERES : Z := 2.
Definition RPC_CANTSEND : Z := 3.
Definition RPC_CANTRECV : Z := 4.
Definition RPC_VERSMISMATCH : Z := 6.
Definition RPC_PROGUNAVAIL : Z := 8.
Definition RPC_PROGVERSMISMATCH : Z := 9.
Definition RPC_PROCUNAVAIL : Z := 10.
Definition RPC_CANTDECODEARGS : Z := 11.
Definition RPC_SYSTEMERROR : Z := 12.
Definition RPC_UNKNOWNHOST : Z := 13.
Definition RPC_PMAPFAILURE : Z := 14.
Definition RPC_PROGNOTREGISTERED : Z := 15.
Definition RPC_UNKNOWNPROTO : Z := 17.

(** [error_set_rpc]; [sperr] is what [clnt_sperrno] says. *)
Definition error_set_rpc (errcode : Z) (sperr text : string) : M Z :=
  let errmsg :=
    if existsb (Z.eqb errcode) [RPC_CANTSEND; RPC_CANTRECV; RPC_CANTENCODEARGS; RPC_CANTDECODERES;
                                RPC_CANTDECODEARGS]
    then "failed to process request"
    else if existsb (Z.eqb errcode) [RPC_VERSMISMATCH; RPC_PROGUNAVAIL; RPC_PROGVERSMISMATCH;
                                     RPC_PROCUNAVAIL; RPC_UNKNOWNHOST; RPC_UNKNOWNPROTO; RPC_PMAPFAILURE;
                                     RPC_PROGNOTREGISTERED]
    then "failed to perform handshake"
    else if strneq 5 sperr "RPC: " then str_drop 5 sperr else sperr in
  error_vset errcode (Some errmsg) text.

Definition ELIBACC : Z := 79.
Definition error_set_dl (dlerr text : string) : M Z := error_vset ELIBACC (Some dlerr) text.

Definition xdlopen (lib : string) : M (option unit) :=
  let* r := call (EDlopen lib) in
  match r with
  | None => ret (Some tt)
  | Some dlerr => do error_set_dl dlerr ("load library failed") in ret None
  end.

(** The result of a procedure, as [nvc_rpc.x] declares it: a union over the
    error code. *)
Inductive xres (A : Type) := XOk (a : A) | XErr (errcode : Z) (errmsg : option string).
Arguments XOk {A}. Arguments XErr {A}.

(** What can be sent: the value of a zeroed result, and whether the encoder
    accepts a value ([NULL] is not a string). *)
Class Xdr (A : Type) := { xdr_zero : A; xdr_ok : A -> bool }.
#[export] Instance sends_unit : Xdr unit := {| xdr_zero := tt; xdr_ok := fun _ => true |}.
#[export] Instance sends_Z : Xdr Z := {| xdr_zero := 0; xdr_ok := fun _ => true |}.
#[export] Instance sends_pair : Xdr (Z * Z) := {| xdr_zero := (0, 0); xdr_ok := fun _ => true |}.
#[export] Instance sends_triple : Xdr (Z * (Z * Z)) := {| xdr_zero := (0, (0, 0)); xdr_ok := fun _ => true |}.
#[export] Instance sends_string : Xdr (option string) :=
  {| xdr_zero := None; xdr_ok := fun s => match s with Some _ => true | None => false end |}.

(** [error_to_xdr(err, res)]: the message is copied with the result as the
    [struct error], which reports a failure of the copy itself; the code is an
    [int]. *)
Definition error_to_xdr {A} `{Xdr A} (e : option error) : M (xres A) :=
  match e with
  | Some (mkError code msg) =>
      let code := to_int32 code in
      if code =? 0 then ret (XOk xdr_zero)
      else match msg with
           | None => halt (Undefined "strdup(NULL)")
           | Some m =>
               let* r := with_err err0 (xstrdup m) in
               match r with
               | (Some m, _) => ret (XErr code (Some m))
               | (None, Some (mkError code msg)) => ret (XErr (to_int32 code) msg)
               | (None, None) => ret (XOk xdr_zero)
               end
           end
  | None => ret (XOk xdr_zero)
  end.

(** A service procedure: it has a [struct error] of its own, and sends it back
    when it fails. *)
Definition service {A} `{Xdr A} (m : M (option A)) : M (xres A) :=
  let* r := with_err err0 m in
  match fst r with
  | Some a => ret (XOk a)
  | None => error_to_xdr (snd r)
  end.

(** [error_from_xdr(err, res)]: the code and a copy of the message of a result. *)
Definition error_from_xdr (code : Z) (m : string) : M unit :=
  let? copy := xstrdup m else ret tt in
  let* e := get_err in
  match e with
  | Some _ => set_err (Some (mkError code (Some copy)))
  | None => halt (Undefined "error_from_xdr(NULL)")
  end.

(** [call_rpc]: the request is sent, the service runs the procedure and replies.
    The transport may fail before the procedure runs, and after: the reply is lost
    or comes too late. *)
Definition call_rpc {A} `{Xdr A} (prog : string) (svc : M (xres A)) : M (option A) :=
  let failed code text := do error_set_rpc code text (prog +:+ " rpc error") in ret None in
  let* sent := call (ERpc prog) in
  match sent with
  | Some (code, text) => failed code text
  | None =>
      let* r := svc in
      let* received := call (ERpcReply prog) in
      match received with
      | Some (code, text) => failed code text
      | None =>
          let unsent := failed RPC_SYSTEMERROR "RPC: Remote system error" in
          match r with
          | XOk a => if xdr_ok a then ret (Some a) else unsent
          | XErr _ None => unsent
          | XErr code (Some m) => do error_from_xdr code m in ret None
          end
      end
  end.

(** ** The management library *)

Definition NVML_SUCCESS : Z := 0.
Definition NVML_ERROR_NOT_SUPPORTED : Z := 3.
Definition NVML_ERROR_NOT_FOUND : Z := 6.
Definition NVML_ERROR_FUNCTION_NOT_FOUND : Z := 13.
Definition NVML_DEVICE_MIG_ENABLE : Z := 1.

(** [call_nvml] and [call_xdxml]: the values of the call, or the error set. *)
Definition call_lib (text sym : string) (args : list Z) : M (option dval) :=
  let* r := call (EDriver sym args) in
  match r with
  | inl (code, errmsg) => do error_set_nvml code errmsg text in ret None
  | inr v => ret (Some v)
  end.
Definition call_nvml (sym : string) (args : list Z) : M (option dval) := call_lib "nvml error" sym args.
Definition call_xdxml (sym : string) (args : list Z) : M (option dval) := call_lib "xdxml error" sym args.

Definition as_num (v : dval) (i : nat) : Z :=
  match v with DNums l => nth i l 0 | DStr _ => 0 end.
Definition as_str (v : dval) : string := match v with DStr s => s | DNums _ => EmptyString end.

(** [&deviceHandles[i]] and [&handle->mig[j]]. *)
Inductive handle := HDev (i : Z) | HMig (i j : Z).
Definition handle_args (h : handle) : list Z := match h with HDev i => [i] | HMig i j => [i; j] end.
#[export] Instance sends_handle : Xdr (option handle) := {| xdr_zero := None; xdr_ok := fun _ => true |}.

Definition MAX_DEVICES : Z := 64.
Definition MAX_MIG_DEVICES : Z := 8.

(** [struct driver], as far as the service reads it. *)
Record driver := mkDriver { d_root : string; d_nvml_path : string; d_uid : Z; d_gid : Z }.

(** ** Procedures of the service *)

(** [if (call < 0) goto fail] *)
Definition driver_init_1_svc (ctx : driver) : M (xres unit) :=
  service (
    let? _ :=
      (if negb (str_equal (d_root ctx) "/") then
         let? _ := xdlopen "libm.so.6" else ret None in
         let? _ := xdlopen "librt.so.1" else ret None in
         let? _ := xdlopen "libpthread.so.0" else ret None in
         let fail := do error_set "change root failed" in ret None in
         let* r := call (EChroot (d_root ctx)) in
         let? _ := trap r else fail in
         let* r := call (EChdir "/") in
         let? _ := trap r else fail in
         ret (Some tt)
       else ret (Some tt)) else ret None in
    let* egid := call EGetegid in
    let? _ := perm_drop_privileges (d_uid ctx) (d_gid ctx) (negb (egid =? d_gid ctx)) else ret None in
    let? _ := perm_set_capabilities CAP_PERMITTED [] else ret None in
    let? _ := xdlopen (d_nvml_path ctx) else ret None in
    let? _ := call_xdxml "xdxml_init" [] else ret None in
    ret (Some tt)).

Definition driver_shutdown_1_svc : M (xres unit) :=
  service (let? _ := call_xdxml "xdxml_shutdown" [] else ret None in ret (Some tt)).

(** A string the library gives, copied into the result. *)
Definition dup_result (s : string) : M (option (option string)) :=
  let? s := xstrdup s else ret None in ret (Some (Some s)).

Definition driver_get_rm_version_1_svc : M (xres (option string)) :=
  service (let? v := call_nvml "nvmlSystemGetDriverVersion" [] else ret None in dup_result (as_str v)).

Definition driver_get_cuda_version_1_svc : M (xres (Z * Z)) :=
  service (
    let? v := call_nvml "nvmlSystemGetCudaDriverVersion" [] else ret None in
    let version := to_uint32 (as_num v 0) in
    ret (Some (version / 1000, (version mod 100) / 10))).

Definition driver_get_device_count_1_svc : M (xres Z) :=
  service (let? v := call_xdxml "xdxml_device_get_count" [] else ret None in ret (Some (to_uint32 (as_num v 0)))).

Definition driver_get_device_1_svc (idx : Z) : M (xres (option handle)) :=
  service (
    if MAX_DEVICES <=? idx then do error_setx "too many devices" in ret None
    else
      let? _ := call_xdxml "xdxml_device_get_handle_by_index" [idx] else ret None in
      ret (Some (Some (HDev idx)))).

Definition driver_get_device_minor_1_svc (h : handle) : M (xres Z) :=
  service (
    let? v := call_xdxml "xdxml_device_get_minor_number" (handle_args h) else ret None in
    ret (Some (to_uint32 (as_num v 0)))).

(** [%0<width>lx]: at least [width] digits of a 64-bit number. *)
Definition print_hex64 (width : nat) (z : Z) : string :=
  let s := print_hex_loop 16 (to_uint64 z) EmptyString in
  pad0 (Nat.max width 1 - String.length s) s.

Definition driver_get_device_busid_1_svc (h : handle) : M (xres (option string)) :=
  service (
    let? pci := call_xdxml "xdxml_device_get_pci_info" (handle_args h) else ret None in
    let? s := xasprintf (print_hex64 8 (as_num pci 0) +:+ ":" +:+ print_hex64 2 (as_num pci 1) +:+ ":" +:+
                         print_hex64 2 (as_num pci 2) +:+ ".0") else ret None in
    ret (Some (Some s))).

Definition driver_get_device_uuid_1_svc (h : handle) : M (xres (option string)) :=
  service (let? v := call_xdxml "xdxml_device_get_uuid" (handle_args h) else ret None in dup_result (as_str v)).

Definition driver_get_device_model_1_svc (h : handle) : M (xres (option string)) :=
  service (let? v := call_xdxml "xdxml_device_get_product_name" (handle_args h) else ret None in
           dup_result (as_str v)).

(** The names of [nvmlBrandType_t]. *)
Definition brand_name (b : Z) : string :=
  if b =? 1 then "Quadro" else if b =? 2 then "Tesla" else if b =? 3 then "NVS"
  else if b =? 4 then "GRID" else if b =? 5 then "GeForce" else if b =? 6 then "TITAN"
  else if b =? 7 then "VApps" else if b =? 8 then "VPC" else if b =? 9 then "VCS"
  else if b =? 10 then "VWS" else if b =? 11 then "CloudGaming" else if b =? 12 then "QuadroRTX"
  else if b =? 13 then "NvidiaRTX" else if b =? 14 then "Nvidia" else if b =? 15 then "GeForceRTX"
  else if b =? 16 then "TitanRTX" else "Unknown".

Definition driver_get_device_brand_1_svc (h : handle) : M (xres (option string)) :=
  service (let? v := call_nvml "nvmlDeviceGetBrand" (handle_args h) else ret None in
           dup_result (brand_name (as_num v 0))).

Definition driver_get_device_arch_1_svc (h : handle) : M (xres (Z * Z)) :=
  service (let? v := call_nvml "nvmlDeviceGetCudaComputeCapability" (handle_args h) else ret None in
           ret (Some (to_uint32 (as_num v 0), to_uint32 (as_num v 1)))).

(** [struct driver_device_mig_mode]: the error of the library, the current and the
    pending mode.  After an error the modes are those of the variables of the
    procedure, that nothing has written: whatever they hold is sent. *)
Definition driver_get_device_mig_mode_1_svc (h : handle) : M (xres (Z * (Z * Z))) :=
  let* r := with_err err0 (call_nvml "nvmlDeviceGetMigMode" (handle_args h)) in
  match fst r with
  | Some v => ret (XOk (0, (to_uint32 (as_num v 0), to_uint32 (as_num v 1))))
  | None =>
      let* current := call EGarbage in
      let* pending := call EGarbage in
      ret (XOk (match snd r with Some e => to_int32 (code e) | None => 0 end, (to_uint32 current, to_uint32 pending)))
  end.

Definition driver_get_device_max_mig_device_count_1_svc (h : handle) : M (xres Z) :=
  service (let? v := call_nvml "nvmlDeviceGetMaxMigDeviceCount" (handle_args h) else ret None in
           ret (Some (to_uint32 (as_num v 0)))).

Definition driver_get_device_mig_device_1_svc (h : handle) (idx : Z) : M (xres (option handle)) :=
  if MAX_MIG_DEVICES <=? idx then
    service (do error_setx "too many MIG devices" in ret None)
  else
    let* r := with_err err0 (call_nvml "nvmlDeviceGetMigDeviceHandleByIndex" (handle_args h ++ [idx])) in
    match fst r with
    | Some _ => ret (XOk (Some (HMig (match h with HDev i => i | HMig i _ => i end) idx)))
    | None =>
        if match snd r with Some e => code e | None => 0 end =? NVML_ERROR_NOT_FOUND
        then ret (XOk None) else error_to_xdr (snd r)
    end.

Definition driver_get_device_gpu_instance_id_1_svc (h : handle) : M (xres Z) :=
  service (let? v := call_nvml "nvmlDeviceGetGpuInstanceId" (handle_args h) else ret None in
           ret (Some (to_uint32 (as_num v 0)))).

Definition driver_get_device_compute_instance_id_1_svc (h : handle) : M (xres Z) :=
  service (let? v := call_nvml "nvmlDeviceGetComputeInstanceId" (handle_args h) else ret None in
           ret (Some (to_uint32 (as_num v 0)))).

(** ** The client *)

(** Ask for a string and copy it. *)
Definition rpc_string (svc : M (xres (option string))) : M (option string) :=
  let? s := call_rpc "driver" svc else ret None in
  match s with
  | Some s => xstrdup s
  | None => halt (Undefined "strdup(NULL)")
  end.

Definition print_version (v : Z * Z) : string := print_Z (fst v) +:+ "." +:+ print_Z (snd v).

Definition driver_get_rm_version : M (option string) := rpc_string driver_get_rm_version_1_svc.
Definition driver_get_cuda_version : M (option string) :=
  let? v := call_rpc "driver" driver_get_cuda_version_1_svc else ret None in xasprintf (print_version v).
Definition driver_get_device_count : M (option Z) := call_rpc "driver" driver_get_device_count_1_svc.
Definition driver_get_device (idx : Z) : M (option (option handle)) :=
  call_rpc "driver" (driver_get_device_1_svc idx).
Definition driver_get_device_minor (h : handle) : M (option Z) :=
  call_rpc "driver" (driver_get_device_minor_1_svc h).
Definition driver_get_device_busid (h : handle) : M (option string) := rpc_string (driver_get_device_busid_1_svc h).
Definition driver_get_device_uuid (h : handle) : M (option string) := rpc_string (driver_get_device_uuid_1_svc h).
Definition driver_get_device_model (h : handle) : M (option string) := rpc_string (driver_get_device_model_1_svc h).
Definition driver_get_device_brand (h : handle) : M (option string) := rpc_string (driver_get_device_brand_1_svc h).
Definition driver_get_device_arch (h : handle) : M (option string) :=
  let? v := call_rpc "driver" (driver_get_device_arch_1_svc h) else ret None in xasprintf (print_version v).

(** [driver_get_device_mig_enabled] and [driver_get_device_mig_capable]. *)
Definition driver_get_device_mig_enabled (h : handle) : M (option bool) :=
  let? mode := call_rpc "driver" (driver_get_device_mig_mode_1_svc h) else ret None in
  if fst mode =? NVML_SUCCESS then ret (Some (fst (snd mode) =? NVML_DEVICE_MIG_ENABLE))
  else if (fst mode =? NVML_ERROR_FUNCTION_NOT_FOUND) || (fst mode =? NVML_ERROR_NOT_SUPPORTED)
  then ret (Some false) else ret None.

Definition driver_get_device_mig_capable (h : handle) : M (option bool) :=
  let? mode := call_rpc "driver" (driver_get_device_mig_mode_1_svc h) else ret None in
  if fst mode =? NVML_SUCCESS then ret (Some true)
  else if (fst mode =? NVML_ERROR_FUNCTION_NOT_FOUND) || (fst mode =? NVML_ERROR_NOT_SUPPORTED)
  then ret (Some false) else ret None.

Definition driver_get_device_max_mig_device_count (h : handle) : M (option Z) :=
  call_rpc "driver" (driver_get_device_max_mig_device_count_1_svc h).
Definition driver_get_device_mig_device (h : handle) (idx : Z) : M (option (option handle)) :=
  call_rpc "driver" (driver_get_device_mig_device_1_svc h idx).
Definition driver_get_device_gpu_instance_id (h : handle) : M (option Z) :=
  call_rpc "driver" (driver_get_device_gpu_instance_id_1_svc h).
Definition driver_get_device_compute_instance_id (h : handle) : M (option Z) :=
  call_rpc "driver" (driver_get_device_compute_instance_id_1_svc h).

(** ** What the procedures do *)

(** Queries only talk to the service, to the library, and allocate. *)
Definition rpc_stops (w : stop) : Prop :=
  w = Undefined "strdup(NULL)" \/ w = Undefined "error_from_xdr(NULL)".

Lemma error_set_nvml_ens c em text : ErrText text -> ensures (only [KLib]) no_stop (error_set_nvml c em text) any.
Proof. apply error_vset_ens. Qed.
Lemma error_set_rpc_ens c em text : ErrText text -> ensures (only [KLib]) no_stop (error_set_rpc c em text) any.
Proof. apply error_vset_ens. Qed.
Lemma error_set_dl_ens em text : ErrText text -> ensures (only [KLib]) no_stop (error_set_dl em text) any.
Proof. apply error_vset_ens. Qed.
#[export] Hint Resolve error_set_nvml_ens error_set_rpc_ens error_set_dl_ens : ens.

Lemma xdlopen_ens lib : ensures (only [KLib; KDev]) no_stop (xdlopen lib) any.
Proof. unfold xdlopen. ens. Qed.
Lemma call_xdxml_ens sym args : ensures (only [KLib; KDev]) no_stop (call_xdxml sym args) any.
Proof. unfold call_xdxml, call_lib. ens. Qed.
Lemma call_nvml_ens sym args : ensures (only [KLib; KDev]) no_stop (call_nvml sym args) any.
Proof. unfold call_nvml, call_lib. ens. Qed.
#[export] Hint Resolve xdlopen_ens call_xdxml_ens call_nvml_ens : ens.

(** What a procedure sends: a value with [R], or an error code, an [int]. *)
Definition sends {A} (R : A -> Prop) (r : xres A) : Prop :=
  match r with XOk a => R a | XErr c _ => - 2 ^ 31 <= c < 2 ^ 31 end.

Lemma to_int32_range z : - 2 ^ 31 <= to_int32 z < 2 ^ 31.
Proof. by apply (sint_wrap_range 32). Qed.

Lemma error_to_xdr_lib {A} `{Xdr A} (e : option error) :
  ensures (only [KLib]) (fun w => w = Undefined "strdup(NULL)") (error_to_xdr (A := A) e) (sends (fun a => a = xdr_zero)).
Proof.
  destruct e as [[c m]|]; [|by apply ensures_ret]. unfold error_to_xdr. cbv zeta.
  destruct (to_int32 c =? 0); [by apply ensures_ret|]. destruct m as [m|]; [|by apply ensures_halt].
  eapply ensures_bind with (R := any).
  { eapply ensures_with_err; [|done]. eapply ensures_weaken; [apply xstrdup_ens|done|done|intros ? HR; exact HR]. }
  intros [[m'|] [[c' m'']|]] _; apply ensures_ret; cbn; auto using to_int32_range.
Qed.

Lemma error_from_xdr_ens c m :
  ensures (only [KLib]) (fun w => w = Undefined "error_from_xdr(NULL)") (error_from_xdr c m) any.
Proof.
  unfold error_from_xdr. eapply ensures_bind with (R := any).
  { eapply ensures_weaken; [apply xstrdup_ens|done|done|done]. }
  intros [copy|] _; [|by apply ensures_ret]. ens.
Qed.

Section Rpc.
Context {A : Type} `{Xdr A} (P : event -> Prop) (H0 : stop -> Prop).
Hypothesis HP : forall ev, only [KLib; KDev] ev -> P ev.
Hypothesis HH : forall w, rpc_stops w -> H0 w.

Lemma P_lib ev : only [KLib] ev -> P ev.
Proof. intros Hev. apply HP. revert Hev. by apply only_mono. Qed.

Lemma error_to_xdr_ens (e : option error) :
  ensures P H0 (error_to_xdr (A := A) e) (sends (fun a => a = xdr_zero)).
Proof using HP HH.
  eapply ensures_weaken; [apply error_to_xdr_lib|apply P_lib|intros w ->; apply HH; by left|done].
Qed.

Lemma service_ens (m : M (option A)) (R : A -> Prop) :
  ensures P H0 m (fun r => match r with Some a => R a | None => True end) ->
  ensures P H0 (service m) (sends (fun a => R a \/ a = xdr_zero)).
Proof using HP HH.
  intros Hm. unfold service. eapply ensures_bind.
  - apply (ensures_with_err _ _ _ _ _ (fun p => match fst p with Some a => R a | None => True end) Hm).
    intros [a|] e' Ha; done.
  - intros [[a|] e] Ha; [apply ensures_ret; by left|]. cbn [fst snd].
    eapply ensures_post; [apply error_to_xdr_ens|]. intros [a|c m'] Hr; [by right|done].
Qed.

Lemma call_rpc_ens prog (svc : M (xres A)) (R : A -> Prop) :
  ErrText (prog +:+ " rpc error") ->
  ensures P H0 svc (fun r => match r with XOk a => R a | XErr _ _ => True end) ->
  ensures P H0 (call_rpc prog svc)
    (fun r => match r with Some a => R a /\ xdr_ok a = true | None => True end).
Proof using HP HH.
  intros Ht Hs. unfold call_rpc.
  assert (forall c em, ensures P H0 (do error_set_rpc c em (prog +:+ " rpc error") in ret None)
    (fun r : option A => match r with Some a => R a /\ xdr_ok a = true | None => True end)) as Herr.
  { intros c em. eapply ensures_bind with (R := any); [|intros; by apply ensures_ret].
    eapply ensures_weaken; [by apply error_set_rpc_ens|apply P_lib|done|done]. }
  eapply ensures_bind with (R := any); [apply ensures_call; [intros r; by apply HP|done]|].
  intros [[c em]|] _; [apply Herr|].
  eapply ensures_bind; [apply Hs|]. intros r Ha.
  eapply ensures_bind with (R := any); [apply ensures_call; [intros ?; by apply HP|done]|].
  intros [[c em]|] _; [apply Herr|]. destruct r as [a|c m].
  - destruct (xdr_ok a) eqn:E; [by apply ensures_ret|apply Herr].
  - destruct m as [m|]; [|apply Herr]. eapply ensures_bind with (R := any); [|intros; by apply ensures_ret].
    eapply ensures_weaken; [apply error_from_xdr_ens|apply P_lib|intros w ->; apply HH; by right|done].
Qed.

Lemma call_rpc_sends prog (svc : M (xres A)) (R : A -> Prop) :
  ErrText (prog +:+ " rpc error") -> ensures P H0 svc (sends R) ->
  ensures P H0 (call_rpc prog svc)
    (fun r => match r with Some a => R a /\ xdr_ok a = true | None => True end).
Proof using HP HH. intros Ht Hs. apply call_rpc_ens; [done|]. eapply ensures_post; [exact Hs|]. by intros []. Qed.
End Rpc.

Lemma driver_get_device_count_ens :
  ensures (only [KLib; KDev]) rpc_stops driver_get_device_count
    (fun r => match r with Some n => 0 <= n < 2 ^ 32 | None => True end).
Proof.
  eapply ensures_post; [apply call_rpc_sends; [done|done|typeclasses eauto|]|].
  - apply (service_ens _ _ (fun ev H => H) (fun w H => H) _ (fun n => 0 <= n < 2 ^ 32)).
    ens. apply uint_wrap_range. lia.
  - intros [n|]; [|done]. cbn. intros [[?| ->] _]; [done|lia].
Qed.

(** A slot of the table of handles. *)
Definition slot (idx : Z) (r : option (option handle)) : Prop :=
  match r with Some (Some h) => h = HDev idx /\ idx < MAX_DEVICES | _ => True end.

Lemma driver_get_device_ens idx :
  ensures (only [KLib; KDev]) rpc_stops (driver_get_device idx) (slot idx).
Proof.
  eapply ensures_post; [apply call_rpc_sends; [done|done|typeclasses eauto|]|].
  - apply (service_ens _ _ (fun ev H => H) (fun w H => H) _
             (fun h => match h with Some h => h = HDev idx /\ idx < MAX_DEVICES | None => True end)).
    ens. bool_hyps. by split.
  - intros [[h|]|]; [|done..]. cbn. intros [[?|?] _]; done.
Qed.

Lemma rpc_string_ens svc :
  ensures (only [KLib; KDev]) rpc_stops svc (sends any) ->
  ensures (only [KLib; KDev]) rpc_stops (rpc_string svc) any.
Proof.
  intros Hs. unfold rpc_string. eapply ensures_bind.
  - apply (call_rpc_sends _ _ (fun ev H => H) (fun w H => H) _ _ any); [typeclasses eauto|exact Hs].
  - intros [[x|]|] Hx; [|by destruct Hx|ens]. ens.
Qed.

Lemma service_query_ens {A} `{Xdr A} (m : M (option A)) :
  ensures (only [KLib; KDev]) rpc_stops m any -> ensures (only [KLib; KDev]) rpc_stops (service m) (sends any).
Proof.
  intros Hm. eapply ensures_post; [apply (service_ens _ _ (fun ev H => H) (fun w H => H) m any)|by intros []].
  eapply ensures_post; [exact Hm|]. by intros [].
Qed.

Lemma dup_result_ens s : ensures (only [KLib]) no_stop (dup_result s) any.
Proof. unfold dup_result. ens. Qed.
#[export] Hint Resolve driver_get_device_count_ens driver_get_device_ens dup_result_ens : ens.

Lemma driver_get_device_busid_ens h : ensures (only [KLib; KDev]) rpc_stops (driver_get_device_busid h) any.
Proof. apply rpc_string_ens, service_query_ens. ens. Qed.
Lemma driver_get_device_uuid_ens h : ensures (only [KLib; KDev]) rpc_stops (driver_get_device_uuid h) any.
Proof. apply rpc_string_ens, service_query_ens. ens. Qed.
Lemma driver_get_device_model_ens h : ensures (only [KLib; KDev]) rpc_stops (driver_get_device_model h) any.
Proof. apply rpc_string_ens, service_query_ens. ens. Qed.
Lemma driver_get_device_minor_ens h :
  ensures (only [KLib; KDev]) rpc_stops (driver_get_device_minor h)
    (fun r => match r with Some n => 0 <= n < 2 ^ 32 | None => True end).
Proof.
  eapply ensures_post; [apply call_rpc_sends; [done|done|typeclasses eauto|]|].
  - apply (service_ens _ _ (fun ev H => H) (fun w H => H) _ (fun n => 0 <= n < 2 ^ 32)).
    ens. apply uint_wrap_range. lia.
  - intros [n|]; [|done]. cbn. intros [[?| ->] _]; [done|lia].
Qed.
#[export] Hint Resolve driver_get_device_busid_ens driver_get_device_uuid_ens driver_get_device_model_ens
  driver_get_device_minor_ens : ens.

(** ** The privileges of the service *)

(** The identity of the service, the capabilities it keeps, and whether the
    management library ran before both were given up. *)
Record jail := mkJail { j_privs : privs; j_caps : option cap_state * option cap_state; j_bad : bool }.

Definition jailed (uid gid : Z) (g : jail) : bool :=
  (p_uid (j_privs g) =? uid) && (p_gid (j_privs g) =? gid) && p_nnp (j_privs g) &&
  match snd (j_caps g) with Some c => bool_decide (cap_permitted c = ∅ /\ cap_effective c = ∅) | None => false end.

Definition jail_step (uid gid : Z) (g : jail) (ev : event) : jail :=
  let bad := match ev_call ev with
             | EDriver _ _ => j_bad g || negb (jailed uid gid g)
             | EDlopen lib =>
                 if str_array_match lib ["libm.so.6"; "librt.so.1"; "libpthread.so.0"] then j_bad g
                 else j_bad g || negb (jailed uid gid g)
             | _ => j_bad g
             end in
  mkJail (priv_step (j_privs g) ev) (cap_step (j_caps g) ev) bad.

Lemma jail_cred_bad uid gid ev g : only [KLib; KCred] ev -> j_bad (jail_step uid gid g ev) = j_bad g.
Proof. destruct ev as [[] ?]; done. Qed.

Definition is_jailed uid gid (g : jail) : Prop := j_bad g = false /\ jailed uid gid g = true.

Lemma jail_same uid gid ev g : only [KLib; KDev] ev -> jailed uid gid (jail_step uid gid g ev) = jailed uid gid g.
Proof. destruct ev as [[] ?]; done. Qed.

(** Once jailed, the calls to the library are harmless. *)
Lemma jailed_stays {A} uid gid (m : M A) H R g :
  ensures (only [KLib; KDev]) H m R -> is_jailed uid gid g ->
  ghost (jail_step uid gid) m g (fun _ g' => is_jailed uid gid g').
Proof.
  intros Hm Hg s. eapply wp_mono; [|apply Hm]. intros t [[s' a]|w] [Ht _]; [|done].
  clear Hm. revert g Hg. induction Ht as [|ev t Hev _ IH]; intros g Hg; simpl; [done|].
  apply IH. destruct Hg as [Hb Hj]. split; [|by rewrite jail_same].
  unfold jail_step. cbn [j_bad]. rewrite Hb, Hj. destruct (ev_call ev); try done. by destruct (str_array_match _ _).
Qed.

(** Before it is jailed, the service only loads the libraries of the list. *)
Definition harmless (ev : event) : Prop :=
  match ev_call ev with
  | EDriver _ _ => False
  | EDlopen lib => str_array_match lib ["libm.so.6"; "librt.so.1"; "libpthread.so.0"] = true
  | _ => True
  end.

Lemma harmless_bad uid gid ev g : harmless ev -> j_bad (jail_step uid gid g ev) = j_bad g.
Proof. unfold harmless, jail_step. cbn. destruct (ev_call ev); try done. by intros ->. Qed.

Lemma harmless_lib ev : only [KLib] ev -> harmless ev.
Proof. by destruct ev as [[] ?]. Qed.

Lemma xdlopen_preload lib :
  str_array_match lib ["libm.so.6"; "librt.so.1"; "libpthread.so.0"] = true ->
  ensures harmless no_stop (xdlopen lib) any.
Proof. intros Hl. pose proof harmless_lib. unfold xdlopen. ens. Qed.

Definition cap_only (ev : event) : Prop :=
  match ev_call ev with
  | ECapGetProc | ECapSetProc _ => True
  | e => kind_of e = KLib
  end.
Lemma cap_only_lib ev : only [KLib] ev -> cap_only ev.
Proof. by destruct ev as [[] ?]. Qed.

Lemma perm_set_permitted_ens caps : ensures cap_only no_stop (perm_set_capabilities CAP_PERMITTED caps) any.
Proof. pose proof cap_only_lib. unfold perm_set_capabilities. ens. Qed.

Lemma cap_only_privs uid gid ev g :
  cap_only ev -> (j_privs (jail_step uid gid g ev), j_bad (jail_step uid gid g ev)) = (j_privs g, j_bad g).
Proof. destruct ev as [[] ?]; done. Qed.

Lemma preload_ens ctx :
  ensures harmless no_stop
    (if negb (str_equal (d_root ctx) "/") then
       let? _ := xdlopen "libm.so.6" else ret None in
       let? _ := xdlopen "librt.so.1" else ret None in
       let? _ := xdlopen "libpthread.so.0" else ret None in
       let fail := do error_set "change root failed" in ret None in
       let* r := call (EChroot (d_root ctx)) in
       let? _ := trap r else fail in
       let* r := call (EChdir "/") in
       let? _ := trap r else fail in
       ret (Some tt)
     else ret (Some tt)) any.
Proof.
  pose proof harmless_lib. destruct (negb _); [|ens].
  do 3 (eapply ensures_bind; [by apply xdlopen_preload|]; intros [[]|] _; [|ens]). ens.
Qed.

Lemma jail_enter ctx uid gid b g :
  j_bad g = false ->
  ghost (jail_step uid gid)
    (let? _ := perm_drop_privileges uid gid b else ret None in
     let? _ := perm_set_capabilities CAP_PERMITTED [] else ret None in
     let? _ := xdlopen (d_nvml_path ctx) else ret None in
     let? _ := call_xdxml "xdxml_init" [] else ret None in
     ret (Some tt)) g (fun _ g' => j_bad g' = false).
Proof.
  intros Hb. eapply ghost_bind.
  { apply ghost_and; [apply (ghost_proj _ priv_step j_privs); [done|apply perm_drop_privileges_ghost]|].
    eapply ghost_pres; [apply perm_drop_privileges_ens|intros ev g0; apply jail_cred_bad]. }
  intros [[]|] g1; intros [Hp [Hb1 _]]; [|apply ghost_ret; congruence].
  destruct Hp as (Hu & Hg & Hn & _).
  eapply ghost_bind.
  { apply ghost_and; [apply (ghost_proj _ cap_step j_caps); [done|by apply perm_set_capabilities_ghost]|].
    eapply (ghost_pres _ _ _ _ _ (fun g => (j_privs g, j_bad g)));
      [apply perm_set_permitted_ens|intros ev g0; apply cap_only_privs]. }
  intros [[]|] g2; intros [Hc [[= Hp2 Hb2] _]]; [|apply ghost_ret; congruence].
  destruct Hc as [c Hc].
  assert (is_jailed uid gid g2) as Hj.
  { split; [congruence|]. unfold jailed. rewrite Hp2, Hu, Hg, Hn, Hc, !Z.eqb_refl. simpl.
    apply bool_decide_eq_true. split; [done|]. apply leibniz_equiv. set_solver. }
  eapply ghost_bind; [eapply jailed_stays; [apply xdlopen_ens|done]|].
  intros [[]|] g3 Hj3; [|apply ghost_ret; apply Hj3].
  eapply ghost_bind; [eapply jailed_stays; [apply call_xdxml_ens|done]|].
  intros [v|] g4 Hj4; apply ghost_ret; apply Hj4.
Qed.

Lemma driver_init_jail ctx g :
  j_bad g = false ->
  ghost (jail_step (d_uid ctx) (d_gid ctx)) (driver_init_1_svc ctx) g (fun _ g' => j_bad g' = false).
Proof.
  intros Hb. unfold driver_init_1_svc, service. eapply ghost_bind with (R1 := fun _ g' => j_bad g' = false).
  - apply (ghost_with_err _ _ _ _ (fun _ g' => j_bad g' = false)); [|done].
    eapply ghost_bind; [eapply ghost_pres; [apply preload_ens|intros ev g0; apply harmless_bad]|].
    intros [[]|] g1 [Hb1 _]; [|apply ghost_ret; congruence].
    gstep. apply jail_enter. cbn. congruence.
  - intros [[[]|] e] g1 Hb1; [by apply ghost_ret|].
    cbn [fst]. eapply ghost_post; [eapply ghost_pres; [apply error_to_xdr_lib|]|].
    + intros ev g0 Hev. by apply harmless_bad, harmless_lib.
    + intros a g' [Hg' _]. congruence.
Qed.

(** C36: the service gives up its identity and all its permitted capabilities
    before it loads the management library and calls it. *)
Theorem driver_init_jailed (o : env) (ctx : driver) (s : st) (p : privs) c :
  match exec o (driver_init_1_svc ctx) s with
  | (t, Done _) => j_bad (fold_left (jail_step (d_uid ctx) (d_gid ctx)) t (mkJail p c false)) = false
  | _ => True
  end.
Proof.
  pose proof (ghost_run _ o _ _ _ s (driver_init_jail ctx (mkJail p c false) eq_refl)) as H.
  by destruct (exec o _ s) as [t [[s' r]|w]].
Qed.

(** ** Errors reach the client *)

(** When the management library fails in the service, the client gets the
    code of the library and its text, unless memory runs out. *)
Theorem driver_error_travels (o : env) (s : st) (e0 : error) (c : Z) (text : string) :
  err s = Some e0 ->
  (forall h, o h EAlloc = true) -> (forall h, o h (ERpc "driver") = None) -> (forall h, o h (ERpcReply "driver") = None) ->
  (forall h, o h (EDriver "xdxml_device_get_count" []) = inl (c, text)) -> c <> 0 -> - 2 ^ 31 <= c < 2 ^ 31 ->
  snd (exec o driver_get_device_count s) =
    Done (mkSt (errno s) (Some (mkError c (Some (format_errmsg "xdxml error" text)))), None).
Proof.
  intros He Ha Hr Hp Hd Hc Hi%(sint_wrap_id 32); [|lia]. destruct s as [n e]. simpl in He. subst e.
  assert (errmsg_has_colon "xdxml error" text = true) as Hcol by (apply err_text_plain; reflexivity).
  unfold exec, driver_get_device_count, call_rpc, driver_get_device_count_1_svc, service, call_xdxml, call_lib,
    error_set_nvml, error_vset, error_reset, bind, with_err.
  cbn -[errmsg_has_colon format_errmsg]. rewrite Hr. cbn -[errmsg_has_colon format_errmsg].
  rewrite Hd. cbn -[errmsg_has_colon format_errmsg]. rewrite !Ha. cbn -[errmsg_has_colon format_errmsg].
  rewrite !Ha. cbn -[errmsg_has_colon format_errmsg]. rewrite Hcol. cbn -[format_errmsg sint_wrap].
  rewrite Hi, (proj2 (Z.eqb_neq c 0) Hc). cbn -[format_errmsg sint_wrap]. rewrite !Ha. cbn -[format_errmsg sint_wrap].
  rewrite Hp. cbn -[format_errmsg sint_wrap]. rewrite !Ha. cbn -[format_errmsg]. done.
Qed.

Definition broken_gpu : env := fun _ e =>
  match e return resp e with
  | EDriver _ _ => inl (9, "Driver Not Loaded")
  | e => friendly e
  end.

Lemma driver_error_travels_witness :
  snd (exec broken_gpu driver_get_device_count init_st) =
    Done (mkSt 0 (Some (mkError 9 (Some "xdxml error: driver not loaded"))), None).
Proof.
  refine (driver_error_travels broken_gpu init_st (mkError 0 None) 9 "Driver Not Loaded" _ _ _ _ _ _ _);
    [reflexivity..|discriminate|lia].
Defined.
