(* ===== verification/Cgroup.v ===== *)
(** * The devices control group of a container

    [src/src/cgroup.c], which asks the Go service, and [src/src/cgroup_legacy.c],
    which reads [/proc]: two implementations of one interface. *)
From stdpp Require Import pretty.
From S2P Require Import Prelude CString Effects Logic Errors Options Utils Types Paths Files Devices Driver.

(** ** The interface *)

(** What [nvc_container.c] and [nvc_mount.c] use. *)
Class CgroupOps := {
  get_device_cgroup_version : nvc_container -> M (option Z);
  find_device_cgroup_path : nvc_container -> M (option string);
  setup_device_cgroup : nvc_container -> Z -> M (option unit)
}.

(** What they rely on: nothing is mounted, no namespace is entered and no file is
    made; the only write is to a file of the control group that is there. *)
Definition cgroup_event (ev : event) : Prop :=
  match ev_call ev with
  | EFwrite _ _ => True
  | _ => only [KLib; KRead; KCred; KDev] ev
  end.
Class CgroupLaws (ops : CgroupOps) (stops : stop -> Prop) : Prop := {
  version_law c : ensures cgroup_event stops (get_device_cgroup_version c) any;
  path_law c : ensures cgroup_event stops (find_device_cgroup_path c) any;
  setup_law c id : ensures cgroup_event stops (setup_device_cgroup c id) any
}.

Lemma cgroup_event_only ev : only [KLib; KRead; KCred; KDev] ev -> cgroup_event ev.
Proof. destruct ev as [[] ?]; done. Qed.
Lemma cgroup_event_lib ev : only [KLib] ev -> cgroup_event ev.
Proof. destruct ev as [[] ?]; done. Qed.
Lemma cgroup_event_read ev : only [KLib; KRead] ev -> cgroup_event ev.
Proof. destruct ev as [[] ?]; done. Qed.
Lemma cgroup_event_cred ev : only [KLib; KRead; KCred] ev -> cgroup_event ev.
Proof. destruct ev as [[] ?]; done. Qed.
Lemma cgroup_event_caps ev : only [KLib; KCred] ev -> cgroup_event ev.
Proof. destruct ev as [[] ?]; done. Qed.
Lemma cgroup_event_dev ev : only [KLib; KDev] ev -> cgroup_event ev.
Proof. destruct ev as [[] ?]; done. Qed.
#[export] Hint Resolve cgroup_event_only cgroup_event_lib cgroup_event_read cgroup_event_cred cgroup_event_caps
  cgroup_event_dev : ens.

Definition standalone (c : nvc_container) : bool := negb (Z.land (flags c) OPT_STANDALONE =? 0).

(** ** [cgroup.c] *)
Module Nvcgo.

(** A procedure of the Go service: it raises capabilities for the call and gives
    them up afterwards; its [rv] decides whether the error is sent back. *)
Definition with_caps {A} `{Xdr A} (p : phase) (body : M (Z * A)) : M (xres A) :=
  let* r := with_err err0 (
    let* ok := perm_set_capabilities CAP_EFFECTIVE (ecaps p) in
    let* r := match ok with
              | None => ret (-1, xdr_zero)
              | Some _ => body
              end in
    let* down := perm_set_capabilities CAP_EFFECTIVE [] in
    ret (match down with None => (-1, snd r) | Some _ => r end)) in
  let '((rv, a), e) := r in
  if rv <? 0 then error_to_xdr e else ret (XOk a).

(** [rv] is what the comparison gives, not what the call returned. *)
Definition nvcgo_get_device_cgroup_version_1_svc (proc_root : string) (pid : Z) : M (xres Z) :=
  with_caps NVC_CONTAINER (
    let* r := call (ECgroupVersion proc_root pid) in
    match r with
    | inl (_, rerr) => do error_setx ("failed to get device cgroup version: " +:+ rerr) in ret (1, 0)
    | inr version => ret (0, to_uint32 version)
    end).

Definition nvcgo_find_device_cgroup_path_1_svc (dev_cg_version : Z) (proc_root : string) (mp_pid rp_pid : Z)
  : M (xres (option string)) :=
  with_caps NVC_CONTAINER (
    let* r := call (ECgroupMount dev_cg_version proc_root mp_pid) in
    match r with
    | inl (_, rerr) => do error_setx ("failed to get device cgroup mount path: " +:+ rerr) in ret (-1, None)
    | inr (prefix, mount) =>
        let* r := call (ECgroupRoot dev_cg_version proc_root prefix rp_pid) in
        match r with
        | inl (_, rerr) => do error_setx ("failed to get device cgroup root path: " +:+ rerr) in ret (-1, None)
        | inr root =>
            let? path := path_new proc_root else ret (-1, None) in
            let? path := path_append path mount else ret (-1, None) in
            let? path := path_append path root else ret (-1, None) in
            let? path := xstrdup path else ret (0, None) in
            ret (0, Some path)
        end
    end).

Definition nvcgo_setup_device_cgroup_1_svc (dev_cg_version : Z) (dev_cg : string) (id : Z) : M (xres unit) :=
  with_caps NVC_MOUNT (
    let* r := call (ECgroup dev_cg_version dev_cg id) in
    match r with
    | Some (_, rerr) => do error_setx ("failed to add device rules: " +:+ rerr) in ret (-1, tt)
    | None => ret (0, tt)
    end).

Definition get_device_cgroup_version (cnt : nvc_container) : M (option Z) :=
  let proc_root := if standalone cnt then cc_rootfs (ccfg cnt) else "/" in
  let? vers := call_rpc "nvcgo" (nvcgo_get_device_cgroup_version_1_svc proc_root (cc_pid (ccfg cnt))) else ret None in
  let vers := to_int32 vers in
  if vers <? 0 then ret None else ret (Some vers).

Definition find_device_cgroup_path (cnt : nvc_container) : M (option string) :=
  let* pid := if standalone cnt then ret (cc_pid (ccfg cnt)) else call EGetppid in
  let proc_root := if standalone cnt then cc_rootfs (ccfg cnt) else "/" in
  let? r := call_rpc "nvcgo"
    (nvcgo_find_device_cgroup_path_1_svc (dev_cg_version cnt) proc_root pid (cc_pid (ccfg cnt))) else ret None in
  match r with
  | Some path => xstrdup path
  | None => halt (Undefined "strdup(NULL)")
  end.

Definition setup_device_cgroup (cnt : nvc_container) (id : Z) : M (option unit) :=
  match dev_cg cnt with
  | None => do error_set_rpc RPC_CANTENCODEARGS "" "nvcgo rpc error" in ret None
  | Some dev_cg => call_rpc "nvcgo" (nvcgo_setup_device_cgroup_1_svc (dev_cg_version cnt) dev_cg id)
  end.

#[export] Instance ops : CgroupOps :=
  {| Cgroup.get_device_cgroup_version := get_device_cgroup_version;
     Cgroup.find_device_cgroup_path := find_device_cgroup_path;
     Cgroup.setup_device_cgroup := setup_device_cgroup |}.
End Nvcgo.

(** ** [cgroup_legacy.c] *)
Module Legacy.

(** [strsep(&line, d)]: the token and the new [line]; both [NULL] at the end. *)
Definition sep (d : ascii) (line : option string) : option string * option string :=
  match strsep d line with
  | None => (None, None)
  | Some (tok, rest) => (Some tok, rest)
  end.

(** What a parser returns: the result and the prefix it leaves. *)
Definition cgroup_mount (line subsys : string) : M (option (string * string)) :=
  let '(_, l) := sep " " (Some line) in
  let '(_, l) := sep " " l in
  let '(_, l) := sep " " l in
  let '(root, l) := sep " " l in
  let '(mount, l) := sep " " l in
  match l with
  | None => halt (Undefined "strchr(NULL)")
  | Some l =>
      let '(_, l) := sep " " (strchr l "-") in
      let '(fstype, l) := sep " " l in
      let '(_, l) := sep " " l in
      let '(substr, _) := sep " " l in
      match root, mount, fstype, substr with
      | Some root, Some mount, Some fstype, Some substr =>
          if negb (str_equal root "") && negb (str_equal mount "") && negb (str_equal fstype "")
             && negb (str_equal substr "") && str_equal fstype "cgroup"
             && (match strstr substr subsys with Some _ => true | None => false end)
             && negb ((PATH_MAX <=? strlen root) || str_has_prefix root "/..")
          then ret (Some (mount, root)) else ret None
      | _, _, _, _ => ret None
      end
  end.

Definition cgroup_root (line prefix subsys : string) : option string :=
  let '(hierarchy_id, l) := sep ":" (Some line) in
  let '(controller_list, l) := sep ":" l in
  match hierarchy_id, controller_list, l with
  | Some _, Some controller_list, Some cgroup_path =>
      if str_equal cgroup_path "" || str_equal controller_list "" then None
      else match strstr controller_list subsys with
           | None => None
           | Some _ =>
               if (PATH_MAX <=? strlen cgroup_path) || str_has_prefix cgroup_path "/.." then None
               else if negb (str_equal prefix "/") && str_has_prefix cgroup_path prefix
               then Some (str_drop (String.length prefix) cgroup_path)
               else Some cgroup_path
           end
  | _, _, _ => None
  end.

Definition newline : string := String "010" EmptyString.

(** The loop of [parse_proc_file]: the result of the first line that parses, and
    whether that line ended the file ([feof]). *)
Fixpoint parse_lines {A} (parse : string -> M (option A)) (lines : list string) : M (option (A * bool)) :=
  match lines with
  | [] => ret None
  | buf :: lines' =>
      let ptr := str_take (strcspn buf newline) buf in
      if Ascii.eqb (first_char ptr) NUL then parse_lines parse lines'
      else
        let* r := parse ptr in
        match r with
        | Some a => ret (Some (a, (String.length ptr =? String.length buf)%nat))
        | None => parse_lines parse lines'
        end
  end.

Definition parse_proc_file {A} (procf : string) (parse : string -> M (option A)) (subsys : string)
  : M (option A) :=
  let? fs := xfopen procf "r" else ret None in
  let* r := parse_lines parse (s_lines fs) in
  let notfound := do error_setx ("cgroup subsystem " +:+ subsys +:+ " not found") in ret None in
  match r with
  | None =>
      if s_error fs then do error_set ("read error: " +:+ procf) in ret None else notfound
  | Some (a, at_eof) =>
      if at_eof : bool then notfound
      else let? _ := xstrdup EmptyString else ret None in ret (Some a)
  end.

Definition get_device_cgroup_version (cnt : nvc_container) : M (option Z) := ret (Some 1).

Definition PROC_PID (pid : Z) : string := "/proc/" +:+ print_Z (to_int32 pid).

Definition find_device_cgroup_path (cnt : nvc_container) : M (option string) :=
  let* pid := if standalone cnt then ret (cc_pid (ccfg cnt)) else call EGetppid in
  let prefix := if standalone cnt then cc_rootfs (ccfg cnt) else "" in
  let? path := xsnprintf PATH_MAX (prefix +:+ PROC_PID pid +:+ "/mountinfo") else ret None in
  let? m := parse_proc_file path (fun l => cgroup_mount l "devices") "devices" else ret None in
  let '(mount, root_prefix) := m in
  let? path := xsnprintf PATH_MAX (prefix +:+ PROC_PID (cc_pid (ccfg cnt)) +:+ "/cgroup") else ret None in
  let? root := parse_proc_file path (fun l => ret (cgroup_root l root_prefix "devices")) "devices" else ret None in
  xasprintf (prefix +:+ mount +:+ root).

Definition setup_device_cgroup (cnt : nvc_container) (id : Z) : M (option unit) :=
  match dev_cg cnt with
  | None => halt (Undefined "path_join(NULL)")
  | Some dev_cg =>
      let? path := path_join dev_cg "devices.allow" else ret None in
      let? _ := xfopen path "a" else ret None in
      let* r := call (EFwrite path ("c " +:+ print_Z (major id) +:+ ":" +:+ print_Z (minor id) +:+ " rw")) in
      let* rv := trap r in
      match rv with
      | Some _ => ret (Some tt)
      | None => do error_set ("write error: " +:+ path) in ret None
      end
  end.

#[export] Instance ops : CgroupOps :=
  {| Cgroup.get_device_cgroup_version := get_device_cgroup_version;
     Cgroup.find_device_cgroup_path := find_device_cgroup_path;
     Cgroup.setup_device_cgroup := setup_device_cgroup |}.
End Legacy.

(** ** Both keep the interface *)

Module LegacyLaws.
Import Legacy.

Lemma cgroup_mount_ens l subsys :
  ensures (only [KLib]) (fun w => w = Undefined "strchr(NULL)") (cgroup_mount l subsys)
    (fun r => match r with Some (_, root) => str_has_prefix root "/.." = false /\ strlen root < PATH_MAX | None => True end).
Proof.
  unfold cgroup_mount. destruct (sep " " (Some l)) as [? l1], (sep " " l1) as [? l2], (sep " " l2) as [? l3],
    (sep " " l3) as [root l4], (sep " " l4) as [mount [l5|]]; [|by apply ensures_halt].
  destruct (sep " " (strchr l5 "-")) as [? l6], (sep " " l6) as [fstype l7], (sep " " l7) as [? l8], (sep " " l8) as [substr l9].
  ens; bool_hyps. split; [done|lia].
Qed.

(** The stops of this implementation. *)
Definition legacy_stops (w : stop) : Prop :=
  w = Undefined "strchr(NULL)" \/ w = Undefined "path_join(NULL)".

Lemma parse_lines_ens {A} P H (parse : string -> M (option A)) lines (R : A -> Prop) :
  (forall l, ensures P H (parse l) (fun r => match r with Some a => R a | None => True end)) ->
  ensures P H (parse_lines parse lines) (fun r => match r with Some (a, _) => R a | None => True end).
Proof.
  intros Hp. induction lines as [|l lines IH]; simpl; [ens|].
  destruct (Ascii.eqb _ NUL); [apply IH|]. eapply ensures_bind; [apply Hp|].
  intros [a|] Ha; [by apply ensures_ret|apply IH].
Qed.

Lemma parse_proc_file_ens {A} H procf (parse : string -> M (option A)) subsys (R : A -> Prop) :
  (forall l, ensures (only [KLib; KRead]) H (parse l) (fun r => match r with Some a => R a | None => True end)) ->
  ensures (only [KLib; KRead]) H (parse_proc_file procf parse subsys)
    (fun r => match r with Some a => R a | None => True end).
Proof.
  intros Hp. unfold parse_proc_file. ens_step. destruct a as [fs|]; [|ens].
  eapply ensures_bind; [by apply parse_lines_ens|].
  intros [[a [|]]|] Ha; ens.
Qed.
End LegacyLaws.

#[export] Instance legacy_laws : CgroupLaws Legacy.ops LegacyLaws.legacy_stops.
Proof.
  split.
  - intros c. cbn. unfold Legacy.get_device_cgroup_version. ens.
  - intros c. cbn. unfold Legacy.find_device_cgroup_path.
    eapply ensures_weaken with (P := only [KLib; KRead; KCred]) (H := LegacyLaws.legacy_stops) (R := any);
      [|apply cgroup_event_cred|done|done].
    eapply ensures_bind with (R := any); [destruct (standalone c); ens|]. intros pid _.
    eapply ensures_bind with (R := any); [ens|]. intros [path|] _; [|ens].
    eapply ensures_bind with (R := any).
    { eapply ensures_weaken with (P := only [KLib; KRead]); [|intros ?; by apply only_mono|done|done].
      apply (LegacyLaws.parse_proc_file_ens _ _ _ _ any). intros l.
      eapply ensures_weaken; [apply LegacyLaws.cgroup_mount_ens|intros ?; by apply only_mono|intros w ->; by left|by intros []]. }
    intros [[mount prefix]|] _; [|ens]. eapply ensures_bind with (R := any); [ens|]. intros [path'|] _; [|ens].
    eapply ensures_bind with (R := any).
    { eapply ensures_weaken with (P := only [KLib; KRead]); [|intros ?; by apply only_mono|done|done].
      apply (LegacyLaws.parse_proc_file_ens _ _ _ _ any). intros l. ens. by destruct (Legacy.cgroup_root _ _ _). }
    intros [root|] _; ens.
  - intros c id. cbn. pose proof path_join_ens. unfold Legacy.setup_device_cgroup.
    destruct (dev_cg c); [|apply ensures_halt; by right].
    eapply ensures_bind with (R := any);
      [eapply ensures_weaken; [apply path_join_ens|apply cgroup_event_lib|done|done]|].
    intros [path|] _; ens.
Qed.

Section NvcgoLaws.
Lemma with_caps_ens {A} `{Xdr A} p (body : M (Z * A)) :
  ensures cgroup_event rpc_stops body any -> ensures cgroup_event rpc_stops (Nvcgo.with_caps p body) (sends any).
Proof.
  intros Hb. unfold Nvcgo.with_caps. eapply ensures_bind with (R := any).
  - eapply ensures_with_err with (R := any); [|done]. ens_step. eapply ensures_bind with (R := any).
    { destruct a; [exact Hb|ens]. }
    intros r _. ens.
  - intros [[rv a] e] _. destruct (rv <? 0); [|ens].
    eapply ensures_post; [apply error_to_xdr_ens; [apply cgroup_event_dev|done]|by intros []].
Qed.

Lemma nvcgo_call_ens {A} `{Xdr A} (svc : M (xres A)) :
  ensures cgroup_event rpc_stops svc (sends any) -> ensures cgroup_event rpc_stops (call_rpc "nvcgo" svc) any.
Proof.
  intros Hs. eapply ensures_post; [apply (call_rpc_sends cgroup_event rpc_stops cgroup_event_dev (fun w H => H) _ _ any)|done].
  - typeclasses eauto.
  - exact Hs.
Qed.

Lemma path_append_any_ens buf path : strlen buf < PATH_MAX ->
  ensures cgroup_event rpc_stops (path_append buf path) (fun r => match r with Some s => strlen s < PATH_MAX | None => True end).
Proof.
  intros Hb. eapply ensures_weaken; [by apply path_append_ens|apply cgroup_event_lib|done|].
  intros [s|]; [by intros [? _]|done].
Qed.

#[export] Instance nvcgo_laws : CgroupLaws Nvcgo.ops rpc_stops.
Proof.
  split.
  - intros c. cbn. unfold Nvcgo.get_device_cgroup_version. eapply ensures_bind.
    { apply nvcgo_call_ens, with_caps_ens. ens. }
    intros [v|] _; ens.
  - intros c. cbn. unfold Nvcgo.find_device_cgroup_path.
    eapply ensures_bind with (R := any); [destruct (standalone c); ens|]. intros pid _.
    set (proc_root := if standalone c then _ else _). clearbody proc_root.
    eapply ensures_bind.
    { apply nvcgo_call_ens, with_caps_ens. ens_step. destruct a as [[]|[prefix mount]]; [ens|].
      ens_step. destruct a as [[]|root]; [ens|].
      eapply ensures_bind; [apply (path_append_any_ens EmptyString); by vm_compute|].
      intros [p1|] Hp1; [|ens]. eapply ensures_bind; [by apply path_append_any_ens|].
      intros [p2|] Hp2; [|ens]. eapply ensures_bind; [by apply path_append_any_ens|].
      intros [p3|] Hp3; ens. }
    intros [[r|]|] _; [ens| |ens]. apply ensures_halt. by left.
  - intros c id. cbn. unfold Nvcgo.setup_device_cgroup. destruct (dev_cg c); [|ens].
    apply nvcgo_call_ens, with_caps_ens. ens.
Qed.
End NvcgoLaws.

(** ** Reading what the kernel prints *)

Lemma split_at_app (d : ascii) (a rest : string) :
  str_mem d a = false -> split_at d (a +:+ String d rest) = (a, Some rest).
Proof.
  induction a as [|c a IH]; simpl; [by rewrite Ascii.eqb_refl|]. intros [Hc Ha]%orb_false_elim.
  rewrite Ascii.eqb_sym, Hc, IH by done. done.
Qed.

Lemma split_at_none (d : ascii) (a : string) : str_mem d a = false -> split_at d a = (a, None).
Proof.
  induction a as [|c a IH]; simpl; [done|]. intros [Hc Ha]%orb_false_elim.
  rewrite Ascii.eqb_sym, Hc, IH by done. done.
Qed.

Lemma sep_app (d : ascii) (a rest : string) :
  str_mem d a = false -> Legacy.sep d (Some (a +:+ String d rest)) = (Some a, Some rest).
Proof. intros Ha. unfold Legacy.sep, strsep. by rewrite split_at_app. Qed.

Lemma strchr_app (c : ascii) (a rest : string) :
  str_mem c a = false -> strchr (a +:+ String c rest) c = Some (String c rest).
Proof.
  induction a as [|c' a IH]; simpl; [by rewrite Ascii.eqb_refl|]. intros [Hc Ha]%orb_false_elim.
  rewrite Ascii.eqb_sym, Hc. by apply IH.
Qed.

(** A line of [/proc/<pid>/mountinfo]. *)
Definition mountinfo_line (id parent dev root mount opts fstype source super : string) : string :=
  id +:+ String " " (parent +:+ String " " (dev +:+ String " " (root +:+ String " " (mount +:+ String " "
  (opts +:+ String "-" (String " " (fstype +:+ String " " (source +:+ String " " super)))))))).

(** From the line of the mount table that mounts the devices controller,
    [cgroup_mount] takes the root of the mount and its mount point; lines of
    other file systems or controllers are skipped. *)
Theorem cgroup_mount_parses id parent dev root mount opts fstype source super subsys :
  Forall (fun f => str_mem " " f = false) [id; parent; dev; root; mount; fstype; source; super] ->
  str_mem "-" opts = false ->
  root <> "" -> mount <> "" -> fstype <> "" -> super <> "" ->
  strlen root < PATH_MAX -> str_has_prefix root "/.." = false ->
  Legacy.cgroup_mount (mountinfo_line id parent dev root mount opts fstype source super) subsys =
    ret (if str_equal fstype "cgroup" && match strstr super subsys with Some _ => true | None => false end
         then Some (mount, root) else None).
Proof.
  intros Hf Ho Hr Hm Hfs Hsu Hlen Hup.
  repeat (apply Forall_cons_1 in Hf as [? Hf]). unfold Legacy.cgroup_mount, mountinfo_line.
  rewrite !sep_app by done. rewrite strchr_app by done.
  change (String "-" (String " " ?x)) with ("-" +:+ String " " x).
  rewrite !sep_app by done. unfold Legacy.sep, strsep. rewrite split_at_none by done.
  unfold str_equal. rewrite !(proj2 (String.eqb_neq _ _)) by done. cbn [negb andb].
  rewrite Hup, (proj2 (Z.leb_gt _ _)) by done. cbn [orb negb]. rewrite andb_true_r.
  by destruct (_ && _).
Qed.

Lemma cgroup_mount_parses_witness :
  Legacy.cgroup_mount
    (mountinfo_line "36" "35" "0:31" "/docker/f00" "/sys/fs/cgroup/devices" "rw,nosuid shared:15 " "cgroup" "cgroup" "rw,devices")
    "devices" = ret (Some ("/sys/fs/cgroup/devices", "/docker/f00")).
Proof.
  refine (cgroup_mount_parses "36" "35" "0:31" "/docker/f00" "/sys/fs/cgroup/devices" "rw,nosuid shared:15 "
    "cgroup" "cgroup" "rw,devices" "devices" _ _ _ _ _ _ _ _); try discriminate; try reflexivity.
  repeat constructor.
Defined.

(** When the Go service cannot tell the version of the control groups, the
    client gets version 0 and no error: [rv] is assigned the result of the
    comparison. *)
Lemma version_error_lost (o : env) (cnt : nvc_container) (s : st) (c : Z) (text : string) cs :
  (forall h, o h (ERpc "nvcgo") = None) -> (forall h, o h (ERpcReply "nvcgo") = None) -> (forall h, o h EAlloc = true) ->
  (forall h, o h ECapGetProc = SOk cs) -> (forall h c, o h (ECapSetProc c) = SOk tt) ->
  (forall h root pid, o h (ECgroupVersion root pid) = inl (c, text)) ->
  snd (exec o (Nvcgo.get_device_cgroup_version cnt) s) = Done (s, Some 0).
Proof.
  intros Hr Hp Ha Hg Hs Hv. destruct s as [n e].
  unfold exec, Nvcgo.get_device_cgroup_version, Nvcgo.nvcgo_get_device_cgroup_version_1_svc, Nvcgo.with_caps,
    call_rpc, perm_set_capabilities, error_setx, error_vset, error_reset, bind, with_err.
  cbn -[ecaps set_flag]. rewrite Hr. cbn -[ecaps set_flag]. rewrite Hg. cbn -[ecaps set_flag].
  rewrite Hs. cbn -[ecaps set_flag]. rewrite Hv. cbn -[ecaps set_flag]. rewrite Ha. cbn -[ecaps set_flag].
  rewrite Hg. cbn -[ecaps set_flag]. rewrite Hs. cbn -[ecaps set_flag].
  rewrite Hp. cbn -[ecaps set_flag]. done.
Qed.

Definition no_cgroups : env := fun _ e =>
  match e return resp e with
  | ECgroupVersion _ _ => inl (-1, "not mounted")
  | e => friendly e
  end.

Lemma version_error_lost_witness :
  snd (exec no_cgroups (Nvcgo.get_device_cgroup_version
    (mkContainer 0 (mkCntConfig 1 "/ctr" None None None None None None) 0 0 "" 0 None [])) init_st)
  = Done (init_st, Some 0).
Proof.
  refine (version_error_lost no_cgroups _ init_st (-1) "not mounted" (mkCaps ∅ ∅ ∅) _ _ _ _ _ _); reflexivity.
Defined.
