(* ===== verification/Info.v ===== *)
(** * What the host offers: libraries, binaries and devices

    [src/src/nvc_info.c], with the parts of [src/src/elftool.c] it calls. *)
From stdpp Require Import pretty.
From S2P Require Import Prelude CString Effects Logic Errors Options Utils Types Paths Files Devices Pci Modprobe Ldcache Driver.

(** ** Tables *)

Definition utility_bins : list string := ["xdxsmi"].

Definition utility_libs : list string :=
  ["libxdxgpu-ml.so"; "libpciaccess.so"; "libva.so"; "libva-drm.so"; "libdrm.so"].

Definition compute_libs : list string := ["libCL_xdxgpu.so"; "libdrm.so"].

Definition video_libs : list string :=
  ["libva.so"; "libva-x11.so"; "xdxgpu_dri.so"; "xdxgpu_drv_video.so"; "xdxgpu_drv_video_a0.so";
   "xdxgpu_drv_video_b0.so"].

Definition graphics_libs : list string :=
  ["libEGL_mesa.so"; "libEGL.so"; "libglapi.so"; "libGLdispatch.so"; "libGLESv1_CM.so";
   "libGLESv1_CM_xdxgpu.so"; "libGLESv2.so"; "libGLESv2_xdxgpu.so"; "libGL.so"; "libGL_xdxgpu.so";
   "libGLX_mesa.so"; "libGLX.so"; "libOpenGL.so"; "libusc_xdxgpu.so"; "libufgen_xdxgpu.so";
   "libgsl_xdxgpu.so"; "libdri_xdxgpu.so"; "libdrm_xdxgpu.so"; "libxdxgpu_mesa_wsi.so";
   "libvlk_xdxgpu.so"; "xdxgpu_dri.so"].

Definition dxcore_libs : list string := ["libdxcore.so"].

Definition MAX_BINS : nat := length utility_bins.
Definition MAX_LIBS : nat :=
  (length dxcore_libs + length utility_libs + length compute_libs + length video_libs + length graphics_libs)%nat.

Definition match_binary_flags (bin : string) (flags : Z) : bool :=
  if has_flag flags OPT_UTILITY_BINS && str_array_match_prefix bin utility_bins then true else false.

Definition match_library_flags (lib : string) (flags : Z) : bool :=
  if str_array_match_prefix lib dxcore_libs then true
  else if has_flag flags OPT_UTILITY_LIBS && str_array_match_prefix lib utility_libs then true
  else if has_flag flags OPT_COMPUTE_LIBS && str_array_match_prefix lib compute_libs then true
  else if has_flag flags OPT_VIDEO_LIBS && str_array_match_prefix lib video_libs then true
  else if has_flag flags OPT_GRAPHICS_LIBS && str_array_match_prefix lib graphics_libs then true
  else false.

(** ** ELF files *)

(** [elftool_open]: the descriptor; [elftool_close] closes it. *)
Definition elftool_open (path : string) : M (option Z) :=
  let? fd := xopen path O_RDONLY else ret None in
  let* elf := call (EElf path) in
  if elf : bool then ret (Some fd)
  else do error_setx ("elf file read error: " +:+ path) in do xclose fd in ret None.
Definition elftool_close (fd : Z) : M unit := xclose fd.

(** ** Libraries *)

Definition select_libraries : select_fn := fun root orig_path alt_path =>
  let? path := path_join root alt_path else ret None in
  let? fd := elftool_open path else ret None in
  let rv := match orig_path with
            | Some orig => negb (str_has_prefix orig "/opt/xdxgpu/lib/x86_64-linux-gnu"
                                 && str_has_prefix alt_path "/usr/lib/x86_64-linux-gnu")
            | None => true
            end in
  do elftool_close fd in
  ret (Some rv).

Definition select_wsl_libraries : select_fn := fun _ orig_path _ =>
  ret (Some (match orig_path with
             | Some orig => match strstr orig "/wsl/lib/" with Some _ => false | None => true end
             | None => true
             end)).

Definition LIB_ARCH : Z := LD_X8664_LIB64.
Definition LIB32_ARCH : Z := LD_I386_LIB32.

(** The 64-bit and the 32-bit libraries, one slot per name. *)
Definition find_library_paths (dx : dxcore_context) (root ldcache : string) (libs : list string)
  : M (option (list (option string) * list (option string))) :=
  let select := if dx_initialized dx then select_wsl_libraries else select_libraries in
  let? path := path_resolve_full root ldcache else ret None in
  let? ld := ldcache_open path else ret None in
  let* rv :=
    (let? _ := array_new (Z.of_nat (length libs)) else ret None in
     let? libs64 := ldcache_resolve ld LIB_ARCH root libs select else ret None in
     let? _ := array_new (Z.of_nat (length libs)) else ret None in
     let? libs32 := ldcache_resolve ld LIB32_ARCH root libs select else ret None in
     ret (Some (libs64, libs32))) in
  let? _ := ldcache_close ld else ret None in
  ret rv.

(** ** Binaries *)

(** Look for [bin] in [dir] below [root]: [None] when memory runs out. *)
Definition try_binary (root dir bin : string) : M (option (option string)) :=
  let? tmp := null_err (path_join dir bin) else ret (Some None) in
  let? path := null_err (path_resolve root tmp) else ret (Some None) in
  let* ex := null_err (file_exists_at root path) in
  match ex with
  | Some true => let? p := xstrdup path else ret None in ret (Some (Some p))
  | _ => ret (Some None)
  end.

(** The slots of the binaries, with what [dir] has for those that are empty. *)
Fixpoint scan_dir (root dir : string) (bins : list string) (slots : list (option string))
  : M (option (list (option string))) :=
  match bins, slots with
  | bin :: bins', slot :: slots' =>
      let? slot' := match slot with
                    | Some _ => ret (Some slot)
                    | None => try_binary root dir bin
                    end else ret None in
      let? rest := scan_dir root dir bins' slots' else ret None in
      ret (Some (slot' :: rest))
  | _, _ => ret (Some slots)
  end.

(** Under WSL, the copy of a binary in the driver store: the last adapter wins. *)
Fixpoint scan_stores (root : string) (adapters : list dxcore_adapter) (bins : list string)
    (slots : list (option string)) : M (option (list (option string))) :=
  match bins, slots with
  | bin :: bins', slot :: slots' =>
      let? slot' := foldM (fun slot a =>
                             let? r := try_binary root (pDriverStorePath a) bin else ret None in
                             ret (Some (match r with Some p => Some p | None => slot end)))
                          slot adapters else ret None in
      let? rest := scan_stores root adapters bins' slots' else ret None in
      ret (Some (slot' :: rest))
  | _, _ => ret (Some slots)
  end.

Definition find_binary_paths (dx : dxcore_context) (root : string) (bins : list string)
  : M (option (list (option string))) :=
  let* env := call (EGetenv "PATH") in
  match env with
  | None => do error_setx "environment variable PATH not found" in ret None
  | Some env =>
      let? env := xstrdup env else ret None in
      let? slots := array_new (Z.of_nat (length bins)) else ret None in
      let? slots :=
        (if dx_initialized dx then scan_stores root (adapterList dx) bins slots
         else ret (Some slots)) else ret None in
      foldM (fun s dir =>
               scan_dir root (if Ascii.eqb (first_char dir) NUL then "." else dir) bins s)
            slots (tokens ":" env)
  end.

(** ** Lookups *)

(** The names that were appended to an array of capacity [max]. *)
Definition append_all (max : nat) (tables : list (list string)) : M (list string) :=
  let* r := (fix go (dst : list (option string)) (at_ : nat) (ts : list (list string)) :=
               match ts with
               | [] => ret (dst, at_)
               | t :: ts' => let* r := array_append dst at_ t in go (fst r) (snd r) ts'
               end) (replicate max None) 0%nat tables in
  ret (present (take (snd r) (fst r))).

Definition lookup_libraries (dx : dxcore_context) (root ldcache : string)
  : M (option (list string * list string)) :=
  let* names := append_all MAX_LIBS
    ([utility_libs; compute_libs; video_libs; graphics_libs] ++ (if dx_initialized dx then [dxcore_libs] else [])) in
  let? r := find_library_paths dx root ldcache names else ret None in
  let '(libs, libs32) := r in
  let '(libs, n) := array_pack libs (length libs) in
  let '(libs32, n32) := array_pack libs32 (length libs32) in
  ret (Some (present (take n libs), present (take n32 libs32))).

Definition lookup_binaries (dx : dxcore_context) (root : string) : M (option (list string)) :=
  let* names := append_all MAX_BINS [utility_bins] in
  let? bins := find_binary_paths dx root names else ret None in
  let '(bins, n) := array_pack bins (length bins) in
  ret (Some (present (take n bins))).

Definition lookup_paths (dx : dxcore_context) (root ldcache : string)
  : M (option (list string * list string * list string)) :=
  let? libs := lookup_libraries dx root ldcache else ret None in
  let? bins := lookup_binaries dx root else ret None in
  ret (Some (fst libs, snd libs, bins)).

(** [lookup_devices]: the array has room for the render node only. *)
Definition lookup_devices (dx : dxcore_context) : M (option (list nvc_device_node)) :=
  let? nodes :=
    (if dx_initialized dx then
       let? s := xstat MSFT_DXG_DEVICE_PATH else ret None in
       ret (Some [mkNode (Some MSFT_DXG_DEVICE_PATH) (st_rdev s)])
     else ret (Some [mkNode (Some XDX_RENDER_DEVICE_PATH) (makedev NV_DEVICE_MAJOR XDX_RENDER_DEVICE_MINOR)]))
    else ret None in
  let has_render := if dx_initialized dx then O else 1%nat in
  let ndevs := has_render in
  let? _ := xcalloc else ret None in
  if (ndevs <? length nodes)%nat then halt (Undefined "lookup_devices: write past the end of devs")
  else ret (Some nodes).

(** [validate_context] *)
Definition validate_context (ctx : nvc_context) : M (option unit) :=
  if negb (initialized ctx) then do error_setx "context uninitialized" in ret None
  else ret (Some tt).

Definition nvc_driver_info_new (ctx : nvc_context) (opts : option string) : M (option nvc_driver_info) :=
  let? _ := validate_context ctx else ret None in
  let opts := default default_driver_opts opts in
  let? flags := options_parse opts driver_opts else ret None in
  let? _ := xcalloc else ret None in
  let? paths := lookup_paths (dxcore ctx) (cfg_root (cfg ctx)) (cfg_ldcache (cfg ctx)) else ret None in
  let '(libs, libs32, bins) := paths in
  let? devs := lookup_devices (dxcore ctx) else ret None in
  ret (Some (mkDriverInfo None None bins libs libs32 [] devs [])).

(** ** Devices *)

(** The loop of [fill_mig_device_info], from index [i]. *)
Fixpoint fill_mig_loop (n : nat) (i : Z) (gpu : nat) (h : handle) (gpu_minor : Z) (acc : list nvc_mig_device)
  : M (option (list nvc_mig_device)) :=
  match n with
  | O => ret (Some acc)
  | S n =>
      let? mig := driver_get_device_mig_device h i else ret None in
      match mig with
      | None => ret (Some acc)
      | Some mig =>
          let? gi := driver_get_device_gpu_instance_id mig else ret None in
          let? ci := driver_get_device_compute_instance_id mig else ret None in
          let? uuid := driver_get_device_uuid mig else ret None in
          let? gi_path := xasprintf (NV_GPU_INST_CAPS_PATH gpu_minor gi) else ret None in
          let? ci_path := xasprintf (NV_COMP_INST_CAPS_PATH gpu_minor gi ci) else ret None in
          fill_mig_loop n (i + 1) gpu h gpu_minor (acc ++ [mkMig gpu uuid gi ci gi_path ci_path])
      end
  end.

Definition fill_mig_device_info (mig_enabled : bool) (gpu : nat) (h : handle) (gpu_minor : Z)
  : M (option (list nvc_mig_device)) :=
  if negb mig_enabled then ret (Some [])
  else
    let? count := driver_get_device_max_mig_device_count h else ret None in
    let? _ := xcalloc else ret None in
    fill_mig_loop (Z.to_nat count) 0 gpu h gpu_minor [].

Definition init_nvc_device (ctx : nvc_context) (index : Z) : M (option nvc_device) :=
  let? dev := driver_get_device index else ret None in
  match dev with
  | None => halt (Undefined "NULL device handle")
  | Some dev =>
      let? model := driver_get_device_model dev else ret None in
      let? minor := driver_get_device_minor dev else ret None in
      let? busid := driver_get_device_busid dev else ret None in
      let? uuid := driver_get_device_uuid dev else ret None in
      if dx_initialized (dxcore ctx) then
        ret (Some (mkDevice (Some model) uuid busid None None (mkNode None 0) false None []))
      else
        let? minor := driver_get_device_minor dev else ret None in
        let? path := xasprintf (NV_DEVICE_PATH minor) else ret None in
        ret (Some (mkDevice (Some model) uuid busid None None
                     (mkNode (Some path) (makedev NV_DEVICE_MAJOR minor)) false None []))
  end.

Definition nvc_device_info_new (ctx : nvc_context) : M (option nvc_device_info) :=
  let? _ := validate_context ctx else ret None in
  let? _ := xcalloc else ret None in
  let? n := driver_get_device_count else ret None in
  let? _ := xcalloc else ret None in
  foldM (fun gpus i => let? gpu := init_nvc_device ctx i else ret None in ret (Some (gpus ++ [gpu])))
        [] (seqZ 0 n).

(** ** Capabilities of the driver *)

Inductive nvcaps_style := NVC_NVCAPS_STYLE_NONE | NVC_NVCAPS_STYLE_PROC | NVC_NVCAPS_STYLE_DEV.

(** [file_exists(...) >= 0]: also when the file is missing. *)
Definition nvc_nvcaps_style : M nvcaps_style :=
  let* maj := nvidia_get_chardev_major NV_CAPS_MODULE_NAME in
  if 0 <=? maj then ret NVC_NVCAPS_STYLE_DEV
  else
    let* ex := null_err (file_exists NV_PROC_DRIVER_CAPS) in
    match ex with
    | Some _ => ret NVC_NVCAPS_STYLE_PROC
    | None => ret NVC_NVCAPS_STYLE_NONE
    end.

Definition nvc_nvcaps_device_from_proc_path (ctx : nvc_context) (cap_path : string)
  : M (option nvc_device_node) :=
  let? abs := path_join (cfg_root (cfg ctx)) cap_path else ret None in
  let* q := nvidia_cap_get_device_file_attrs abs 0 in
  match q with
  | (None, _, _) => do error_set ("unable to get cap device attributes: " +:+ cap_path) in ret None
  | (Some name, maj, min) =>
      let? path := xstrdup name else ret None in
      ret (Some (mkNode (Some path) (makedev (to_uint32 maj) (to_uint32 min))))
  end.

(** ** Lemmas *)

Lemma append_all_ens max tables :
  (length (mjoin tables) <= max)%nat ->
  ensures (only [KLib]) no_stop (append_all max tables) (fun r => r = mjoin tables).
Proof.
  intros Hmax. unfold append_all. eapply ensures_bind with
    (R := fun r => take (snd r) (fst r) = map Some (mjoin tables)).
  2:{ intros r Hr. apply ensures_ret. by rewrite Hr, present_map_Some. }
  assert (forall ts done_ k, (length (mjoin ts) <= k)%nat ->
    ensures (only [KLib]) no_stop
      ((fix go (dst : list (option string)) (at_ : nat) (ts : list (list string)) :=
          match ts with
          | [] => ret (dst, at_)
          | t :: ts' => let* r := array_append dst at_ t in go (fst r) (snd r) ts'
          end) (map Some done_ ++ replicate k None) (length done_) ts)
      (fun r => take (snd r) (fst r) = map Some (done_ ++ mjoin ts))) as H.
  { induction ts as [|t ts IH]; intros done_ k Hk.
    - apply ensures_ret. cbn [fst snd mjoin]. rewrite app_nil_r, <- (length_map Some done_). apply take_app_length.
    - cbn [mjoin] in Hk. simpl in Hk. rewrite length_app in Hk.
      unfold array_append at 1. rewrite length_app, length_map, length_replicate.
      rewrite (proj2 (Nat.ltb_ge _ _)) by lia. apply ensures_bind_ret. cbn [fst snd].
      replace (take (length done_) (map Some done_ ++ replicate k None)) with (map Some done_)
        by (rewrite <- (length_map Some done_); by rewrite take_app_length).
      replace (drop (length done_ + length t) (map Some done_ ++ replicate k None)) with (replicate (k - length t) (@None string)).
      2:{ rewrite drop_app_ge by (rewrite length_map; lia). rewrite length_map.
          replace (length done_ + length t - length done_)%nat with (length t) by lia. by rewrite drop_replicate. }
      rewrite app_assoc, <- map_app, <- length_app. eapply ensures_post; [apply IH; simpl; lia|].
      intros r ->. simpl. by rewrite app_assoc. }
  apply (H tables [] max Hmax).
Qed.

Lemma elftool_open_ens path : ensures (only [KLib; KRead]) no_stop (elftool_open path) any.
Proof. unfold elftool_open. ens. Qed.
#[export] Hint Resolve elftool_open_ens : ens.

Lemma select_libraries_ens root cur p : ensures (only [KLib; KRead]) no_stop (select_libraries root cur p) any.
Proof. unfold select_libraries, elftool_close. ens. Qed.
Lemma select_wsl_libraries_ens root cur p : ensures (only [KLib; KRead]) no_stop (select_wsl_libraries root cur p) any.
Proof. unfold select_wsl_libraries. ens. Qed.

Section Lookup.
Variables (dx : dxcore_context) (root : string).
Hypothesis Hroot : Ascii.eqb (first_char root) "/" = true.
Let P := only [KLib; KRead].

Lemma find_library_paths_ens ldcache names :
  ensures P map_stops (find_library_paths dx root ldcache names)
    (fun r => match r with
              | Some (l, l32) => Forall resolved_opt l /\ Forall resolved_opt l32
              | None => True
              end).
Proof.
  unfold find_library_paths. eapply ensures_bind.
  { eapply ensures_weaken; [by apply path_resolve_full_ens|done|by left|intros r Hr; exact Hr]. }
  intros [path|] _; [|ens]. ens_step. destruct a as [ld|]; [|ens].
  assert (forall cur p, ensures P no_stop
    ((if dx_initialized dx then select_wsl_libraries else select_libraries) root cur p) any) as Hsel.
  { intros cur p. destruct (dx_initialized dx); [apply select_wsl_libraries_ens|apply select_libraries_ens]. }
  pose proof (fun arch => ldcache_resolve_any_ens ld arch root names _ Hroot Hsel) as Hres.
  eapply ensures_bind.
  { ens_step. destruct a as [arr|]; [|apply ensures_ret; instantiate (1 := fun r => match r with
      | Some (l, l32) => Forall resolved_opt l /\ Forall resolved_opt l32 | None => True end); done].
    eapply ensures_bind; [apply Hres|]. intros [l|] Hl; [|by apply ensures_ret].
    ens_step. destruct a as [arr'|]; [|by apply ensures_ret].
    eapply ensures_bind; [apply Hres|]. intros [l32|] Hl32; [|by apply ensures_ret].
    apply ensures_ret. split; [apply Hl|apply Hl32]. }
  intros r Hr. ens_step. destruct a; by apply ensures_ret.
Qed.

Lemma try_binary_ens dir bin :
  ensures P overflow_only (try_binary root dir bin)
    (fun r => match r with Some o => resolved_opt o | None => True end).
Proof.
  unfold try_binary. eapply ensures_bind with (R := any).
  { apply ensures_null_err. ens. }
  intros [tmp|] _; [|by apply ensures_ret]. eapply ensures_bind.
  { apply ensures_null_err. by apply path_resolve_ens. }
  intros [path|] Hp; [|by apply ensures_ret]. eapply ensures_bind with (R := any).
  { apply ensures_null_err. ens. }
  intros [[]|] _; [|by apply ensures_ret..]. ens. by subst.
Qed.

Let slots_ok (r : option (list (option string))) : Prop :=
  match r with Some l => Forall resolved_opt l | None => True end.

Lemma scan_dir_ens dir bins slots :
  Forall resolved_opt slots -> ensures P overflow_only (scan_dir root dir bins slots) slots_ok.
Proof.
  revert slots. induction bins as [|bin bins IH]; intros slots Hs; [by apply ensures_ret|].
  destruct Hs as [|o slots Ho Hs]; cbn [scan_dir]; [apply ensures_ret; constructor|].
  eapply ensures_bind with (R := fun r => match r with Some o => resolved_opt o | None => True end).
  { destruct o; [by apply ensures_ret|apply try_binary_ens]. }
  intros [o'|] Ho'; [|by apply ensures_ret]. eapply ensures_bind; [by apply IH|].
  intros [rest|] Hr; apply ensures_ret; [by constructor|done].
Qed.

Lemma scan_stores_ens adapters bins slots :
  Forall resolved_opt slots -> ensures P overflow_only (scan_stores root adapters bins slots) slots_ok.
Proof.
  revert slots. induction bins as [|bin bins IH]; intros slots Hs; [by apply ensures_ret|].
  destruct Hs as [|o slots Ho Hs]; cbn [scan_stores]; [apply ensures_ret; constructor|].
  eapply ensures_bind.
  { apply (ensures_foldM _ _ resolved_opt); [|done]. intros s a _ Hs0.
    eapply ensures_bind; [apply try_binary_ens|]. intros [[p|]|] Hp; by apply ensures_ret. }
  intros [o'|] Ho'; [|by apply ensures_ret]. eapply ensures_bind; [by apply IH|].
  intros [rest|] Hr; apply ensures_ret; [by constructor|done].
Qed.

Lemma find_binary_paths_ens bins :
  ensures P overflow_only (find_binary_paths dx root bins) slots_ok.
Proof.
  unfold find_binary_paths. ens_step. destruct a as [env|]; [|ens].
  ens_step. destruct a as [env'|]; [|by apply ensures_ret].
  ens_step. destruct a as [slots|]; [|by apply ensures_ret]. subst slots.
  eapply ensures_bind with (R := slots_ok).
  { destruct (dx_initialized dx); [apply scan_stores_ens|apply ensures_ret]; by apply Forall_replicate. }
  intros [slots|] Hs; [|by apply ensures_ret].
  apply (ensures_foldM _ _ (Forall resolved_opt)); [|done]. intros s dir _ Hs'. by apply scan_dir_ens.
Qed.
End Lookup.

(** *** Driver information *)

(** The undefined behaviours of the lookups. *)
Definition info_stops (dx : dxcore_context) (w : stop) : Prop :=
  map_stops w \/ dx_initialized dx = true /\ w = Undefined "lookup_devices: write past the end of devs".

(** What the mounts rely on. *)
Record wf_driver_info (info : nvc_driver_info) : Prop := mkWfInfo {
  wf_bins : Forall resolved_path (bins info);
  wf_libs : Forall resolved_path (libs info);
  wf_libs32 : Forall resolved_path (libs32 info);
  wf_ipcs : ipcs info = [];
  wf_firmwares : firmwares info = [];
  wf_version : nvrm_version info = None /\ cuda_version info = None;
  wf_devs : devs info = [mkNode (Some XDX_RENDER_DEVICE_PATH) (makedev NV_DEVICE_MAJOR XDX_RENDER_DEVICE_MINOR)]
}.

Section DriverInfo.
Variables (dx : dxcore_context) (root : string).
Hypothesis Hroot : Ascii.eqb (first_char root) "/" = true.
Let P := only [KLib; KRead].

Lemma lookup_libraries_ens ldcache :
  ensures P (info_stops dx) (lookup_libraries dx root ldcache)
    (fun r => match r with
              | Some (l, l32) => Forall resolved_path l /\ Forall resolved_path l32
              | None => True
              end).
Proof.
  unfold lookup_libraries. eapply ensures_bind.
  { eapply ensures_weaken; [apply append_all_ens|intros ?; by apply only_mono|done|intros r Hr; exact Hr].
    destruct (dx_initialized dx); vm_compute; lia. }
  intros names _. eapply ensures_bind.
  { eapply ensures_weaken; [by apply find_library_paths_ens|done|by left|intros r Hr; exact Hr]. }
  intros [[l l32]|] Hr; [|by apply ensures_ret].
  pose proof (pack_present l) as E. pose proof (pack_present l32) as E32.
  destruct (array_pack l (length l)) as [l' n], (array_pack l32 (length l32)) as [l32' n32].
  apply ensures_ret. cbn [fst snd] in *. rewrite E, E32. destruct Hr. by split; apply Forall_present.
Qed.

Lemma lookup_binaries_ens :
  ensures P overflow_only (lookup_binaries dx root)
    (fun r => match r with Some l => Forall resolved_path l | None => True end).
Proof.
  unfold lookup_binaries. eapply ensures_bind.
  { eapply ensures_weaken; [apply append_all_ens|intros ?; by apply only_mono|done|intros r Hr; exact Hr].
    vm_compute; lia. }
  intros names _. eapply ensures_bind; [by apply find_binary_paths_ens|].
  intros [l|] Hr; [|by apply ensures_ret]. pose proof (pack_present l) as E.
  destruct (array_pack l (length l)) as [l' n]. apply ensures_ret. cbn [fst snd] in *. rewrite E.
  by apply Forall_present.
Qed.

Lemma lookup_devices_ens :
  ensures P (info_stops dx) (lookup_devices dx)
    (fun r => match r with
              | Some l => l = [mkNode (Some XDX_RENDER_DEVICE_PATH) (makedev NV_DEVICE_MAJOR XDX_RENDER_DEVICE_MINOR)]
              | None => True
              end).
Proof.
  unfold lookup_devices, info_stops. destruct (dx_initialized dx); ens; try (by right).
  match goal with H : (_ <? _)%nat = false |- _ => discriminate H end.
Qed.
End DriverInfo.

Lemma validate_context_ens ctx : ensures (only [KLib]) no_stop (validate_context ctx) any.
Proof. unfold validate_context. ens. Qed.
#[export] Hint Resolve validate_context_ens : ens.

Lemma options_parse_lib str opts : ensures (only [KLib]) no_stop (options_parse str opts) any.
Proof.
  unfold options_parse. destruct (_ <=? _); [ens|]. generalize 0.
  induction (tokens " " str) as [|w ws IH]; intros f; cbn [parse_options]; [ens|].
  destruct (Ascii.eqb _ NUL); [apply IH|]. destruct (find_option w opts); [apply IH|ens].
Qed.
#[export] Hint Resolve options_parse_lib : ens.

Lemma nvc_driver_info_new_ens ctx opts :
  Ascii.eqb (first_char (cfg_root (cfg ctx))) "/" = true ->
  ensures (only [KLib; KRead]) (info_stops (dxcore ctx)) (nvc_driver_info_new ctx opts)
    (fun r => match r with Some info => wf_driver_info info | None => True end).
Proof.
  intros Hr. unfold nvc_driver_info_new. ens_step. destruct a; [|by apply ensures_ret]. cbv zeta.
  ens_step. destruct a; [|by apply ensures_ret]. ens_step. destruct a; [|by apply ensures_ret].
  unfold lookup_paths. apply ensures_bind_bind. eapply ensures_bind; [by apply lookup_libraries_ens|].
  intros [[l l32]|] Hl; [|by apply ensures_bind_ret, ensures_ret]. apply ensures_bind_bind. eapply ensures_bind.
  { eapply ensures_weaken; [by apply lookup_binaries_ens|done|by left; left|intros r Hr'; exact Hr']. }
  intros [b|] Hb; [|by apply ensures_bind_ret, ensures_ret]. apply ensures_bind_ret. cbv beta iota.
  eapply ensures_bind; [apply lookup_devices_ens|].
  intros [d|]; [|intros _; by apply ensures_ret]. intros ->. apply ensures_ret. by constructor; destruct Hl.
Qed.

(** *** Device information *)

(** What is filled in of a device: no architecture, no brand, nothing of MIG; the
    node unless the adapters are those of WSL. *)
Record wf_device (ctx : nvc_context) (dev : nvc_device) : Prop := mkWfDevice {
  wd_arch : arch dev = None;
  wd_brand : brand dev = None;
  wd_mig : mig_capable dev = false /\ mig_devices dev = [];
  wd_node : dx_initialized (dxcore ctx) = false -> node_path (node dev) <> None
}.

Definition device_stops (w : stop) : Prop := rpc_stops w \/ w = Undefined "NULL device handle".

Lemma init_nvc_device_ens ctx i :
  ensures (only [KLib; KDev]) device_stops (init_nvc_device ctx i)
    (fun r => match r with Some d => wf_device ctx d | None => True end).
Proof.
  assert (forall A (m : M A) R, ensures (only [KLib; KDev]) rpc_stops m R -> ensures (only [KLib; KDev]) device_stops m any) as Hw.
  { intros A m R Hm. eapply ensures_weaken; [exact Hm|done|by left|done]. }
  unfold init_nvc_device. eapply ensures_bind; [eapply Hw, driver_get_device_ens|].
  intros [[dev|]|] _; [|apply ensures_halt; by right|ens].
  eapply ensures_bind; [eapply Hw, driver_get_device_model_ens|]. intros [] _; [|ens].
  eapply ensures_bind; [eapply Hw, driver_get_device_minor_ens|]. intros [] _; [|ens].
  eapply ensures_bind; [eapply Hw, driver_get_device_busid_ens|]. intros [] _; [|ens].
  eapply ensures_bind; [eapply Hw, driver_get_device_uuid_ens|]. intros [] _; [|ens].
  destruct (dx_initialized (dxcore ctx)) eqn:E; [apply ensures_ret; by split; rewrite ?E|].
  eapply ensures_bind; [eapply Hw, driver_get_device_minor_ens|]. intros [] _; [|ens]. ens. by split.
Qed.

Lemma nvc_device_info_new_ens ctx :
  ensures (only [KLib; KDev]) device_stops (nvc_device_info_new ctx)
    (fun r => match r with Some l => Forall (wf_device ctx) l | None => True end).
Proof.
  unfold nvc_device_info_new. ens_step. destruct a; [|ens]. ens_step. destruct a; [|ens].
  eapply ensures_bind; [eapply ensures_weaken; [apply driver_get_device_count_ens|done|by left|intros r Hr; exact Hr]|].
  intros [n|] _; [|ens]. ens_step. destruct a; [|ens].
  apply (ensures_foldM _ _ (Forall (wf_device ctx))); [|constructor]. intros l i _ Hl.
  eapply ensures_bind; [apply init_nvc_device_ens|]. intros [d|] Hd; [|ens].
  apply ensures_ret, Forall_app. split; [done|]. by constructor.
Qed.

(** C37: every library and binary of the driver information is a path of entries,
    resolved below the driver root; the only device is the render node, and the
    driver version is never filled in.  The lookup only reads, and returns, unless
    memory is misused as [info_stops] lists it: the cache file or a path is at
    fault, or, under WSL only, the array of the devices is too small; outside WSL no
    array of the lookup overflows.  The driver root is absolute. *)
Theorem nvc_driver_info_new_correct (o : env) ctx opts (s : st) :
  Ascii.eqb (first_char (cfg_root (cfg ctx))) "/" = true ->
  match exec o (nvc_driver_info_new ctx opts) s with
  | (t, Done (_, Some info)) => Forall (only [KLib; KRead]) t /\ wf_driver_info info
  | (t, Done (_, None)) => Forall (only [KLib; KRead]) t
  | (t, Halted w) => Forall (only [KLib; KRead]) t /\ info_stops (dxcore ctx) w
  end.
Proof.
  intros Hr. pose proof (ensures_run o _ _ _ _ s (nvc_driver_info_new_ens ctx opts Hr)) as H.
  destruct (exec o _ s) as [t [[s' [info|]]|w]]; apply H.
Qed.

Definition no_wsl : dxcore_context := mkDxcore false [].
Definition demo_ctx : nvc_context := mkContext true (mkConfig "/" "/etc/ld.so.cache" 0 0) 3 false no_wsl.

(** A host with two libraries in the cache and [xdxsmi] in [/usr/bin]. *)
Definition demo_host : env := fun _ e =>
  match e return resp e with
  | EReadlinkat _ _ => SErr EINVAL
  | EMmap _ => SOk (encode demo_cache)
  | EGetenv _ => Some "/sbin:/usr/bin"
  | EFaccessat _ p => if str_equal p "usr/bin/xdxsmi" then SOk tt else SErr ENOENT
  | e => friendly e
  end.

Lemma nvc_driver_info_new_correct_witness :
  exists s info, snd (exec demo_host (nvc_driver_info_new demo_ctx None) init_st) = Done (s, Some info) /\
    bins info = ["/usr/bin/xdxsmi"] /\ libs info = ["/usr/lib/libdrm.so.2"] /\ wf_driver_info info.
Proof.
  pose proof (nvc_driver_info_new_correct demo_host demo_ctx None init_st eq_refl) as H.
  destruct (exec demo_host (nvc_driver_info_new demo_ctx None) init_st) as [t out] eqn:E.
  assert (out = snd (exec demo_host (nvc_driver_info_new demo_ctx None) init_st)) as E2 by by rewrite E.
  vm_compute in E2. subst out. eexists _, _. split; [reflexivity|]. split; [reflexivity|]. split; [reflexivity|].
  apply H.
Defined.

(** Under WSL the lookup of the devices writes past the end of the array it
    allocates, for every host where [/dev/dxg] can be examined. *)
Theorem lookup_devices_wsl_overflows (o : env) adapters (s : st) b :
  (forall h, o h (EStat MSFT_DXG_DEVICE_PATH) = SOk b) -> (forall h, o h EAlloc = true) ->
  snd (exec o (lookup_devices (mkDxcore true adapters)) s) =
    Halted (Undefined "lookup_devices: write past the end of devs").
Proof.
  intros Hs Ha. unfold exec, lookup_devices, xstat, xcalloc, xalloc, bind. cbn -[error_set].
  rewrite Hs. cbn -[error_set]. rewrite Ha. done.
Qed.

Lemma lookup_devices_wsl_overflows_witness :
  snd (exec (fun _ e => friendly e) (lookup_devices (mkDxcore true [])) init_st) =
    Halted (Undefined "lookup_devices: write past the end of devs").
Proof.
  refine (lookup_devices_wsl_overflows (fun _ e => friendly e) [] init_st (mkStat 0 0 0 0 0) _ _); reflexivity.
Defined.
