(* ===== verification/Enumerate.v ===== *)
(** * The devices that are found are those the driver has

    [nvc_device_info_new] of [src/src/nvc_info.c] asks the service of
    [src/src/driver.c], which asks the management library.  When the library
    answers for a list of processors, and nothing else fails, the lookup returns
    that list. *)
From S2P Require Import Prelude CString Effects Logic Errors Options Utils Types Devices Pci Modprobe Driver Info.

(** What the library says of a processor. *)
Record processor := mkProcessor {
  pr_minor : Z; pr_domain : Z; pr_bus : Z; pr_slot : Z; pr_uuid : string; pr_name : string
}.

Section Library.
Variable processors : list processor.

(** The answers of the management library. *)
Definition library_answer (sym : string) (args : list Z) : option dval :=
  if str_equal sym "xdxml_device_get_count" then Some (DNums [Z.of_nat (length processors)])
  else
    match args with
    | [i] =>
        p ← processors !! Z.to_nat i;
        if str_equal sym "xdxml_device_get_handle_by_index" then Some (DNums [])
        else if str_equal sym "xdxml_device_get_minor_number" then Some (DNums [pr_minor p])
        else if str_equal sym "xdxml_device_get_pci_info" then Some (DNums [pr_domain p; pr_bus p; pr_slot p])
        else if str_equal sym "xdxml_device_get_uuid" then Some (DStr (pr_uuid p))
        else if str_equal sym "xdxml_device_get_product_name" then Some (DStr (pr_name p))
        else None
    | _ => None
    end.

(** The service answers, the library knows its processors, and there is memory. *)
Definition works (_ : unit) (ev : event) : Prop :=
  match ev with
  | Event (EDriver sym args) r => match library_answer sym args with Some v => r = inr v | None => True end
  | Event (ERpc _) r | Event (ERpcReply _) r => r = None
  | Event EAlloc r => r = true
  | _ => True
  end.

Definition nothing (g : unit) (_ : event) : unit := g.

(** [m] returns [a]. *)
Definition gets {A} (m : M (option A)) (a : A) : Prop :=
  forall s, relies nothing works m tt s (fun r _ _ => r = Some a).

Lemma gets_ret {A} (a : A) : gets (ret (Some a)) a.
Proof. intros s. by apply relies_ret. Qed.

Lemma gets_bind {A B} (m : M (option A)) (k : A -> M (option B)) (e : M (option B)) a b :
  gets m a -> gets (k a) b -> gets (let? x := m else e in k x) b.
Proof.
  intros Hm Hk s. eapply relies_bind; [apply Hm|]. intros r s' [] ->. apply Hk.
Qed.

Lemma gets_alloc_then {A} (k : bool -> M (option A)) a : gets (k true) a -> gets (let* ok := call EAlloc in k ok) a.
Proof.
  intros Hk s. eapply relies_bind with (R1 := fun r _ _ => r = true); [apply relies_call; by intros r Hr|].
  intros r s' [] ->. apply Hk.
Qed.

Lemma gets_lib text sym args v : library_answer sym args = Some v -> gets (call_lib text sym args) v.
Proof.
  intros Hv s. unfold call_lib. eapply relies_bind with (R1 := fun r _ _ => r = inr v).
  { apply relies_call. intros r Hr. cbn in Hr. by rewrite Hv in Hr. }
  intros r s' [] ->. by apply relies_ret.
Qed.

Lemma gets_rpc {A} `{Xdr A} prog (m : M (option A)) a :
  xdr_ok a = true -> gets m a -> gets (call_rpc prog (service m)) a.
Proof.
  intros Ha Hm s. unfold call_rpc. eapply relies_bind with (R1 := fun r _ _ => r = None); [apply relies_call; by intros r Hr|].
  intros r s' [] ->. eapply relies_bind with (R1 := fun r _ _ => r = XOk a).
  - unfold service. eapply relies_bind with (R1 := fun r _ _ => fst r = Some a).
    + apply relies_with_err with (R := fun r _ => r = Some a). apply Hm.
    + intros [r e] s2 [] Hr. cbn [fst] in *. subst r. by apply relies_ret.
  - intros r s2 [] ->. eapply relies_bind with (R1 := fun r _ _ => r = None); [apply relies_call; by intros r Hr|].
    intros r s3 [] ->. cbv zeta. rewrite Ha. by apply relies_ret.
Qed.

Lemma gets_xstrdup s : gets (xstrdup s) s.
Proof. unfold xstrdup, xalloc. eapply gets_bind with (a := tt); [apply gets_alloc_then|]; apply gets_ret. Qed.

Lemma gets_rpc_string (m : M (option (option string))) s : gets m (Some s) -> gets (rpc_string (service m)) s.
Proof. intros Hm. unfold rpc_string. eapply gets_bind; [by apply gets_rpc with (a := Some s)|apply gets_xstrdup]. Qed.

(** ** One device *)

Definition busid_of (p : processor) : string :=
  print_hex64 8 (pr_domain p) +:+ ":" +:+ print_hex64 2 (pr_bus p) +:+ ":" +:+ print_hex64 2 (pr_slot p) +:+ ".0".

(** Under WSL the devices have no node. *)
Definition node_of (wsl : bool) (p : processor) : nvc_device_node :=
  if wsl then mkNode None 0
  else mkNode (Some (NV_DEVICE_PATH (to_uint32 (pr_minor p)))) (makedev NV_DEVICE_MAJOR (to_uint32 (pr_minor p))).

Definition device_of (wsl : bool) (p : processor) : nvc_device :=
  mkDevice (Some (pr_name p)) (pr_uuid p) (busid_of p) None None (node_of wsl p) false None [].

Section Device.
Variables (i : Z) (p : processor).
Hypothesis device_bound : 0 <= i < MAX_DEVICES.
Hypothesis device_there : processors !! Z.to_nat i = Some p.

(** The answer for this device. *)
Ltac answer := apply gets_lib; unfold library_answer; simpl; rewrite device_there; reflexivity.

Lemma driver_get_device_gets : gets (driver_get_device i) (Some (HDev i)).
Proof.
  apply gets_rpc; [done|]. rewrite (proj2 (Z.leb_gt MAX_DEVICES i)) by lia. eapply gets_bind; [answer|apply gets_ret].
Qed.

Lemma driver_get_device_minor_gets : gets (driver_get_device_minor (HDev i)) (to_uint32 (pr_minor p)).
Proof. apply gets_rpc; [done|]. eapply gets_bind; [answer|apply gets_ret]. Qed.

Lemma driver_get_device_busid_gets : gets (driver_get_device_busid (HDev i)) (busid_of p).
Proof.
  apply gets_rpc_string. eapply gets_bind; [answer|]. eapply gets_bind; [apply gets_alloc_then|]; apply gets_ret.
Qed.

Lemma dup_result_gets s : gets (dup_result s) (Some s).
Proof. eapply gets_bind; [apply gets_xstrdup|apply gets_ret]. Qed.

Lemma driver_get_device_uuid_gets : gets (driver_get_device_uuid (HDev i)) (pr_uuid p).
Proof. apply gets_rpc_string. eapply gets_bind; [answer|apply dup_result_gets]. Qed.

Lemma driver_get_device_model_gets : gets (driver_get_device_model (HDev i)) (pr_name p).
Proof. apply gets_rpc_string. eapply gets_bind; [answer|apply dup_result_gets]. Qed.

Lemma init_nvc_device_gets ctx : gets (init_nvc_device ctx i) (device_of (dx_initialized (dxcore ctx)) p).
Proof.
  unfold init_nvc_device, device_of, node_of. eapply gets_bind; [apply driver_get_device_gets|]. cbv beta iota.
  eapply gets_bind; [apply driver_get_device_model_gets|]. eapply gets_bind; [apply driver_get_device_minor_gets|].
  eapply gets_bind; [apply driver_get_device_busid_gets|]. eapply gets_bind; [apply driver_get_device_uuid_gets|].
  destruct (dx_initialized (dxcore ctx)); [apply gets_ret|].
  eapply gets_bind; [apply driver_get_device_minor_gets|]. eapply gets_bind; [apply gets_alloc_then|]; apply gets_ret.
Qed.
End Device.

(** ** All of them *)

Hypothesis few : Z.of_nat (length processors) <= MAX_DEVICES.

Lemma enumerate_gets ctx n l :
  (n + length l = length processors)%nat ->
  gets (foldM (fun gpus i => let? gpu := init_nvc_device ctx i else ret None in ret (Some (gpus ++ [gpu])))
          l (seqZ (Z.of_nat (length l)) (Z.of_nat n)))
    (l ++ map (device_of (dx_initialized (dxcore ctx))) (drop (length l) processors)).
Proof.
  revert l. induction n as [|n IH]; intros l Hl.
  - rewrite drop_ge by lia. cbn [map]. rewrite app_nil_r. apply gets_ret.
  - destruct (lookup_lt_is_Some_2 processors (length l)) as [p Hp]; [lia|].
    rewrite seqZ_cons by lia. cbn [foldM].
    rewrite (drop_S _ _ _ Hp). cbn [map].
    set (d := device_of _ p). replace (Z.pred (Z.of_nat (S n))) with (Z.of_nat n) by lia.
    eapply gets_bind; [eapply gets_bind; [apply (init_nvc_device_gets _ p); [lia|by rewrite Nat2Z.id]|apply gets_ret]|].
    specialize (IH (l ++ [d])). rewrite length_app in IH. cbn [length] in IH.
    replace (Z.succ (Z.of_nat (length l))) with (Z.of_nat (length l + 1)) by lia.
    replace (S (length l)) with (length l + 1)%nat by lia. rewrite <- app_assoc in IH. apply IH. lia.
Qed.

Lemma nvc_device_info_new_gets ctx :
  initialized ctx = true -> gets (nvc_device_info_new ctx) (map (device_of (dx_initialized (dxcore ctx))) processors).
Proof.
  intros Hi. unfold nvc_device_info_new. eapply gets_bind with (a := tt).
  { unfold validate_context. rewrite Hi. apply gets_ret. }
  assert (gets xcalloc tt) as Hc by apply gets_alloc_then, gets_ret.
  eapply gets_bind; [exact Hc|]. eapply gets_bind.
  { apply gets_rpc; [done|]. eapply gets_bind; [apply gets_lib; reflexivity|apply gets_ret]. }
  eapply gets_bind; [exact Hc|]. cbn [as_num nth]. unfold MAX_DEVICES in few. rewrite uint_wrap_id by lia.
  apply (enumerate_gets ctx _ []). done.
Qed.

(** C29: when the management library answers for a list of at most 64 processors
    and neither memory nor the service fails, the lookup returns exactly these
    processors, in their order, with their names, identifiers, bus addresses and
    nodes (no nodes under WSL): everything the library said has crossed the
    service unchanged. *)
Theorem nvc_device_info_new_enumerates (o : env) ctx (s : st) :
  initialized ctx = true -> always nothing works tt (fst (exec o (nvc_device_info_new ctx) s)) ->
  exists s', snd (exec o (nvc_device_info_new ctx) s) =
    Done (s', Some (map (device_of (dx_initialized (dxcore ctx))) processors)).
Proof.
  intros Hi Ht. pose proof (relies_run _ _ o _ tt s _ (nvc_device_info_new_gets ctx Hi s) Ht) as Hr.
  pose proof (ensures_run o _ _ _ _ s (nvc_device_info_new_ens ctx)) as Hs.
  destruct (exec o _ s) as [t [[s' r]|w]]; cbn [fst snd] in *; [exists s'; by subst r|].
  exfalso. subst w. destruct Hs as [_ [[Hs|Hs]|Hs]]; done.
Qed.
End Library.

(** ** A library to ask *)

Definition library_env (processors : list processor) : env := fun _ e =>
  match e return resp e with
  | EDriver sym args => match library_answer processors sym args with Some v => inr v | None => inl (999, "unknown") end
  | e => friendly e
  end.

Definition demo_processors : list processor :=
  [mkProcessor 0 0 1 0 "GPU-a" "XDX one"; mkProcessor 1 0 175 0 "GPU-b" "XDX two"].

Lemma nvc_device_info_new_enumerates_witness :
  exists s, snd (exec (library_env demo_processors) (nvc_device_info_new demo_ctx) init_st) =
      Done (s, Some (map (device_of false) demo_processors)) /\
    map busid (map (device_of false) demo_processors) = ["00000000:01:00.0"; "00000000:af:00.0"].
Proof.
  destruct (nvc_device_info_new_enumerates demo_processors ltac:(by vm_compute) (library_env demo_processors) demo_ctx init_st eq_refl)
    as [s Hs]; [vm_compute; repeat split|].
  exists s. split; [exact Hs|vm_compute; reflexivity].
Defined.
