(* ===== verification/Container.v ===== *)
(** * The container to configure

    [src/src/nvc_container.c]: where the container is, who owns it, where its
    libraries are and which control group it has.  The control groups are used
    through the interface [CgroupOps]. *)
From stdpp Require Import pretty.
From S2P Require Import Prelude CString Effects Logic Errors Options Utils Types Paths Files Devices Ldcache Driver Cgroup Info.

Definition validate_args (predicate : bool) : M (option unit) :=
  if negb predicate then do error_setx "invalid argument" in ret None else ret (Some tt).

(** [calloc] failing is the only failure. *)
Definition nvc_container_config_new (pid : Z) (rootfs : string) : M (option nvc_container_config) :=
  let* ok := call EAlloc in
  if ok : bool then ret (Some (mkCntConfig pid rootfs None None None None None None))
  else do set_errno ENOMEM in ret None.

Definition PROC_PID (pid : Z) : string := "/proc/" +:+ print_Z (to_int32 pid).
Definition PROC_ROOT_PATH (proc : string) : string := proc +:+ "/root/".
Definition PROC_NS_PATH (proc namespace : string) : string := proc +:+ "/ns/" +:+ namespace.

Definition host_prefix (flags : Z) (cfg : nvc_container_config) : string :=
  if has_flag flags OPT_STANDALONE then cc_rootfs cfg else "".

Definition find_namespace_path (flags : Z) (cfg : nvc_container_config) (namespace : string) : M (option string) :=
  xasprintf (host_prefix flags cfg +:+ PROC_NS_PATH (PROC_PID (cc_pid cfg)) namespace).

Definition lookup_owner (flags : Z) (cfg : nvc_container_config) : M (option (Z * Z)) :=
  let? path := xsnprintf PATH_MAX (host_prefix flags cfg +:+ PROC_PID (cc_pid cfg)) else ret None in
  let? s := xstat path else ret None in
  ret (Some (st_uid s, st_gid s)).

(** One match of the glob: resolved, and added unless it is there already.  The
    match is read from behind the root on. *)
Definition add_compat_lib (rootfs : string) (libs : list string) (path : string) : M (option (list string)) :=
  if (String.length path <? String.length rootfs)%nat then halt (Undefined "gl_pathv: path shorter than the root")
  else
    let? path := path_resolve rootfs (str_drop (String.length rootfs) path) else ret None in
    if str_array_match path libs then ret (Some libs)
    else let? path := xstrdup path else ret None in ret (Some (libs ++ [path])).

Definition find_library_paths (flags : Z) (cfg : nvc_container_config) : M (option (list string)) :=
  if negb (has_flag flags OPT_COMPUTE_LIBS) then ret (Some [])
  else
    let* cudart := path_arg (cudart_dir cfg) in
    let? path := path_resolve_full (cc_rootfs cfg) cudart else ret None in
    let? path := path_append path "compat/lib*.so.*" else ret None in
    let? paths := xglob path else ret None in
    match paths with
    | [] => ret (Some [])
    | _ =>
        let? _ := array_new (Z.of_nat (length paths)) else ret None in
        let? libs := foldM (add_compat_lib (cc_rootfs cfg)) [] paths else ret None in
        let slots := map Some libs ++ replicate (length paths - length libs) None in
        let '(arr, n) := array_pack slots (length slots) in
        ret (Some (present (take n arr)))
    end.

(** Where the 32-bit libraries go when the distribution is not multiarch. *)
Definition choose_libs32 (rootfs libs_dir : string) : M (option string) :=
  let? path := path_resolve_full rootfs USR_LIB32_DIR else ret None in
  let? there := file_exists path else ret None in
  if there : bool then ret (Some USR_LIB32_DIR)
  else
    let? tmp := path_resolve_full rootfs libs_dir else ret None in
    let? path := path_resolve_full rootfs USR_LIB32_ALT_DIR else ret None in
    let? there := file_exists path else ret None in
    ret (Some (if (there : bool) && negb (str_equal path tmp) then USR_LIB32_ALT_DIR else USR_LIB32_DIR)).

Definition choose_libs (rootfs : string) (libs_dir libs32_dir : option string) : M (option (string * string)) :=
  match libs_dir, libs32_dir with
  | Some l, Some l32 => ret (Some (l, l32))
  | _, _ =>
      let? path := path_resolve_full rootfs "/etc/debian_version" else ret None in
      let? multiarch := file_exists path else ret None in
      if multiarch : bool then
        ret (Some (default XDX_LIB_MULTIARCH_DIR libs_dir, default USR_LIB32_MULTIARCH_DIR libs32_dir))
      else
        let l := default USR_LIB_DIR libs_dir in
        match libs32_dir with
        | Some l32 => ret (Some (l, l32))
        | None => let? l32 := choose_libs32 rootfs l else ret None in ret (Some (l, l32))
        end
  end.

(** [stat(path, &st) == 0 && S_ISDIR(st.st_mode)]: a failure only sets [errno]. *)
Definition is_dir (path : string) : M bool :=
  let* r := call (EStat path) in
  let* st := trap r in
  ret (match st with Some st => S_ISDIR (st_mode st) | None => false end).

(** An unknown system is reported to the log only. *)
Definition choose_dris : M (option string) :=
  let* r := call EUname in
  let? machine := trap r else do error_set "uname" in ret None in
  let* x86_deb := if str_has_suffix machine "x86_64" then is_dir "/etc/apt" else ret false in
  if x86_deb : bool then ret (Some XDX_LIB_DRI_X86_DEB)
  else
    let* arm_deb := if str_has_suffix machine "aarch64" then is_dir "/etc/apt" else ret false in
    if arm_deb : bool then ret (Some XDX_LIB_DRI_ARM_DEB)
    else
      let* x86_rpm := if str_has_suffix machine "x86_64" then is_dir "/etc/rpm" else ret false in
      if x86_rpm : bool then ret (Some XDX_LIB_DRI_X86_RPM) else ret None.

Definition copy_config (flags : Z) (cfg : nvc_container_config) : M (option nvc_container_config) :=
  let? croot := xstrdup (cc_rootfs cfg) else ret None in
  let? rootfs :=
    (if has_flag flags OPT_STANDALONE then xstrdup croot
     else
       let? tmp := xsnprintf PATH_MAX (PROC_ROOT_PATH (PROC_PID (cc_pid cfg))) else ret None in
       let? path := path_resolve_full tmp croot else ret None in
       xstrdup path) else ret None in
  let bins := default USR_BIN_DIR (bins_dir cfg) in
  let? ls := choose_libs rootfs (libs_dir cfg) (libs32_dir cfg) else ret None in
  let? dris := match dris_dir cfg with Some d => ret (Some d) | None => choose_dris end else ret None in
  let cudart := default CUDA_RUNTIME_DIR (cudart_dir cfg) in
  let? ldc := match ldconfig cfg with
              | Some l => ret (Some l)
              | None =>
                  let? path := path_resolve_full rootfs LDCONFIG_ALT_PATH else ret None in
                  let? there := file_exists path else ret None in
                  ret (Some (if there : bool then LDCONFIG_ALT_PATH else LDCONFIG_PATH))
              end else ret None in
  let? bins := xstrdup bins else ret None in
  let? libs := xstrdup (fst ls) else ret None in
  let? libs32 := xstrdup (snd ls) else ret None in
  let? dris := xstrdup dris else ret None in
  let? cudart := xstrdup cudart else ret None in
  let? ldc := xstrdup ldc else ret None in
  ret (Some (mkCntConfig (cc_pid cfg) croot (Some bins) (Some libs) (Some libs32) (Some dris) (Some cudart) (Some ldc))).

(** What [nvc_container_new] requires of the configuration. *)
Definition valid_config (cfg : nvc_container_config) : bool :=
  (0 <? cc_pid cfg) && negb (str_empty (Some (cc_rootfs cfg))) && Ascii.eqb (first_char (cc_rootfs cfg)) "/"
  && negb (str_empty (dris_dir cfg)) && negb (str_empty (bins_dir cfg)) && negb (str_empty (libs_dir cfg))
  && negb (str_empty (libs32_dir cfg)) && negb (str_empty (cudart_dir cfg)) && negb (str_empty (ldconfig cfg)).

(** A [NULL] configuration is [None]. *)
Definition nvc_container_new `{CgroupOps} (ctx : nvc_context) (cfg : option nvc_container_config)
    (opts : option string) : M (option nvc_container) :=
  let? _ := validate_context ctx else ret None in
  match cfg with
  | None => do error_setx "invalid argument" in ret None
  | Some cfg =>
      let? _ := validate_args (valid_config cfg) else ret None in
      let? flags := options_parse (default default_container_opts opts) container_opts else ret None in
      if negb (xorb (negb (has_flag flags OPT_SUPERVISED)) (negb (has_flag flags OPT_STANDALONE))) then
        do error_setx "invalid mode of operation" in ret None
      else
        let? _ := xcalloc else ret None in
        let? cfg := copy_config flags cfg else ret None in
        let? owner := lookup_owner flags cfg else ret None in
        let? libs := (if negb (has_flag flags OPT_NO_CNTLIBS) then find_library_paths flags cfg
                      else ret (Some [])) else ret None in
        let? mnt_ns := find_namespace_path flags cfg "mnt" else ret None in
        let cnt := mkContainer flags cfg (fst owner) (snd owner) mnt_ns 0 None libs in
        if negb (has_flag flags OPT_NO_CGROUPS) then
          let? v := get_device_cgroup_version cnt else ret None in
          let cnt := mkContainer flags cfg (fst owner) (snd owner) mnt_ns v None libs in
          let? cg := find_device_cgroup_path cnt else ret None in
          ret (Some (mkContainer flags cfg (fst owner) (snd owner) mnt_ns v (Some cg) libs))
        else ret (Some cnt)
  end.

(** ** Lemmas *)

#[export] Hint Extern 1 (Ascii.eqb (first_char _) "/" = true) => first [assumption | reflexivity] : ens.
#[export] Hint Resolve path_resolve_ens path_resolve_full_ens : ens.

Lemma beneath_abs root p : Ascii.eqb (first_char root) "/" = true -> beneath root p ->
  Ascii.eqb (first_char p) "/" = true.
Proof.
  intros Hr (cs & _ & ->). unfold under. destruct cs; [done|]. by destruct root.
Qed.

(** The stops of the lookups, for implementations of the control groups that
    stop as [H] allows. *)
Definition cnt_stops (H : stop -> Prop) (w : stop) : Prop :=
  overflow_only w \/ w = Undefined "gl_pathv: path shorter than the root" \/ H w.

Lemma cnt_stops_overflow H w : overflow_only w -> cnt_stops H w.
Proof. by left. Qed.
Lemma cnt_stops_glob H : cnt_stops H (Undefined "gl_pathv: path shorter than the root").
Proof. by right; left. Qed.
Lemma cnt_stops_cgroup (H : stop -> Prop) w : H w -> cnt_stops H w.
Proof. by right; right. Qed.
#[export] Hint Resolve cnt_stops_overflow cnt_stops_glob : ens.

Lemma validate_args_ens b : ensures (only [KLib]) no_stop (validate_args b) (fun r => r = Some tt -> b = true).
Proof. unfold validate_args. destruct b; ens; done. Qed.
#[export] Hint Resolve validate_args_ens : ens.

Lemma present_nulls {A} n : present (replicate n (@None A)) = [].
Proof. induction n as [|n IH]; [done|exact IH]. Qed.

Section Lookups.
Variables (H : stop -> Prop).
Let P := only [KLib; KRead].

Lemma add_compat_lib_ens rootfs libs path :
  Ascii.eqb (first_char rootfs) "/" = true -> Forall resolved_path libs -> NoDup libs ->
  ensures P (cnt_stops H) (add_compat_lib rootfs libs path)
    (fun r => match r with Some l => Forall resolved_path l /\ NoDup l | None => True end).
Proof.
  intros Hr Hl Hn. unfold add_compat_lib. destruct (_ <? _)%nat; [ens|].
  ens_step. destruct a as [p|]; [|ens]. destruct (str_array_match p libs) eqn:E; [ens|].
  ens_step. destruct a as [p'|]; [|ens]. subst p'. apply ensures_ret. split.
  - apply Forall_app. by split; [|constructor].
  - apply NoDup_snoc; [done|]. intros Hin. by rewrite (proj2 (str_array_match_spec p libs) Hin) in E.
Qed.

Lemma cnt_library_paths_ens flags cfg :
  Ascii.eqb (first_char (cc_rootfs cfg)) "/" = true -> is_Some (cudart_dir cfg) ->
  ensures P (cnt_stops H) (find_library_paths flags cfg)
    (fun r => match r with Some l => Forall resolved_path l /\ NoDup l | None => True end).
Proof.
  intros Hr [cudart Hc]. unfold find_library_paths. destruct (negb _); [by apply ensures_ret; split; constructor|].
  rewrite Hc. cbn [path_arg]. apply ensures_bind_ret.
  ens_step. destruct a as [p|]; [|ens]. eapply ensures_bind with (R := any).
  { eapply ensures_weaken; [apply path_append_ens; tauto|intros ?; by apply only_mono|done|done]. }
  intros [pat|] _; [|ens]. ens_step. destruct a as [[|x paths]|]; [ens|  |ens].
  { by split; constructor. }
  ens_step. destruct a as [arr|]; [|ens]. eapply ensures_bind.
  { apply (ensures_foldM _ _ (fun l => Forall resolved_path l /\ NoDup l)); [|by split; constructor].
    intros l q _ [Hl Hn]. by apply add_compat_lib_ens. }
  intros [libs|] Hlibs; [|ens].
  set (slots := map Some libs ++ _). pose proof (pack_present slots) as E.
  cbv zeta. destruct (array_pack slots (length slots)) as [arr' n]. cbn [fst snd] in E. apply ensures_ret.
  rewrite E. unfold slots. rewrite present_app, present_map_Some, present_nulls, app_nil_r. done.
Qed.

Lemma choose_libs_ens rootfs l l32 :
  Ascii.eqb (first_char rootfs) "/" = true ->
  ensures P (cnt_stops H) (choose_libs rootfs l l32)
    (fun r => match r with
              | Some (x, y) => (forall d, l = Some d -> x = d) /\ (forall d, l32 = Some d -> y = d)
              | None => True
              end).
Proof.
  intros Hr. unfold choose_libs, choose_libs32. destruct l, l32; ens; naive_solver.
Qed.

Lemma choose_dris_ens : ensures P (cnt_stops H) choose_dris any.
Proof.
  assert (forall p, ensures P (cnt_stops H) (is_dir p) any) as Hd.
  { intros p. unfold is_dir. ens. }
  unfold choose_dris. ens_step. ens_step. destruct a0 as [m|]; [|ens].
  assert (forall (b : bool) p, ensures P (cnt_stops H) (if b then is_dir p else ret false) any) as Hc.
  { intros [] p; [apply Hd|ens]. }
  eapply ensures_bind; [apply Hc|]. intros [] _; [ens|].
  eapply ensures_bind; [apply Hc|]. intros [] _; [ens|].
  eapply ensures_bind; [apply Hc|]. intros [] _; ens.
Qed.

(** The configuration that is kept: what the caller gave, and everything set. *)
Definition completes (cfg0 cfg : nvc_container_config) : Prop :=
  cc_pid cfg = cc_pid cfg0 /\ cc_rootfs cfg = cc_rootfs cfg0 /\
  Forall (fun f => is_Some (f cfg) /\ forall d, f cfg0 = Some d -> f cfg = Some d)
    [bins_dir; libs_dir; libs32_dir; dris_dir; cudart_dir; ldconfig].

Lemma completes_dirs cfg0 cfg : completes cfg0 cfg ->
  is_Some (bins_dir cfg) /\ is_Some (libs_dir cfg) /\ is_Some (libs32_dir cfg) /\ is_Some (dris_dir cfg) /\ is_Some (cudart_dir cfg).
Proof.
  intros (_ & _ & Hf). repeat split; [set (g := bins_dir)|set (g := libs_dir)|set (g := libs32_dir)|set (g := dris_dir)|set (g := cudart_dir)];
    apply (proj1 (Forall_forall _ _) Hf g); unfold g; rewrite !elem_of_cons; tauto.
Qed.

Lemma cnt_copy_config_ens flags cfg :
  Ascii.eqb (first_char (cc_rootfs cfg)) "/" = true ->
  ensures P (cnt_stops H) (copy_config flags cfg)
    (fun r => match r with Some cfg' => completes cfg cfg' | None => True end).
Proof.
  intros Hr. unfold copy_config. ens_step. destruct a as [croot|]; [|ens]. subst croot.
  eapply ensures_bind with (R := fun r => match r with Some p => Ascii.eqb (first_char p) "/" = true | None => True end).
  { destruct (has_flag flags OPT_STANDALONE); [eapply ensures_weaken; [apply xstrdup_ens|intros ?; by apply only_mono|done|by intros [] ?; subst]|].
    ens_step. destruct a as [tmp|]; [|ens]. destruct H0 as [-> _]. ens_step. destruct a as [p|]; [|ens].
    eapply ensures_weaken; [apply xstrdup_ens|intros ?; by apply only_mono|done|].
    intros [q|]; [|done]. intros ->. eapply beneath_abs; [|match goal with Hb : _ /\ beneath _ _ |- _ => apply Hb end]. done. }
  intros [rootfs|] Hroot; [|ens]. cbv zeta. eapply ensures_bind; [by apply choose_libs_ens|].
  intros [[l l32]|] Hls; [|ens]. eapply ensures_bind with (R := fun r => match r with Some d => forall x, dris_dir cfg = Some x -> d = x | None => True end).
  { destruct (dris_dir cfg); [apply ensures_ret; naive_solver|]. eapply ensures_post; [apply choose_dris_ens|]. by intros [] _. }
  intros [d|] Hd; [|ens]. eapply ensures_bind with (R := fun r => match r with Some d => forall x, ldconfig cfg = Some x -> d = x | None => True end).
  { destruct (ldconfig cfg); [apply ensures_ret; naive_solver|]. ens; done. }
  intros [ldc|] Hldc; [|ens]. cbn [fst snd]. destruct Hls as [Hl Hl32].
  repeat (ens_step; destruct a as [?|]; [subst|ens]). apply ensures_ret. split; [done|]. split; [done|].
  repeat constructor; eauto; cbn; intros x Hx; rewrite ?Hx; f_equal; eauto.
Qed.
End Lookups.

Record wf_container (cfg0 : nvc_container_config) (cnt : nvc_container) : Prop := mkWfCnt {
  wfc_mode : has_flag (flags cnt) OPT_SUPERVISED = negb (has_flag (flags cnt) OPT_STANDALONE);
  wfc_valid : valid_config cfg0 = true;
  wfc_cfg : completes cfg0 (ccfg cnt);
  wfc_libs : Forall resolved_path (clibs cnt) /\ NoDup (clibs cnt);
  wfc_ns : cmnt_ns cnt = host_prefix (flags cnt) (ccfg cnt) +:+ PROC_PID (cc_pid cfg0) +:+ "/ns/mnt";
  wfc_cg : is_Some (dev_cg cnt) <-> has_flag (flags cnt) OPT_NO_CGROUPS = false
}.

Lemma valid_config_abs cfg : valid_config cfg = true -> Ascii.eqb (first_char (cc_rootfs cfg)) "/" = true.
Proof. unfold valid_config. intros Hv. by repeat (apply andb_prop in Hv as [Hv ?]). Qed.

Lemma xorb_mode (a b : bool) : negb (xorb (negb a) (negb b)) = false -> a = negb b.
Proof. by destruct a, b. Qed.

Lemma lookup_owner_ens flags cfg : ensures (only [KLib; KRead]) no_stop (lookup_owner flags cfg) any.
Proof. unfold lookup_owner. ens. Qed.
Lemma find_namespace_path_ens flags cfg ns :
  ensures (only [KLib]) no_stop (find_namespace_path flags cfg ns)
    (fun r => match r with
              | Some p => p = host_prefix flags cfg +:+ PROC_NS_PATH (PROC_PID (cc_pid cfg)) ns
              | None => True
              end).
Proof. unfold find_namespace_path. ens. Qed.
#[export] Hint Resolve lookup_owner_ens find_namespace_path_ens : ens.

Section New.
Context (ops : CgroupOps) (H : stop -> Prop) `{!CgroupLaws ops H}.
Lemma version_cnt_ens c : ensures cgroup_event (cnt_stops H) (get_device_cgroup_version c) any.
Proof. eapply ensures_weaken; [apply version_law|done|apply cnt_stops_cgroup|done]. Qed.
Lemma path_cnt_ens c : ensures cgroup_event (cnt_stops H) (find_device_cgroup_path c) any.
Proof. eapply ensures_weaken; [apply path_law|done|apply cnt_stops_cgroup|done]. Qed.

Lemma nvc_container_new_ens ctx cfg opts :
  ensures cgroup_event (cnt_stops H) (nvc_container_new ctx cfg opts)
    (fun r => match r with Some cnt => exists cfg0, cfg = Some cfg0 /\ wf_container cfg0 cnt | None => True end).
Proof.
  unfold nvc_container_new. ens_step. destruct a; [|ens]. destruct cfg as [cfg|]; [|ens].
  ens_step. destruct a as [[]|]; [|ens]. match goal with Hv : _ = _ -> _ |- _ => specialize (Hv eq_refl) as Hvalid; clear Hv end.
  ens_step. destruct a as [flags|]; [|ens].
  destruct (negb (xorb _ _)) eqn:Hm; [ens|]. apply xorb_mode in Hm. ens_step. destruct a; [|ens].
  eapply ensures_bind.
  { eapply ensures_weaken; [by apply cnt_copy_config_ens, valid_config_abs|apply cgroup_event_read|done|intros r Hr; exact Hr]. }
  intros [cfg'|] Hc; [|ens]. ens_step. destruct a as [owner|]; [|ens]. eapply ensures_bind.
  { instantiate (1 := fun r => match r with Some l => Forall resolved_path l /\ NoDup l | None => True end).
    destruct (negb (has_flag flags OPT_NO_CNTLIBS)); [|by apply ensures_ret; split; constructor].
    eapply ensures_weaken; [apply cnt_library_paths_ens|apply cgroup_event_read|done|done].
    - destruct Hc as (_ & -> & _). by apply valid_config_abs.
    - by apply completes_dirs in Hc as (_ & _ & _ & _ & ?). }
  intros [libs|] Hl; [|ens]. ens_step. destruct a as [ns|]; [|ens]. subst ns. cbv zeta.
  assert (PROC_PID (cc_pid cfg') = PROC_PID (cc_pid cfg)) as Epid by (destruct Hc as (-> & _); done).
  destruct (negb (has_flag flags OPT_NO_CGROUPS)) eqn:Hcg.
  - eapply ensures_bind; [apply version_cnt_ens|]. intros [v|] _; [|ens].
    eapply ensures_bind; [apply path_cnt_ens|]. intros [cg|] _; [|ens].
    apply ensures_ret. exists cfg. split; [done|]. constructor; try done; cbn [cmnt_ns dev_cg Types.flags ccfg].
    + unfold PROC_NS_PATH. by rewrite Epid.
    + apply negb_true_iff in Hcg. rewrite Hcg. split; [done|eauto].
  - apply ensures_ret. exists cfg. split; [done|]. constructor; try done; cbn [cmnt_ns dev_cg Types.flags ccfg].
    + unfold PROC_NS_PATH. by rewrite Epid.
    + apply negb_false_iff in Hcg. rewrite Hcg. split; [by intros []|done].
Qed.
End New.

(** The owner is what the kernel said of the process. *)
Definition owned (cnt : nvc_container) (t : trace) : Prop :=
  exists b, Event (EStat (host_prefix (flags cnt) (ccfg cnt) +:+ PROC_PID (cc_pid (ccfg cnt)))) (SOk b) ∈ t /\
    cuid cnt = st_uid b /\ cgid cnt = st_gid b.

Lemma lookup_owner_seen flags cfg g :
  ghost seen_step (lookup_owner flags cfg) g (fun r g' => match r with
    | Some (u, v) => exists b, Event (EStat (host_prefix flags cfg +:+ PROC_PID (cc_pid cfg))) (SOk b) ∈ g' /\
        u = st_uid b /\ v = st_gid b
    | None => True
    end).
Proof.
  unfold lookup_owner, xstat. eapply ghost_seen_ensures; [apply xsnprintf_ens|].
  intros [p|] g1 _ Hp; [|by apply ghost_ret]. destruct Hp as [-> _]. repeat gstep; try done.
  - exists a. split; [|done]. unfold seen_step. set_solver.
  - apply ghost_seen_bind. intros ? g2 _. by repeat gstep.
Qed.

Lemma nvc_container_new_owned `{CgroupOps} ctx cfg opts g :
  ghost seen_step (nvc_container_new ctx cfg opts) g
    (fun r g' => match r with Some cnt => owned cnt g' | None => True end).
Proof.
  unfold nvc_container_new. apply ghost_seen_bind. intros [] g1 _; [|by apply ghost_ret].
  destruct cfg as [cfg|]; [|apply ghost_seen_bind; intros; by apply ghost_ret].
  do 2 (apply ghost_seen_bind; intros [] ? _; [|by apply ghost_ret]).
  destruct (negb _); [apply ghost_seen_bind; intros; by apply ghost_ret|].
  do 2 (apply ghost_seen_bind; intros [] ? _; [|by apply ghost_ret]).
  eapply ghost_bind; [apply lookup_owner_seen|]. intros [[ou og]|] g2 Ho; [|by apply ghost_ret].
  destruct Ho as (b & Hb & Hu & Hv).
  do 2 (apply ghost_seen_bind; intros [] ? ?; [|by apply ghost_ret]). cbv zeta.
  destruct (negb _); [do 2 (apply ghost_seen_bind; intros [] ? ?; [|by apply ghost_ret])|];
    apply ghost_ret; exists b; cbn; (split; [set_solver|by split]).
Qed.

(** ** Properties *)

(** C20: a container is made only from a valid configuration, in exactly one mode
    of operation; every directory the caller chose is kept and the others are
    filled in; the libraries of the container are resolved paths, each once; its
    namespace is that of the process, its owner is the owner the kernel reports
    for the process, and it has a devices control group unless they are turned
    off.  Making it mounts nothing, makes no file and enters no namespace.  This holds for every
    implementation of the control groups that keeps the interface. *)
Theorem nvc_container_new_correct (ops : CgroupOps) (H : stop -> Prop) (laws : CgroupLaws ops H)
    (o : env) ctx cfg opts (s : st) :
  match exec o (nvc_container_new ctx cfg opts) s with
  | (t, Done (_, Some cnt)) =>
      Forall cgroup_event t /\ owned cnt t /\ exists cfg0, cfg = Some cfg0 /\ wf_container cfg0 cnt
  | (t, Done (_, None)) => Forall cgroup_event t
  | (t, Halted w) => Forall cgroup_event t /\ cnt_stops H w
  end.
Proof.
  pose proof (ensures_run o _ _ _ _ s (nvc_container_new_ens ops H ctx cfg opts)) as He.
  pose proof (ghost_run _ o _ _ _ s (nvc_container_new_owned ctx cfg opts [])) as Hg.
  destruct (exec o _ s) as [t [[s' [cnt|]]|w]]; [|apply He..].
  rewrite seen_fold in Hg. destruct He. done.
Qed.

(** A host where the container of process 42 is owned by 1000:1000. *)
Definition demo_cnt_host : env := fun _ e =>
  match e return resp e with
  | EReadlinkat _ _ => SErr EINVAL
  | EStat p => if str_equal p "/proc/42" then SOk (mkStat 0 1000 1000 0 0) else SOk (mkStat S_IFDIR 0 0 0 0)
  | EGlob _ => SOk ["/ctr/usr/local/cuda/compat/libcuda.so.1"; "/ctr/usr/local/cuda/compat/libcuda.so.1"]
  | e => friendly e
  end.

Definition demo_cnt_cfg : nvc_container_config :=
  mkCntConfig 42 "/ctr" None None None None None (Some "@/sbin/ldconfig").

Lemma nvc_container_new_correct_witness :
  exists s cnt,
    snd (exec demo_cnt_host (nvc_container_new (H := Nvcgo.ops) demo_ctx (Some demo_cnt_cfg) (Some "supervised compute")) init_st)
      = Done (s, Some cnt) /\
    cuid cnt = 1000 /\ clibs cnt = ["/usr/local/cuda/compat/libcuda.so.1"] /\ wf_container demo_cnt_cfg cnt.
Proof.
  pose proof (nvc_container_new_correct Nvcgo.ops rpc_stops nvcgo_laws demo_cnt_host demo_ctx (Some demo_cnt_cfg)
    (Some "supervised compute") init_st) as H.
  destruct (exec demo_cnt_host _ init_st) as [t out] eqn:E.
  assert (out = snd (exec demo_cnt_host (nvc_container_new (H := Nvcgo.ops) demo_ctx (Some demo_cnt_cfg)
    (Some "supervised compute")) init_st)) as E2 by by rewrite E.
  vm_compute in E2. subst out. eexists _, _. split; [reflexivity|]. split; [reflexivity|]. split; [reflexivity|].
  destruct H as (_ & _ & cfg0 & E0 & Hwf). injection E0 as <-. exact Hwf.
Defined.
