(* ===== verification/Heap.v ===== *)
(** * The memory of the program

    Blocks of memory and what owns them.  A function that allocates and frees is
    written in the monad [HM], which is [M] with a heap; its specification is an
    assertion of a separation logic, a model of Iris's [bi] in which nothing can
    be dropped, so that a specification is also about leaks.  The specification
    relates the function to one of [M] that speaks of values and not of pointers:
    both see the same answers, do the same things and return related results. *)
From iris.proofmode Require Import proofmode.
From S2P Require Import Prelude CString Effects.

(** ** Heaps *)

Abbreviation heap := (gmap N).

Section Heaps.
Context (block : Type).

(** What [malloc] promises: an address that is not in use. *)
Class Allocator := { alloc_at : heap block -> N; alloc_fresh : forall h, h !! alloc_at h = None }.

#[export] Instance least_allocator : Allocator :=
  {| alloc_at := fun h => fresh (dom h);
     alloc_fresh := fun h => proj1 (not_elem_of_dom h _) (is_fresh (dom h)) |}.

(** ** Assertions *)

Record hprop := HProp { holds : heap block -> Prop }.

Section Ofe.
Inductive hprop_equiv' (P Q : hprop) : Prop := HEquiv (_ : forall h, holds P h <-> holds Q h).
Local Instance hprop_equiv : Equiv hprop := hprop_equiv'.
Local Instance hprop_equivalence : Equivalence (≡@{hprop}).
Proof.
  split.
  - intros P. by constructor.
  - intros P Q [H]. constructor. intros h. by rewrite H.
  - intros P Q R [H] [H']. constructor. intros h. by rewrite H H'.
Qed.
Canonical Structure hpropO := discreteO hprop.
End Ofe.

Record h_entails (P Q : hprop) : Prop := HEntails { entails_at : forall h, holds P h -> holds Q h }.
Definition h_emp : hprop := HProp (fun h => h = ∅).
Definition h_pure (φ : Prop) : hprop := HProp (fun _ => φ).
Definition h_and (P Q : hprop) : hprop := HProp (fun h => holds P h /\ holds Q h).
Definition h_or (P Q : hprop) : hprop := HProp (fun h => holds P h \/ holds Q h).
Definition h_impl (P Q : hprop) : hprop := HProp (fun h => holds P h -> holds Q h).
Definition h_forall (A : Type) (Ψ : A -> hprop) : hprop := HProp (fun h => forall a, holds (Ψ a) h).
Definition h_exist (A : Type) (Ψ : A -> hprop) : hprop := HProp (fun h => exists a, holds (Ψ a) h).
Definition h_sep (P Q : hprop) : hprop :=
  HProp (fun h => exists h1 h2, h = h1 ∪ h2 /\ h1 ##ₘ h2 /\ holds P h1 /\ holds Q h2).
Definition h_wand (P Q : hprop) : hprop :=
  HProp (fun h => forall h', h ##ₘ h' -> holds P h' -> holds Q (h ∪ h')).
Definition h_persistently (P : hprop) : hprop := h_pure (h_entails h_emp P).
Definition h_later (P : hprop) : hprop := P.

Local Ltac by_assoc :=
  repeat match goal with
  | H : ?h ##ₘ _ ∪ _ |- _ => apply map_disjoint_union_r in H as [? ?]
  | H : _ ∪ _ ##ₘ ?h |- _ => apply map_disjoint_union_l in H as [? ?]
  end.

Lemma hprop_bi_mixin :
  BiMixin h_entails h_emp h_pure h_and h_or h_impl h_forall h_exist h_sep h_wand.
Proof.
  split.
  - split; [by intros P; split|]. intros P Q R [HP] [HQ]. split. auto.
  - intros P Q. split; [intros [H]; split; split; intros h; apply H|]. intros [[H] [H']]. constructor. split; auto.
  - intros n P Q H. constructor. done.
  - intros n P P' [H] Q Q' [H']. constructor. intros h. simpl. by rewrite H H'.
  - intros n P P' [H] Q Q' [H']. constructor. intros h. simpl. by rewrite H H'.
  - intros n P P' [H] Q Q' [H']. constructor. intros h. simpl. by rewrite H H'.
  - intros A n P P' H. constructor. intros h. simpl. split; intros Hh a; by apply H.
  - intros A n P P' H. constructor. intros h. simpl. split; intros [a Ha]; exists a; by apply H.
  - intros n P P' [H] Q Q' [H']. constructor. intros h. simpl. by setoid_rewrite H; setoid_rewrite H'.
  - intros n P P' [H] Q Q' [H']. constructor. intros h. simpl. by setoid_rewrite H; setoid_rewrite H'.
  - by intros φ P Hφ.
  - intros φ P H. split. intros h Hφ. by apply H.
  - intros P Q. by split; intros h [].
  - intros P Q. by split; intros h [].
  - intros P Q R [H] [H']. split; intros h Hh. split; auto.
  - intros P Q. split; intros h. by left.
  - intros P Q. split; intros h. by right.
  - intros P Q R [H] [H']. split; intros h [?|?]; auto.
  - intros P Q R [H]. split; intros h HP HQ. by apply H.
  - intros P Q R [H]. split; intros h [HP HQ]. by apply H.
  - intros A P Ψ H. split; intros h HP a. by apply H.
  - intros A Ψ a. split; intros h H. apply H.
  - intros A Ψ a. split; intros h H. by exists a.
  - intros A Φ Q H. split; intros h [a Ha]. by apply (H a).
  - intros P P' Q Q' [H] [H']. split; intros h (h1 & h2 & -> & Hd & H1 & H2). exists h1, h2. auto.
  - intros P. split; intros h HP. exists ∅, h. rewrite map_empty_union.
    split_and!; [done|apply map_disjoint_empty_l|done|done].
  - intros P. split; intros h (h1 & h2 & -> & Hd & -> & HP). by rewrite map_empty_union.
  - intros P Q. split; intros h (h1 & h2 & -> & Hd & HP & HQ). exists h2, h1. by rewrite map_union_comm.
  - intros P Q R. split; intros h (h12 & h3 & -> & Hd & (h1 & h2 & -> & Hd' & HP & HQ) & HR). by_assoc.
    exists h1, (h2 ∪ h3). split_and!; [by rewrite map_union_assoc|by apply map_disjoint_union_r_2|done|].
    by exists h2, h3.
  - intros P Q R [H]. split; intros h HP h' Hd HQ. apply H. by exists h, h'.
  - intros P Q R [H]. split; intros h (h1 & h2 & -> & Hd & HP & HQ). by apply H.
Qed.

Lemma hprop_persistently_mixin :
  BiPersistentlyMixin h_entails h_emp h_and h_exist h_sep h_persistently.
Proof.
  eapply bi_persistently_mixin_discrete, hprop_bi_mixin.
  - by intros n P Q [H].
  - intros A Φ H. destruct H as [H]. destruct (H ∅ eq_refl) as [a Ha]. exists a. by split; intros h ->.
  - done.
Qed.

Lemma hprop_later_mixin :
  BiLaterMixin h_entails h_pure h_or h_impl h_forall h_exist h_sep h_persistently h_later.
Proof. eapply bi_later_mixin_id, hprop_bi_mixin. done. Qed.

Canonical Structure hpropI : bi :=
  {| bi_ofe_mixin := ofe_mixin_of hprop;
     bi_bi_mixin := hprop_bi_mixin;
     bi_bi_persistently_mixin := hprop_persistently_mixin;
     bi_bi_later_mixin := hprop_later_mixin |}.

#[export] Instance hprop_pure_forall : BiPureForall hpropI.
Proof. by intros A φ; split; intros h. Qed.

(** One block, and the rest of the heap. *)
Definition points_to (l : N) (b : block) : hprop := HProp (fun h => h = {[l := b]}).
End Heaps.

#[global] Arguments HProp {block}.
#[global] Arguments holds {block}.
#[global] Arguments points_to {block}.
Notation "l ↦ b" := (points_to l b) (at level 20, format "l  ↦  b") : bi_scope.

(** ** The monad *)

(** A pointer: [NULL], the address of text that was not allocated, or of a block. *)
Inductive ptr := Null | Lit (s : string) | At (l : N).

#[export] Instance ptr_eq_dec : EqDecision ptr.
Proof. solve_decision. Defined.

Section Monad.
Context {block : Type} `{!Allocator block}.
Implicit Types (h : heap block) (b : block).

Definition HM (A : Type) : Type := heap block -> M (heap block * A).

Definition hret {A} (a : A) : HM A := fun h => ret (h, a).
Definition hbind {A B} (m : HM A) (k : A -> HM B) : HM B := fun h => let* r := m h in k (snd r) (fst r).
Definition hlift {A} (m : M A) : HM A := fun h => let* a := m in ret (h, a).

(** A block from [malloc] or [calloc] that succeeded; that it can fail is part of
    the call, an event of [M]. *)
Definition malloc (b : block) : HM ptr := fun h => let l := alloc_at _ h in ret (<[l := b]> h, At l).

(** What the address [p] leads to is not defined. *)
Definition bad_pointer {A} : HM A := hlift (halt (Undefined "invalid pointer")).

Definition free (p : ptr) : HM unit :=
  match p with
  | Null => hret tt
  | Lit _ => bad_pointer
  | At l => fun h => match h !! l with Some _ => ret (delete l h, tt) | None => bad_pointer h end
  end.

Definition load (p : ptr) : HM block :=
  match p with
  | At l => fun h => match h !! l with Some b => ret (h, b) | None => bad_pointer h end
  | _ => bad_pointer
  end.

Definition store (p : ptr) (b : block) : HM unit :=
  match p with
  | At l => fun h => match h !! l with Some _ => ret (<[l := b]> h, tt) | None => bad_pointer h end
  | _ => bad_pointer
  end.

Fixpoint hiter {A} (f : A -> HM unit) (l : list A) : HM unit :=
  match l with
  | [] => hret tt
  | a :: l' => hbind (f a) (fun _ => hiter f l')
  end.

(** A loop that leaves at the first failure. *)
Fixpoint hfold {A S} (f : S -> A -> HM (option S)) (s : S) (l : list A) : HM (option S) :=
  match l with
  | [] => hret (Some s)
  | a :: l' => hbind (f s a) (fun o => match o with Some s' => hfold f s' l' | None => hret None end)
  end.
End Monad.
#[global] Arguments HM : clear implicits.
#[global] Arguments load : simpl never.
#[global] Arguments store : simpl never.
#[global] Arguments free : simpl never.

Declare Scope heap_scope.
Delimit Scope heap_scope with H.
#[global] Open Scope heap_scope.
Notation "'let!' x ':=' m 'in' k" := (hbind m (fun x => k))
  (at level 200, x pattern, m at level 100, k at level 200, right associativity,
   format "'let!'  x  ':='  m  'in' '//' k") : heap_scope.
Notation "'let!?' x ':=' m 'else' e 'in' k" :=
  (hbind m (fun o => match o with Some x => k | None => e end))
  (at level 200, x pattern, m at level 100, e at level 100, k at level 200, right associativity,
   format "'let!?'  x  ':='  m  'else'  e  'in' '//' k") : heap_scope.
Notation "'do!' m 'in' k" := (hbind m (fun _ => k))
  (at level 200, m at level 100, k at level 200, right associativity,
   format "'do!'  m  'in' '//' k") : heap_scope.

(** ** Two programs that do the same *)

(** The left one does what the right one does, with related results; where the
    right one has undefined behaviour nothing is said. *)
Inductive simulates {A B} (R : A -> B -> Prop) : prog A -> prog B -> Prop :=
| sim_undefined p w : simulates R p (Stop (Undefined w))
| sim_stop w : simulates R (Stop w) (Stop w)
| sim_ret a b : R a b -> simulates R (Ret a) (Ret b)
| sim_vis e k k' : (forall r, simulates R (k r) (k' r)) -> simulates R (Vis e k) (Vis e k').

Lemma simulates_refl {A} (p : prog A) : simulates eq p p.
Proof. induction p; by constructor. Qed.

Lemma simulates_mono {A B} (R R' : A -> B -> Prop) p q :
  simulates R p q -> (forall a b, R a b -> R' a b) -> simulates R' p q.
Proof. induction 1; intros HR; constructor; auto. Qed.

Lemma simulates_bind {A B C D} (R : A -> B -> Prop) (R' : C -> D -> Prop) p q f g :
  simulates R p q -> (forall a b, R a b -> simulates R' (f a) (g b)) -> simulates R' (pbind p f) (pbind q g).
Proof. induction 1; intros HR; simpl; [constructor|constructor|auto|constructor; auto]. Qed.

(** What a run of the left one is, from the run of the right one. *)
Lemma simulates_run {A B} (R : A -> B -> Prop) p q o hist :
  simulates R p q ->
  match run o hist q with
  | (t, Done b) => exists a, run o hist p = (t, Done a) /\ R a b
  | (_, Halted (Undefined _)) => True
  | (t, Halted w) => run o hist p = (t, Halted w)
  end.
Proof.
  intros H. revert hist. induction H as [p w|w|a b HR|e k k' _ IH]; intros hist; simpl; [done|by destruct w|by exists a|].
  specialize (IH (o hist e) (hist ++ [Event e (o hist e)])).
  destruct (run o _ (k' _)) as [t [b|w]]; [destruct IH as (a & -> & HR); by exists a|]. destruct w; by rewrite ?IH.
Qed.

(** ** Refinement *)

(** [refines m m' Q]: with the blocks that are owned, [m] refines [m'], leaves the
    rest of the heap as it was, and ends with blocks and results that satisfy
    [Q]. *)
Definition ends {block A B} (Q : A -> B -> hprop block) (hf : heap block)
    (x : st * (heap block * A)) (y : st * B) : Prop :=
  x.1 = y.1 /\ exists h, x.2.1 = h ∪ hf /\ h ##ₘ hf /\ holds (Q x.2.2 y.2) h.

Definition refines {block A B} (m : HM block A) (m' : M B) (Q : A -> B -> hprop block) : hprop block :=
  HProp (fun h => forall hf s, h ##ₘ hf -> simulates (ends Q hf) (m (h ∪ hf) s) (m' s)).

Section Refinement.
Context {block : Type} `{!Allocator block}.
Notation hP := (hpropI block).

Lemma refines_mono {A B} (m : HM block A) (m' : M B) (Q Q' : A -> B -> hP) :
  refines m m' Q ∗ (∀ a b, Q a b -∗ Q' a b) ⊢ refines m m' Q'.
Proof.
  split; intros h (h1 & h2 & -> & Hd & Hm & HQ) hf s Hf. apply map_disjoint_union_l in Hf as [Hf1 Hf2].
  rewrite -map_union_assoc. eapply simulates_mono; [apply Hm; by apply map_disjoint_union_r_2|].
  intros [s1 [h' a]] [s2 b] (Hs & h3 & Hh & Hd3 & H3). apply map_disjoint_union_r in Hd3 as [Hd32 Hd3f].
  simpl in *. split; [done|]. simpl. exists (h3 ∪ h2). rewrite -map_union_assoc. split_and!; [done|by apply map_disjoint_union_l_2|].
  rewrite (map_union_comm h3 h2); [|done]. by apply (HQ a b h3).
Qed.

Lemma refines_wand {A B} (m : HM block A) (m' : M B) (Q Q' : A -> B -> hP) :
  refines m m' Q -∗ (∀ a b, Q a b -∗ Q' a b) -∗ refines m m' Q'.
Proof. iIntros "Hm HQ". iApply refines_mono. iFrame. Qed.

Lemma refines_bind {A B A' B'} (m : HM block A) (m' : M A') k (k' : A' -> M B') (Q : B -> B' -> hP) :
  refines m m' (fun a b => refines (k a) (k' b) Q) ⊢ refines (hbind m k) (bind m' k') Q.
Proof.
  split; intros h Hm hf s Hd. unfold hbind, bind. eapply simulates_bind; [by apply Hm|].
  intros [s1 [h1 a]] [s2 b] (Hs & h2 & Hh & Hd2 & Hk). simpl in *. subst. by apply Hk.
Qed.

Lemma simulates_bind_r {A B C} (R : A -> B -> Prop) (R' : A -> C -> Prop) p q (g : B -> prog C) :
  simulates R p q -> (forall a b, R a b -> simulates R' (Ret a) (g b)) -> simulates R' p (pbind q g).
Proof. induction 1; intros HR; simpl; [constructor|constructor|auto|constructor; auto]. Qed.

(** A step of the right program alone. *)
Lemma refines_bind_r {A B C} (m : HM block A) (m' : M B) (k' : B -> M C) (Q : A -> C -> hP) :
  refines m m' (fun a b => refines (hret a) (k' b) Q) ⊢ refines m (bind m' k') Q.
Proof.
  split; intros h Hm hf s Hd. unfold bind. eapply simulates_bind_r; [by apply Hm|].
  intros [s1 [h1 a]] [s2 b] (Hs & h2 & Hh & Hd2 & Hk). simpl in *. subst. by apply (Hk hf s2).
Qed.

Lemma simulates_bind_l {A B C} (R : A -> B -> Prop) (R' : C -> B -> Prop) p q (f : A -> prog C) :
  simulates R p q -> (forall a b, R a b -> simulates R' (f a) (Ret b)) -> simulates R' (pbind p f) q.
Proof. induction 1; intros HR; simpl; [constructor|constructor|auto|constructor; auto]. Qed.

(** What the left program does at the end. *)
Lemma refines_bind_l {A B C} (m : HM block A) (m' : M B) (k : A -> HM block C) (Q : C -> B -> hP) :
  refines m m' (fun a b => refines (k a) (ret b) Q) ⊢ refines (hbind m k) m' Q.
Proof.
  split; intros h Hm hf s Hd. unfold hbind, bind. eapply simulates_bind_l; [by apply Hm|].
  intros [s1 [h1 a]] [s2 b] (Hs & h2 & Hh & Hd2 & Hk). simpl in *. subst. by apply (Hk hf s2).
Qed.

Lemma refines_ret {A B} (a : A) (b : B) (Q : A -> B -> hP) : Q a b ⊢ refines (hret a) (ret b) Q.
Proof. split; intros h HQ hf s Hd. apply sim_ret. split; [done|]. by exists h. Qed.

Lemma simulates_ret_l {A B} (R : B -> A -> Prop) (p : prog A) f :
  (forall a, simulates R (f a) (Ret a)) -> simulates R (pbind p f) p.
Proof. intros H. induction p as [a|w|e k IH]; simpl; [apply H|constructor|constructor; apply IH]. Qed.

Lemma refines_ret_r {A B C} (m : HM block A) (b : B) (k' : B -> M C) (Q : A -> C -> hP) :
  refines m (k' b) Q ⊢ refines m (bind (ret b) k') Q.
Proof. done. Qed.

Lemma refines_lift {A} (m : M A) (Q : A -> A -> hP) : (∀ a, Q a a) ⊢ refines (hlift m) m Q.
Proof.
  split; intros h HQ hf s Hd. apply simulates_ret_l. intros [s1 a]. apply sim_ret. split; [done|]. exists h.
  split_and!; [done..|apply HQ].
Qed.

(** The same, with what follows on the left. *)
Lemma refines_lift_tail {A B} (m : M A) (k : A -> HM block B) (Q : B -> A -> hP) :
  (∀ a, refines (k a) (ret a) Q) ⊢ refines (hbind (hlift m) k) m Q.
Proof.
  split; intros h HQ hf s Hd. unfold hbind, hlift, bind.
  assert (forall p : prog (st * A), simulates (ends Q hf)
    (pbind (pbind p (fun '(s', a) => ret (h ∪ hf, a) s')) (fun '(s', a) => k (snd a) (fst a) s')) p) as Hp; [|apply Hp].
  induction p as [[s' a]|w|e k0 IH]; simpl; [by apply (HQ a)|constructor|constructor; apply IH].
Qed.

(** A step of the left program alone. *)
Lemma refines_step {A B C} (m : HM block A) k (m' : M C) (Q : B -> C -> hP) :
  refines m (ret tt) (fun a _ => refines (k a) m' Q) ⊢ refines (hbind m k) m' Q.
Proof. apply (refines_bind m (ret tt) k (fun _ => m')). Qed.

Lemma simulates_vis_inv {A B} (R : A -> B -> Prop) e k q :
  simulates R (Vis e k) q ->
  (exists w, q = Stop (Undefined w)) \/ exists k', q = Vis e k' /\ forall r, simulates R (k r) (k' r).
Proof.
  intros H. refine (match H in simulates _ p q return
    match p with
    | Vis e k => (exists w, q = Stop (Undefined w)) \/ exists k', q = Vis e k' /\ forall r, simulates R (k r) (k' r)
    | _ => True
    end with sim_undefined _ p w => _ | _ => _ end); simpl; eauto. destruct p; eauto.
Qed.

Lemma simulates_assoc {A B C D} (R : C -> D -> Prop) (p : prog A) (f : A -> prog B) (g : B -> prog C) q :
  simulates R (pbind p (fun a => pbind (f a) g)) q -> simulates R (pbind (pbind p f) g) q.
Proof.
  revert q. induction p as [a|w|e k IH]; intros q; simpl; [done..|].
  intros [[w ->]|(k' & -> & Hk)]%simulates_vis_inv; constructor; auto.
Qed.

Lemma simulates_ext {A B C} (R : B -> C -> Prop) (p : prog A) (f g : A -> prog B) q :
  (forall a, f a = g a) -> simulates R (pbind p g) q -> simulates R (pbind p f) q.
Proof.
  intros Hfg. revert q. induction p as [a|w|e k IH]; intros q; simpl; [by rewrite Hfg|done|].
  intros [[w ->]|(k' & -> & Hk)]%simulates_vis_inv; constructor; auto.
Qed.

Lemma refines_assoc {A B C D} (m : HM block A) (k : A -> HM block B) (k2 : B -> HM block C) (m' : M D) (Q : C -> D -> hP) :
  refines (hbind m (fun a => hbind (k a) k2)) m' Q ⊢ refines (hbind (hbind m k) k2) m' Q.
Proof.
  split; intros h Hm hf s Hd. specialize (Hm hf s Hd). unfold hbind, bind in *.
  eapply simulates_assoc, simulates_ext; [|apply Hm]. by intros [s1 [h1 a]].
Qed.

(** The parts of a step without memory. *)
Lemma simulates_assoc_l {A B C D} (R : C -> D -> Prop) (p : prog A) (f : A -> prog B) (g : B -> prog C) q :
  simulates R (pbind (pbind p f) g) q -> simulates R (pbind p (fun a => pbind (f a) g)) q.
Proof.
  revert q. induction p as [a|w|e k IH]; intros q; simpl; [done..|].
  intros [[w ->]|(k' & -> & Hk)]%simulates_vis_inv; constructor; auto.
Qed.

Lemma simulates_parts {A B C D E} (R : D -> E -> Prop) (p : prog A) (f : A -> prog B) (g : B -> prog C) (k : C -> prog D) q :
  simulates R (pbind p (fun a => pbind (pbind (f a) g) k)) q -> simulates R (pbind (pbind (pbind p f) g) k) q.
Proof.
  revert q. induction p as [a|w|e k1 IH]; intros q; simpl; [done..|].
  intros [[w ->]|(k' & -> & Hk)]%simulates_vis_inv; constructor; auto.
Qed.

Lemma refines_lift_bind {A B C D} (m : M A) (f : A -> M B) (k : B -> HM block C) (m' : M D) (Q : C -> D -> hP) :
  refines (hbind (hlift m) (fun a => hbind (hlift (f a)) k)) m' Q ⊢ refines (hbind (hlift (bind m f)) k) m' Q.
Proof.
  split; intros h Hm hf s Hd. specialize (Hm hf s Hd). unfold hbind, hlift, bind in *.
  apply simulates_parts. apply simulates_assoc_l in Hm. eapply simulates_ext; [|exact Hm]. by intros [s1 a].
Qed.

Lemma simulates_vis_inv_r {A B} (R : A -> B -> Prop) p e k' :
  simulates R p (Vis e k') -> exists k, p = Vis e k /\ forall r, simulates R (k r) (k' r).
Proof.
  intros H. refine (match H in simulates _ p q return
    match q with Vis e k' => exists k, p = Vis e k /\ forall r, simulates R (k r) (k' r) | _ => True end
    with sim_vis _ e k k' H => _ | _ => _ end); simpl; eauto.
Qed.

(** The same for the right program. *)
Lemma refines_assoc_r {A B C D} (m : HM block D) (m' : M A) (k' : A -> M B) (k2 : B -> M C) (Q : D -> C -> hP) :
  refines m (bind m' (fun a => bind (k' a) k2)) Q ⊢ refines m (bind (bind m' k') k2) Q.
Proof.
  split; intros h Hm hf s Hd. specialize (Hm hf s Hd). revert Hm. unfold bind. generalize (m (h ∪ hf) s).
  induction (m' s) as [[s' a]|w|e k IH]; intros p; simpl; [done..|].
  intros (k1 & -> & Hk)%simulates_vis_inv_r. constructor. intros r. apply IH, Hk.
Qed.

Lemma refines_malloc {A} b (Q : ptr -> A -> hP) a : (∀ l, l ↦ b -∗ Q (At l) a) ⊢ refines (malloc b) (ret a) Q.
Proof.
  split; intros h HQ hf s Hd. unfold malloc. set (l := alloc_at _ _). pose proof (alloc_fresh _ (h ∪ hf)) as Hl.
  fold l in Hl. apply lookup_union_None in Hl as [Hh Hf]. apply sim_ret. split; [done|]. exists (h ∪ {[l := b]}).
  split_and!; simpl.
  - rewrite -(map_union_comm {[l := b]}) ?insert_union_singleton_l ?map_union_assoc //. by apply map_disjoint_singleton_l_2.
  - apply map_disjoint_union_l_2; [done|]. by apply map_disjoint_singleton_l_2.
  - apply HQ; [by apply map_disjoint_singleton_r_2|done].
Qed.

Lemma lookup_owned (l : N) (b : block) (h1 h2 hf : heap block) : h1 = {[l := b]} -> (h1 ∪ h2 ∪ hf) !! l = Some b.
Proof. intros ->. do 2 apply lookup_union_Some_l. apply lookup_singleton_eq. Qed.

Lemma refines_free {A} l b (Q : unit -> A -> hP) a : l ↦ b ∗ Q tt a ⊢ refines (free (At l)) (ret a) Q.
Proof.
  split; intros h (h1 & h2 & -> & Hd & H1 & HQ) hf s Hf. unfold free. rewrite (lookup_owned l b); [|done].
  apply sim_ret. split; [done|]. exists h2. apply map_disjoint_union_l in Hf as [Hf1 Hf2]. simpl in H1. subst h1.
  apply map_disjoint_singleton_l in Hd, Hf1. split_and!; [|done..]. simpl.
  rewrite -map_union_assoc -insert_union_singleton_l. apply delete_insert_id. by apply lookup_union_None.
Qed.

Lemma refines_load {A} l b (Q : block -> A -> hP) a : l ↦ b ∗ (l ↦ b -∗ Q b a) ⊢ refines (load (At l)) (ret a) Q.
Proof.
  split; intros h (h1 & h2 & -> & Hd & H1 & HQ) hf s Hf. unfold load. rewrite (lookup_owned l b); [|done].
  apply sim_ret. split; [done|]. exists (h1 ∪ h2). split_and!; [done..|]. rewrite (map_union_comm h1) //.
  by apply HQ.
Qed.

Lemma refines_store {A} l b b' (Q : unit -> A -> hP) a :
  l ↦ b ∗ (l ↦ b' -∗ Q tt a) ⊢ refines (store (At l) b') (ret a) Q.
Proof.
  split; intros h (h1 & h2 & -> & Hd & H1 & HQ) hf s Hf. unfold store. rewrite (lookup_owned l b); [|done].
  simpl in H1. subst h1. apply map_disjoint_union_l in Hf as [Hf1 Hf2]. apply map_disjoint_singleton_l in Hd, Hf1.
  apply sim_ret. split; [done|]. exists (h2 ∪ {[l := b']}). simpl. split_and!.
  - rewrite (map_union_comm h2); [|by apply map_disjoint_singleton_r_2].
    by rewrite -!map_union_assoc -!insert_union_singleton_l insert_insert_eq.
  - apply map_disjoint_union_l_2; [done|]. by apply map_disjoint_singleton_l_2.
  - apply HQ; [by apply map_disjoint_singleton_r_2|done].
Qed.

Lemma refines_free_null {A} (Q : unit -> A -> hP) a : Q tt a ⊢ refines (free Null) (ret a) Q.
Proof. apply refines_ret. Qed.

Lemma refines_undefined {A B} (m : HM block A) w (Q : A -> B -> hP) P : P ⊢ refines m (halt (Undefined w)) Q.
Proof. split; intros h _ hf s _. apply sim_undefined. Qed.

End Refinement.

(** ** Owning what a pointer leads to *)

Definition owns {block} (p : ptr) (b : block) : hprop block :=
  match p with At l => points_to l b | _ => h_pure _ False end.

#[global] Arguments owns : simpl never.

Section Owning.
Context {block : Type} `{!Allocator block}.
Notation hP := (hpropI block).

Lemma owns_null (b : block) : owns Null b ⊢ (False : hP). Proof. rewrite /owns. by iIntros "H". Qed.
Lemma owns_lit s (b : block) : owns (Lit s) b ⊢ (False : hP). Proof. rewrite /owns. by iIntros "H". Qed.

(** Only addresses of blocks lead to blocks. *)
Lemma owns_at p (b : block) : owns p b ⊢ (<affine> ⌜∃ l, p = At l⌝ ∗ owns p b : hP).
Proof.
  iIntros "H". destruct p; [by iDestruct (owns_null with "H") as %[]|by iDestruct (owns_lit with "H") as %[]|].
  iFrame. iPureIntro. by eexists.
Qed.

Lemma owns_free {A} p b (Q : unit -> A -> hP) a : owns p b ∗ Q tt a ⊢ refines (free p) (ret a) Q.
Proof. destruct p; [by rewrite /owns; iIntros "[[] _]"..|apply refines_free]. Qed.
Lemma owns_load {A} p b (Q : block -> A -> hP) a : owns p b ∗ (owns p b -∗ Q b a) ⊢ refines (load p) (ret a) Q.
Proof. destruct p; [by rewrite /owns; iIntros "[[] _]"..|apply refines_load]. Qed.
Lemma owns_store {A} p b b' (Q : unit -> A -> hP) a :
  owns p b ∗ (owns p b' -∗ Q tt a) ⊢ refines (store p b') (ret a) Q.
Proof. destruct p; [by rewrite /owns; iIntros "[[] _]"..|apply refines_store]. Qed.
Lemma owns_malloc {A} b (Q : ptr -> A -> hP) a : (∀ p, owns p b -∗ Q p a) ⊢ refines (malloc b) (ret a) Q.
Proof. iIntros "H". iApply refines_malloc. iIntros (l) "Hl". by iApply ("H" $! (At l)). Qed.

Lemma step_free {B C} p b k (m' : M C) (Q : B -> C -> hP) :
  owns p b ∗ refines (k tt) m' Q ⊢ refines (hbind (free p) k) m' Q.
Proof. iIntros "H". iApply refines_step. by iApply owns_free. Qed.
Lemma step_load {B C} p b k (m' : M C) (Q : B -> C -> hP) :
  owns p b ∗ (owns p b -∗ refines (k b) m' Q) ⊢ refines (hbind (load p) k) m' Q.
Proof. iIntros "H". iApply refines_step. by iApply owns_load. Qed.
Lemma step_store {B C} p b b' k (m' : M C) (Q : B -> C -> hP) :
  owns p b ∗ (owns p b' -∗ refines (k tt) m' Q) ⊢ refines (hbind (store p b') k) m' Q.
Proof. iIntros "H". iApply refines_step. by iApply owns_store. Qed.
Lemma step_malloc {B C} b k (m' : M C) (Q : B -> C -> hP) :
  (∀ p, owns p b -∗ refines (k p) m' Q) ⊢ refines (hbind (malloc b) k) m' Q.
Proof. iIntros "H". iApply refines_step. by iApply owns_malloc. Qed.
Lemma step_ret {A B C} (a : A) k (m' : M C) (Q : B -> C -> hP) : refines (k a) m' Q ⊢ refines (hbind (hret a) k) m' Q.
Proof. iIntros "H". iApply refines_step. by iApply refines_ret. Qed.
Lemma step_lift {A B C} (m : M A) k (k' : A -> M C) (Q : B -> C -> hP) :
  (∀ a, refines (k a) (k' a) Q) ⊢ refines (hbind (hlift m) k) (bind m k') Q.
Proof. iIntros "H". iApply refines_bind. by iApply refines_lift. Qed.

(** Loops: on both sides at once, and on the left alone. *)
Lemma refines_fold {A T T'} (f : T -> A -> HM block (option T)) (f' : T' -> A -> M (option T'))
    (I : nat -> T -> T' -> hP) (F : hP) l k s s' :
  (forall i a s s', l !! i = Some a -> I (k + i)%nat s s' ⊢
     refines (f s a) (f' s' a)
       (fun o o' => match o, o' with Some s, Some s' => I (k + i + 1)%nat s s' | None, None => F | _, _ => False end)) ->
  I k s s' ⊢ refines (hfold f s l) (foldM f' s' l)
    (fun o o' => match o, o' with Some s, Some s' => I (k + length l)%nat s s' | None, None => F | _, _ => False end).
Proof.
  revert k s s'. induction l as [|a l IH]; intros k s s' Hf; simpl.
  - iIntros "H". iApply refines_ret. by rewrite Nat.add_0_r.
  - iIntros "H". iApply refines_bind. pose proof (Hf O a s s' eq_refl) as H0. rewrite !Nat.add_0_r in H0.
    iApply (refines_wand with "[H]"); [by iApply H0|]. iIntros ([s1|] [s1'|]) "H"; try done.
    + rewrite Nat.add_1_r. replace (k + S (length l))%nat with (S k + length l)%nat by lia.
      iApply (IH (S k)); [|done]. intros i b s2 s2' Hi. specialize (Hf (S i) b s2 s2' Hi).
      by replace (S k + i)%nat with (k + S i)%nat by lia.
    + by iApply refines_ret.
Qed.

Lemma refines_iterM {A A'} (f : A -> HM block (option unit)) (f' : A' -> M (option unit)) (R : hP) l l' :
  length l = length l' ->
  (forall i a a', l !! i = Some a -> l' !! i = Some a' -> R ⊢ refines (f a) (f' a') (fun r r' => <affine> ⌜r = r'⌝ ∗ R)) ->
  R ⊢ refines (hfold (fun _ a => f a) tt l) (iterM f' l') (fun r r' => <affine> ⌜r = r'⌝ ∗ R).
Proof.
  revert l'. induction l as [|a l IH]; intros [|a' l'] Hn Hf; try done; simpl; iIntros "H".
  - iApply refines_ret. by iFrame.
  - iApply refines_bind. iApply (refines_wand with "[H]"); [by iApply (Hf O)|]. iIntros (r r') "[-> H]".
    destruct r' as [[]|]; [|iApply refines_ret; by iFrame]. iApply IH; [by injection Hn| |done].
    intros i b b' Hb Hb'. by apply (Hf (S i)).
Qed.

Lemma refines_iter {A B} (f : A -> HM block unit) (I : list A -> hP) (Q : unit -> B -> hP) (b : B) l :
  (forall a l (Q : unit -> unit -> hP), I (a :: l) ∗ (I l -∗ Q tt tt) ⊢ refines (f a) (ret tt) Q) ->
  I l ∗ (I [] -∗ Q tt b) ⊢ refines (hiter f l) (ret b) Q.
Proof.
  intros Hf. iIntros "[HI HQ]". iInduction l as [|a l IH]; simpl.
  - iApply refines_ret. by iApply "HQ".
  - iApply refines_step. iApply Hf. iFrame "HI". iIntros "HI". by iApply ("IH" with "HI").
Qed.

(** What the refinement says of a run. *)
Lemma holds_pure_sep (φ : Prop) (P : hP) h : holds (<affine> ⌜φ⌝ ∗ P)%I h -> φ /\ holds P h.
Proof.
  intros H. split.
  - assert (<affine> ⌜φ⌝ ∗ P ⊢ (⌜φ⌝ : hP)) as Hp by (iIntros "[% _]"; by iPureIntro). destruct Hp as [Hp]. exact (Hp h H).
  - assert (<affine> ⌜φ⌝ ∗ P ⊢ (P : hP)) as Hp by (by iIntros "[_ $]"). destruct Hp as [Hp]. exact (Hp h H).
Qed.

Theorem refines_run {A B} (m : HM block A) (m' : M B) (P : hP) (Q : A -> B -> hP) h hf s o :
  (P ⊢ refines m m' Q) -> holds P h -> h ##ₘ hf ->
  match exec o m' s with
  | (t, Done (s', b)) => exists a h', exec o (m (h ∪ hf)) s = (t, Done (s', (h' ∪ hf, a))) /\ h' ##ₘ hf /\ holds (Q a b) h'
  | (_, Halted (Undefined _)) => True
  | (t, Halted w) => exec o (m (h ∪ hf)) s = (t, Halted w)
  end.
Proof.
  intros [Hr] HP Hd. unfold exec. pose proof (simulates_run _ _ _ o [] (Hr h HP hf s Hd)) as H.
  destruct (run o [] (m' s)) as [t [[s' b]|w]]; [|destruct w; exact H].
  destruct H as ([s1 [h1 a]] & -> & Hs & h' & Hh & Hd' & HQ). simpl in *. subst. by exists a, h'.
Qed.
End Owning.
