(* ===== verification/Lifetime.v ===== *)
(** * The lifetime of the objects of the library

    The structures of [src/src/nvc.h] and [src/src/nvc_internal.h] as they lie in
    memory, the functions that make and free them, and what their owner owns.
    [Info] and [Container] speak of the values; here are the pointers. *)
From iris.proofmode Require Import proofmode.
From S2P Require Import Prelude CString Effects Errors Utils Types Heap.

(** ** The structures *)

(** [struct nvc_device_node] *)
Record c_node := CNode { c_path : ptr; c_id : Z }.

(** [struct nvc_mig_device]; [c_parent] is the index of the GPU. *)
Record c_mig := CMig {
  c_parent : nat; c_mig_uuid : ptr; c_gi : Z; c_ci : Z; c_gi_caps_path : ptr; c_ci_caps_path : ptr
}.

(** [struct nvc_mig_device_info] *)
Record c_migs := CMigs { c_devices : ptr; c_ndevices : nat }.

(** [struct nvc_device] *)
Record c_gpu := CGpu {
  c_model : ptr; c_uuid : ptr; c_busid : ptr; c_arch : ptr; c_brand : ptr; c_node_ : c_node;
  c_mig_capable : bool; c_mig_caps_path : ptr; c_mig_devices : c_migs
}.

(** An array of strings and its size. *)
Record c_array := CArray { a_ptr : ptr; a_size : nat }.

(** [struct nvc_driver_info] *)
Record c_driver_info := CDriverInfo {
  c_nvrm_version : ptr; c_cuda_version : ptr; c_bins : c_array; c_libs : c_array; c_libs32 : c_array;
  c_ipcs : c_array; c_devs : ptr; c_ndevs : nat; c_firmwares : c_array
}.

(** [struct nvc_container_config] *)
Record c_config := CConfig {
  c_pid : Z; c_rootfs : ptr; c_bins_dir : ptr; c_libs_dir : ptr; c_libs32_dir : ptr; c_dris_dir : ptr;
  c_cudart_dir : ptr; c_ldconfig : ptr
}.

(** [struct nvc_container] *)
Record c_container := CContainer {
  c_flags : Z; c_cfg : c_config; c_cuid : Z; c_cgid : Z; c_mnt_ns : ptr; c_dev_cg_version : Z;
  c_dev_cg : ptr; c_clibs : c_array
}.

(** [struct dxcore_adapter]; the names of the components are constants. *)
Record c_adapter := CAdapter { ad_handle : Z; ad_version : Z; ad_path : ptr; ad_components : list string }.

(** [struct dxcore_context] *)
Record c_dxcore := CDxcore { x_initialized : bool; x_adapters : ptr; x_count : nat }.

(** [struct nvc_context], without its error. *)
Record c_context := CContext {
  x_up : bool; x_root : ptr; x_ldcache : ptr; x_uid : Z; x_gid : Z; x_mnt_ns : Z; x_no_pivot : bool; x_dxcore : c_dxcore
}.

(** [struct nvc_config] *)
Record c_libconfig := CLibConfig { y_root : ptr; y_ldcache : ptr; y_uid : Z; y_gid : Z }.

(** [struct error] *)
Record c_error := CError { e_code : Z; e_msg : ptr }.

(** What a block holds.  The wrappers are the structures [cli/libnvc.c] puts around
    the information of the other library; [Compiled] is what [regcomp] allocates;
    [Buffer] is memory [libdxcore] fills. *)
Inductive block :=
| Chars (s : string)
| Ptrs (l : list ptr)
| Nodes (l : list c_node)
| Migs (l : list c_mig)
| Gpus (l : list c_gpu)
| DeviceInfo (gpus : ptr) (ngpus : nat)
| DriverInfo (d : c_driver_info)
| Config (c : c_config)
| Container (c : c_container)
| DeviceWrapper (gpus : ptr) (ngpus : nat) (v0 : ptr)
| DriverWrapper (d : c_driver_info) (v0 : ptr)
| Compiled
| Buffer
| Adapters (l : list c_adapter)
| Context (c : c_context)
| LibConfig (c : c_libconfig)
| Err (e : c_error).

Abbreviation hP := (hpropI block).
Abbreviation H := (HM block).

(** What [calloc] and [memset] leave. *)
Definition zero_array : c_array := CArray Null 0.
Definition zero_gpu : c_gpu := CGpu Null Null Null Null Null (CNode Null 0) false Null (CMigs Null 0).
Definition zero_mig : c_mig := CMig 0 Null 0 0 Null Null.
Definition zero_driver_info : c_driver_info :=
  CDriverInfo Null Null zero_array zero_array zero_array zero_array Null 0 zero_array.
Definition zero_config : c_config := CConfig 0 Null Null Null Null Null Null Null.
Definition zero_adapter : c_adapter := CAdapter 0 0 Null [].
Definition zero_dxcore : c_dxcore := CDxcore false Null 0.
Definition zero_context : c_context := CContext false Null Null 0 0 0 false zero_dxcore.
Definition zero_container : c_container := CContainer 0 zero_config 0 0 Null 0 Null zero_array.

Section Memory.
Context `{!Allocator block}.

(** ** Allocation *)

(** [xcalloc], with what the block holds afterwards. *)
Definition hcalloc (b : block) : H (option ptr) :=
  let!? _ := hlift xcalloc else hret None in let! p := malloc b in hret (Some p).

(** [calloc]: only [errno] says that it failed. *)
Definition calloc : M (option unit) :=
  let* ok := call EAlloc in
  if ok : bool then ret (Some tt) else do set_errno ENOMEM in ret None.

Definition ccalloc (b : block) : H (option ptr) :=
  let!? _ := hlift calloc else hret None in let! p := malloc b in hret (Some p).

(** A call that gives its caller a new string: [xstrdup], [xasprintf], and the
    queries of the driver. *)
Definition new_string (m : M (option string)) : H (option ptr) :=
  let!? s := hlift m else hret None in let! p := malloc (Chars s) in hret (Some p).

(** ** Arrays of strings *)

Definition load_ptrs (p : ptr) : H (list ptr) :=
  let! b := load p in match b with Ptrs l => hret l | _ => bad_pointer end.

Definition load_slot (p : ptr) (i : nat) : H ptr :=
  let! l := load_ptrs p in match l !! i with Some q => hret q | None => bad_pointer end.

Definition store_slot (p : ptr) (i : nat) (q : ptr) : H unit :=
  let! l := load_ptrs p in match l !! i with Some _ => store p (Ptrs (<[i := q]> l)) | None => bad_pointer end.

(** The string at [p]; [None] is [NULL]. *)
Definition text (p : ptr) : H (option string) :=
  match p with
  | Null => hret None
  | Lit s => hret (Some s)
  | At _ => let! b := load p in match b with Chars s => hret (Some s) | _ => bad_pointer end
  end.

Definition array_new (size : nat) : H (option ptr) := hcalloc (Ptrs (replicate size Null)).

Definition array_free (arr : c_array) : H unit :=
  match a_ptr arr with
  | Null => hret tt
  | p => do! hiter (fun i => let! q := load_slot p i in free q) (seq 0 (a_size arr)) in free p
  end.

Definition non_null (p : ptr) : option ptr := match p with Null => None | _ => Some p end.

(** [array_pack(arr, &size)] *)
Definition array_pack (arr : c_array) : H c_array :=
  match a_ptr arr with
  | Null => hret arr
  | p =>
      let! l := load_ptrs p in
      let '(l', n) := Utils.array_pack (non_null <$> l) (a_size arr) in
      do! store p (Ptrs (default Null <$> l')) in
      hret (CArray p n)
  end.

(** ** Devices *)

Definition load_gpu (gpus : ptr) (i : nat) : H c_gpu :=
  let! b := load gpus in
  match b with
  | Gpus l => match l !! i with Some g => hret g | None => bad_pointer end
  | _ => bad_pointer
  end.

(** An assignment to members of [gpus[i]]. *)
Definition upd_gpu (gpus : ptr) (i : nat) (f : c_gpu -> c_gpu) : H unit :=
  let! b := load gpus in
  match b with
  | Gpus l => match l !! i with Some g => store gpus (Gpus (<[i := f g]> l)) | None => bad_pointer end
  | _ => bad_pointer
  end.

Definition load_mig (devices : ptr) (i : nat) : H c_mig :=
  let! b := load devices in
  match b with
  | Migs l => match l !! i with Some g => hret g | None => bad_pointer end
  | _ => bad_pointer
  end.

Definition upd_mig (devices : ptr) (i : nat) (f : c_mig -> c_mig) : H unit :=
  let! b := load devices in
  match b with
  | Migs l => match l !! i with Some g => store devices (Migs (<[i := f g]> l)) | None => bad_pointer end
  | _ => bad_pointer
  end.

Definition set_migs (m : c_migs) (g : c_gpu) : c_gpu :=
  CGpu (c_model g) (c_uuid g) (c_busid g) (c_arch g) (c_brand g) (c_node_ g) (c_mig_capable g) (c_mig_caps_path g) m.

(** [clear_mig_device_info(&gpus[i].mig_devices)] *)
Definition clear_mig_device_info (gpus : ptr) (i : nat) : H unit :=
  let! g := load_gpu gpus i in
  let info := c_mig_devices g in
  do! (match c_devices info with
       | Null => hret tt
       | p => hiter (fun j =>
                let! m := load_mig p j in
                do! free (c_mig_uuid m) in
                do! free (c_gi_caps_path m) in
                free (c_ci_caps_path m)) (seq 0 (c_ndevices info))
       end) in
  do! free (c_devices info) in
  upd_gpu gpus i (set_migs (CMigs Null 0)).

(** The loop of [nvc_device_info_free]. *)
Definition free_gpu (gpus : ptr) (i : nat) : H unit :=
  let! g := load_gpu gpus i in
  do! free (c_model g) in
  do! free (c_uuid g) in
  do! free (c_busid g) in
  do! free (c_arch g) in
  do! free (c_brand g) in
  do! free (c_mig_caps_path g) in
  do! free (c_path (c_node_ g)) in
  clear_mig_device_info gpus i.

Definition nvc_device_info_free (info : ptr) : H unit :=
  match info with
  | Null => hret tt
  | _ =>
      let! b := load info in
      match b with
      | DeviceInfo gpus ngpus =>
          do! (match gpus with Null => hret tt | _ => hiter (free_gpu gpus) (seq 0 ngpus) end) in
          do! free gpus in
          free info
      | _ => bad_pointer
      end
  end.

(** ** Driver information, containers *)

Definition nvc_driver_info_free (info : ptr) : H unit :=
  match info with
  | Null => hret tt
  | _ =>
      let! b := load info in
      match b with
      | DriverInfo d =>
          do! free (c_nvrm_version d) in
          do! free (c_cuda_version d) in
          do! array_free (c_bins d) in
          do! array_free (c_libs d) in
          do! array_free (c_libs32 d) in
          do! array_free (c_ipcs d) in
          do! array_free (c_firmwares d) in
          do! free (c_devs d) in
          free info
      | _ => bad_pointer
      end
  end.

Definition nvc_container_config_free (cfg : ptr) : H unit :=
  match cfg with Null => hret tt | _ => free cfg end.

Definition nvc_container_free (cnt : ptr) : H unit :=
  match cnt with
  | Null => hret tt
  | _ =>
      let! b := load cnt in
      match b with
      | Container c =>
          let cfg := c_cfg c in
          do! free (c_rootfs cfg) in
          do! free (c_bins_dir cfg) in
          do! free (c_libs_dir cfg) in
          do! free (c_libs32_dir cfg) in
          do! free (c_dris_dir cfg) in
          do! free (c_cudart_dir cfg) in
          do! free (c_ldconfig cfg) in
          do! free (c_mnt_ns c) in
          do! free (c_dev_cg c) in
          do! array_free (c_clibs c) in
          free cnt
      | _ => bad_pointer
      end
  end.

(** ** Ownership *)

(** [p] is [NULL], or leads to the string, which is the owner's to free. *)
Definition string_at (p : ptr) (o : option string) : hP :=
  match o with Some s => owns p (Chars s) | None => (<affine> ⌜p = Null⌝)%I end.

(** The same, whatever the string is. *)
Definition any_string (p : ptr) : hP := (∃ o, string_at p o)%I.

(** An array with a string or [NULL] in each slot. *)
Definition slots (p : ptr) (l : list (option string)) : hP :=
  (∃ ps, owns p (Ptrs ps) ∗ [∗ list] q;o ∈ ps;l, string_at q o)%I.

(** An array of [a_size] strings; slots behind them are [NULL]. *)
Definition strings (a : c_array) (l : list string) : hP :=
  (<affine> ⌜a_size a = length l⌝ ∗
   ((<affine> ⌜a_ptr a = Null /\ l = []⌝) ∨
    ∃ k, slots (a_ptr a) ((Some <$> l) ++ replicate k None)))%I.

(** An array that may be freed, at any moment of its making. *)
Definition any_strings (a : c_array) : hP :=
  ((<affine> ⌜a_ptr a = Null⌝) ∨
   ∃ l k, <affine> ⌜a_size a = length l⌝ ∗ slots (a_ptr a) (l ++ replicate k None))%I.

Lemma string_at_text {A} p o (Q : option string -> A -> hP) a :
  string_at p o ∗ (string_at p o -∗ Q o a) ⊢ refines (text p) (ret a) Q.
Proof.
  iIntros "[Hp HQ]". destruct o as [s|]; simpl.
  - iDestruct (owns_at with "Hp") as "[(%l & ->) Hp]". simpl.
    iApply step_load. iFrame "Hp". iIntros "Hp". iApply refines_ret. by iApply "HQ".
  - iDestruct "Hp" as %->. iApply refines_ret. by iApply "HQ".
Qed.

Lemma any_string_free {A} p (Q : unit -> A -> hP) a : any_string p ∗ Q tt a ⊢ refines (free p) (ret a) Q.
Proof.
  iIntros "[(%o & Hp) HQ]". destruct o as [s|]; simpl.
  - iApply owns_free. iFrame.
  - iDestruct "Hp" as %->. by iApply refines_free_null.
Qed.

Lemma string_any p o : string_at p o ⊢ any_string p.
Proof. iIntros "H". by iExists o. Qed.

Lemma string_null : ⊢ string_at Null None.
Proof. done. Qed.

Lemma step_free_string {B C} p k (m' : M C) (Q : B -> C -> hP) :
  any_string p ∗ refines (k tt) m' Q ⊢ refines (hbind (free p) k) m' Q.
Proof. iIntros "H". iApply refines_step. by iApply any_string_free. Qed.

(** What [new_string] returns, and what its counterpart does. *)
Definition new_result (p : option ptr) (o : option string) : hP :=
  match p, o with
  | Some p, Some s => string_at p (Some s)
  | None, None => emp
  | _, _ => False
  end%I.

Lemma new_string_refines m : ⊢ refines (new_string m) m new_result.
Proof.
  rewrite /new_string. iApply refines_lift_tail. iIntros ([s|]); [|iApply refines_ret; by simpl].
  iApply step_malloc. iIntros (p) "Hp". iApply refines_ret. iExact "Hp".
Qed.

Lemma step_new_string {B C} m k (k' : option string -> M C) (Q : B -> C -> hP) :
  (∀ p o, new_result p o -∗ refines (k p) (k' o) Q) ⊢ refines (hbind (new_string m) k) (bind m k') Q.
Proof.
  iIntros "H". iApply refines_bind. iApply refines_wand; [iApply new_string_refines|].
  iIntros (p o) "Hp". by iApply "H".
Qed.

(** What [hcalloc] returns, and [xcalloc]. *)
Definition new_block (b : block) (p : option ptr) (o : option unit) : hP :=
  match p, o with
  | Some p, Some _ => owns p b
  | None, None => emp
  | _, _ => False
  end%I.

Lemma hcalloc_refines b : ⊢ refines (hcalloc b) xcalloc (new_block b).
Proof.
  rewrite /hcalloc. iApply refines_lift_tail. iIntros ([u|]); [|iApply refines_ret; by simpl].
  iApply step_malloc. iIntros (p) "Hp". iApply refines_ret. iExact "Hp".
Qed.

Lemma ccalloc_refines b : ⊢ refines (ccalloc b) calloc (new_block b).
Proof.
  rewrite /ccalloc. iApply refines_lift_tail. iIntros ([u|]); [|iApply refines_ret; by simpl].
  iApply step_malloc. iIntros (p) "Hp". iApply refines_ret. iExact "Hp".
Qed.

Lemma step_hcalloc {B C} b k (k' : option unit -> M C) (Q : B -> C -> hP) :
  (∀ p o, new_block b p o -∗ refines (k p) (k' o) Q) ⊢ refines (hbind (hcalloc b) k) (bind xcalloc k') Q.
Proof.
  iIntros "H". iApply refines_bind. iApply refines_wand; [iApply hcalloc_refines|].
  iIntros (p o) "Hp". by iApply "H".
Qed.

(** *** One slot of an array *)

(** The array without the string of the slot behind [l1], which is [q]. *)
Definition hole (p q : ptr) (l1 l2 : list (option string)) : hP :=
  (∃ ps1 ps2, owns p (Ptrs (ps1 ++ q :: ps2)) ∗
     ([∗ list] q;o ∈ ps1;l1, string_at q o) ∗ [∗ list] q;o ∈ ps2;l2, string_at q o)%I.

Lemma slots_hole p l1 o l2 : slots p (l1 ++ o :: l2) ⊣⊢ ∃ q, string_at q o ∗ hole p q l1 l2.
Proof.
  iSplit.
  - iIntros "(%ps & Hp & Hl)". iDestruct (big_sepL2_app_inv_r with "Hl") as (ps1 ps2 ->) "[H1 H2]".
    iDestruct (big_sepL2_cons_inv_r with "H2") as (q ps2' ->) "[Hq H2]". iExists q. iFrame "Hq". iExists ps1, ps2'. iFrame.
  - iIntros "(%q & Hq & %ps1 & %ps2 & Hp & H1 & H2)". iExists (ps1 ++ q :: ps2). iFrame "Hp".
    iApply (big_sepL2_app with "H1"). iFrame.
Qed.

Lemma hole_slot p q l1 l2 : hole p q l1 l2 ⊢ ∃ ps, owns p (Ptrs ps) ∗ <affine> ⌜ps !! length l1 = Some q⌝ ∗
  ∀ q', owns p (Ptrs (<[length l1 := q']> ps)) -∗ hole p q' l1 l2.
Proof.
  iIntros "(%ps1 & %ps2 & Hp & H1 & H2)". iDestruct (big_sepL2_length with "H1") as %Hl. iExists _. iFrame "Hp".
  iSplit; [iPureIntro; by rewrite -Hl list_lookup_middle|]. iIntros (q') "Hp". rewrite -Hl insert_app_r_alt // Nat.sub_diag /=.
  iExists ps1, ps2. iFrame.
Qed.

Lemma step_load_slot {B C} p q l1 l2 i k (m' : M C) (Q : B -> C -> hP) :
  i = length l1 -> hole p q l1 l2 ∗ (hole p q l1 l2 -∗ refines (k q) m' Q) ⊢ refines (hbind (load_slot p i) k) m' Q.
Proof.
  iIntros (->) "[Hh HQ]". iDestruct (hole_slot with "Hh") as (ps) "(Hp & %Hq & Hh)". iApply refines_step.
  rewrite /load_slot /load_ptrs. iApply refines_step. iApply step_load. iFrame "Hp". iIntros "Hp". iApply refines_ret.
  rewrite Hq. iApply refines_ret. iApply "HQ". iSpecialize ("Hh" $! q). rewrite list_insert_id //. by iApply "Hh".
Qed.

Lemma step_store_slot {B C} p q q' l1 l2 i k (m' : M C) (Q : B -> C -> hP) :
  i = length l1 -> hole p q l1 l2 ∗ (hole p q' l1 l2 -∗ refines (k tt) m' Q) ⊢ refines (hbind (store_slot p i q') k) m' Q.
Proof.
  iIntros (->) "[Hh HQ]". iDestruct (hole_slot with "Hh") as (ps) "(Hp & %Hq & Hh)". iApply refines_step.
  rewrite /store_slot /load_ptrs. iApply refines_step. iApply step_load. iFrame "Hp". iIntros "Hp". iApply refines_ret.
  rewrite Hq. iApply owns_store. iFrame "Hp". iIntros "Hp". iApply "HQ". by iApply "Hh".
Qed.

(** *** Whole arrays *)

Lemma slots_null n p : owns p (Ptrs (replicate n Null)) ⊢ slots p (replicate n None).
Proof.
  iIntros "H". iExists _. iFrame "H". iInduction n as [|n IH]; simpl; [done|]. iFrame "IH". by iPureIntro.
Qed.

Lemma strings_null ps k :
  ([∗ list] q;o ∈ ps;replicate k None, string_at q o) ⊣⊢ <affine> ⌜ps = replicate k Null⌝.
Proof.
  iSplit.
  - iIntros "H". iInduction k as [|k IH] forall (ps); simpl.
    + iDestruct (big_sepL2_nil_inv_r with "H") as %->. by iPureIntro.
    + iDestruct (big_sepL2_cons_inv_r with "H") as (q ps' ->) "[Hq H]". iDestruct "Hq" as %->.
      iPoseProof ("IH" with "H") as "H". iDestruct "H" as %->. by iPureIntro.
  - iIntros (->). iInduction k as [|k IH]; simpl; [done|]. iFrame "IH". by iPureIntro.
Qed.

Lemma strings_indexed pre ps l tail :
  ([∗ list] q;o ∈ ps;l, string_at q o) ⊢
  [∗ list] i ∈ seq (length pre) (length l), ∃ q, <affine> ⌜(pre ++ ps ++ tail) !! i = Some q⌝ ∗ any_string q.
Proof.
  iIntros "H". iInduction l as [|o l IH] forall (pre ps); simpl.
  - by iDestruct (big_sepL2_nil_inv_r with "H") as %->.
  - iDestruct (big_sepL2_cons_inv_r with "H") as (q ps' ->) "[Hq H]". iSplitL "Hq".
    + iExists q. iSplit; [iPureIntro; by rewrite /= list_lookup_middle|]. by iApply string_any.
    + iSpecialize ("IH" $! (pre ++ [q]) ps' with "H"). rewrite length_app /= Nat.add_1_r -assoc_L. iExact "IH".
Qed.

Lemma array_free_spec {A} arr (Q : unit -> A -> hP) a : any_strings arr ∗ Q tt a ⊢ refines (array_free arr) (ret a) Q.
Proof.
  destruct arr as [p n]. iIntros "[[Hn|(%l & %k & Hn & %ps & Hp & Hl)] HQ]"; rewrite /array_free /=.
  { iDestruct "Hn" as %->. by iApply refines_ret. }
  iDestruct "Hn" as %->. iDestruct (big_sepL2_app_inv_r with "Hl") as (ps1 ps2 ->) "[H1 H2]".
  iEval (rewrite strings_null) in "H2". iDestruct "H2" as %->. iDestruct (strings_indexed [] _ _ (replicate k Null) with "H1") as "H1".
  iDestruct (owns_at with "Hp") as "[(%a0 & ->) Hp]". simpl.
  iApply refines_step.
  iApply (refines_iter _ (fun l => owns (At a0) (Ptrs (ps1 ++ replicate k Null)) ∗
    [∗ list] i ∈ l, ∃ q, <affine> ⌜(ps1 ++ replicate k Null) !! i = Some q⌝ ∗ any_string q)%I).
  - intros i l' Q'. iIntros "((Hp & (%q & %Hq & Hs) & Hl) & HQ)". iApply refines_step. rewrite /load_slot /load_ptrs.
    iApply refines_step. iApply step_load. iFrame "Hp". iIntros "Hp". iApply refines_ret. rewrite Hq. iApply refines_ret.
    iApply any_string_free. iFrame "Hs". iApply "HQ". iFrame.
  - iFrame. iIntros "[Hp _]". iApply owns_free. iFrame.
Qed.

Lemma strings_any arr l : strings arr l ⊢ any_strings arr.
Proof.
  iIntros "(%Hn & [[%Hp %]|(%k & Hs)])"; [by iLeft|]. iRight. iExists (Some <$> l), k. iFrame "Hs".
  by rewrite length_fmap.
Qed.

Lemma strings_present ps l :
  ([∗ list] q;o ∈ ps;l, string_at q o) ⊢ [∗ list] q;o ∈ present (non_null <$> ps);Some <$> present l, string_at q o.
Proof.
  iIntros "H". iInduction l as [|o l IH] forall (ps).
  - iDestruct (big_sepL2_nil_inv_r with "H") as %->. done.
  - iDestruct (big_sepL2_cons_inv_r with "H") as (q ps' ->) "[Hq H]". iDestruct ("IH" with "H") as "H". destruct o as [s|]; simpl.
    + iDestruct (owns_at with "Hq") as "[(%l0 & ->) Hq]". iFrame.
    + iDestruct "Hq" as %->. iFrame.
Qed.

(** [array_pack] keeps every string and puts them first. *)
Lemma array_pack_spec {A} arr l (Q : c_array -> A -> hP) a :
  a_size arr = length l -> slots (a_ptr arr) l ∗ (∀ arr', strings arr' (present l) -∗ Q arr' a) ⊢
  refines (array_pack arr) (ret a) Q.
Proof.
  destruct arr as [p n]. simpl. iIntros (->) "[(%ps & Hp & Hl) HQ]". rewrite /array_pack /=.
  iDestruct (owns_at with "Hp") as "[(%a0 & ->) Hp]". simpl.
  iApply refines_step. rewrite /load_ptrs. iApply step_load. iFrame "Hp". iIntros "Hp". iApply refines_ret.
  iDestruct (big_sepL2_length with "Hl") as %Hl.
  destruct (array_pack_eq (non_null <$> ps) []) as [k Hk]. rewrite length_fmap Hl !app_nil_r in Hk. rewrite Hk.
  iApply step_store. iFrame "Hp". iIntros "Hp". iApply refines_ret. iApply "HQ". clear Hk.
  iDestruct (strings_present with "Hl") as "Hl". iDestruct (big_sepL2_length with "Hl") as %Hn.
  iSplit; [iPureIntro; by rewrite /= Hn length_fmap|]. iRight. iExists k. iExists _. iFrame "Hp".
  rewrite fmap_app fmap_replicate. iApply (big_sepL2_app with "[Hl]"); [|by iApply strings_null].
  by rewrite -list_fmap_compose list_fmap_id.
Qed.
Lemma step_text {B C} p o k (m' : M C) (Q : B -> C -> hP) :
  string_at p o ∗ (string_at p o -∗ refines (k o) m' Q) ⊢ refines (hbind (text p) k) m' Q.
Proof. iIntros "H". iApply refines_step. by iApply string_at_text. Qed.

Lemma step_array_pack {B C} arr l k (m' : M C) (Q : B -> C -> hP) :
  a_size arr = length l ->
  slots (a_ptr arr) l ∗ (∀ arr', strings arr' (present l) -∗ refines (k arr') m' Q) ⊢
  refines (hbind (array_pack arr) k) m' Q.
Proof. iIntros (Hl) "H". iApply refines_step. by iApply array_pack_spec. Qed.

Lemma slots_any p l : slots p l ⊢ any_strings (CArray p (length l)).
Proof. iIntros "H". iRight. iExists l, 0%nat. rewrite app_nil_r. by iFrame. Qed.

Lemma any_strings_null n : ⊢ any_strings (CArray Null n).
Proof. by iLeft. Qed.

(** The array a member leads to: all its slots, for a start. *)
Definition new_slots (n : nat) (r : option ptr) (r' : option (list (option string))) : hP :=
  match r, r' with
  | Some p, Some l => slots p l ∗ <affine> ⌜l = replicate n None⌝
  | None, None => emp
  | _, _ => False
  end%I.

Lemma array_new_refines n : ⊢ refines (array_new n) (Utils.array_new (Z.of_nat n)) (new_slots n).
Proof.
  rewrite /array_new /Utils.array_new Nat2Z.id. iApply refines_bind_r. iApply (refines_wand _ _ (new_block (Ptrs (replicate n Null)))).
  { iApply hcalloc_refines. }
  iIntros ([p|] [u|]) "Hp"; simpl; try done; iApply refines_ret; [|done]. iSplit; [by iApply slots_null|done].
Qed.

(** ** What the free functions may be given *)

Definition any_mig (m : c_mig) : hP :=
  (any_string (c_mig_uuid m) ∗ any_string (c_gi_caps_path m) ∗ any_string (c_ci_caps_path m))%I.

Definition any_migs (m : c_migs) : hP :=
  ((<affine> ⌜c_devices m = Null⌝) ∨
   ∃ l l', owns (c_devices m) (Migs (l ++ l')) ∗ <affine> ⌜c_ndevices m = length l⌝ ∗ [∗ list] x ∈ l, any_mig x)%I.

Definition any_gpu (g : c_gpu) : hP :=
  (any_string (c_model g) ∗ any_string (c_uuid g) ∗ any_string (c_busid g) ∗ any_string (c_arch g) ∗
   any_string (c_brand g) ∗ any_string (c_mig_caps_path g) ∗ any_string (c_path (c_node_ g)) ∗
   any_migs (c_mig_devices g))%I.

Definition any_gpus (p : ptr) (n : nat) : hP :=
  ((<affine> ⌜p = Null⌝) ∨ ∃ l, owns p (Gpus l) ∗ <affine> ⌜n = length l⌝ ∗ [∗ list] g ∈ l, any_gpu g)%I.

Definition any_device_info (p : ptr) : hP :=
  ((<affine> ⌜p = Null⌝) ∨ ∃ gpus n, owns p (DeviceInfo gpus n) ∗ any_gpus gpus n)%I.

(** The paths of the device nodes are constants. *)
Definition any_nodes (p : ptr) : hP := ((<affine> ⌜p = Null⌝) ∨ ∃ l, owns p (Nodes l))%I.

Definition any_driver (d : c_driver_info) : hP :=
  (any_string (c_nvrm_version d) ∗ any_string (c_cuda_version d) ∗ any_strings (c_bins d) ∗
   any_strings (c_libs d) ∗ any_strings (c_libs32 d) ∗ any_strings (c_ipcs d) ∗ any_strings (c_firmwares d) ∗
   any_nodes (c_devs d))%I.

Definition any_driver_info (p : ptr) : hP :=
  ((<affine> ⌜p = Null⌝) ∨ ∃ d, owns p (DriverInfo d) ∗ any_driver d)%I.

Definition any_config (c : c_config) : hP :=
  (any_string (c_rootfs c) ∗ any_string (c_bins_dir c) ∗ any_string (c_libs_dir c) ∗
   any_string (c_libs32_dir c) ∗ any_string (c_dris_dir c) ∗ any_string (c_cudart_dir c) ∗
   any_string (c_ldconfig c))%I.

Definition any_container (p : ptr) : hP :=
  ((<affine> ⌜p = Null⌝) ∨ ∃ c, owns p (Container c) ∗ any_config (c_cfg c) ∗ any_string (c_mnt_ns c) ∗
     any_string (c_dev_cg c) ∗ any_strings (c_clibs c))%I.

(** *** They free it all, once *)

Lemma step_array_free {B C} arr k (m' : M C) (Q : B -> C -> hP) :
  any_strings arr ∗ refines (k tt) m' Q ⊢ refines (hbind (array_free arr) k) m' Q.
Proof. iIntros "H". iApply refines_step. by iApply array_free_spec. Qed.

Lemma nvc_driver_info_free_spec {A} p (Q : unit -> A -> hP) a :
  any_driver_info p ∗ Q tt a ⊢ refines (nvc_driver_info_free p) (ret a) Q.
Proof.
  iIntros "[[Hp|(%d & Hp & H1 & H2 & H3 & H4 & H5 & H6 & H7 & Hd)] HQ]".
  { iDestruct "Hp" as %->. by iApply refines_ret. }
  iDestruct (owns_at with "Hp") as "[(%l & ->) Hp]". cbn [nvc_driver_info_free].
  iApply step_load. iFrame "Hp". iIntros "Hp".
  iApply step_free_string. iFrame "H1". iApply step_free_string. iFrame "H2".
  iApply step_array_free. iFrame "H3". iApply step_array_free. iFrame "H4". iApply step_array_free. iFrame "H5".
  iApply step_array_free. iFrame "H6". iApply step_array_free. iFrame "H7".
  iDestruct "Hd" as "[Hd|(%ns & Hd)]".
  - iDestruct "Hd" as %->. iApply step_ret. iApply owns_free. iFrame.
  - iApply step_free. iFrame "Hd". iApply owns_free. iFrame.
Qed.

Lemma nvc_container_free_spec {A} p (Q : unit -> A -> hP) a :
  any_container p ∗ Q tt a ⊢ refines (nvc_container_free p) (ret a) Q.
Proof.
  iIntros "[[Hp|(%c & Hp & (H1 & H2 & H3 & H4 & H5 & H6 & H7) & H8 & H9 & Hl)] HQ]".
  { iDestruct "Hp" as %->. by iApply refines_ret. }
  iDestruct (owns_at with "Hp") as "[(%l & ->) Hp]". cbn [nvc_container_free].
  iApply step_load. iFrame "Hp". iIntros "Hp".
  iApply step_free_string. iFrame "H1". iApply step_free_string. iFrame "H2". iApply step_free_string. iFrame "H3".
  iApply step_free_string. iFrame "H4". iApply step_free_string. iFrame "H5". iApply step_free_string. iFrame "H6".
  iApply step_free_string. iFrame "H7". iApply step_free_string. iFrame "H8". iApply step_free_string. iFrame "H9".
  iApply step_array_free. iFrame "Hl". iApply owns_free. iFrame.
Qed.
(** The elements of an array by their indices. *)
Lemma indexed {X} (Φ : X -> hP) pre l tail :
  ([∗ list] x ∈ l, Φ x) ⊢ [∗ list] i ∈ seq (length pre) (length l), ∃ x, <affine> ⌜(pre ++ l ++ tail) !! i = Some x⌝ ∗ Φ x.
Proof.
  iIntros "H". iInduction l as [|x l IH] forall (pre); simpl; [done|]. iDestruct "H" as "[Hx H]". iSplitL "Hx".
  - iExists x. iFrame. iPureIntro. by rewrite list_lookup_middle.
  - iSpecialize ("IH" $! (pre ++ [x]) with "H"). rewrite length_app /= Nat.add_1_r -assoc_L. iExact "IH".
Qed.

Lemma clear_mig_device_info_spec {A} gpus gs i g (Q : unit -> A -> hP) a :
  gs !! i = Some g ->
  owns gpus (Gpus gs) ∗ any_migs (c_mig_devices g) ∗
    (owns gpus (Gpus (<[i := set_migs (CMigs Null 0) g]> gs)) -∗ Q tt a) ⊢
  refines (clear_mig_device_info gpus i) (ret a) Q.
Proof.
  iIntros (Hi) "(Hg & Hm & HQ)". rewrite /clear_mig_device_info /load_gpu. iApply refines_step. iApply step_load.
  iFrame "Hg". iIntros "Hg". rewrite Hi. iApply refines_ret. set (info := c_mig_devices g).
  iAssert (refines (upd_gpu gpus i (set_migs (CMigs Null 0))) (ret a) Q) with "[Hg HQ]" as "Hu".
  { rewrite /upd_gpu. iApply step_load. iFrame "Hg". iIntros "Hg". rewrite Hi. iApply owns_store. iFrame. }
  iDestruct "Hm" as "[Hm|(%l & %l' & Hm & %Hn & Hl)]".
  { iDestruct "Hm" as %->. iApply step_ret. by iApply step_ret. }
  iDestruct (owns_at with "Hm") as "[(%a0 & %Ha) Hm]". fold info in Ha, Hn. rewrite Ha Hn. iApply refines_step.
  iApply (refines_iter _ (fun js => owns (At a0) (Migs (l ++ l')) ∗
    [∗ list] j ∈ js, ∃ m, <affine> ⌜(l ++ l') !! j = Some m⌝ ∗ any_mig m)%I).
  - intros j js Q'. iIntros "((Hp & (%m & %Hj & H1 & H2 & H3) & Hjs) & HQ)". rewrite /load_mig. iApply refines_step.
    iApply step_load. iFrame "Hp". iIntros "Hp". rewrite Hj. iApply refines_ret.
    iApply step_free_string. iFrame "H1". iApply step_free_string. iFrame "H2". iApply any_string_free. iFrame "H3".
    iApply "HQ". iFrame.
  - iFrame "Hm". iSplitL "Hl"; [iApply (indexed _ [] l l' with "Hl")|]. iIntros "[Hm _]". iApply step_free. iFrame.
Qed.

Lemma free_gpu_spec {A} gpus gs i g (Q : unit -> A -> hP) a :
  gs !! i = Some g ->
  owns gpus (Gpus gs) ∗ any_gpu g ∗ (owns gpus (Gpus (<[i := set_migs (CMigs Null 0) g]> gs)) -∗ Q tt a) ⊢
  refines (free_gpu gpus i) (ret a) Q.
Proof.
  iIntros (Hi) "(Hg & (H1 & H2 & H3 & H4 & H5 & H6 & H7 & Hm) & HQ)". rewrite /free_gpu /load_gpu. iApply refines_step.
  iApply step_load. iFrame "Hg". iIntros "Hg". rewrite Hi. iApply refines_ret.
  iApply step_free_string. iFrame "H1". iApply step_free_string. iFrame "H2". iApply step_free_string. iFrame "H3".
  iApply step_free_string. iFrame "H4". iApply step_free_string. iFrame "H5". iApply step_free_string. iFrame "H6".
  iApply step_free_string. iFrame "H7". iApply clear_mig_device_info_spec; [done|]. iFrame.
Qed.

Lemma nvc_device_info_free_spec {A} p (Q : unit -> A -> hP) a :
  any_device_info p ∗ Q tt a ⊢ refines (nvc_device_info_free p) (ret a) Q.
Proof.
  iIntros "[[Hp|(%gpus & %n & Hp & Hg)] HQ]".
  { iDestruct "Hp" as %->. by iApply refines_ret. }
  iDestruct (owns_at with "Hp") as "[(%l & ->) Hp]". cbn [nvc_device_info_free].
  iApply step_load. iFrame "Hp". iIntros "Hp".
  iDestruct "Hg" as "[Hg|(%gs & Hg & -> & Hgs)]".
  { iDestruct "Hg" as %->. iApply step_ret. iApply step_ret. iApply owns_free. iFrame. }
  iDestruct (owns_at with "Hg") as "[(%a0 & ->) Hg]". iApply refines_step.
  iApply (refines_iter _ (fun js => ∃ gs, owns (At a0) (Gpus gs) ∗ <affine> ⌜NoDup js⌝ ∗
    [∗ list] j ∈ js, ∃ g, <affine> ⌜gs !! j = Some g⌝ ∗ any_gpu g)%I).
  - intros j js Q'. iIntros "((%gs' & Hg & %Hnd & (%g & %Hj & Hgj) & Hjs) & HQ)". apply NoDup_cons in Hnd as [Hnj Hnd].
    iApply free_gpu_spec; [done|]. iFrame "Hg Hgj". iIntros "Hg". iApply "HQ". iExists _. iFrame "Hg". iSplit; [done|].
    iApply (big_sepL_mono with "Hjs"). iIntros (k j' Hk) "(%g' & %Hj' & Hg)". iExists g'. iFrame. iPureIntro.
    rewrite list_lookup_insert_ne //. intros ->. apply Hnj. by eapply list_elem_of_lookup_2.
  - iSplitL "Hg Hgs".
    + iExists gs. iFrame "Hg". iSplit; [iPureIntro; apply NoDup_seq|]. rewrite -{2}(app_nil_r gs).
      iApply (indexed _ [] gs [] with "Hgs").
    + iIntros "(%gs' & Hg & _ & _)". iApply step_free. iFrame "Hg". iApply owns_free. iFrame.
Qed.
(** *** The life of an object *)

(** [new] does what [m'] does, in every environment and from every heap.  The
    blocks it adds are what [Q] says of its result and the one of [m'], and [free]
    gives the first heap back: nothing is lost and nothing is freed twice. *)
Definition lifetime {B} (new : H ptr) (m' : M B) (free : ptr -> H unit) (Q : ptr -> B -> hP) : Prop :=
  forall (o : env) (s : st) (h : heap block),
  match exec o m' s with
  | (t, Done (s', b)) =>
      exists p (h' : heap block), exec o (new h) s = (t, Done (s', (h' ∪ h, p))) /\ h' ##ₘ h /\
        holds (Q p b) h' /\ exec o (free p (h' ∪ h)) s' = ([], Done (s', (h, tt)))
  | (_, Halted (Undefined _)) => True
  | (t, Halted w) => exec o (new h) s = (t, Halted w)
  end.

Lemma refines_lifetime {B} new (m' : M B) free Q :
  (emp ⊢ refines new m' Q) -> (forall p b, Q p b ⊢ refines (free p) (ret tt) (fun _ _ => emp)) ->
  lifetime new m' free Q.
Proof.
  intros Hnew Hfree o s h. pose proof (refines_run new m' emp%I Q ∅ h s o Hnew eq_refl (map_disjoint_empty_l h)) as Hr.
  rewrite map_empty_union in Hr. destruct (exec o m' s) as [t [[s' b]|w]]; [|exact Hr].
  destruct Hr as (p & h' & Hr & Hd & Hp). exists p, h'. split_and!; [done..|].
  destruct (refines_run (free p) (ret tt) (Q p b) (fun _ _ => emp)%I h' h s' o) as ([] & h2 & -> & _ & ->);
    [apply Hfree|done|done|by rewrite map_empty_union].
Qed.
End Memory.
