(* ===== verification/ErrorLife.v ===== *)
(** * The memory of the error messages

    [src/src/error_generic.c] and the macro [error_from_xdr] of [src/src/error.h]
    with their allocations.  [Errors] keeps the [struct error] of the caller in the
    state; here it is a block with a pointer to its message, which the functions of
    [Errors] run with ([with_err]) describe. *)
From iris.proofmode Require Import proofmode.
From S2P Require Import Prelude CString Effects Errors Utils Types Files Driver Heap Lifetime.

Section Messages.
Context `{!Allocator block}.

(** ** The functions *)

Definition load_error (err : ptr) : H c_error :=
  let! b := load err in match b with Err e => hret e | _ => bad_pointer end.

Definition error_reset (err : ptr) : H unit :=
  match err with
  | Null => hret tt
  | _ =>
      let! e := load_error err in
      do! free (e_msg e) in
      store err (Err (CError 0 Null))
  end.

(** [text] is what the format and its arguments give. *)
Definition error_vset (err : ptr) (errcode : Z) (errmsg : option string) (text : string) : H Z :=
  match err with
  | Null => hret 0
  | _ =>
      do! error_reset err in
      do! store err (Err (CError errcode Null)) in
      let! ok := hlift (call EAlloc) in
      if negb ok then hret (-1)
      else
        let! msg := malloc (Chars text) in
        match errmsg with
        | None => do! store err (Err (CError errcode msg)) in hret 0
        | Some em =>
            let! ok := hlift (call EAlloc) in
            if negb ok then do! store err (Err (CError errcode Null)) in do! free msg in hret (-1)
            else
              let! m := malloc (Chars (text +:+ ": " +:+ em)) in
              do! store err (Err (CError errcode m)) in
              if errmsg_has_colon text em then
                do! store m (Chars (format_errmsg text em)) in
                do! free msg in
                hret 0
              else hlift (halt (Undefined "str_lower(NULL)"))
        end
  end.

Definition error_set (err : ptr) (text : string) : H Z :=
  let! n := hlift get_errno in
  let! em := hlift (call (EStrerror n)) in
  error_vset err n (Some em) text.

Definition error_setx (err : ptr) (text : string) : H Z := error_vset err (-1) None text.

(** [xstrdup(err, s)] *)
Definition xstrdup (err : ptr) (s : string) : H (option ptr) :=
  let! ok := hlift (call EAlloc) in
  if ok : bool then let! p := malloc (Chars s) in hret (Some p)
  else
    do! hlift (set_errno ENOMEM) in
    do! error_set err "memory allocation failed" in
    hret None.

(** The message that was there is overwritten, not freed. *)
Definition error_from_xdr (err : ptr) (code : Z) (msg : string) : H unit :=
  let!? copy := xstrdup err msg else hret tt in
  match err with
  | Null => hlift (halt (Undefined "error_from_xdr(NULL)"))
  | _ =>
      do! load_error err in
      store err (Err (CError code copy))
  end.

(** ** Ownership *)

(** A [struct error] and its message; [None] is a [NULL] for the error. *)
Definition error_at (p : ptr) (e : option error) : hP :=
  match e with
  | None => <affine> ⌜p = Null⌝
  | Some e => ∃ q, owns p (Err (CError (code e) q)) ∗ string_at q (msg e)
  end%I.

(** ** Running with an error *)

Lemma refines_with_err_bind {A B C} (m : H C) e (m' : M A) (k' : A -> M B) (Q : C -> B * option error -> hP) :
  refines m (bind (with_err e m') (fun r => with_err r.2 (k' r.1))) Q ⊢ refines m (with_err e (bind m' k')) Q.
Proof.
  split; intros h Hm hf s Hd. specialize (Hm hf s Hd). revert Hm. unfold bind, with_err. generalize (m (h ∪ hf) s).
  induction (m' (mkSt (errno s) e)) as [[s' a]|w|ev k IH]; intros p; simpl.
  - by destruct s'.
  - done.
  - intros (k1 & -> & Hk)%simulates_vis_inv_r. constructor. intros r. apply IH, Hk.
Qed.

Lemma refines_with_err_ret {A B} (m : H B) e (a : A) (Q : B -> A * option error -> hP) :
  refines m (ret (a, e)) Q ⊢ refines m (with_err e (ret a)) Q.
Proof. split; intros h Hm hf s Hd. specialize (Hm hf s Hd). by destruct s. Qed.

(** What is only asked of the state, and what the environment is asked. *)
Lemma refines_get_err {A B} (m : H B) e (k' : option error -> M A) (Q : B -> A * option error -> hP) :
  refines m (with_err e (k' e)) Q ⊢ refines m (with_err e (bind get_err k')) Q.
Proof. done. Qed.

Lemma refines_set_err {A B} (m : H B) e e' (k' : unit -> M A) (Q : B -> A * option error -> hP) :
  refines m (with_err e' (k' tt)) Q ⊢ refines m (with_err e (bind (set_err e') k')) Q.
Proof. done. Qed.

Lemma refines_err_reset {A B} (m : H B) e (k' : unit -> M A) (Q : B -> A * option error -> hP) :
  refines m (with_err (Some (mkError 0 None)) (k' tt)) Q ⊢ refines m (with_err (Some e) (bind Errors.error_reset k')) Q.
Proof. done. Qed.

Lemma refines_err_undefined {A B} (m : H B) e w (Q : B -> A * option error -> hP) P :
  P ⊢ refines m (with_err e (halt (Undefined w))) Q.
Proof. exact (refines_undefined m w Q P). Qed.

Lemma refines_err_assoc {A B C} (m : H C) ev e (f : resp ev -> M A) (k' : A -> M B) (Q : C -> B * option error -> hP) :
  refines m (with_err e (bind (call ev) (fun r => bind (f r) k'))) Q ⊢
  refines m (with_err e (bind (bind (call ev) f) k')) Q.
Proof. done. Qed.

Lemma refines_err_assoc_errno {A B C} (m : H C) n e (f : unit -> M A) (k' : A -> M B) (Q : C -> B * option error -> hP) :
  refines m (with_err e (bind (set_errno n) (fun u => bind (f u) k'))) Q ⊢
  refines m (with_err e (bind (bind (set_errno n) f) k')) Q.
Proof. done. Qed.

Lemma step_err_call {A B} (ev : sys) (k : resp ev -> H B) e (k' : resp ev -> M A) (Q : B -> A * option error -> hP) :
  (∀ r, refines (k r) (with_err e (k' r)) Q) ⊢ refines (hbind (hlift (call ev)) k) (with_err e (bind (call ev) k')) Q.
Proof. exact (step_lift (call ev) k (fun r => with_err e (k' r)) Q). Qed.

Lemma step_err_errno {A B} (k : Z -> H B) e (k' : Z -> M A) (Q : B -> A * option error -> hP) :
  (∀ n, refines (k n) (with_err e (k' n)) Q) ⊢ refines (hbind (hlift get_errno) k) (with_err e (bind get_errno k')) Q.
Proof. exact (step_lift get_errno k (fun r => with_err e (k' r)) Q). Qed.

Lemma step_err_set_errno {A B} n (k : unit -> H B) e (k' : unit -> M A) (Q : B -> A * option error -> hP) :
  (∀ u, refines (k u) (with_err e (k' u)) Q) ⊢
  refines (hbind (hlift (set_errno n)) k) (with_err e (bind (set_errno n) k')) Q.
Proof. exact (step_lift (set_errno n) k (fun r => with_err e (k' r)) Q). Qed.

(** ** What the functions do *)

Lemma error_reset_spec {A} p e (Q : unit -> A -> hP) a :
  error_at p (Some e) ∗ (owns p (Err (CError 0 Null)) -∗ Q tt a) ⊢ refines (error_reset p) (ret a) Q.
Proof.
  iIntros "[(%q & Hp & Hq) HQ]". iDestruct (owns_at with "Hp") as "[(%l & ->) Hp]". cbn [error_reset].
  iApply refines_step. rewrite /load_error. iApply step_load. iFrame "Hp". iIntros "Hp". iApply refines_ret.
  iApply step_free_string. iSplitL "Hq"; [by iApply string_any|]. iApply owns_store. iFrame.
Qed.

Lemma error_reset_refines p e :
  error_at p e ⊢ refines (error_reset p) (with_err e Errors.error_reset) (fun _ r => error_at p r.2).
Proof.
  iIntros "He". rewrite /Errors.error_reset. iApply refines_get_err. destruct e as [e|].
  - iApply (refines_set_err _ _ _ ret). iApply refines_with_err_ret. iApply error_reset_spec. iFrame "He". iIntros "Hp".
    iExists Null. by iFrame.
  - iDestruct "He" as %->. iApply refines_with_err_ret. by iApply refines_ret.
Qed.

(** A message that is set replaces the one before, which is freed; whatever fails,
    the structure has at most one. *)
Lemma error_vset_refines p e n em text :
  error_at p e ⊢
  refines (error_vset p n em text) (with_err e (Errors.error_vset n em text))
    (fun r r' => <affine> ⌜r = r'.1⌝ ∗ error_at p r'.2).
Proof.
  iIntros "He". rewrite /Errors.error_vset. iApply refines_get_err. destruct e as [e|].
  2:{ iDestruct "He" as %->. iApply refines_with_err_ret. iApply refines_ret. by iSplit. }
  iApply refines_err_reset. iApply refines_set_err.
  iAssert (<affine> ⌜exists l, p = At l⌝ ∗ error_at p (Some e))%I with "[He]" as "[(%l & ->) He]".
  { iDestruct "He" as "(%q & Hp & Hq)". iDestruct (owns_at with "Hp") as "[$ Hp]". iExists q. iFrame. }
  cbn [error_vset]. iApply refines_step. iApply error_reset_spec. iFrame "He". iIntros "Hp".
  iApply step_store. iFrame "Hp". iIntros "Hp".
  iAssert (∀ m, owns (At l) (Err (CError n m)) -∗ ∀ o, string_at m o -∗ error_at (At l) (Some (mkError n o)))%I as "Hat".
  { iIntros (m) "Hp %o Hm". iExists m. iFrame. }
  iApply step_err_call. iIntros ([]); simpl negb; cbv iota.
  2:{ iApply refines_with_err_ret. iApply refines_ret. iSplit; [done|]. iApply ("Hat" with "Hp"). done. }
  iApply step_malloc. iIntros (m) "Hm". destruct em as [em|].
  2:{ iApply step_store. iFrame "Hp". iIntros "Hp". iApply refines_set_err. iApply refines_with_err_ret. iApply refines_ret.
      iSplit; [done|]. iApply ("Hat" with "Hp"). done. }
  iApply step_err_call. iIntros ([]); simpl negb; cbv iota.
  2:{ iApply step_store. iFrame "Hp". iIntros "Hp". iApply step_free. iFrame "Hm". iApply refines_with_err_ret.
      iApply refines_ret. iSplit; [done|]. iApply ("Hat" with "Hp"). done. }
  iApply step_malloc. iIntros (m2) "Hm2". iApply step_store. iFrame "Hp". iIntros "Hp".
  destruct (errmsg_has_colon text em); [|iStopProof; apply refines_err_undefined].
  iApply step_store. iFrame "Hm2". iIntros "Hm2". iApply step_free. iFrame "Hm". iApply refines_set_err.
  iApply refines_with_err_ret. iApply refines_ret. iSplit; [done|]. iApply ("Hat" with "Hp"). iExact "Hm2".
Qed.

(** The answer of a setter, and the structure afterwards. *)
Definition was_set (p : ptr) (r : Z) (r' : Z * option error) : hP := (<affine> ⌜r = r'.1⌝ ∗ error_at p r'.2)%I.

Lemma error_set_refines p e text :
  error_at p e ⊢ refines (error_set p text) (with_err e (Errors.error_set text)) (was_set p).
Proof.
  iIntros "He". rewrite /error_set /Errors.error_set. iApply step_err_errno. iIntros (n). iApply step_err_call.
  iIntros (em). by iApply error_vset_refines.
Qed.

Lemma error_setx_refines p e text :
  error_at p e ⊢ refines (error_setx p text) (with_err e (Errors.error_setx text)) (was_set p).
Proof. apply error_vset_refines. Qed.

Lemma xstrdup_refines p e s :
  error_at p e ⊢
  refines (xstrdup p s) (with_err e (Errors.xstrdup s))
    (fun r r' => new_result r r'.1 ∗
       error_at p r'.2 ∗ <affine> ⌜r <> None -> r'.2 = e⌝).
Proof.
  iIntros "He". rewrite /xstrdup /Errors.xstrdup /xalloc. iApply refines_err_assoc. iApply step_err_call. iIntros ([]).
  - iApply step_malloc. iIntros (q) "Hq". iApply refines_with_err_ret. iApply refines_ret. iFrame "Hq He". done.
  - iApply refines_err_assoc_errno. iApply step_err_set_errno. iIntros (u).
    iApply refines_with_err_bind. iApply (refines_bind _ _ _ (fun r => with_err r.2 (match r.1 with Some _ => ret (Some s) | None => ret None end))).
    iApply (refines_wand _ _ (fun _ r => <affine> ⌜r.1 = None⌝ ∗ error_at p r.2)%I with "[He]").
    + iApply refines_with_err_bind. iApply refines_bind_r.
      iApply (refines_wand with "[He]"); [by iApply error_set_refines|]. iIntros (a r) "[_ He]".
      iApply refines_with_err_ret. iApply refines_ret. by iFrame.
    + iIntros (a [r e']) "[%Hr He]". cbn [fst snd] in *. subst r. iApply refines_with_err_ret. iApply refines_ret. by iFrame.
Qed.

(** The error of the service reaches the structure of the client; the message that
    was there is lost. *)
Lemma error_from_xdr_refines p e c m :
  error_at p e ⊢
  refines (error_from_xdr p c m) (with_err e (Driver.error_from_xdr c m))
    (fun _ r' => error_at p r'.2 ∗
       ∃ q o, string_at q o ∗ <affine> ⌜o = None \/ exists e0, e = Some e0 /\ o = msg e0⌝).
Proof.
  iIntros "He". rewrite /error_from_xdr /Driver.error_from_xdr. iApply refines_with_err_bind. iApply refines_bind.
  iApply (refines_wand with "[He]"); [by iApply xstrdup_refines|]. iIntros ([q|] [[s|] e']) "(Hq & He & %He)"; try done; cbn [fst snd] in *.
  2:{ iClear "Hq". iApply refines_with_err_ret. iApply refines_ret. iFrame "He". iExists Null, None. iSplit; [done|].
      iPureIntro. by left. }
  rewrite (He ltac:(done)). iApply refines_get_err. destruct e as [e|]; [|iStopProof; apply refines_err_undefined].
  iDestruct "He" as "(%q0 & Hp & Hold)". iDestruct (owns_at with "Hp") as "[(%l & ->) Hp]".
  iApply refines_step. rewrite /load_error. iApply step_load. iFrame "Hp". iIntros "Hp". iApply refines_ret.
  iApply (refines_set_err _ _ _ ret). iApply refines_with_err_ret. iApply owns_store. iFrame "Hp". iIntros "Hp".
  iSplitL "Hp Hq"; [iExists q; iFrame|]. iExists q0, (msg e). iFrame "Hold". iPureIntro. right. by exists e.
Qed.

(** *** A sequence of errors *)

Inductive error_call := Reset | Set_ (text : string) | Setx (text : string).

Definition error_calls (p : ptr) : list error_call -> H unit :=
  hiter (fun c => match c with
                  | Reset => error_reset p
                  | Set_ text => do! error_set p text in hret tt
                  | Setx text => do! error_setx p text in hret tt
                  end).

Definition error_calls_of : list error_call -> M unit :=
  mapM_ (fun c => match c with
                  | Reset => Errors.error_reset
                  | Set_ text => do Errors.error_set text in ret tt
                  | Setx text => do Errors.error_setx text in ret tt
                  end).

(** However many errors are set, there is one message at most. *)
Lemma error_calls_refines p e cs :
  error_at p e ⊢ refines (error_calls p cs) (with_err e (error_calls_of cs)) (fun _ r => error_at p r.2).
Proof.
  iIntros "He". iInduction cs as [|c cs IH] forall (e); simpl.
  { iApply refines_with_err_ret. by iApply refines_ret. }
  iApply refines_with_err_bind. iApply refines_bind. iApply (refines_wand _ _ (fun _ r => error_at p r.2) with "[He]").
  - destruct c as [|text|text].
    + by iApply error_reset_refines.
    + iApply refines_with_err_bind. iApply refines_bind. iApply (refines_wand with "[He]"); [by iApply error_set_refines|].
      iIntros (r r') "[_ He]". iApply refines_with_err_ret. by iApply refines_ret.
    + iApply refines_with_err_bind. iApply refines_bind. iApply (refines_wand with "[He]"); [by iApply error_setx_refines|].
      iIntros (r r') "[_ He]". iApply refines_with_err_ret. by iApply refines_ret.
  - iIntros ([] [[] e']) "He". by iApply "IH".
Qed.

(** And none after a reset. *)
Lemma error_calls_reset l e cs :
  error_at (At l) (Some e) ⊢
  refines (do! error_calls (At l) cs in error_reset (At l)) (with_err (Some e) (error_calls_of cs))
    (fun _ _ => owns (At l) (Err (CError 0 Null))).
Proof.
  iIntros "He". iApply refines_bind_l. iApply (refines_wand with "[He]"); [by iApply error_calls_refines|].
  iIntros (u [u' [e'|]]) "He"; cbn [fst snd]; [|by iDestruct "He" as %?].
  iApply error_reset_spec. iFrame "He". by iIntros "$".
Qed.

(** Setting errors and resetting the structure in the end gives the heap back,
    whatever fails. *)
Lemma error_messages_freed (l : N) (cs : list error_call) (o : env) (s : st) (hf : heap block) :
  hf !! l = None ->
  let h := <[l := Err (CError 0 Null)]> hf in
  match exec o (with_err err0 (error_calls_of cs)) s with
  | (t, Done (s', _)) => exec o ((do! error_calls (At l) cs in error_reset (At l)) h) s = (t, Done (s', (h, tt)))
  | (_, Halted (Undefined _)) => True
  | (t, Halted w) => exec o ((do! error_calls (At l) cs in error_reset (At l)) h) s = (t, Halted w)
  end.
Proof.
  intros Hl h. assert (h = {[l := Err (CError 0 Null)]} ∪ hf) as ->.
  { unfold h. by rewrite insert_union_singleton_l. }
  pose proof (refines_run _ _ (error_at (At l) (Some (mkError 0 None))) _ {[l := Err (CError 0 Null)]} hf s o
    (error_calls_reset l (mkError 0 None) cs)) as Hx.
  assert (owns (At l) (Err (CError 0 Null)) ⊢ error_at (At l) (Some (mkError 0 None))) as [Ha].
  { iIntros "H". iExists Null. by iFrame. }
  specialize (Hx (Ha _ eq_refl) ltac:(by apply map_disjoint_singleton_l_2)).
  fold err0 in Hx. destruct (exec o (with_err err0 _) s) as [t [[s' r]|w]]; [|exact Hx].
  destruct Hx as ([] & h' & He & _ & Hh). unfold owns in Hh. simpl in Hh. by subst h'.
Qed.
End Messages.

(** A second failure of the service, before the first was reset. *)
Definition two_failures : trace * outcome (st * (heap block * unit)) :=
  exec (fun _ => friendly) ((do! error_from_xdr (At 0) 9 "first" in error_from_xdr (At 0) 9 "second")
    {[ 0%N := Err (CError 0 Null) ]}) init_st.

(** The message of the first one is still there, and nobody leads to it. *)
Lemma error_from_xdr_loses :
  match two_failures with
  | (_, Done (_, (h, _))) =>
      h !! 0%N = Some (Err (CError 9 (At 2))) /\ h !! 2%N = Some (Chars "second") /\ h !! 1%N = Some (Chars "first")
  | _ => False
  end.
Proof. vm_compute. auto. Qed.
