(* ===== verification/DeviceLife.v ===== *)
(** * The making of the device information

    [nvc_device_info_new] of [src/src/nvc_info.c] with its memory, and that it is
    [Info.nvc_device_info_new]. *)
From iris.proofmode Require Import proofmode.
From S2P Require Import Prelude CString Effects Errors Utils Types Driver Info Heap Lifetime.

Section Devices.
Context `{!Allocator block}.

(** ** Assignments to the members of a device *)

Definition set_model (p : ptr) (g : c_gpu) : c_gpu :=
  CGpu p (c_uuid g) (c_busid g) (c_arch g) (c_brand g) (c_node_ g) (c_mig_capable g) (c_mig_caps_path g) (c_mig_devices g).
Definition set_uuid (p : ptr) (g : c_gpu) : c_gpu :=
  CGpu (c_model g) p (c_busid g) (c_arch g) (c_brand g) (c_node_ g) (c_mig_capable g) (c_mig_caps_path g) (c_mig_devices g).
Definition set_busid (p : ptr) (g : c_gpu) : c_gpu :=
  CGpu (c_model g) (c_uuid g) p (c_arch g) (c_brand g) (c_node_ g) (c_mig_capable g) (c_mig_caps_path g) (c_mig_devices g).
Definition set_node (n : c_node) (g : c_gpu) : c_gpu :=
  CGpu (c_model g) (c_uuid g) (c_busid g) (c_arch g) (c_brand g) n (c_mig_capable g) (c_mig_caps_path g) (c_mig_devices g).
(** Under WSL: no node, no MIG. *)
Definition set_wsl (g : c_gpu) : c_gpu :=
  CGpu (c_model g) (c_uuid g) (c_busid g) (c_arch g) (c_brand g) (CNode Null (c_id (c_node_ g))) false Null (CMigs Null 0).

(** ** The functions *)

(** [init_nvc_device(ctx, index, &gpus[i])] *)
Definition init_nvc_device (ctx : nvc_context) (index : Z) (gpus : ptr) (i : nat) : H (option unit) :=
  let!? dev := hlift (driver_get_device index) else hret None in
  match dev with
  | None => hlift (halt (Undefined "NULL device handle"))
  | Some dev =>
      let!? model := new_string (driver_get_device_model dev) else hret None in
      do! upd_gpu gpus i (set_model model) in
      let!? minor := hlift (driver_get_device_minor dev) else hret None in
      let!? busid := new_string (driver_get_device_busid dev) else hret None in
      do! upd_gpu gpus i (set_busid busid) in
      let!? uuid := new_string (driver_get_device_uuid dev) else hret None in
      do! upd_gpu gpus i (set_uuid uuid) in
      if dx_initialized (dxcore ctx) then do! upd_gpu gpus i set_wsl in hret (Some tt)
      else
        let!? minor := hlift (driver_get_device_minor dev) else hret None in
        let!? path := new_string (xasprintf (NV_DEVICE_PATH minor)) else hret None in
        do! upd_gpu gpus i (fun g => set_node (CNode path (c_id (c_node_ g))) g) in
        do! upd_gpu gpus i (fun g => set_node (CNode (c_path (c_node_ g)) (makedev NV_DEVICE_MAJOR minor)) g) in
        hret (Some tt)
  end.

Definition nvc_device_info_new (ctx : nvc_context) : H ptr :=
  let!? _ := hlift (validate_context ctx) else hret Null in
  let!? info := hcalloc (DeviceInfo Null 0) else hret Null in
  let! rv :=
    (let!? n := hlift driver_get_device_count else hret None in
     let ngpus := Z.to_nat n in
     do! store info (DeviceInfo Null ngpus) in
     let!? gpus := hcalloc (Gpus (replicate ngpus zero_gpu)) else hret None in
     do! store info (DeviceInfo gpus ngpus) in
     hfold (fun _ i => init_nvc_device ctx i gpus (Z.to_nat i)) tt (seqZ 0 n)) in
  match rv with
  | Some _ => hret info
  | None => do! nvc_device_info_free info in hret Null
  end.

(** ** Ownership *)

Definition mig_at (c : c_mig) (m : nvc_mig_device) : hP :=
  (string_at (c_mig_uuid c) (Some (mig_uuid m)) ∗ string_at (c_gi_caps_path c) (Some (gi_caps_path m)) ∗
   string_at (c_ci_caps_path c) (Some (ci_caps_path m)) ∗
   <affine> ⌜c_parent c = parent m /\ c_gi c = gi m /\ c_ci c = ci m⌝)%I.

Definition migs_at (c : c_migs) (l : list nvc_mig_device) : hP :=
  (<affine> ⌜c_ndevices c = length l⌝ ∗
   ((<affine> ⌜c_devices c = Null /\ l = []⌝) ∨
    ∃ cs rest, owns (c_devices c) (Migs (cs ++ rest)) ∗ [∗ list] c;m ∈ cs;l, mig_at c m))%I.

(** The device at [g] is [d], and the owner of [g] owns all its memory. *)
Definition gpu_at (g : c_gpu) (d : nvc_device) : hP :=
  (string_at (c_model g) (model d) ∗ string_at (c_uuid g) (Some (uuid d)) ∗ string_at (c_busid g) (Some (busid d)) ∗
   string_at (c_arch g) (arch d) ∗ string_at (c_brand g) (brand d) ∗ string_at (c_mig_caps_path g) (mig_caps_path d) ∗
   string_at (c_path (c_node_ g)) (node_path (node d)) ∗ migs_at (c_mig_devices g) (mig_devices d) ∗
   <affine> ⌜c_id (c_node_ g) = node_id (node d) /\ c_mig_capable g = mig_capable d⌝)%I.

(** [NULL], or the information. *)
Definition device_info (p : ptr) (info : option nvc_device_info) : hP :=
  match info with
  | None => (<affine> ⌜p = Null⌝)%I
  | Some ds => (∃ gpus gs, owns p (DeviceInfo gpus (length ds)) ∗ owns gpus (Gpus gs) ∗
      [∗ list] g;d ∈ gs;ds, gpu_at g d)%I
  end.

(** ** Facts *)

Lemma migs_any c l : migs_at c l ⊢ any_migs c.
Proof.
  iIntros "(%Hn & [(%Hc & ->)|(%cs & %rest & Hp & Hl)])"; [by iLeft|]. iRight. iExists cs, rest. iFrame "Hp".
  iDestruct (big_sepL2_length with "Hl") as %Hl. iSplit; [iPureIntro; congruence|].
  clear Hn Hl. iInduction cs as [|c' cs IH] forall (l).
  - by iDestruct (big_sepL2_nil_inv_l with "Hl") as %->.
  - iDestruct (big_sepL2_cons_inv_l with "Hl") as (m l' ->) "[(H1 & H2 & H3 & _) Hl]". iDestruct ("IH" with "Hl") as "$".
    iSplitL "H1"; [by iApply string_any|]. iSplitL "H2"; by iApply string_any.
Qed.

Lemma gpu_any g d : gpu_at g d ⊢ any_gpu g.
Proof.
  iIntros "(H1 & H2 & H3 & H4 & H5 & H6 & H7 & H8 & _)".
  iSplitL "H1"; [by iApply string_any|]. iSplitL "H2"; [by iApply string_any|]. iSplitL "H3"; [by iApply string_any|].
  iSplitL "H4"; [by iApply string_any|]. iSplitL "H5"; [by iApply string_any|]. iSplitL "H6"; [by iApply string_any|].
  iSplitL "H7"; [by iApply string_any|]. by iApply migs_any.
Qed.

Lemma gpus_any gs ds : ([∗ list] g;d ∈ gs;ds, gpu_at g d) ⊢ [∗ list] g ∈ gs, any_gpu g.
Proof.
  iIntros "H". iInduction gs as [|g gs IH] forall (ds).
  - by iDestruct (big_sepL2_nil_inv_l with "H") as %->.
  - iDestruct (big_sepL2_cons_inv_l with "H") as (d ds' ->) "[Hg H]". iDestruct ("IH" with "H") as "$". by iApply gpu_any.
Qed.

Lemma device_info_any p info : device_info p info ⊢ any_device_info p.
Proof.
  destruct info as [ds|]; [|by iIntros "%"; iLeft]. iIntros "(%gpus & %gs & Hp & Hg & Hl)". iRight. iExists _, _. iFrame "Hp".
  iRight. iExists _. iFrame "Hg". iDestruct (big_sepL2_length with "Hl") as %Hl. iSplit; [done|]. by iApply gpus_any.
Qed.

(** The array while it is filled: the devices that are done, the one that is being
    made, and the others. *)
Definition filling (gpus : ptr) (ds : list nvc_device) (rest : list c_gpu) : hP :=
  (∃ gs, owns gpus (Gpus (gs ++ rest)) ∗ [∗ list] g;d ∈ gs;ds, gpu_at g d)%I.

Lemma step_upd_gpu {B C} gpus ds g rest i f k (m' : M C) (Q : B -> C -> hP) :
  i = length ds -> filling gpus ds (g :: rest) ∗ (filling gpus ds (f g :: rest) -∗ refines (k tt) m' Q) ⊢
  refines (hbind (upd_gpu gpus i f) k) m' Q.
Proof.
  iIntros (->) "[(%gs & Hp & Hl) HQ]". iDestruct (big_sepL2_length with "Hl") as %<-. iApply refines_step. rewrite /upd_gpu.
  iApply step_load. iFrame "Hp". iIntros "Hp". rewrite list_lookup_middle //. iApply owns_store. iFrame "Hp". iIntros "Hp".
  iApply "HQ". iExists gs. iFrame. by rewrite insert_app_r_alt // Nat.sub_diag.
Qed.

Lemma zero_gpus k : ⊢ [∗ list] g ∈ replicate k zero_gpu, any_gpu g.
Proof.
  iInduction k as [|k IH]; simpl; [done|]. iFrame "IH". rewrite /any_gpu /=.
  repeat (iSplitR; [by iExists None|]). by iLeft.
Qed.

Lemma filling_done gpus ds g d rest : filling gpus ds (g :: rest) ∗ gpu_at g d ⊢ filling gpus (ds ++ [d]) rest.
Proof.
  iIntros "[(%gs & Hp & Hl) Hg]". iExists (gs ++ [g]). rewrite -assoc_L. iFrame "Hp".
  iApply (big_sepL2_app with "Hl"). simpl. by iFrame.
Qed.

Lemma migs_none : ⊢ migs_at (CMigs Null 0) [].
Proof. iSplit; [done|]. by iLeft. Qed.

(** Whatever the state of the one that is being made, the array can be freed. *)
Lemma filling_any gpus ds g k n :
  n = (length ds + S k)%nat -> filling gpus ds (g :: replicate k zero_gpu) ∗ any_gpu g ⊢ any_gpus gpus n.
Proof.
  iIntros (->) "[(%gs & Hp & Hl) Hg]". iDestruct (big_sepL2_length with "Hl") as %Hl. iRight. iExists _. iFrame "Hp". iSplit.
  - iPureIntro. rewrite length_app /= length_replicate. lia.
  - iApply big_sepL_app. iSplitL "Hl"; [by iApply gpus_any|]. simpl. iFrame. iApply zero_gpus.
Qed.

(** A member that was not assigned yet. *)
Lemma any_string_null : ⊢ any_string Null.
Proof. by iExists None. Qed.

Lemma any_migs_null n : ⊢ any_migs (CMigs Null n).
Proof. by iLeft. Qed.

(** Leave with the device as far as it was made. *)
Ltac leave_as_is :=
  iApply refines_ret; iApply filling_any; [done|]; iFrame "Hg";
  try (iDestruct (string_any _ (Some _) with "Hm") as "Hm");
  try (iDestruct (string_any _ (Some _) with "Hb") as "Hb");
  try (iDestruct (string_any _ (Some _) with "Hu") as "Hu");
  rewrite /any_gpu /=; iFrame;
  repeat first [iSplitR; [by iApply any_string_null|] | iApply any_migs_null].

Lemma init_nvc_device_refines ctx gpus ds k n :
  n = (length ds + S k)%nat ->
  filling gpus ds (zero_gpu :: replicate k zero_gpu) ⊢
  refines (init_nvc_device ctx (Z.of_nat (length ds)) gpus (length ds)) (Info.init_nvc_device ctx (Z.of_nat (length ds)))
    (fun r r' => match r, r' with
       | Some _, Some d => filling gpus (ds ++ [d]) (replicate k zero_gpu)
       | None, None => any_gpus gpus n
       | _, _ => False
       end).
Proof.
  iIntros (Hn) "Hg". rewrite /init_nvc_device /Info.init_nvc_device.
  iApply step_lift. iIntros ([dev|]); [|leave_as_is]. destruct dev as [dev|]; [|iStopProof; apply refines_undefined].
  iApply step_new_string. iIntros ([model|] [m|]) "Hm"; simpl; try done; [|leave_as_is].
  iApply step_upd_gpu; [done|]. iFrame "Hg". iIntros "Hg".
  iApply step_lift. iIntros ([minor|]); [|leave_as_is].
  iApply step_new_string. iIntros ([busid|] [b|]) "Hb"; simpl; try done; [|leave_as_is].
  iApply step_upd_gpu; [done|]. iFrame "Hg". iIntros "Hg".
  iApply step_new_string. iIntros ([uuid|] [u|]) "Hu"; simpl; try done; [|leave_as_is].
  iApply step_upd_gpu; [done|]. iFrame "Hg". iIntros "Hg". case_match.
  - iApply step_upd_gpu; [done|]. iFrame "Hg". iIntros "Hg". iApply refines_ret. iApply filling_done. iFrame "Hg".
    rewrite /gpu_at /=. iFrame. iSplit; [done|]. iSplit; [done|]. iSplit; [done|]. iSplit; [done|]. by iSplit; [iApply migs_none|].
  - iApply step_lift. iIntros ([minor'|]); [|leave_as_is].
    iApply step_new_string. iIntros ([path|] [p|]) "Hp"; simpl; try done; [|leave_as_is].
    iApply step_upd_gpu; [done|]. iFrame "Hg". iIntros "Hg". iApply step_upd_gpu; [done|]. iFrame "Hg". iIntros "Hg".
    iApply refines_ret. iApply filling_done. iFrame "Hg".
    rewrite /gpu_at /=. iFrame. iSplit; [done|]. iSplit; [done|]. iSplit; [done|]. by iSplit; [iApply migs_none|].
Qed.

(** The loop over the devices. *)
Lemma init_devices_refines ctx gpus (n : Z) :
  owns gpus (Gpus (replicate (Z.to_nat n) zero_gpu)) ⊢
  refines (hfold (fun _ i => init_nvc_device ctx i gpus (Z.to_nat i)) tt (seqZ 0 n))
    (foldM (fun ds i => let? d := Info.init_nvc_device ctx i else ret None in ret (Some (ds ++ [d]))) [] (seqZ 0 n))
    (fun r r' => match r, r' with
       | Some _, Some ds => ∃ gs, <affine> ⌜Z.to_nat n = length ds⌝ ∗ owns gpus (Gpus gs) ∗ [∗ list] g;d ∈ gs;ds, gpu_at g d
       | None, None => any_gpus gpus (Z.to_nat n)
       | _, _ => False
       end).
Proof.
  iIntros "Hg".
  iApply (refines_wand with "[Hg]").
  - iApply (refines_fold _ _ (fun k _ ds => <affine> ⌜length ds = k⌝ ∗ filling gpus ds (replicate (Z.to_nat n - k) zero_gpu))%I
      (any_gpus gpus (Z.to_nat n)) (seqZ 0 n) 0 tt []).
    + intros i a s ds Hi. apply lookup_seqZ in Hi as [-> Hi]. iIntros "[%Hl Hg]". simpl in Hl. subst i.
      rewrite Z.add_0_l Nat2Z.id. simpl.
      replace (Z.to_nat n - length ds)%nat with (S (Z.to_nat n - length ds - 1)) by lia. simpl.
      iApply refines_bind_r. iApply (refines_wand with "[Hg]").
      { iApply (init_nvc_device_refines _ _ _ (Z.to_nat n - length ds - 1) (Z.to_nat n)); [lia|]. iExact "Hg". }
      iIntros ([u|] [d|]) "Hr"; try done; [|by iApply refines_ret]. iApply refines_ret. rewrite length_app /=.
      replace (Z.to_nat n - (length ds + 1))%nat with (Z.to_nat n - length ds - 1)%nat by lia. by iFrame.
    + iSplit; [done|]. iExists []. rewrite Nat.sub_0_r. by iFrame.
  - iIntros ([u|] [ds|]) "Hr"; try done. iDestruct "Hr" as "[%Hl (%gs & Hg & Hgs)]". iExists gs.
    rewrite length_seqZ Nat.sub_diag app_nil_r in Hl *. iFrame. iPureIntro. by rewrite Hl.
Qed.

Lemma nvc_device_info_new_refines ctx :
  emp ⊢ refines (nvc_device_info_new ctx) (Info.nvc_device_info_new ctx) device_info.
Proof.
  iIntros "_". rewrite /nvc_device_info_new /Info.nvc_device_info_new.
  iApply step_lift. iIntros ([u|]); [|by iApply refines_ret].
  iApply step_hcalloc. iIntros ([info|] [u'|]) "Hi"; simpl; try done; [|by iApply refines_ret].
  iApply refines_bind_l.
  iApply (refines_wand _ _ (fun r r' => match r, r' with
    | Some _, Some ds => device_info info (Some ds) | None, None => any_device_info info | _, _ => False end)%I with "[Hi]").
  2:{ iIntros ([v|] [ds|]) "H"; try done; [by iApply refines_ret|].
      iApply refines_step. iApply nvc_device_info_free_spec. iFrame. by iApply refines_ret. }
  iApply step_lift. iIntros ([n|]); [|iApply refines_ret; iRight; iExists _, _; iFrame; by iLeft].
  iApply step_store. iFrame "Hi". iIntros "Hi".
  iApply step_hcalloc. iIntros ([gpus|] [v|]) "Hg"; simpl; try done;
    [|iApply refines_ret; iRight; iExists _, _; iFrame; by iLeft].
  iApply step_store. iFrame "Hi". iIntros "Hi". iApply (refines_wand with "[Hg]"); [by iApply init_devices_refines|].
  iIntros ([w|] [ds|]) "H"; try done.
  - iDestruct "H" as (gs) "(%Hn & Hg & Hl)". rewrite Hn. iExists gpus, gs. iFrame.
  - iRight. iExists _, _. iFrame.
Qed.

(** C15: [nvc_device_info_new] with its memory is the function of [Info], whatever
    fails: when it returns [NULL] the heap is as it was, partly made devices included;
    otherwise the new blocks are exactly the information that was returned, and
    [nvc_device_info_free] frees each of them once. *)
Theorem nvc_device_info_lifetime (ctx : nvc_context) :
  lifetime (nvc_device_info_new ctx) (Info.nvc_device_info_new ctx) nvc_device_info_free device_info.
Proof.
  apply refines_lifetime; [apply nvc_device_info_new_refines|]. iIntros (p info) "H".
  iApply nvc_device_info_free_spec. iSplitL; [by iApply device_info_any|done].
Qed.
End Devices.
