(* ===== verification/DriverLife.v ===== *)
(** * The making of the driver information

    [nvc_driver_info_new] of [src/src/nvc_info.c] and [ldcache_resolve] of
    [src/src/ldcache.c] with their memory, and that they are the functions of
    [Info] and [Ldcache]. *)
From iris.proofmode Require Import proofmode.
From S2P Require Import Prelude CString Effects Errors Options Utils Types Paths Files Ldcache Info Heap Lifetime.

Section Driver.
Context `{!Allocator block}.

(** ** [ldcache.c] *)

Section Resolve.
Variables (ctx : ldcache) (arch : Z) (root : string) (libs : list string) (select : select_fn).

Fixpoint resolve_libs (key : string) (value : option string) (j : nat) (ls : list string) (paths : ptr)
  : H (option unit) :=
  match ls with
  | [] => hret (Some tt)
  | lib :: ls' =>
      if negb (str_has_prefix key lib) then resolve_libs key value (S j) ls' paths
      else
        let!? path := hlift (match value with
                             | Some value => path_resolve root value
                             | None => halt (Undefined "ldcache: string outside of the mapping")
                             end) else hret None in
        let! q := load_slot paths j in
        let! cur := text q in
        if match cur with Some p => str_equal p path | None => false end
        then resolve_libs key value (S j) ls' paths
        else
          let!? override := hlift (select root cur path) else hret None in
          if override : bool then
            do! free q in
            let! copy := new_string (xstrdup path) in
            do! store_slot paths j (default Null copy) in
            hret (match copy with Some _ => Some tt | None => None end)
          else hret (Some tt)
  end.

Definition resolve_entry (paths : ptr) (i : Z) : H (option unit) :=
  match read_entry ctx i with
  | None => hlift (halt (Undefined "ldcache: entry outside of the mapping"))
  | Some e =>
      if (Z.land (e_flags e) LD_ELF =? 0) || negb (Z.land (e_flags e) LD_ARCH_MASK =? arch)
      then hret (Some tt)
      else
        match rdstr (ld_map ctx) (ld_ptr ctx + e_key e) with
        | Some key => resolve_libs key (rdstr (ld_map ctx) (ld_ptr ctx + e_value e)) 0 libs paths
        | None => hlift (halt (Undefined "ldcache: string outside of the mapping"))
        end
  end.

Definition ldcache_resolve (paths : ptr) : H (option unit) :=
  do! store paths (Ptrs (replicate (length libs) Null)) in
  match rd32 (ld_map ctx) (ld_ptr ctx + offset_nlibs6) with
  | None => hlift (halt (Undefined "ldcache: header outside of the mapping"))
  | Some nlibs => hfold (fun _ i => resolve_entry paths i) tt (seqZ 0 nlibs)
  end.

(** The array of paths as the reader of the cache leaves it. *)
Definition resolved (paths : ptr) (n : nat) (r : option unit) (r' : option (list (option string))) : hP :=
  match r, r' with
  | Some _, Some l => slots paths l ∗ <affine> ⌜length l = n⌝
  | None, None => ∃ l, slots paths l ∗ <affine> ⌜length l = n⌝
  | _, _ => False
  end%I.

Lemma resolve_libs_refines key value ls j p l :
  length l = (j + length ls)%nat ->
  slots p l ⊢ refines (resolve_libs key value j ls p) (Ldcache.resolve_libs root select key value j ls l) (resolved p (length l)).
Proof.
  revert j. induction ls as [|lib ls IH]; intros j Hl; simpl in Hl.
  { iIntros "H". iApply refines_ret. by iFrame. }
  cbn [resolve_libs Ldcache.resolve_libs]. case_match; [apply IH; lia|].
  iIntros "H". iApply step_lift. iIntros ([path|]); [|iApply refines_ret; iExists l; by iFrame].
  destruct (lookup_lt_is_Some_2 l j) as [o Ho]; [lia|].
  rewrite -(take_drop_middle l j o Ho). set (l1 := take j l). set (l2 := drop (S j) l).
  assert (j = length l1) as Hj by (rewrite length_take; lia).
  iDestruct (slots_hole with "H") as (q) "[Hq Hh]". iApply step_load_slot; [done|]. iFrame "Hh". iIntros "Hh".
  replace (mjoin ((l1 ++ o :: l2) !! j)) with o by (rewrite Hj list_lookup_middle; by destruct o).
  iApply refines_step. iApply string_at_text. iFrame "Hq". iIntros "Hq". case_match.
  { rewrite /l1 /l2 take_drop_middle //. iApply IH; [lia|]. rewrite -{3}(take_drop_middle l j o Ho). iApply slots_hole. iExists q. iFrame. }
  iApply step_lift. iIntros ([[]|]).
  - iApply step_free_string. iSplitL "Hq"; [by iApply string_any|]. iApply step_new_string.
    iIntros ([copy|] [c|]) "Hc"; simpl; try done.
    + iApply step_store_slot; [done|]. iFrame "Hh". iIntros "Hh". iApply refines_ret.
      rewrite Hj insert_app_r_alt // Nat.sub_diag /= !length_app /=. iSplit; [|done]. iApply slots_hole. iExists copy. iFrame.
    + iApply step_store_slot; [done|]. iFrame "Hh". iIntros "Hh". iApply refines_ret. iExists (l1 ++ None :: l2).
      rewrite !length_app /=. iSplit; [|done]. iApply slots_hole. iExists Null. by iFrame.
  - iApply refines_ret. iSplit; [|done]. iApply slots_hole. iExists q. iFrame.
  - iApply refines_ret. iExists _. iSplit; [|done]. iApply slots_hole. iExists q. iFrame.
Qed.

Lemma resolve_entry_refines p l i :
  length l = length libs ->
  slots p l ⊢ refines (resolve_entry p i) (Ldcache.resolve_entry ctx arch root libs select l i) (resolved p (length libs)).
Proof.
  iIntros (Hl) "H". rewrite /resolve_entry /Ldcache.resolve_entry. case_match; [|iStopProof; apply refines_undefined].
  case_match; [iApply refines_ret; by iFrame|]. case_match; [|iStopProof; apply refines_undefined].
  rewrite -Hl. iApply resolve_libs_refines; [lia|done].
Qed.

Lemma ldcache_resolve_refines p :
  slots p (replicate (length libs) None) ⊢
  refines (ldcache_resolve p) (Ldcache.ldcache_resolve ctx arch root libs select) (resolved p (length libs)).
Proof.
  iIntros "(%ps & Hp & Hn)". iEval (rewrite strings_null) in "Hn". iDestruct "Hn" as %->. rewrite /ldcache_resolve.
  iApply step_store. iFrame "Hp". iIntros "Hp". rewrite /Ldcache.ldcache_resolve.
  case_match; [|iStopProof; apply refines_undefined].
  iApply (refines_wand with "[Hp]").
  - iApply (refines_fold _ _ (fun _ _ l => slots p l ∗ <affine> ⌜length l = length libs⌝)%I
      (∃ l, slots p l ∗ <affine> ⌜length l = length libs⌝)%I _ 0%nat tt).
    + intros i a u l _. iIntros "[H %Hl]". iApply (refines_wand with "[H]"); [by iApply resolve_entry_refines|].
      iIntros ([v|] [l'|]) "H"; done.
    + iSplit; [by iApply slots_null|]. by rewrite length_replicate.
  - iIntros ([v|] [l'|]) "H"; done.
Qed.
End Resolve.

(** ** Driver information *)

(** An assignment to members of [*info]. *)
Definition upd_info (info : ptr) (f : c_driver_info -> c_driver_info) : H unit :=
  let! b := load info in match b with DriverInfo d => store info (DriverInfo (f d)) | _ => bad_pointer end.

Definition set_bins (a : c_array) (d : c_driver_info) : c_driver_info :=
  CDriverInfo (c_nvrm_version d) (c_cuda_version d) a (c_libs d) (c_libs32 d) (c_ipcs d) (c_devs d) (c_ndevs d) (c_firmwares d).
Definition set_libs (a : c_array) (d : c_driver_info) : c_driver_info :=
  CDriverInfo (c_nvrm_version d) (c_cuda_version d) (c_bins d) a (c_libs32 d) (c_ipcs d) (c_devs d) (c_ndevs d) (c_firmwares d).
Definition set_libs32 (a : c_array) (d : c_driver_info) : c_driver_info :=
  CDriverInfo (c_nvrm_version d) (c_cuda_version d) (c_bins d) (c_libs d) a (c_ipcs d) (c_devs d) (c_ndevs d) (c_firmwares d).
Definition set_devs (p : ptr) (n : nat) (d : c_driver_info) : c_driver_info :=
  CDriverInfo (c_nvrm_version d) (c_cuda_version d) (c_bins d) (c_libs d) (c_libs32 d) (c_ipcs d) p n (c_firmwares d).

Definition get_info (info : ptr) : H c_driver_info :=
  let! b := load info in match b with DriverInfo d => hret d | _ => bad_pointer end.

(** [info-><array> = array_new(err, size)], after [info->n<array> = size]. *)
Definition new_array (info : ptr) (get : c_driver_info -> c_array) (set : c_array -> c_driver_info -> c_driver_info)
    (size : nat) : H (option ptr) :=
  do! upd_info info (fun d => set (CArray (a_ptr (get d)) size) d) in
  let! arr := array_new size in
  do! upd_info info (set (CArray (default Null arr) size)) in
  hret arr.

Definition find_library_paths (dx : dxcore_context) (root ldcache : string) (libs : list string) (info : ptr)
  : H (option unit) :=
  let select := if dx_initialized dx then select_wsl_libraries else select_libraries in
  let!? path := hlift (path_resolve_full root ldcache) else hret None in
  let!? ld := hlift (ldcache_open path) else hret None in
  let! rv :=
    (let!? arr := new_array info c_libs set_libs (length libs) else hret None in
     let!? _ := ldcache_resolve ld LIB_ARCH root libs select arr else hret None in
     let!? arr32 := new_array info c_libs32 set_libs32 (length libs) else hret None in
     let!? _ := ldcache_resolve ld LIB32_ARCH root libs select arr32 else hret None in
     hret (Some tt)) in
  let!? _ := hlift (ldcache_close ld) else hret None in
  hret rv.

(** The part of the loops of [find_binary_paths] that assigns a slot. *)
Definition try_binary (root dir bin : string) (bins : ptr) (i : nat) : H (option unit) :=
  let!? tmp := hlift (null_err (path_join dir bin)) else hret (Some tt) in
  let!? path := hlift (null_err (path_resolve root tmp)) else hret (Some tt) in
  let! ex := hlift (null_err (file_exists_at root path)) in
  match ex with
  | Some true =>
      let! p := new_string (xstrdup path) in
      do! store_slot bins i (default Null p) in
      hret (match p with Some _ => Some tt | None => None end)
  | _ => hret (Some tt)
  end.

(** One directory of [PATH], from slot [i] on. *)
Fixpoint scan_dir (root dir : string) (names : list string) (bins : ptr) (i : nat) : H (option unit) :=
  match names with
  | [] => hret (Some tt)
  | bin :: names' =>
      let! q := load_slot bins i in
      let!? _ := match q with Null => try_binary root dir bin bins i | _ => hret (Some tt) end else hret None in
      scan_dir root dir names' bins (S i)
  end.

(** The driver stores, from slot [i] on: what a slot held is lost when another
    store has the binary too. *)
Fixpoint scan_stores (root : string) (adapters : list dxcore_adapter) (names : list string) (bins : ptr) (i : nat)
  : H (option unit) :=
  match names with
  | [] => hret (Some tt)
  | bin :: names' =>
      let!? _ := hfold (fun _ a => try_binary root (pDriverStorePath a) bin bins i) tt adapters else hret None in
      scan_stores root adapters names' bins (S i)
  end.

Definition find_binary_paths (dx : dxcore_context) (root : string) (names : list string) (info : ptr) : H (option unit) :=
  let! env := hlift (call (EGetenv "PATH")) in
  match env with
  | None => do! hlift (error_setx "environment variable PATH not found") in hret None
  | Some env =>
      let!? copy := new_string (xstrdup env) else hret None in
      let! env := text copy in
      let! rv :=
        (let!? bins := new_array info c_bins set_bins (length names) else hret None in
         let!? _ := (if dx_initialized dx then scan_stores root (adapterList dx) names bins 0
                     else hret (Some tt)) else hret None in
         hfold (fun _ dir => scan_dir root (if Ascii.eqb (first_char dir) NUL then "." else dir) names bins 0)
               tt (tokens ":" (default EmptyString env))) in
      do! free copy in
      hret rv
  end.

Definition lookup_libraries (dx : dxcore_context) (root ldcache : string) (info : ptr) : H (option unit) :=
  let! names := hlift (append_all MAX_LIBS
    ([utility_libs; compute_libs; video_libs; graphics_libs] ++ (if dx_initialized dx then [dxcore_libs] else []))) in
  let!? _ := find_library_paths dx root ldcache names info else hret None in
  let! d := get_info info in
  let! libs := array_pack (c_libs d) in
  do! upd_info info (set_libs libs) in
  let! libs32 := array_pack (c_libs32 d) in
  do! upd_info info (set_libs32 libs32) in
  hret (Some tt).

Definition lookup_binaries (dx : dxcore_context) (root : string) (info : ptr) : H (option unit) :=
  let! names := hlift (append_all MAX_BINS [utility_bins]) in
  let!? _ := find_binary_paths dx root names info else hret None in
  let! d := get_info info in
  let! bins := array_pack (c_bins d) in
  do! upd_info info (set_bins bins) in
  hret (Some tt).

Definition lookup_paths (dx : dxcore_context) (root ldcache : string) (info : ptr) : H (option unit) :=
  let!? _ := lookup_libraries dx root ldcache info else hret None in
  let!? _ := lookup_binaries dx root info else hret None in
  hret (Some tt).

(** [*(node++) = dev] *)
Definition store_node (devs : ptr) (i : nat) (n : c_node) : H unit :=
  let! b := load devs in
  match b with
  | Nodes l => match l !! i with Some _ => store devs (Nodes (<[i := n]> l)) | None => bad_pointer end
  | _ => bad_pointer
  end.

Definition lookup_devices (dx : dxcore_context) (info : ptr) : H (option unit) :=
  let!? dev :=
    (if dx_initialized dx then
       let!? s := hlift (xstat MSFT_DXG_DEVICE_PATH) else hret None in
       hret (Some (CNode (Lit MSFT_DXG_DEVICE_PATH) (st_rdev s)))
     else hret (Some (CNode (Lit XDX_RENDER_DEVICE_PATH) (makedev NV_DEVICE_MAJOR XDX_RENDER_DEVICE_MINOR))))
    else hret None in
  let ndevs := if dx_initialized dx then O else 1%nat in
  do! upd_info info (fun d => set_devs (c_devs d) ndevs d) in
  let! devs := hcalloc (Nodes (replicate ndevs (CNode Null 0))) in
  do! upd_info info (set_devs (default Null devs) ndevs) in
  match devs with
  | None => hret None
  | Some devs => do! store_node devs 0 dev in hret (Some tt)
  end.

Definition nvc_driver_info_new (ctx : nvc_context) (opts : option string) : H ptr :=
  let!? _ := hlift (validate_context ctx) else hret Null in
  let opts := default default_driver_opts opts in
  let!? flags := hlift (options_parse opts driver_opts) else hret Null in
  let!? info := hcalloc (DriverInfo zero_driver_info) else hret Null in
  let! rv :=
    (let!? _ := lookup_paths (dxcore ctx) (cfg_root (cfg ctx)) (cfg_ldcache (cfg ctx)) info else hret None in
     lookup_devices (dxcore ctx) info) in
  match rv with
  | Some _ => hret info
  | None => do! nvc_driver_info_free info in hret Null
  end.

(** ** Ownership *)

(** The paths of the nodes are constants. *)
Definition c_node_of (n : nvc_device_node) : c_node :=
  CNode (match node_path n with Some s => Lit s | None => Null end) (node_id n).

Definition driver_at (d : c_driver_info) (i : nvc_driver_info) : hP :=
  (string_at (c_nvrm_version d) (nvrm_version i) ∗ string_at (c_cuda_version d) (cuda_version i) ∗
   strings (c_bins d) (bins i) ∗ strings (c_libs d) (libs i) ∗ strings (c_libs32 d) (libs32 i) ∗
   strings (c_ipcs d) (ipcs i) ∗ strings (c_firmwares d) (firmwares i) ∗
   owns (c_devs d) (Nodes (c_node_of <$> devs i)) ∗ <affine> ⌜c_ndevs d = length (devs i)⌝)%I.

(** [NULL], or the information. *)
Definition driver_info (p : ptr) (info : option nvc_driver_info) : hP :=
  match info with
  | None => (<affine> ⌜p = Null⌝)%I
  | Some i => (∃ d, owns p (DriverInfo d) ∗ driver_at d i)%I
  end.

Lemma driver_info_any p info : driver_info p info ⊢ any_driver_info p.
Proof.
  destruct info as [i|]; [|by iIntros "%"; iLeft]. iIntros "(%d & Hp & H1 & H2 & H3 & H4 & H5 & H6 & H7 & H8 & _)".
  iRight. iExists d. iFrame "Hp". iSplitL "H1"; [by iApply string_any|]. iSplitL "H2"; [by iApply string_any|].
  iSplitL "H3"; [by iApply strings_any|]. iSplitL "H4"; [by iApply strings_any|]. iSplitL "H5"; [by iApply strings_any|].
  iSplitL "H6"; [by iApply strings_any|]. iSplitL "H7"; [by iApply strings_any|]. iRight. by iExists _.
Qed.

(** ** Facts *)

Lemma step_upd_info {B C} info d f k (m' : M C) (Q : B -> C -> hP) :
  owns info (DriverInfo d) ∗ (owns info (DriverInfo (f d)) -∗ refines (k tt) m' Q) ⊢
  refines (hbind (upd_info info f) k) m' Q.
Proof.
  iIntros "[Hi HQ]". iApply refines_step. rewrite /upd_info. iApply step_load. iFrame "Hi". iIntros "Hi".
  iApply owns_store. iFrame.
Qed.

Lemma step_new_array {B C} info d get set n k (k' : _ -> M C) (Q : B -> C -> hP) :
  owns info (DriverInfo d) ∗
  (∀ r r', new_slots n r r' ∗
     owns info (DriverInfo (set (CArray (default Null r) n) (set (CArray (a_ptr (get d)) n) d))) -∗ refines (k r) (k' r') Q) ⊢
  refines (hbind (new_array info get set n) k) (bind (Utils.array_new (Z.of_nat n)) k') Q.
Proof.
  iIntros "[Hi HQ]". iApply refines_bind. rewrite /new_array. iApply step_upd_info. iFrame "Hi". iIntros "Hi".
  iApply refines_bind_l. iApply refines_wand; [iApply array_new_refines|]. iIntros (r r') "Hr".
  iApply step_upd_info. iFrame "Hi". iIntros "Hi". iApply refines_ret. iApply "HQ". iFrame.
Qed.

(** What the paths of the libraries are after [find_library_paths]. *)
Definition found_libs (info : ptr) (d : c_driver_info) (r : option unit)
    (r' : option (list (option string) * list (option string))) : hP :=
  match r, r' with
  | Some _, Some (l, l32) => ∃ p p32, slots p l ∗ slots p32 l32 ∗
      owns info (DriverInfo (set_libs32 (CArray p32 (length l32)) (set_libs (CArray p (length l)) d)))
  | None, None => ∃ a a32, any_strings a ∗ any_strings a32 ∗ owns info (DriverInfo (set_libs32 a32 (set_libs a d)))
  | _, _ => False
  end%I.

Lemma find_library_paths_refines dx root ldcache libs info d :
  c_libs d = zero_array -> c_libs32 d = zero_array ->
  owns info (DriverInfo d) ⊢
  refines (find_library_paths dx root ldcache libs info) (Info.find_library_paths dx root ldcache libs) (found_libs info d).
Proof.
  destruct d as [nv cu bs ls ls32 ip dv nd fw]. simpl. iIntros (-> ->) "Hi". rewrite /find_library_paths /Info.find_library_paths.
  set (d := CDriverInfo _ _ _ _ _ _ _ _ _).
  iAssert (owns info (DriverInfo (set_libs32 zero_array (set_libs zero_array d)))) with "Hi" as "Hi".
  iApply step_lift. iIntros ([path|]); [|iApply refines_ret; iExists _, _; iFrame "Hi"; by iSplitL; iLeft].
  iApply step_lift. iIntros ([ld|]); [|iApply refines_ret; iExists _, _; iFrame "Hi"; by iSplitL; iLeft].
  iApply refines_bind. iApply (refines_wand _ _ (found_libs info d) with "[Hi]").
  - iApply step_new_array. iFrame "Hi". iIntros ([p|] [l|]) "[Hp Hi]"; simpl; try done.
    2:{ iApply refines_ret. iExists (CArray Null (length libs)), zero_array. iFrame "Hi". by iSplitL; iLeft. }
    iDestruct "Hp" as "[Hp ->]". iApply refines_bind. iApply (refines_wand with "[Hp]"); [by iApply ldcache_resolve_refines|].
    iIntros ([u|] [l|]) "H"; try done.
    2:{ iDestruct "H" as (l) "[H %Hl]". iApply refines_ret. iExists (CArray p (length libs)), zero_array. iFrame "Hi".
        iSplitL; [rewrite -Hl; by iApply slots_any|by iLeft]. }
    iDestruct "H" as "[H %Hl]". iApply step_new_array. iFrame "Hi". iIntros ([p32|] [l32|]) "[Hp Hi]"; simpl; try done.
    2:{ iApply refines_ret. iExists (CArray p (length libs)), (CArray Null (length libs)). iFrame "Hi".
        iSplitL; [rewrite -Hl; by iApply slots_any|by iLeft]. }
    iDestruct "Hp" as "[Hp ->]". iApply refines_bind. iApply (refines_wand with "[Hp]"); [by iApply ldcache_resolve_refines|].
    iIntros ([v|] [l32|]) "H32"; try done.
    + iDestruct "H32" as "[H32 %Hl32]". iApply refines_ret. iExists p, p32. rewrite Hl Hl32. iFrame.
    + iDestruct "H32" as (l32) "[H32 %Hl32]". iApply refines_ret. iExists (CArray p (length libs)), (CArray p32 (length libs)).
      iFrame "Hi". iSplitL "H"; [rewrite -Hl|rewrite -Hl32]; by iApply slots_any.
  - iIntros (r r') "H". iApply step_lift. iIntros ([u|]); [by iApply refines_ret|]. iApply refines_ret.
    destruct r as [v|], r' as [[l l32]|]; try done. iDestruct "H" as (p p32) "(H & H32 & Hi)".
    iExists _, _. iFrame "Hi". iSplitL "H"; by iApply slots_any.
Qed.

Lemma step_get_info {B C} info d k (m' : M C) (Q : B -> C -> hP) :
  owns info (DriverInfo d) ∗ (owns info (DriverInfo d) -∗ refines (k d) m' Q) ⊢ refines (hbind (get_info info) k) m' Q.
Proof.
  iIntros "[Hi HQ]". iApply refines_step. rewrite /get_info. iApply step_load. iFrame "Hi". iIntros "Hi".
  iApply refines_ret. by iApply "HQ".
Qed.

Lemma lookup_libraries_refines dx root ldcache info d :
  c_libs d = zero_array -> c_libs32 d = zero_array ->
  owns info (DriverInfo d) ⊢
  refines (lookup_libraries dx root ldcache info) (Info.lookup_libraries dx root ldcache)
    (fun r r' => match r, r' with
     | Some _, Some (l, l32) => ∃ a a32, strings a l ∗ strings a32 l32 ∗ owns info (DriverInfo (set_libs32 a32 (set_libs a d)))
     | None, None => ∃ a a32, any_strings a ∗ any_strings a32 ∗ owns info (DriverInfo (set_libs32 a32 (set_libs a d)))
     | _, _ => False
     end)%I.
Proof.
  iIntros (H1 H2) "Hi". rewrite /lookup_libraries /Info.lookup_libraries. iApply step_lift. iIntros (names).
  iApply refines_bind. iApply (refines_wand with "[Hi]"); [by iApply find_library_paths_refines|].
  iIntros ([u|] [[l l32]|]) "H"; try done; [|by iApply refines_ret].
  iDestruct "H" as (p p32) "(H & H32 & Hi)". iApply step_get_info. iFrame "Hi". iIntros "Hi".
  iApply step_array_pack; [done|]. iFrame "H". iIntros (a) "H". iApply step_upd_info. iFrame "Hi". iIntros "Hi".
  iApply step_array_pack; [done|]. iFrame "H32". iIntros (a32) "H32". iApply step_upd_info. iFrame "Hi". iIntros "Hi".
  rewrite -(pack_present l) -(pack_present l32).
  destruct (Utils.array_pack l (length l)) as [l' n], (Utils.array_pack l32 (length l32)) as [l32' n32].
  iApply refines_ret. iExists a, a32. iFrame.
Qed.

(** *** Binaries *)

(** The slots of the binaries when a scan ends. *)
Definition scanned (p : ptr) (done_ : list (option string)) (n : nat) (r : option unit) (r' : option (list (option string))) : hP :=
  match r, r' with
  | Some _, Some l => slots p (done_ ++ l) ∗ <affine> ⌜length (done_ ++ l) = n⌝
  | None, None => ∃ l, slots p l ∗ <affine> ⌜length l = n⌝
  | _, _ => False
  end%I.

Lemma try_binary_refines root dir bin p l1 l2 :
  hole p Null l1 l2 ⊢
  refines (try_binary root dir bin p (length l1)) (Info.try_binary root dir bin)
    (fun r r' => match r, r' with
     | Some _, Some o => slots p (l1 ++ o :: l2)
     | None, None => slots p (l1 ++ None :: l2)
     | _, _ => False
     end)%I.
Proof.
  iIntros "H". iAssert (hole p Null l1 l2 -∗ slots p (l1 ++ None :: l2))%I as "Hnone".
  { iIntros "H". iApply slots_hole. iExists Null. by iFrame. }
  rewrite /try_binary /Info.try_binary. iApply step_lift. iIntros ([tmp|]); [|iApply refines_ret; by iApply "Hnone"].
  iApply step_lift. iIntros ([path|]); [|iApply refines_ret; by iApply "Hnone"].
  iApply step_lift. iIntros ([[]|]); [|iApply refines_ret; by iApply "Hnone"..].
  iApply step_new_string. iIntros ([q|] [s|]) "Hq"; simpl; try done; iApply step_store_slot; try done; iFrame "H"; iIntros "H".
  - iApply refines_ret. iApply slots_hole. iExists q. iFrame "H". iClear "Hnone". iExact "Hq".
  - iApply refines_ret. by iApply "Hnone".
Qed.

Lemma scan_dir_refines root dir names p done_ l n :
  n = length (done_ ++ l) -> length names = length l ->
  slots p (done_ ++ l) ⊢
  refines (scan_dir root dir names p (length done_)) (Info.scan_dir root dir names l) (scanned p done_ n).
Proof.
  revert done_ l. induction names as [|bin names IH]; intros done_ [|o l] -> Hl; try done.
  { iIntros "H". iApply refines_ret. by iFrame. }
  injection Hl as Hl. iIntros "H". cbn [scan_dir Info.scan_dir]. iDestruct (slots_hole with "H") as (q) "[Hq Hh]".
  iApply step_load_slot; [done|]. iFrame "Hh". iIntros "Hh". iApply refines_bind.
  iApply (refines_wand _ _ (fun r r' => match r, r' with
    | Some _, Some o => slots p (done_ ++ o :: l) | None, None => slots p (done_ ++ None :: l) | _, _ => False end)%I
    with "[Hq Hh]").
  - destruct o as [s|]; simpl.
    + iDestruct (owns_at with "Hq") as "[(%a & ->) Hq]". iApply refines_ret. iApply slots_hole. iExists (At a). iFrame.
    + iDestruct "Hq" as %->. by iApply try_binary_refines.
  - iIntros ([u|] [o'|]) "H"; try done.
    + iApply refines_bind_r. replace (S (length done_)) with (length (done_ ++ [o'])) by (rewrite length_app /=; lia).
      iApply (refines_wand with "[H]").
      { iApply (IH (done_ ++ [o']) l); [by rewrite !length_app /= Nat.add_1_r Nat.add_succ_r|done|]. by rewrite -assoc_L. }
      iIntros ([v|] [l'|]) "H"; try done; iApply refines_ret; simpl; [|done]. by rewrite -assoc_L.
    + iApply refines_ret. iExists _. iFrame. by rewrite !length_app.
Qed.

Lemma find_binary_paths_refines dx root names info d :
  dx_initialized dx = false -> c_bins d = zero_array ->
  owns info (DriverInfo d) ⊢
  refines (find_binary_paths dx root names info) (Info.find_binary_paths dx root names)
    (fun r r' => match r, r' with
     | Some _, Some l => ∃ p, slots p l ∗ owns info (DriverInfo (set_bins (CArray p (length l)) d))
     | None, None => ∃ a, any_strings a ∗ owns info (DriverInfo (set_bins a d))
     | _, _ => False
     end)%I.
Proof.
  destruct d as [nv cu bs ls ls32 ip dv nd fw]. simpl. iIntros (Hdx ->) "Hi". set (d := CDriverInfo _ _ _ _ _ _ _ _ _).
  rewrite /find_binary_paths /Info.find_binary_paths Hdx.
  iApply step_lift. iIntros ([env|]).
  2:{ iApply step_lift. iIntros (z). iApply refines_ret. iExists zero_array. iFrame "Hi". by iLeft. }
  iApply step_new_string. iIntros ([copy|] [e|]) "Hc"; simpl; try done.
  2:{ iApply refines_ret. iExists zero_array. iFrame "Hi". by iLeft. }
  iApply refines_step. iApply (string_at_text _ (Some e)). iFrame "Hc". iIntros "Hc". simpl.
  iApply refines_bind_l. iApply (refines_wand _ _ (fun r r' => match r, r' with
     | Some _, Some l => ∃ p, slots p l ∗ owns info (DriverInfo (set_bins (CArray p (length l)) d))
     | None, None => ∃ a, any_strings a ∗ owns info (DriverInfo (set_bins a d))
     | _, _ => False
     end)%I with "[Hi]").
  - iApply step_new_array. iFrame "Hi". iIntros ([p|] [l|]) "[Hp Hi]"; simpl; try done.
    2:{ iApply refines_ret. iExists (CArray Null (length names)). iFrame "Hi". by iLeft. }
    iDestruct "Hp" as "[Hp ->]". iApply step_ret. iApply refines_ret_r.
    iApply (refines_wand with "[Hp]").
    + iApply (refines_fold _ _ (fun _ _ l => slots p l ∗ <affine> ⌜length l = length names⌝)%I
        (∃ l, slots p l ∗ <affine> ⌜length l = length names⌝)%I _ 0%nat tt).
      * intros i a u l _. iIntros "[H %Hl]". iApply (refines_wand with "[H]").
        { iApply (scan_dir_refines _ _ _ _ [] l _ eq_refl (eq_sym Hl)). iExact "H". }
        rewrite Hl. iIntros ([v|] [l'|]) "H"; done.
      * iFrame. by rewrite length_replicate.
    + iIntros ([v|] [l|]) "H"; try done.
      * iDestruct "H" as "[H %Hl]". iExists p. rewrite Hl. iFrame.
      * iDestruct "H" as (l) "[H %Hl]". iExists (CArray p (length names)). iFrame "Hi". rewrite -Hl. by iApply slots_any.
  - iIntros (r r') "H". iApply step_free. iFrame "Hc". by iApply refines_ret.
Qed.

Lemma lookup_binaries_refines dx root info d :
  dx_initialized dx = false -> c_bins d = zero_array ->
  owns info (DriverInfo d) ⊢
  refines (lookup_binaries dx root info) (Info.lookup_binaries dx root)
    (fun r r' => match r, r' with
     | Some _, Some l => ∃ a, strings a l ∗ owns info (DriverInfo (set_bins a d))
     | None, None => ∃ a, any_strings a ∗ owns info (DriverInfo (set_bins a d))
     | _, _ => False
     end)%I.
Proof.
  iIntros (Hdx Hb) "Hi". rewrite /lookup_binaries /Info.lookup_binaries. iApply step_lift. iIntros (names).
  iApply refines_bind. iApply (refines_wand with "[Hi]"); [by iApply find_binary_paths_refines|].
  iIntros ([u|] [l|]) "H"; try done; [|by iApply refines_ret].
  iDestruct "H" as (p) "(H & Hi)". iApply step_get_info. iFrame "Hi". iIntros "Hi".
  iApply step_array_pack; [done|]. iFrame "H". iIntros (a) "H". iApply step_upd_info. iFrame "Hi". iIntros "Hi".
  rewrite -(pack_present l). destruct (Utils.array_pack l (length l)) as [l' n].
  iApply refines_ret. iExists a. iFrame.
Qed.

(** *** Everything *)

Lemma lookup_devices_refines dx info d :
  dx_initialized dx = false -> c_devs d = Null ->
  owns info (DriverInfo d) ⊢
  refines (lookup_devices dx info) (Info.lookup_devices dx)
    (fun r r' => match r, r' with
     | Some _, Some l => ∃ p, owns p (Nodes (c_node_of <$> l)) ∗ owns info (DriverInfo (set_devs p (length l) d))
     | None, None => ∃ n, owns info (DriverInfo (set_devs Null n d))
     | _, _ => False
     end)%I.
Proof.
  iIntros (Hdx Hd) "Hi". rewrite /lookup_devices /Info.lookup_devices Hdx. iApply step_ret. iApply refines_ret_r.
  iApply step_upd_info. iFrame "Hi". iIntros "Hi". iApply step_hcalloc. iIntros ([p|] [u|]) "Hp"; simpl; try done.
  - iApply step_upd_info. iFrame "Hi". iIntros "Hi". iApply refines_step. rewrite /store_node. iApply step_load.
    iFrame "Hp". iIntros "Hp". simpl. iApply owns_store. iFrame "Hp". iIntros "Hp". iApply refines_ret. iExists p. iFrame.
  - iApply step_upd_info. iFrame "Hi". iIntros "Hi". iApply refines_ret. iExists 1%nat. iFrame.
Qed.

(** The information while it is made. *)
Definition making (a a32 b : c_array) (p : ptr) (n : nat) : c_driver_info :=
  set_devs p n (set_bins b (set_libs32 a32 (set_libs a zero_driver_info))).

Lemma making_any info a a32 b p n :
  any_strings a ∗ any_strings a32 ∗ any_strings b ∗ any_nodes p ∗ owns info (DriverInfo (making a a32 b p n)) ⊢
  any_driver_info info.
Proof.
  iIntros "(Ha & Ha32 & Hb & Hp & Hi)". iRight. iExists _. iFrame "Hi". rewrite /any_driver /=. iFrame.
  repeat (iSplitR; [by iExists None|]). by iSplitR; iLeft.
Qed.

Lemma lookup_paths_refines dx root ldcache info :
  dx_initialized dx = false ->
  owns info (DriverInfo zero_driver_info) ⊢
  refines (lookup_paths dx root ldcache info) (Info.lookup_paths dx root ldcache)
    (fun r r' => match r, r' with
     | Some _, Some (l, l32, bs) => ∃ a a32 b, strings a l ∗ strings a32 l32 ∗ strings b bs ∗
         owns info (DriverInfo (making a a32 b Null 0))
     | None, None => any_driver_info info
     | _, _ => False
     end)%I.
Proof.
  iIntros (Hdx) "Hi". rewrite /lookup_paths /Info.lookup_paths.
  iApply refines_bind. iApply (refines_wand with "[Hi]"); [by iApply (lookup_libraries_refines _ _ _ _ zero_driver_info eq_refl eq_refl)|].
  iIntros ([u|] [[l l32]|]) "H"; try done; iDestruct "H" as (a a32) "(Ha & Ha32 & Hi)".
  2:{ iApply refines_ret. iApply (making_any _ a a32 zero_array Null 0). iFrame. by iSplitR; iLeft. }
  iApply refines_bind. iApply (refines_wand with "[Hi]"); [by iApply (lookup_binaries_refines _ _ _ (set_libs32 a32 (set_libs a zero_driver_info)) Hdx eq_refl with "Hi")|].
  iIntros ([v|] [bs|]) "H"; try done; iDestruct "H" as (b) "(Hb & Hi)"; iApply refines_ret; simpl.
  - iExists a, a32, b. iFrame.
  - iApply (making_any _ a a32 b Null 0). iFrame "Hb Hi". iSplitL "Ha"; [by iApply strings_any|].
    iSplitL; [by iApply strings_any|by iLeft].
Qed.

Lemma nvc_driver_info_new_refines ctx opts :
  dx_initialized (dxcore ctx) = false ->
  emp ⊢ refines (nvc_driver_info_new ctx opts) (Info.nvc_driver_info_new ctx opts) driver_info.
Proof.
  iIntros (Hdx) "_". rewrite /nvc_driver_info_new /Info.nvc_driver_info_new.
  iApply step_lift. iIntros ([u|]); [|by iApply refines_ret]. iApply step_lift. iIntros ([fl|]); [|by iApply refines_ret].
  iApply step_hcalloc. iIntros ([info|] [u'|]) "Hi"; simpl; try done; [|by iApply refines_ret].
  iApply refines_bind_l.
  iApply (refines_wand _ _ (fun r r' => match r, r' with
    | Some _, Some i => driver_info info (Some i) | None, None => any_driver_info info | _, _ => False end)%I with "[Hi]").
  2:{ iIntros ([v|] [i|]) "H"; try done; [by iApply refines_ret|].
      iApply refines_step. iApply nvc_driver_info_free_spec. iFrame. by iApply refines_ret. }
  iApply refines_bind. iApply (refines_wand with "[Hi]"); [by iApply lookup_paths_refines|].
  iIntros ([v|] [[[l l32] bs]|]) "H"; try done; [|by iApply refines_ret].
  iDestruct "H" as (a a32 b) "(Ha & Ha32 & Hb & Hi)". iApply refines_bind_r.
  iApply (refines_wand with "[Hi]"); [by iApply (lookup_devices_refines _ _ (making a a32 b Null 0) Hdx eq_refl with "Hi")|].
  iIntros ([w|] [devs|]) "H"; try done; iApply refines_ret.
  - iDestruct "H" as (p) "[Hp Hi]". iExists _. iFrame "Hi". rewrite /driver_at /making /=. iFrame.
    repeat (iSplitR; [done|]). iSplitR; [iSplit; [done|by iLeft]|]. iSplitR; [iSplit; [done|by iLeft]|]. done.
  - iDestruct "H" as (n) "Hi". iApply (making_any _ a a32 b Null n). iFrame "Hi".
    iSplitL "Ha"; [by iApply strings_any|]. iSplitL "Ha32"; [by iApply strings_any|]. iSplitL; [by iApply strings_any|by iLeft].
Qed.

(** C12: outside WSL, [nvc_driver_info_new] with its memory (the arrays, the paths the
    reader of the cache replaces and frees, the copy of [PATH]) is the function of
    [Info], whatever fails: when it returns [NULL] the heap is as it was, otherwise
    the new blocks are exactly the information that was returned, and
    [nvc_driver_info_free] frees each of them once. *)
Theorem nvc_driver_info_lifetime (ctx : nvc_context) (opts : option string) :
  dx_initialized (dxcore ctx) = false ->
  lifetime (nvc_driver_info_new ctx opts) (Info.nvc_driver_info_new ctx opts) nvc_driver_info_free driver_info.
Proof.
  intros Hdx. apply refines_lifetime; [by apply nvc_driver_info_new_refines|]. iIntros (p info) "H".
  iApply nvc_driver_info_free_spec. iSplitL; [by iApply driver_info_any|done].
Qed.
End Driver.

(** ** Two driver stores *)

(** A host under WSL whose two adapters both have [xdxsmi] in their store. *)
Definition two_stores : dxcore_context := mkDxcore true [mkAdapter 1 0 "/a" []; mkAdapter 2 0 "/b" []].

Definition two_stores_env : env := fun _ e =>
  match e with
  | EGetenv _ => Some EmptyString
  | EReadlinkat _ _ => SErr EINVAL
  | e => friendly e
  end.

Definition two_stores_run : trace * outcome (st * (heap block * option unit)) :=
  exec two_stores_env (find_binary_paths two_stores "/" utility_bins (At 0) {[ 0%N := DriverInfo zero_driver_info ]}) init_st.

(** The second store overwrites the slot: the copy of the first path is lost. *)
Theorem find_binary_paths_loses :
  match two_stores_run with
  | (_, Done (_, (h, Some _))) =>
      h !! 2%N = Some (Ptrs [At 4]) /\ h !! 4%N = Some (Chars "/b/xdxsmi") /\ h !! 3%N = Some (Chars "/a/xdxsmi") /\
      size h = 4%nat
  | _ => False
  end.
Proof. vm_compute. auto. Qed.

(** On [demo_host]: the context is outside WSL, something is found, and after it is
    freed the heap is empty again. *)
Lemma nvc_driver_info_lifetime_witness :
  dx_initialized (dxcore demo_ctx) = false /\
  lifetime (nvc_driver_info_new demo_ctx None) (Info.nvc_driver_info_new demo_ctx None) nvc_driver_info_free driver_info /\
  match exec demo_host (nvc_driver_info_new demo_ctx None ∅) init_st with
  | (_, Done (s, (h, p))) =>
      size h = 8%nat /\ p = At 0 /\ snd (exec demo_host (nvc_driver_info_free p h) s) = Done (s, (∅, tt))
  | _ => False
  end.
Proof. split; [reflexivity|]. split; [apply nvc_driver_info_lifetime; reflexivity|vm_compute; auto]. Defined.
