(* ===== verification/ContainerLife.v ===== *)
(** * The making of the container

    [nvc_container_new] of [src/src/nvc_container.c] with its memory, and that it is
    [Container.nvc_container_new]. *)
From iris.proofmode Require Import proofmode.
From S2P Require Import Prelude CString Effects Errors Options Utils Types Paths Files Cgroup Info Container Heap Lifetime.

Section Making.
Context `{!Allocator block}.

(** ** Assignments to the members of [*cnt] *)

Definition upd_cnt (cnt : ptr) (f : c_container -> c_container) : H unit :=
  let! b := load cnt in match b with Container c => store cnt (Container (f c)) | _ => bad_pointer end.

Definition get_cnt (cnt : ptr) : H c_container :=
  let! b := load cnt in match b with Container c => hret c | _ => bad_pointer end.

Definition set_cfg (cc : c_config) (c : c_container) : c_container :=
  CContainer (c_flags c) cc (c_cuid c) (c_cgid c) (c_mnt_ns c) (c_dev_cg_version c) (c_dev_cg c) (c_clibs c).
Definition set_owner (uid gid : Z) (c : c_container) : c_container :=
  CContainer (c_flags c) (c_cfg c) uid gid (c_mnt_ns c) (c_dev_cg_version c) (c_dev_cg c) (c_clibs c).
Definition set_mnt_ns (p : ptr) (c : c_container) : c_container :=
  CContainer (c_flags c) (c_cfg c) (c_cuid c) (c_cgid c) p (c_dev_cg_version c) (c_dev_cg c) (c_clibs c).
Definition set_cg_version (v : Z) (c : c_container) : c_container :=
  CContainer (c_flags c) (c_cfg c) (c_cuid c) (c_cgid c) (c_mnt_ns c) v (c_dev_cg c) (c_clibs c).
Definition set_dev_cg (p : ptr) (c : c_container) : c_container :=
  CContainer (c_flags c) (c_cfg c) (c_cuid c) (c_cgid c) (c_mnt_ns c) (c_dev_cg_version c) p (c_clibs c).
Definition set_clibs (a : c_array) (c : c_container) : c_container :=
  CContainer (c_flags c) (c_cfg c) (c_cuid c) (c_cgid c) (c_mnt_ns c) (c_dev_cg_version c) (c_dev_cg c) a.

(** The seven strings of the configuration, by position. *)
Inductive cfg_member := MRootfs | MBins | MLibs | MLibs32 | MDris | MCudart | MLdconfig.

Definition set_member (m : cfg_member) (p : ptr) (c : c_config) : c_config :=
  let '(CConfig pid a b d e f g h) := c in
  match m with
  | MRootfs => CConfig pid p b d e f g h
  | MBins => CConfig pid a p d e f g h
  | MLibs => CConfig pid a b p e f g h
  | MLibs32 => CConfig pid a b d p f g h
  | MDris => CConfig pid a b d e p g h
  | MCudart => CConfig pid a b d e f p h
  | MLdconfig => CConfig pid a b d e f g p
  end.

(** [if ((cnt->cfg.<member> = xstrdup(err, s)) == NULL) goto fail;] *)
Definition dup_member (cnt : ptr) (m : cfg_member) (s : string) : H (option unit) :=
  let! p := new_string (xstrdup s) in
  do! upd_cnt cnt (fun c => set_cfg (set_member m (default Null p) (c_cfg c)) c) in
  hret (match p with Some _ => Some tt | None => None end).

(** ** The functions *)

Definition copy_config (flags : Z) (cfg : nvc_container_config) (cnt : ptr) : H (option unit) :=
  do! upd_cnt cnt (fun c => set_cfg (let '(CConfig _ a b d e f g h) := c_cfg c in CConfig (cc_pid cfg) a b d e f g h) c) in
  let!? _ := dup_member cnt MRootfs (cc_rootfs cfg) else hret None in
  let! c := get_cnt cnt in
  let! croot := text (c_rootfs (c_cfg c)) in
  let croot := default EmptyString croot in
  let!? rootfs :=
    (if has_flag flags OPT_STANDALONE then new_string (xstrdup croot)
     else
       let!? tmp := hlift (xsnprintf PATH_MAX (PROC_ROOT_PATH (PROC_PID (cc_pid cfg)))) else hret None in
       let!? path := hlift (path_resolve_full tmp croot) else hret None in
       new_string (xstrdup path)) else hret None in
  let! root := text rootfs in
  let root := default EmptyString root in
  let! rv :=
    (let bins := default USR_BIN_DIR (bins_dir cfg) in
     let!? ls := hlift (choose_libs root (libs_dir cfg) (libs32_dir cfg)) else hret None in
     let!? dris := hlift (match dris_dir cfg with Some d => ret (Some d) | None => choose_dris end) else hret None in
     let cudart := default CUDA_RUNTIME_DIR (cudart_dir cfg) in
     let!? ldc := hlift (match ldconfig cfg with
                  | Some l => ret (Some l)
                  | None =>
                      let? path := path_resolve_full root LDCONFIG_ALT_PATH else ret None in
                      let? there := file_exists path else ret None in
                      ret (Some (if there : bool then LDCONFIG_ALT_PATH else LDCONFIG_PATH))
                  end) else hret None in
     let!? _ := dup_member cnt MBins bins else hret None in
     let!? _ := dup_member cnt MLibs (fst ls) else hret None in
     let!? _ := dup_member cnt MLibs32 (snd ls) else hret None in
     let!? _ := dup_member cnt MDris dris else hret None in
     let!? _ := dup_member cnt MCudart cudart else hret None in
     let!? _ := dup_member cnt MLdconfig ldc else hret None in
     hret (Some tt)) in
  do! free rootfs in
  hret rv.

(** The strings of the first [n] slots. *)
Fixpoint texts (p : ptr) (i n : nat) : H (list string) :=
  match n with
  | O => hret []
  | S n' =>
      let! q := load_slot p i in
      let! s := text q in
      let! l := texts p (S i) n' in
      hret (default EmptyString s :: l)
  end.

(** One match of the glob; [i] is [ptr - cnt->libs]. *)
Definition add_compat_lib (rootfs : string) (libs : ptr) (i : nat) (path : string) : H (option nat) :=
  if (String.length path <? String.length rootfs)%nat then hlift (halt (Undefined "gl_pathv: path shorter than the root"))
  else
    let!? path := hlift (path_resolve rootfs (str_drop (String.length rootfs) path)) else hret None in
    let! l := texts libs 0 i in
    if str_array_match path l then hret (Some i)
    else
      let! p := new_string (xstrdup path) in
      do! store_slot libs i (default Null p) in
      hret (match p with Some _ => Some (S i) | None => None end).

(** [cfg] are the strings of [cnt->cfg]. *)
Definition find_library_paths (flags : Z) (cfg : nvc_container_config) (cnt : ptr) : H (option unit) :=
  if negb (has_flag flags OPT_COMPUTE_LIBS) then hret (Some tt)
  else
    let! cudart := hlift (path_arg (cudart_dir cfg)) in
    let!? path := hlift (path_resolve_full (cc_rootfs cfg) cudart) else hret None in
    let!? path := hlift (path_append path "compat/lib*.so.*") else hret None in
    let!? paths := hlift (xglob path) else hret None in
    match paths with
    | [] => hret (Some tt)
    | _ =>
        do! upd_cnt cnt (fun c => set_clibs (CArray (a_ptr (c_clibs c)) (length paths)) c) in
        let! libs := array_new (length paths) in
        do! upd_cnt cnt (set_clibs (CArray (default Null libs) (length paths))) in
        let!? libs := hret libs else hret None in
        let!? _ := hfold (add_compat_lib (cc_rootfs cfg) libs) 0%nat paths else hret None in
        let! c := get_cnt cnt in
        let! arr := array_pack (c_clibs c) in
        do! upd_cnt cnt (set_clibs arr) in
        hret (Some tt)
    end.

(** The configuration of the container, read back. *)
Definition read_member (p : ptr) : H string := let! s := text p in hret (default EmptyString s).

Definition read_config (cnt : ptr) : H nvc_container_config :=
  let! c := get_cnt cnt in
  let cc := c_cfg c in
  let! rootfs := read_member (c_rootfs cc) in
  let! bins := text (c_bins_dir cc) in
  let! libs := text (c_libs_dir cc) in
  let! libs32 := text (c_libs32_dir cc) in
  let! dris := text (c_dris_dir cc) in
  let! cudart := text (c_cudart_dir cc) in
  let! ldc := text (c_ldconfig cc) in
  hret (mkCntConfig (c_pid cc) rootfs bins libs libs32 dris cudart ldc).

Definition read_container (cnt : ptr) : H nvc_container :=
  let! cfg := read_config cnt in
  let! c := get_cnt cnt in
  let! ns := read_member (c_mnt_ns c) in
  let! cg := text (c_dev_cg c) in
  let! libs := match a_ptr (c_clibs c) with Null => hret [] | p => texts p 0 (a_size (c_clibs c)) end in
  hret (mkContainer (c_flags c) cfg (c_cuid c) (c_cgid c) ns (c_dev_cg_version c) cg libs).

Definition nvc_container_new `{CgroupOps} (ctx : nvc_context) (cfg : option nvc_container_config)
    (opts : option string) : H ptr :=
  let!? _ := hlift (validate_context ctx) else hret Null in
  match cfg with
  | None => do! hlift (error_setx "invalid argument") in hret Null
  | Some cfg =>
      let!? _ := hlift (validate_args (valid_config cfg)) else hret Null in
      let!? flags := hlift (options_parse (default default_container_opts opts) container_opts) else hret Null in
      if negb (xorb (negb (has_flag flags OPT_SUPERVISED)) (negb (has_flag flags OPT_STANDALONE))) then
        do! hlift (error_setx "invalid mode of operation") in hret Null
      else
        let!? cnt := hcalloc (Lifetime.Container zero_container) else hret Null in
        do! upd_cnt cnt (fun c => CContainer flags (c_cfg c) (c_cuid c) (c_cgid c) (c_mnt_ns c) (c_dev_cg_version c)
                                    (c_dev_cg c) (c_clibs c)) in
        let! rv :=
          (let!? _ := copy_config flags cfg cnt else hret None in
           let! cfg := read_config cnt in
           let!? owner := hlift (lookup_owner flags cfg) else hret None in
           do! upd_cnt cnt (set_owner (fst owner) (snd owner)) in
           let!? _ := (if negb (has_flag flags OPT_NO_CNTLIBS) then find_library_paths flags cfg cnt
                       else hret (Some tt)) else hret None in
           let! ns := new_string (find_namespace_path flags cfg "mnt") in
           do! upd_cnt cnt (set_mnt_ns (default Null ns)) in
           match ns with
           | None => hret None
           | Some _ =>
               if negb (has_flag flags OPT_NO_CGROUPS) then
                 let! c := read_container cnt in
                 let!? v := hlift (get_device_cgroup_version c) else hret None in
                 do! upd_cnt cnt (set_cg_version v) in
                 let! c := read_container cnt in
                 let! cg := new_string (find_device_cgroup_path c) in
                 do! upd_cnt cnt (set_dev_cg (default Null cg)) in
                 hret (match cg with Some _ => Some tt | None => None end)
               else hret (Some tt)
           end) in
        match rv with
        | Some _ => hret cnt
        | None => do! nvc_container_free cnt in hret Null
        end
  end.

(** ** Ownership *)

Definition config_at (cc : c_config) (cfg : nvc_container_config) : hP :=
  (<affine> ⌜c_pid cc = cc_pid cfg⌝ ∗ string_at (c_rootfs cc) (Some (cc_rootfs cfg)) ∗
   string_at (c_bins_dir cc) (bins_dir cfg) ∗ string_at (c_libs_dir cc) (libs_dir cfg) ∗
   string_at (c_libs32_dir cc) (libs32_dir cfg) ∗ string_at (c_dris_dir cc) (dris_dir cfg) ∗
   string_at (c_cudart_dir cc) (cudart_dir cfg) ∗ string_at (c_ldconfig cc) (ldconfig cfg))%I.

Definition container_at (c : c_container) (v : nvc_container) : hP :=
  (config_at (c_cfg c) (ccfg v) ∗ string_at (c_mnt_ns c) (Some (cmnt_ns v)) ∗ string_at (c_dev_cg c) (dev_cg v) ∗
   strings (c_clibs c) (clibs v) ∗
   <affine> ⌜c_flags c = flags v /\ c_cuid c = cuid v /\ c_cgid c = cgid v /\ c_dev_cg_version c = dev_cg_version v⌝)%I.

(** [NULL], or the container. *)
Definition container (p : ptr) (v : option nvc_container) : hP :=
  match v with
  | None => (<affine> ⌜p = Null⌝)%I
  | Some v => (∃ c, owns p (Lifetime.Container c) ∗ container_at c v)%I
  end.

Lemma config_any cc cfg : config_at cc cfg ⊢ any_config cc.
Proof.
  iIntros "(_ & H1 & H2 & H3 & H4 & H5 & H6 & H7)".
  iSplitL "H1"; [by iApply string_any|]. iSplitL "H2"; [by iApply string_any|]. iSplitL "H3"; [by iApply string_any|].
  iSplitL "H4"; [by iApply string_any|]. iSplitL "H5"; [by iApply string_any|]. iSplitL "H6"; by iApply string_any.
Qed.

Lemma container_any p v : container p v ⊢ any_container p.
Proof.
  destruct v as [v|]; [|by iIntros "%"; iLeft]. iIntros "(%c & Hp & Hc & Hm & Hg & Hl & _)". iRight. iExists c. iFrame "Hp".
  iSplitL "Hc"; [by iApply config_any|]. iSplitL "Hm"; [by iApply string_any|]. iSplitL "Hg"; [by iApply string_any|].
  by iApply strings_any.
Qed.

(** ** Steps *)

Lemma step_upd_cnt {B C} cnt c f k (m' : M C) (Q : B -> C -> hP) :
  owns cnt (Lifetime.Container c) ∗ (owns cnt (Lifetime.Container (f c)) -∗ refines (k tt) m' Q) ⊢
  refines (hbind (upd_cnt cnt f) k) m' Q.
Proof.
  iIntros "[Hi HQ]". iApply refines_step. rewrite /upd_cnt. iApply step_load. iFrame "Hi". iIntros "Hi".
  iApply owns_store. iFrame.
Qed.

Lemma step_get_cnt {B C} cnt c k (m' : M C) (Q : B -> C -> hP) :
  owns cnt (Lifetime.Container c) ∗ (owns cnt (Lifetime.Container c) -∗ refines (k c) m' Q) ⊢
  refines (hbind (get_cnt cnt) k) m' Q.
Proof.
  iIntros "[Hi HQ]". iApply refines_step. rewrite /get_cnt. iApply step_load. iFrame "Hi". iIntros "Hi".
  iApply refines_ret. by iApply "HQ".
Qed.

Lemma step_dup_member {B C} cnt c m s k (k' : option string -> M C) (Q : B -> C -> hP) :
  owns cnt (Lifetime.Container c) ∗
  (∀ p o, new_result p o -∗ owns cnt (Lifetime.Container (set_cfg (set_member m (default Null p) (c_cfg c)) c)) -∗
     refines (k (match p with Some _ => Some tt | None => None end)) (k' o) Q) ⊢
  refines (hbind (dup_member cnt m s) k) (bind (xstrdup s) k') Q.
Proof.
  iIntros "[Hi HQ]". iApply refines_bind. rewrite /dup_member. iApply refines_bind_l.
  iApply refines_wand; [iApply new_string_refines|]. iIntros (p o) "Hp". iApply step_upd_cnt. iFrame "Hi". iIntros "Hi".
  iApply refines_ret. by iApply ("HQ" with "Hp").
Qed.

(** *** [copy_config] *)

(** Leave with the strings that were copied. *)
Lemma config_given_up cnt c cc : owns cnt (Lifetime.Container (set_cfg cc c)) ∗ any_config cc ⊢
  ∃ cc, owns cnt (Lifetime.Container (set_cfg cc c)) ∗ any_config cc.
Proof. iIntros "H". by iExists cc. Qed.

Ltac leave_as_is :=
  iApply refines_ret; iApply config_given_up; iFrame "Hi";
  try (iDestruct (string_any _ (Some _) with "H1") as "H1"); try (iDestruct (string_any _ (Some _) with "H2") as "H2");
  try (iDestruct (string_any _ (Some _) with "H3") as "H3"); try (iDestruct (string_any _ (Some _) with "H4") as "H4");
  try (iDestruct (string_any _ (Some _) with "H5") as "H5"); try (iDestruct (string_any _ (Some _) with "H6") as "H6");
  rewrite /any_config /=; iFrame; repeat first [done | iSplitR; [by iExists None|] | by iExists None].

Lemma copy_config_refines fl cfg cnt c :
  c_cfg c = zero_config ->
  owns cnt (Lifetime.Container c) ⊢
  refines (copy_config fl cfg cnt) (Container.copy_config fl cfg)
    (fun r r' => match r, r' with
     | Some _, Some cfg' => ∃ cc, owns cnt (Lifetime.Container (set_cfg cc c)) ∗ config_at cc cfg'
     | None, None => ∃ cc, owns cnt (Lifetime.Container (set_cfg cc c)) ∗ any_config cc
     | _, _ => False
     end)%I.
Proof.
  destruct c as [fl0 cc uid gid ns ver cg libs]. simpl. iIntros (->) "Hi". rewrite /copy_config /Container.copy_config.
  iApply step_upd_cnt. iFrame "Hi". iIntros "Hi".
  iApply step_dup_member. iFrame "Hi". iIntros ([p1|] [croot|]) "H1 Hi"; simpl; try done; [|leave_as_is].
  iApply step_get_cnt. iFrame "Hi". iIntros "Hi". iApply (step_text _ (Some croot)). iFrame "H1". iIntros "H1". simpl.
  iApply refines_bind. iApply (refines_wand _ _ new_result with "[]").
  { case_match; [iApply new_string_refines|]. iApply step_lift. iIntros ([tmp|]); [|by iApply refines_ret].
    iApply step_lift. iIntros ([path|]); [|by iApply refines_ret]. iApply new_string_refines. }
  iIntros ([pr|] [root|]) "Hr"; simpl; try done; [|leave_as_is].
  iApply (step_text _ (Some root)). iFrame "Hr". iIntros "Hr". simpl. iApply refines_bind_l.
  iApply (refines_wand with "[H1 Hi]"); [|iIntros (r r') "H"; iApply step_free; iFrame "Hr"; iApply refines_ret; iExact "H"].
  iApply step_lift. iIntros ([ls|]); [|leave_as_is]. iApply step_lift. iIntros ([dris|]); [|leave_as_is].
  iApply step_lift. iIntros ([ldc|]); [|leave_as_is].
  iApply step_dup_member. iFrame "Hi". iIntros ([p2|] [bins|]) "H2 Hi"; simpl; try done; [|leave_as_is].
  iApply step_dup_member. iFrame "Hi". iIntros ([p3|] [libs_|]) "H3 Hi"; simpl; try done; [|leave_as_is].
  iApply step_dup_member. iFrame "Hi". iIntros ([p4|] [libs32|]) "H4 Hi"; simpl; try done; [|leave_as_is].
  iApply step_dup_member. iFrame "Hi". iIntros ([p5|] [dris_|]) "H5 Hi"; simpl; try done; [|leave_as_is].
  iApply step_dup_member. iFrame "Hi". iIntros ([p6|] [cudart|]) "H6 Hi"; simpl; try done; [|leave_as_is].
  iApply step_dup_member. iFrame "Hi". iIntros ([p7|] [ldc_|]) "H7 Hi"; simpl; try done; [|leave_as_is].
  iApply refines_ret. iExists _. iFrame "Hi". rewrite /config_at /=. by iFrame.
Qed.

(** *** The configuration, read back *)

Lemma step_read_config {B C} cnt c cfg k (m' : M C) (Q : B -> C -> hP) :
  owns cnt (Lifetime.Container c) ∗ config_at (c_cfg c) cfg ∗
  (owns cnt (Lifetime.Container c) -∗ config_at (c_cfg c) cfg -∗ refines (k cfg) m' Q) ⊢
  refines (hbind (read_config cnt) k) m' Q.
Proof.
  iIntros "(Hi & (%Hpid & H1 & H2 & H3 & H4 & H5 & H6 & H7) & HQ)". iApply refines_step. rewrite /read_config.
  iApply step_get_cnt. iFrame "Hi". iIntros "Hi". iApply refines_step. rewrite /read_member. iApply step_text. iFrame "H1".
  iIntros "H1". iApply refines_ret. iApply step_text. iFrame "H2". iIntros "H2". iApply step_text. iFrame "H3". iIntros "H3".
  iApply step_text. iFrame "H4". iIntros "H4". iApply step_text. iFrame "H5". iIntros "H5". iApply step_text. iFrame "H6".
  iIntros "H6". iApply step_text. iFrame "H7". iIntros "H7". iApply refines_ret. rewrite Hpid /=.
  iSpecialize ("HQ" with "Hi [-]"); [by iFrame|]. by destruct cfg.
Qed.

(** The strings in the slots, as far as they are used. *)
Lemma texts_spec {A} p pre l tail (Q : list string -> A -> hP) a :
  slots p (pre ++ (Some <$> l) ++ tail) ∗ (slots p (pre ++ (Some <$> l) ++ tail) -∗ Q l a) ⊢
  refines (texts p (length pre) (length l)) (ret a) Q.
Proof.
  revert A pre Q a. induction l as [|s l IH]; intros A pre Q a; iIntros "[H HQ]"; cbn [texts length].
  { iApply refines_ret. by iApply "HQ". }
  iDestruct (slots_hole with "H") as (q) "[Hq Hh]". iApply step_load_slot; [done|]. iFrame "Hh". iIntros "Hh".
  iApply step_text. iFrame "Hq". iIntros "Hq". iApply refines_step.
  replace (S (length pre)) with (length (pre ++ [Some s])) by (rewrite length_app /=; lia).
  iApply (IH unit (pre ++ [Some s])). rewrite -assoc_L /=. iSplitR "HQ"; [iApply slots_hole; iExists q; iFrame|].
  iIntros "H". iApply refines_ret. by iApply "HQ".
Qed.

Lemma step_texts {B C} p l tail k (m' : M C) (Q : B -> C -> hP) :
  slots p ((Some <$> l) ++ tail) ∗ (slots p ((Some <$> l) ++ tail) -∗ refines (k l) m' Q) ⊢
  refines (hbind (texts p 0 (length l)) k) m' Q.
Proof. iIntros "H". iApply refines_step. by iApply (texts_spec p []). Qed.

(** *** The libraries of the container *)

Lemma add_compat_lib_refines root p l k path n :
  n = (length l + S k)%nat ->
  slots p ((Some <$> l) ++ replicate (S k) None) ⊢
  refines (add_compat_lib root p (length l) path) (Container.add_compat_lib root l path)
    (fun r r' => match r, r' with
     | Some i, Some l' => <affine> ⌜i = length l' /\ (length l' <= S (length l))%nat⌝ ∗
         slots p ((Some <$> l') ++ replicate (n - length l') None)
     | None, None => slots p ((Some <$> l) ++ replicate (S k) None)
     | _, _ => False
     end)%I.
Proof.
  iIntros (->) "H". rewrite /add_compat_lib /Container.add_compat_lib. case_match; [iStopProof; apply refines_undefined|].
  iApply step_lift. iIntros ([pt|]); [|by iApply refines_ret]. iApply step_texts. iFrame "H". iIntros "H". case_match.
  { iApply refines_ret. iSplit; [iPureIntro; split; [done|lia]|]. by replace (length l + S k - length l)%nat with (S k) by lia. }
  iApply step_new_string. simpl. iDestruct (slots_hole with "H") as (q0) "[Hq0 Hh]". iDestruct "Hq0" as %->.
  iIntros ([q|] [s|]) "Hq"; simpl; try done;
    (iApply (step_store_slot _ _ _ (Some <$> l)); [by rewrite length_fmap|]); iFrame "Hh"; iIntros "Hh"; iApply refines_ret.
  - iSplit; [iPureIntro; rewrite length_app /=; lia|]. rewrite fmap_app /= -assoc_L /= length_app /=.
    replace (length l + S k - (length l + 1))%nat with k by lia. iApply slots_hole. iExists q. iFrame.
  - iApply slots_hole. iExists Null. by iFrame.
Qed.

(** The array of the libraries while it is filled. *)
Definition filled (p : ptr) (n : nat) (l : list string) : hP := slots p ((Some <$> l) ++ replicate (n - length l) None).

Lemma add_compat_libs_refines root p paths :
  slots p (replicate (length paths) None) ⊢
  refines (hfold (add_compat_lib root p) 0%nat paths) (foldM (Container.add_compat_lib root) [] paths)
    (fun r r' => match r, r' with
     | Some _, Some l => <affine> ⌜(length l <= length paths)%nat⌝ ∗ filled p (length paths) l
     | None, None => ∃ l, slots p l ∗ <affine> ⌜length l = length paths⌝
     | _, _ => False
     end)%I.
Proof.
  iIntros "H". iApply (refines_wand with "[H]").
  - iApply (refines_fold _ _ (fun k i l => <affine> ⌜i = length l /\ (length l <= k)%nat⌝ ∗ filled p (length paths) l)%I
      (∃ l, slots p l ∗ <affine> ⌜length l = length paths⌝)%I paths 0%nat 0%nat []).
    + intros k path i l Hk. iIntros "[%Hil H]". destruct Hil as [-> Hl]. apply lookup_lt_Some in Hk. rewrite /filled.
      assert (length paths - length l = S (length paths - length l - 1))%nat as Hn by lia. rewrite Hn.
      iApply (refines_wand with "[H]"); [by iApply (add_compat_lib_refines _ _ _ (length paths - length l - 1)%nat _ (length paths)); [lia|]|].
      iIntros ([i|] [l'|]) "H"; try done.
      * iDestruct "H" as "[%Hi' H]". destruct Hi' as [-> Hl']. iFrame. iPureIntro. split; [done|lia].
      * iExists _. iFrame. iPureIntro. rewrite length_app length_fmap length_replicate. lia.
    + iSplit; [done|]. by rewrite /filled /= Nat.sub_0_r.
  - iIntros ([i|] [l|]) "H"; try done. iDestruct "H" as "[%Hil H]". destruct Hil as [_ Hl]. by iFrame.
Qed.

Lemma find_compat_paths_refines fl cfg cnt c :
  c_clibs c = zero_array ->
  owns cnt (Lifetime.Container c) ⊢
  refines (find_library_paths fl cfg cnt) (Container.find_library_paths fl cfg)
    (fun r r' => match r, r' with
     | Some _, Some l => ∃ a, strings a l ∗ owns cnt (Lifetime.Container (set_clibs a c))
     | None, None => ∃ a, any_strings a ∗ owns cnt (Lifetime.Container (set_clibs a c))
     | _, _ => False
     end)%I.
Proof.
  destruct c as [fl0 cc uid gid ns ver cg libs]. simpl. iIntros (->) "Hi". set (c := CContainer _ _ _ _ _ _ _ _).
  iAssert (owns cnt (Lifetime.Container (set_clibs zero_array c))) with "Hi" as "Hi".
  rewrite /find_library_paths /Container.find_library_paths.
  case_match; [iApply refines_ret; iExists zero_array; iFrame "Hi"; iSplit; [done|by iLeft]|].
  iApply step_lift. iIntros (cudart). iApply step_lift. iIntros ([path|]); [|iApply refines_ret; iExists zero_array; iFrame "Hi"; by iLeft].
  iApply step_lift. iIntros ([path'|]); [|iApply refines_ret; iExists zero_array; iFrame "Hi"; by iLeft].
  iApply step_lift. iIntros ([paths|]); [|iApply refines_ret; iExists zero_array; iFrame "Hi"; by iLeft].
  destruct paths as [|pt paths]; [iApply refines_ret; iExists zero_array; iFrame "Hi"; iSplit; [done|by iLeft]|].
  set (ps := pt :: paths). iApply step_upd_cnt. iFrame "Hi". iIntros "Hi".
  iApply refines_bind. iApply refines_wand; [iApply array_new_refines|].
  iIntros ([p|] [l|]) "Hp"; try done; iApply step_upd_cnt; iFrame "Hi"; iIntros "Hi".
  2:{ iApply step_ret. iApply refines_ret. iExists (CArray Null (length ps)). iFrame "Hi". by iLeft. }
  iDestruct "Hp" as "[Hp ->]". iApply step_ret. iApply refines_bind.
  iApply (refines_wand with "[Hp]"); [by iApply add_compat_libs_refines|].
  iIntros ([i|] [l|]) "H"; try done.
  2:{ iDestruct "H" as (l) "[H %Hl]". iApply refines_ret. iExists (CArray p (length ps)). iFrame "Hi". rewrite -Hl. by iApply slots_any. }
  iDestruct "H" as "[%Hl H]". iApply step_get_cnt. iFrame "Hi". iIntros "Hi". rewrite /filled.
  set (sl := (Some <$> l) ++ replicate (length ps - length l) None).
  assert (length sl = length ps) as Hsl by (rewrite /sl length_app length_fmap length_replicate; lia).
  iApply (step_array_pack _ sl); [by rewrite Hsl|]. iFrame "H". iIntros (a) "H".
  iApply step_upd_cnt. iFrame "Hi". iIntros "Hi". change (map Some l ++ replicate (length ps - length l) None) with sl.
  rewrite -(pack_present sl). destruct (Utils.array_pack sl (length sl)) as [arr n]. iApply refines_ret. iExists a. iFrame.
Qed.

(** *** Everything *)

Lemma step_read_container {B C} cnt c v k (m' : M C) (Q : B -> C -> hP) :
  owns cnt (Lifetime.Container c) ∗ container_at c v ∗
  (owns cnt (Lifetime.Container c) -∗ container_at c v -∗ refines (k v) m' Q) ⊢
  refines (hbind (read_container cnt) k) m' Q.
Proof.
  iIntros "(Hi & (Hc & Hm & Hg & (%Hn & Hl) & %Hr) & HQ)". iApply refines_step. rewrite /read_container.
  iApply step_read_config. iFrame "Hi Hc". iIntros "Hi Hc". iApply step_get_cnt. iFrame "Hi". iIntros "Hi".
  iApply refines_step. rewrite /read_member. iApply step_text. iFrame "Hm". iIntros "Hm". iApply refines_ret.
  iApply step_text. iFrame "Hg". iIntros "Hg". destruct Hr as (H1 & H2 & H3 & H4). destruct v as [vf vc vu vg vm vv vd vl]. simpl in *.
  iDestruct "Hl" as "[%Hl|(%k0 & Hl)]".
  - destruct Hl as [Hl ->]. rewrite Hl. iApply step_ret. iApply refines_ret. rewrite H1 H2 H3 H4.
    iApply ("HQ" with "Hi"). iFrame. iSplit; [iSplit; [done|by iLeft]|done].
  - iDestruct "Hl" as (ps) "[Hp Hl]". iDestruct (owns_at with "Hp") as "[(%a0 & %Ha) Hp]". rewrite Ha Hn.
    iApply step_texts. iSplitL "Hp Hl"; [iExists ps; iFrame|]. iIntros "Hl". iApply refines_ret. rewrite H1 H2 H3 H4.
    iApply ("HQ" with "Hi"). iFrame. iSplit; [|done]. iSplit; [done|]. iRight. rewrite Ha. by iExists k0.
Qed.

(** The container while it is made. *)
Definition part (fl : Z) (cc : c_config) (uid gid : Z) (ns : ptr) (ver : Z) (cg : ptr) (a : c_array) : block :=
  Lifetime.Container (CContainer fl cc uid gid ns ver cg a).

Lemma part_any cnt fl cc uid gid ns ver cg a :
  owns cnt (part fl cc uid gid ns ver cg a) ∗ any_config cc ∗ any_string ns ∗ any_string cg ∗ any_strings a ⊢
  any_container cnt.
Proof. iIntros "H". iRight. by iExists _. Qed.

Lemma nvc_container_new_refines `{CgroupOps} ctx cfg opts :
  ⊢ refines (nvc_container_new ctx cfg opts) (Container.nvc_container_new ctx cfg opts) container.
Proof.
  rewrite /nvc_container_new /Container.nvc_container_new.
  iApply step_lift. iIntros ([u|]); [|by iApply refines_ret].
  destruct cfg as [cfg|]; [|iApply step_lift; iIntros (z); by iApply refines_ret].
  iApply step_lift. iIntros ([u'|]); [|by iApply refines_ret]. iApply step_lift. iIntros ([fl|]); [|by iApply refines_ret].
  case_match; [iApply step_lift; iIntros (z); by iApply refines_ret|].
  iApply step_hcalloc. iIntros ([cnt|] [v|]) "Hi"; simpl; try done; [|by iApply refines_ret].
  iApply step_upd_cnt. iFrame "Hi". iIntros "Hi". iApply refines_bind_l.
  iApply (refines_wand _ _ (fun r r' => match r, r' with
    | Some _, Some v => container cnt (Some v) | None, None => any_container cnt | _, _ => False end)%I with "[Hi]").
  2:{ iIntros ([w|] [c|]) "H"; try done; [by iApply refines_ret|].
      iApply refines_step. iApply nvc_container_free_spec. iFrame. by iApply refines_ret. }
  iAssert (owns cnt (part fl zero_config 0 0 Null 0 Null zero_array)) with "Hi" as "Hi".
  iApply refines_bind. iApply (refines_wand with "[Hi]"); [by iApply (copy_config_refines _ _ _ (CContainer fl zero_config 0 0 Null 0 Null zero_array) eq_refl with "Hi")|].
  iIntros ([w|] [cfg'|]) "H"; try done; iDestruct "H" as (cc) "[Hi Hc]".
  2:{ iApply refines_ret. iApply (part_any _ fl cc). iFrame. iSplitR; [by iExists None|]. by iSplitR; [iExists None|iLeft]. }
  iApply step_read_config. iFrame "Hi Hc". iIntros "Hi Hc".
  iApply step_lift. iIntros ([owner|]).
  2:{ iApply refines_ret. iApply (part_any _ fl cc). iFrame "Hi". iSplitL; [by iApply config_any|].
      iSplitR; [by iExists None|]. by iSplitR; [iExists None|iLeft]. }
  iApply step_upd_cnt. iFrame "Hi". iIntros "Hi". iApply refines_bind.
  iApply (refines_wand _ _ (fun r r' => match r, r' with
     | Some _, Some l => ∃ a, strings a l ∗ owns cnt (part fl cc owner.1 owner.2 Null 0 Null a)
     | None, None => ∃ a, any_strings a ∗ owns cnt (part fl cc owner.1 owner.2 Null 0 Null a)
     | _, _ => False
     end)%I with "[Hi]").
  { case_match; [|iApply refines_ret; iExists zero_array; iFrame "Hi"; iSplit; [done|by iLeft]].
    iApply (find_compat_paths_refines _ _ _ (CContainer fl cc owner.1 owner.2 Null 0 Null zero_array) eq_refl). iExact "Hi". }
  iIntros ([w'|] [l|]) "H"; try done; iDestruct "H" as (a) "[Hl Hi]".
  2:{ iApply refines_ret. iApply part_any. iFrame "Hi Hl". iSplitL; [by iApply config_any|].
      by iSplitR; iExists None. }
  iApply step_new_string. iIntros ([ns|] [n|]) "Hn"; simpl; try done; iApply step_upd_cnt; iFrame "Hi"; iIntros "Hi".
  2:{ iApply refines_ret. iApply (part_any _ fl cc owner.1 owner.2 Null 0 Null a). iFrame "Hi".
      iSplitL "Hc"; [by iApply config_any|]. iSplitR; [by iExists None|]. iSplitR; [by iExists None|by iApply strings_any]. }
  set (v0 := mkContainer fl cfg' owner.1 owner.2 n 0 None l).
  iAssert (container_at (CContainer fl cc owner.1 owner.2 ns 0 Null a) v0) with "[Hc Hn Hl]" as "Hc".
  { rewrite /container_at /=. by iFrame. }
  case_match; [|iApply refines_ret; iExists _; by iFrame].
  iApply step_read_container. iFrame "Hi Hc". iIntros "Hi Hc". iApply step_lift. iIntros ([ver|]).
  2:{ iApply refines_ret. iApply (container_any _ (Some v0)). iExists _. by iFrame. }
  iApply step_upd_cnt. iFrame "Hi". iIntros "Hi".
  set (v1 := mkContainer fl cfg' owner.1 owner.2 n ver None l).
  iAssert (container_at (CContainer fl cc owner.1 owner.2 ns ver Null a) v1) with "[Hc]" as "Hc".
  { iDestruct "Hc" as "(Hc & Hm & Hg & Hl & _)". rewrite /container_at /=. by iFrame. }
  iApply step_read_container. iFrame "Hi Hc". iIntros "Hi Hc".
  iApply step_new_string. iIntros ([g|] [s|]) "Hg"; simpl; try done; iApply step_upd_cnt; iFrame "Hi"; iIntros "Hi"; iApply refines_ret.
  - iExists _. iFrame "Hi". iDestruct "Hc" as "(Hc & Hm & _ & Hl & _)". rewrite /container_at /=. by iFrame.
  - iApply (container_any _ (Some v1)). iExists _. by iFrame.
Qed.

(** C13: [nvc_container_new] with its memory is the function of [Container], whatever
    fails: when it returns [NULL] the heap is as it was, otherwise the new blocks are
    exactly the container that was returned, and [nvc_container_free] frees each of
    them once. *)
Theorem nvc_container_lifetime `{CgroupOps} (ctx : nvc_context) (cfg : option nvc_container_config) (opts : option string) :
  lifetime (nvc_container_new ctx cfg opts) (Container.nvc_container_new ctx cfg opts) nvc_container_free container.
Proof.
  apply refines_lifetime; [iIntros "_"; iApply nvc_container_new_refines|]. iIntros (p v) "H".
  iApply nvc_container_free_spec. iSplitL; [by iApply container_any|done].
Qed.
End Making.
