(* ===== verification/Libnvc.v ===== *)
(** * The library of the first version behind the interface of this one

    The wrappers of [src/src/cli/libnvc.c].  A wrapper keeps the information the
    other library made and copies the members both have in common, so both share the
    strings: what is freed by whom is the point.  The other library is [LibnvcV0],
    with the laws [LibnvcV0Laws]. *)
From iris.proofmode Require Import proofmode.
From S2P Require Import Prelude CString Effects Errors Utils Types Info Heap Lifetime DeviceLife DriverLife.

Section Libnvc.
Context `{!Allocator block}.

(** ** The other library *)

(** The functions of [libnvc_v0_wrapped]. *)
Class LibnvcV0 := {
  v0_device_info_new : nvc_context -> option string -> H ptr;
  v0_device_info_free : ptr -> H unit;
  v0_driver_info_new : nvc_context -> option string -> H ptr;
  v0_driver_info_free : ptr -> H unit;
  v0_driver_mount : nvc_context -> nvc_container -> ptr -> H (option unit);
  (* its [struct nvc_device], which has no [mig_capable], is as large as the one here *)
  v0_same_stride : bool
}.

(** What is relied on: its information belongs to the caller and is freed by its own
    function; the mount only reads it.  The members that are copied are in front in
    both versions; a device may be larger here. *)
Class LibnvcV0Laws `{LibnvcV0} := {
  v0_device_info : nvc_context -> option string -> M (option nvc_device_info);
  v0_driver_info : nvc_context -> option string -> M (option nvc_driver_info);
  v0_mount : nvc_context -> nvc_container -> nvc_driver_info -> M (option unit);
  v0_devices : ptr -> list c_gpu -> nvc_device_info -> hP;
  v0_driver : ptr -> c_driver_info -> nvc_driver_info -> hP;
  v0_device_info_new_law ctx opts :
    ⊢ refines (v0_device_info_new ctx opts) (v0_device_info ctx opts)
        (fun p r => match r with Some ds => ∃ gs, v0_devices p gs ds | None => <affine> ⌜p = Null⌝ end);
  v0_devices_read p gs ds :
    v0_devices p gs ds ⊢ <affine> ⌜length gs = length ds⌝ ∗ ∃ gpus, owns p (DeviceInfo gpus (length gs)) ∗ owns gpus (Gpus gs) ∗
      (owns p (DeviceInfo gpus (length gs)) -∗ owns gpus (Gpus gs) -∗ v0_devices p gs ds);
  v0_device_info_free_law p gs ds : v0_devices p gs ds ⊢ refines (v0_device_info_free p) (ret tt) (fun _ _ => emp);
  v0_driver_info_new_law ctx opts :
    ⊢ refines (v0_driver_info_new ctx opts) (v0_driver_info ctx opts)
        (fun p r => match r with Some i => ∃ d, v0_driver p d i | None => <affine> ⌜p = Null⌝ end);
  v0_driver_read p d i :
    v0_driver p d i ⊢ owns p (DriverInfo d) ∗ (owns p (DriverInfo d) -∗ v0_driver p d i);
  v0_driver_info_free_law p d i : v0_driver p d i ⊢ refines (v0_driver_info_free p) (ret tt) (fun _ _ => emp);
  v0_driver_mount_law ctx cnt p d i :
    v0_driver p d i ⊢ refines (v0_driver_mount ctx cnt p) (v0_mount ctx cnt i) (fun r r' => <affine> ⌜r = r'⌝ ∗ v0_driver p d i)
}.

(** ** The wrappers *)

Section Wrappers.
Context `{V0 : LibnvcV0}.

Definition libnvc_v0_wrapper_device_info_free (info : ptr) : H unit :=
  match info with
  | Null => hret tt
  | _ =>
      let! b := load info in
      match b with
      | DeviceWrapper gpus _ v0 =>
          do! v0_device_info_free v0 in
          do! free gpus in
          free info
      | _ => bad_pointer
      end
  end.

(** The members in front of [mig_capable]. *)
Definition common_gpu (g : c_gpu) : c_gpu :=
  CGpu (c_model g) (c_uuid g) (c_busid g) (c_arch g) (c_brand g) (c_node_ g) false Null (CMigs Null 0).

Definition load_gpus (p : ptr) : H (list c_gpu) :=
  let! b := load p in match b with Gpus l => hret l | _ => bad_pointer end.

(** [memcpy(&to[i], &from[i], offsetof(struct nvc_device, mig_capable))]: [&from[i]]
    is [i] devices of this version behind [from], where a device of the other
    library starts if it is as large, or the first one. *)
Definition other_stride : stop := Undefined "libnvc_v0_wrapper_device_info_new: gpus[i] with another stride".
Definition at_stride (i : nat) : bool := v0_same_stride || (i =? 0)%nat.
Definition copy_gpu (to from : ptr) (i : nat) : H unit :=
  let! l := load_gpus from in
  if at_stride i then
    match l !! i with
    | Some g => upd_gpu to i (fun _ => common_gpu g)
    | None => bad_pointer
    end
  else hlift (halt other_stride).

Definition libnvc_v0_wrapper_device_info_new (ctx : nvc_context) (opts : option string) : H ptr :=
  let! info_ := v0_device_info_new ctx opts in
  match info_ with
  | Null => hret Null
  | _ =>
      let! info := ccalloc (DeviceWrapper Null 0 Null) in
      match info with
      | None => do! v0_device_info_free info_ in hret Null
      | Some info =>
          let! b := load info_ in
          match b with
          | DeviceInfo gpus_ ngpus =>
              do! store info (DeviceWrapper gpus_ ngpus info_) in
              let! gpus := ccalloc (Gpus (replicate ngpus zero_gpu)) in
              do! store info (DeviceWrapper (default Null gpus) ngpus info_) in
              match gpus with
              | None => do! libnvc_v0_wrapper_device_info_free info in hret Null
              | Some gpus => do! hiter (copy_gpu gpus gpus_) (seq 0 ngpus) in hret info
              end
          | _ => bad_pointer
          end
      end
  end.

(** Every mount is one of the driver. *)
Definition libnvc_v0_wrapper_device_mount (ctx : nvc_context) (cnt : nvc_container) (dev : nvc_device) : H Z := hret 0.

Definition libnvc_v0_wrapper_driver_info_free (info : ptr) : H unit :=
  match info with
  | Null => hret tt
  | _ =>
      let! b := load info in
      match b with
      | DriverWrapper _ v0 => do! v0_driver_info_free v0 in free info
      | _ => bad_pointer
      end
  end.

(** The members in front of [devs]. *)
Definition common_driver (d : c_driver_info) : c_driver_info :=
  CDriverInfo (c_nvrm_version d) (c_cuda_version d) (c_bins d) (c_libs d) (c_libs32 d) (c_ipcs d) Null 0 zero_array.

Definition libnvc_v0_wrapper_driver_info_new (ctx : nvc_context) (opts : option string) : H ptr :=
  let! info_ := v0_driver_info_new ctx opts in
  match info_ with
  | Null => hret Null
  | _ =>
      let! info := ccalloc (DriverWrapper zero_driver_info Null) in
      match info with
      | None => do! v0_driver_info_free info_ in hret Null
      | Some info =>
          let! b := load info_ in
          match b with
          | DriverInfo d => do! store info (DriverWrapper (common_driver d) info_) in hret info
          | _ => bad_pointer
          end
      end
  end.

Definition libnvc_v0_wrapper_driver_mount (ctx : nvc_context) (cnt : nvc_container) (info : ptr) : H (option unit) :=
  let! b := load info in
  match b with DriverWrapper _ v0 => v0_driver_mount ctx cnt v0 | _ => bad_pointer end.

(** ** What they are for *)

Context `{!LibnvcV0Laws}.

(** The devices the commands see: no MIG. *)
Definition without_mig (d : nvc_device) : nvc_device :=
  mkDevice (model d) (uuid d) (busid d) (arch d) (brand d) (node d) false None [].

Definition wrapped_device_info (ctx : nvc_context) (opts : option string) : M (option nvc_device_info) :=
  let? ds := v0_device_info ctx opts else ret None in
  let? _ := calloc else ret None in
  let? _ := calloc else ret None in
  if forallb at_stride (seq 0 (length ds)) then ret (Some (without_mig <$> ds)) else halt other_stride.

(** The information the commands see: no nodes and no firmware. *)
Definition without_devs (i : nvc_driver_info) : nvc_driver_info :=
  mkDriverInfo (nvrm_version i) (cuda_version i) (bins i) (libs i) (libs32 i) (ipcs i) [] [].

Definition wrapped_driver_info (ctx : nvc_context) (opts : option string) : M (option nvc_driver_info) :=
  let? i := v0_driver_info ctx opts else ret None in
  let? _ := calloc else ret None in
  ret (Some (without_devs i)).

(** A wrapper: its own blocks, whose pointers lead into what the other library
    owns, and that. *)
Definition wrapped_devices (p : ptr) (r : option nvc_device_info) : hP :=
  match r with
  | None => (<affine> ⌜p = Null⌝)%I
  | Some ds => (∃ gpus gs v0 ds0, owns p (DeviceWrapper gpus (length gs) v0) ∗ owns gpus (Gpus (common_gpu <$> gs)) ∗
      v0_devices v0 gs ds0 ∗ <affine> ⌜ds = without_mig <$> ds0⌝)%I
  end.

Definition wrapped_driver (p : ptr) (r : option nvc_driver_info) : hP :=
  match r with
  | None => (<affine> ⌜p = Null⌝)%I
  | Some i => (∃ d v0 i0, owns p (DriverWrapper (common_driver d) v0) ∗ v0_driver v0 d i0 ∗ <affine> ⌜i = without_devs i0⌝)%I
  end.

(** ** Facts *)

(** The copies that are made, one after the other. *)
Lemma copy_gpus_spec {A} to from gs (Q : unit -> A -> hP) a :
  forallb at_stride (seq 0 (length gs)) = true ->
  owns to (Gpus (replicate (length gs) zero_gpu)) ∗ owns from (Gpus gs) ∗
  (owns to (Gpus (common_gpu <$> gs)) -∗ owns from (Gpus gs) -∗ Q tt a) ⊢
  refines (hiter (copy_gpu to from) (seq 0 (length gs))) (ret a) Q.
Proof.
  rewrite forallb_forall. intros Hs.
  assert (forall l pre (Q : unit -> A -> hP), gs = pre ++ l ->
    owns to (Gpus ((common_gpu <$> pre) ++ replicate (length l) zero_gpu)) ∗ owns from (Gpus gs) ∗
    (owns to (Gpus (common_gpu <$> gs)) -∗ owns from (Gpus gs) -∗ Q tt a) ⊢
    refines (hiter (copy_gpu to from) (seq (length pre) (length l))) (ret a) Q) as H; [|apply (H gs [] Q eq_refl)].
  induction l as [|g l IH]; intros pre Q' Hg; simpl; iIntros "(Ht & Hf & HQ)".
  - iApply refines_ret. rewrite app_nil_r in Hg. subst pre. rewrite app_nil_r. iApply ("HQ" with "Ht Hf").
  - iApply refines_step. rewrite /copy_gpu /load_gpus. iApply refines_step. iApply step_load. iFrame "Hf". iIntros "Hf".
    iApply refines_ret. rewrite Hs; [|apply in_seq; rewrite Hg length_app /=; lia].
    assert (gs !! length pre = Some g) as -> by rewrite Hg list_lookup_middle //. rewrite /upd_gpu. iApply step_load. iFrame "Ht". iIntros "Ht".
    rewrite list_lookup_middle ?length_fmap //. iApply owns_store. iFrame "Ht". iIntros "Ht".
    replace (S (length pre)) with (length (pre ++ [g])) by (rewrite length_app /=; lia).
    iApply (IH (pre ++ [g])); [by rewrite -assoc_L|]. iFrame "Hf HQ".
    rewrite insert_app_r_alt ?length_fmap // Nat.sub_diag /= fmap_app -assoc_L. iExact "Ht".
Qed.

(** [libnvc_v0_wrapper_device_info_free] on a wrapper with or without its array. *)
Lemma wrapper_device_free_spec {A} p gpus n v0 gs ds (Q : unit -> A -> hP) a :
  owns p (DeviceWrapper gpus n v0) ∗ v0_devices v0 gs ds ∗
    ((<affine> ⌜gpus = Null⌝) ∨ ∃ b, owns gpus b) ∗ Q tt a ⊢
  refines (libnvc_v0_wrapper_device_info_free p) (ret a) Q.
Proof.
  iIntros "(Hp & Hv & Hg & HQ)". iDestruct (owns_at with "Hp") as "[(%l & ->) Hp]".
  cbn [libnvc_v0_wrapper_device_info_free]. iApply step_load. iFrame "Hp". iIntros "Hp". iApply refines_step.
  iApply (refines_wand with "[Hv]"); [by iApply v0_device_info_free_law|]. iIntros ([] []) "_".
  iDestruct "Hg" as "[Hg|(%b & Hg)]".
  - iDestruct "Hg" as %->. iApply step_ret. iApply owns_free. iFrame.
  - iApply step_free. iFrame "Hg". iApply owns_free. iFrame.
Qed.

Lemma wrapper_device_info_new_refines ctx opts :
  ⊢ refines (libnvc_v0_wrapper_device_info_new ctx opts) (wrapped_device_info ctx opts) wrapped_devices.
Proof.
  rewrite /libnvc_v0_wrapper_device_info_new /wrapped_device_info. iApply refines_bind.
  iApply refines_wand; [iApply v0_device_info_new_law|]. iIntros (info_ [ds|]) "H".
  2:{ iDestruct "H" as %->. by iApply refines_ret. }
  iDestruct "H" as (gs) "H". iDestruct (v0_devices_read with "H") as "[%Hn (%gpus_ & Hi & Hg & Hback)]".
  iDestruct (owns_at with "Hi") as "[(%l & ->) Hi]". iApply refines_bind. iApply refines_wand; [iApply ccalloc_refines|].
  iIntros ([info|] [u|]) "Hp"; simpl; try done.
  2:{ iApply refines_step. iDestruct ("Hback" with "Hi Hg") as "H". iApply (refines_wand with "[H]"); [by iApply v0_device_info_free_law|].
      iIntros ([] []) "_". by iApply refines_ret. }
  iApply step_load. iFrame "Hi". iIntros "Hi". iApply step_store. iFrame "Hp". iIntros "Hp".
  iApply refines_bind. iApply refines_wand; [iApply ccalloc_refines|].
  iIntros ([gpus|] [u'|]) "Hn"; simpl; try done; iApply step_store; iFrame "Hp"; iIntros "Hp".
  - rewrite -Hn. destruct (forallb _ _) eqn:Hs; [|iStopProof; apply refines_undefined].
    iApply refines_step. iApply copy_gpus_spec; [done|]. iFrame "Hn Hg". iIntros "Hn Hg". iApply refines_ret.
    iExists gpus, gs, (At l), ds. iFrame "Hp Hn". iSplitL; [|done]. iApply ("Hback" with "Hi Hg").
  - iApply refines_step. iApply wrapper_device_free_spec. iFrame "Hp". iDestruct ("Hback" with "Hi Hg") as "$".
    iSplitR; [by iLeft|]. by iApply refines_ret.
Qed.

Lemma wrapper_driver_info_new_refines ctx opts :
  ⊢ refines (libnvc_v0_wrapper_driver_info_new ctx opts) (wrapped_driver_info ctx opts) wrapped_driver.
Proof.
  rewrite /libnvc_v0_wrapper_driver_info_new /wrapped_driver_info. iApply refines_bind.
  iApply refines_wand; [iApply v0_driver_info_new_law|]. iIntros (info_ [i|]) "H".
  2:{ iDestruct "H" as %->. by iApply refines_ret. }
  iDestruct "H" as (d) "H". iDestruct (v0_driver_read with "H") as "(Hi & Hback)".
  iDestruct (owns_at with "Hi") as "[(%l & ->) Hi]". iApply refines_bind. iApply refines_wand; [iApply ccalloc_refines|].
  iIntros ([info|] [u|]) "Hp"; simpl; try done.
  - iApply step_load. iFrame "Hi". iIntros "Hi". iApply step_store. iFrame "Hp". iIntros "Hp". iApply refines_ret.
    iExists d, (At l), i. iFrame "Hp". iSplitL; [|done]. by iApply "Hback".
  - iApply refines_step. iDestruct ("Hback" with "Hi") as "H". iApply (refines_wand with "[H]"); [by iApply v0_driver_info_free_law|].
    iIntros ([] []) "_". by iApply refines_ret.
Qed.

(** C16: behind the wrapper the other library's information lives as long as the
    wrapper and no longer: when the wrapper cannot be made nothing is left, and
    freeing it frees the strings both share once.  The devices of the other library
    are found with the size of a device of this version: if theirs is another, the
    reading of the second one is undefined, and of such a library only the runs with
    at most one device are covered. *)
Theorem wrapper_device_info_lifetime (ctx : nvc_context) (opts : option string) :
  lifetime (libnvc_v0_wrapper_device_info_new ctx opts) (wrapped_device_info ctx opts)
    libnvc_v0_wrapper_device_info_free wrapped_devices.
Proof.
  apply refines_lifetime; [iIntros "_"; iApply wrapper_device_info_new_refines|]. iIntros (p [ds|]) "H".
  - iDestruct "H" as (gpus gs v0 ds0) "(Hp & Hg & Hv & _)". iApply wrapper_device_free_spec. iFrame "Hp Hv".
    iSplitL; [|done]. iRight. by iExists _.
  - iDestruct "H" as %->. by iApply refines_ret.
Qed.

(** The same for the information of the driver. *)
Theorem wrapper_driver_info_lifetime (ctx : nvc_context) (opts : option string) :
  lifetime (libnvc_v0_wrapper_driver_info_new ctx opts) (wrapped_driver_info ctx opts)
    libnvc_v0_wrapper_driver_info_free wrapped_driver.
Proof.
  apply refines_lifetime; [iIntros "_"; iApply wrapper_driver_info_new_refines|]. iIntros (p [i|]) "H".
  - iDestruct "H" as (d v0 i0) "(Hp & Hv & _)". iDestruct (owns_at with "Hp") as "[(%l & ->) Hp]".
    cbn [libnvc_v0_wrapper_driver_info_free]. iApply step_load. iFrame "Hp". iIntros "Hp". iApply refines_step.
    iApply (refines_wand with "[Hv]"); [by iApply v0_driver_info_free_law|]. iIntros ([] []) "_". iApply owns_free. by iFrame.
  - iDestruct "H" as %->. by iApply refines_ret.
Qed.

(** The mount is given what the other library made, not the copy. *)
Lemma wrapper_driver_mount_refines ctx cnt p d v0 i :
  owns p (DriverWrapper (common_driver d) v0) ∗ v0_driver v0 d i ⊢
  refines (libnvc_v0_wrapper_driver_mount ctx cnt p) (v0_mount ctx cnt i)
    (fun r r' => <affine> ⌜r = r'⌝ ∗ owns p (DriverWrapper (common_driver d) v0) ∗ v0_driver v0 d i)%I.
Proof.
  iIntros "[Hp Hv]". iApply step_load. iFrame "Hp". iIntros "Hp". iApply (refines_wand with "[Hv]"); [by iApply v0_driver_mount_law|].
  iIntros (r r') "[$ $]". iFrame.
Qed.
End Wrappers.

(** ** An instance: this library as the other one, outside WSL *)

Section Own.
#[export] Instance own_library : LibnvcV0 := {|
  v0_device_info_new := fun ctx _ => nvc_device_info_new ctx;
  v0_device_info_free := nvc_device_info_free;
  v0_driver_info_new := fun ctx opts =>
    if dx_initialized (dxcore ctx) then hret Null else nvc_driver_info_new ctx opts;
  v0_driver_info_free := nvc_driver_info_free;
  v0_driver_mount := fun _ _ _ => hret (Some tt);
  v0_same_stride := true
|}.

#[export] Program Instance own_laws : LibnvcV0Laws := {|
  v0_device_info := fun ctx _ => Info.nvc_device_info_new ctx;
  v0_driver_info := fun ctx opts =>
    if dx_initialized (dxcore ctx) then ret None else Info.nvc_driver_info_new ctx opts;
  v0_mount := fun _ _ _ => ret (Some tt);
  v0_devices := fun p gs ds =>
    (∃ gpus, owns p (DeviceInfo gpus (length gs)) ∗ owns gpus (Gpus gs) ∗ [∗ list] g;d ∈ gs;ds, gpu_at g d)%I;
  v0_driver := fun p d i => (owns p (DriverInfo d) ∗ driver_at d i)%I
|}.
Next Obligation.
  intros ctx opts. simpl. iApply refines_wand; [by iApply nvc_device_info_new_refines|]. iIntros (p [ds|]) "H"; [|done].
  iDestruct "H" as (gpus gs) "(Hp & Hg & Hl)". iDestruct (big_sepL2_length with "Hl") as %Hn. iExists gs, gpus. rewrite Hn. iFrame.
Qed.
Next Obligation.
  intros p gs ds. iIntros "(%gpus & Hp & Hg & Hl)". iDestruct (big_sepL2_length with "Hl") as %Hn. iSplit; [done|].
  iExists gpus. iFrame "Hp Hg". iIntros "Hp Hg". iExists gpus. iFrame.
Qed.
Next Obligation.
  intros p gs ds. iIntros "(%gpus & Hp & Hg & Hl)". iDestruct (big_sepL2_length with "Hl") as %Hn.
  iApply nvc_device_info_free_spec. iSplitL; [|done]. iApply (device_info_any _ (Some ds)). iExists gpus, gs. rewrite Hn. iFrame.
Qed.
Next Obligation.
  intros ctx opts. simpl. destruct (dx_initialized (dxcore ctx)) eqn:Hdx; [by iApply refines_ret|].
  iApply refines_wand; [by iApply nvc_driver_info_new_refines|]. iIntros (p [i|]) "H"; done.
Qed.
Next Obligation. intros p d i. iIntros "[Hp Hd]". iFrame. iIntros "Hp". iFrame. Qed.
Next Obligation.
  intros p d i. iIntros "H". iApply nvc_driver_info_free_spec. iSplitL; [|done]. iApply (driver_info_any _ (Some i)). by iExists d.
Qed.
Next Obligation. intros ctx cnt p d i. iIntros "H". iApply refines_ret. by iFrame. Qed.
End Own.
End Libnvc.

(** A context outside WSL, with this library as the other one. *)
Lemma wrapper_device_info_lifetime_witness :
  lifetime (libnvc_v0_wrapper_device_info_new demo_ctx None) (wrapped_device_info demo_ctx None)
    libnvc_v0_wrapper_device_info_free wrapped_devices.
Proof. apply wrapper_device_info_lifetime. Defined.
