(* ===== verification/Mount.v ===== *)
(** * Mounting the driver and the devices into a container

    [src/src/nvc_mount.c].  What is mounted, where and with which flags; what
    happens when a step fails; and the way into the namespace of the container
    and back. *)
From stdpp Require Import pretty.
From S2P Require Import Prelude CString Regex Effects Logic Errors Options Utils Types Paths Files Components Devices Pci Modprobe Ldcache Driver Cgroup Info Container.

Definition MS_RDONLY : Z := 1.
Definition MS_NOSUID : Z := 2.
Definition MS_NODEV : Z := 4.
Definition MS_NOEXEC : Z := 8.
Definition MS_REMOUNT : Z := 32.
Definition MS_BIND : Z := 4096.
Definition MNT_DETACH : Z := 2.
Definition NV_MODESET_DEVICE_MINOR : Z := 254.

Notation "a .| b" := (Z.lor a b) (at level 50, left associativity) : c_scope.

Definition rootfs_of (cnt : nvc_container) : string := cc_rootfs (ccfg cnt).

(** ** Undoing a mount *)

(** A [NULL] or empty path is skipped; failures are ignored. *)
Definition unmount (path : option string) : M unit :=
  match path with
  | None => ret tt
  | Some p =>
      if str_empty (Some p) then ret tt
      else
        let* r := call (EUmount p MNT_DETACH) in
        do trap r in
        do null_err (file_remove p) in
        ret tt
  end.

(** ** Bind mounts *)

(** Bind [src] at [dst], then remount it with [mountflags]; the name of the mount
    is copied. *)
Definition bind_remount (src dst : string) (mountflags : Z) : M (option string) :=
  let? _ := xmount (Some src) dst None MS_BIND None else ret None in
  let? _ := xmount None dst None (MS_BIND .| MS_REMOUNT .| mountflags) None else ret None in
  xstrdup dst.

(** On every failure but the last one [mnt] is not initialised when it is
    unmounted; on the last one it is [NULL]. *)
Definition mount_with_flags (src dst : string) (uid gid mountflags : Z) : M (option string) :=
  let uninit := halt (Undefined "unmount: uninitialised mnt") in
  let? mode := file_mode src else uninit in
  let? _ := file_create dst None uid gid mode else uninit in
  let? _ := xmount (Some src) dst None MS_BIND None else uninit in
  let? _ := xmount None dst None (MS_BIND .| MS_REMOUNT .| mountflags) None else uninit in
  xstrdup dst.

Definition mount_directory (root : string) (cnt : nvc_container) (dir : string) : M (option string) :=
  let? src := path_join root dir else ret None in
  let? dst := path_resolve_full (rootfs_of cnt) dir else ret None in
  mount_with_flags src dst (cuid cnt) (cgid cnt) (MS_NOSUID .| MS_NOEXEC).

Definition mount_firmware (root : string) (cnt : nvc_container) (container_path : string) : M (option string) :=
  let? src := path_resolve_full root container_path else ret None in
  let? dst := path_join (rootfs_of cnt) container_path else ret None in
  mount_with_flags src dst (cuid cnt) (cgid cnt) (MS_RDONLY .| MS_NODEV .| MS_NOSUID).

(** One file of [mount_files]: [src] and [dst] are the directories.  [None] is a
    failure, [Some None] a file the options leave out. *)
Definition mount_file (cnt : nvc_container) (src dst path : string) : M (option (option string)) :=
  let file := basename path in
  if negb (match_binary_flags file (flags cnt)) && negb (match_library_flags file (flags cnt)) then ret (Some None)
  else
    let? src := path_append src path else ret None in
    let? dst := path_append dst file else ret None in
    let? mode := file_mode src else ret None in
    let? _ := file_create dst None (cuid cnt) (cgid cnt) mode else ret None in
    let? mnt := bind_remount src dst (MS_RDONLY .| MS_NODEV .| MS_NOSUID) else ret None in
    ret (Some (Some mnt)).

(** A loop that mounts one file after the other; when one fails, the mounts
    before it are undone. *)
Fixpoint mount_loop {A} (mount : A -> M (option (option string))) (paths : list A) (mnt : list string)
  : M (option (list string)) :=
  match paths with
  | [] => ret (Some mnt)
  | path :: paths' =>
      let* r := mount path in
      match r with
      | None => do mapM_ (fun m => unmount (Some m)) mnt in ret None
      | Some None => mount_loop mount paths' mnt
      | Some (Some m) => mount_loop mount paths' (mnt ++ [m])
      end
  end.

Definition mount_files (root : string) (cnt : nvc_container) (dir : option string) (paths : list string)
  : M (option (list string)) :=
  let? src := path_new root else ret None in
  let* dir := path_arg dir in
  let? dst := path_resolve_full (rootfs_of cnt) dir else ret None in
  let? _ := file_create dst None (cuid cnt) (cgid cnt) (MODE_DIR m755) else ret None in
  let? _ := array_new (Z.of_nat (length paths) + 1) else ret None in
  mount_loop (mount_file cnt src dst) paths [].

Definition mount_driverstore_file (cnt : nvc_container) (src dst path : string) : M (option (option string)) :=
  let file := basename path in
  let? src := path_append src path else ret None in
  let? dst := path_append dst file else ret None in
  let? _ := file_create dst None (cuid cnt) (cgid cnt) (MODE_REG m555) else ret None in
  let? mnt := bind_remount src dst (MS_RDONLY .| MS_NODEV .| MS_NOSUID) else ret None in
  ret (Some (Some mnt)).

Definition mount_driverstore_files (root : string) (cnt : nvc_container) (driverStore : string)
    (files : list string) : M (option (list string)) :=
  let? src := path_join root driverStore else ret None in
  let? dst := path_resolve_full (rootfs_of cnt) driverStore else ret None in
  let? _ := file_create dst None (cuid cnt) (cgid cnt) (MODE_DIR m755) else ret None in
  let? _ := array_new (Z.of_nat (length files) + 1) else ret None in
  mount_loop (mount_driverstore_file cnt src dst) files [].

(** [goto fail] where [fail] unmounts [dst]. *)
Definition or_unmount (dst : string) (m : M (option string)) : M (option string) :=
  let* r := m in
  match r with
  | Some mnt => ret (Some mnt)
  | None => do unmount (Some dst) in ret None
  end.

Definition mount_device (root : string) (cnt : nvc_container) (dev : nvc_device_node) : M (option string) :=
  match node_path dev with
  | None => halt (Undefined "path_join(NULL)")
  | Some path =>
      let? src := path_join root path else ret None in
      let? dst := path_resolve_full (rootfs_of cnt) path else ret None in
      let? s := xstat src else ret None in
      if negb (st_rdev s =? node_id dev) then do error_setx ("invalid device node: " +:+ src) in ret None
      else
        let? mode := file_mode src else ret None in
        let? _ := file_create dst None (cuid cnt) (cgid cnt) mode else ret None in
        or_unmount dst (bind_remount src dst (MS_RDONLY .| MS_NOSUID .| MS_NOEXEC))
  end.

Definition mount_ipc (root : string) (cnt : nvc_container) (ipc : string) : M (option string) :=
  let? src := path_join root ipc else ret None in
  let? dst := path_resolve_full (rootfs_of cnt) ipc else ret None in
  let? mode := file_mode src else ret None in
  let? _ := file_create dst None (cuid cnt) (cgid cnt) mode else ret None in
  or_unmount dst (bind_remount src dst (MS_NODEV .| MS_NOSUID .| MS_NOEXEC)).

(** A file system in memory, remounted with [mountflags]. *)
Definition tmpfs_at (path : string) : M (option unit) :=
  xmount (Some "tmpfs") path (Some "tmpfs") 0 (Some "mode=0555").
Definition remount_at (path : string) (mountflags : Z) : M (option string) :=
  let? _ := xmount None path None (MS_BIND .| MS_REMOUNT .| mountflags) None else ret None in
  xstrdup path.

Definition mount_app_profile (cnt : nvc_container) : M (option string) :=
  let? path := path_resolve_full (rootfs_of cnt) NV_APP_PROFILE_DIR else ret None in
  let? _ := file_create path None (cuid cnt) (cgid cnt) (MODE_DIR m555) else ret None in
  or_unmount path (
    let? _ := tmpfs_at path else ret None in
    remount_at path (MS_NODEV .| MS_NOSUID .| MS_NOEXEC)).

(** ** The application profile *)

Definition quoted (s : string) : string := String "034" s +:+ String "034" EmptyString.

(** The text the macro [profile] formats. *)
Definition profile (dev : Z) : string :=
  "{ " +:+ quoted "profiles" +:+ ": [{" +:+ quoted "name" +:+ ": " +:+ quoted "_container_" +:+ ", " +:+
  quoted "settings" +:+ ": [" +:+ quoted "EGLVisibleDGPUDevices" +:+ ", 0x" +:+ print_hex64 1 dev +:+ "]}], " +:+
  quoted "rules" +:+ ": [{" +:+ quoted "pattern" +:+ ": [], " +:+ quoted "profile" +:+ ": " +:+
  quoted "_container_" +:+ "}]}".

(** [strtoumax(ptr, NULL, 16)] where [ptr] starts with ["0x"]. *)
Definition strtoumax16 (ptr : string) : Z :=
  let '(v, _, _) := read_digits 16 0 0 (str_drop 2 ptr) in
  if UINTMAX_MAX <? v then UINTMAX_MAX else v.

(** [err->code] *)
Definition err_code : M Z :=
  let* e := get_err in
  match e with
  | Some e => ret (code e)
  | None => halt (Undefined "err->code of NULL")
  end.

Definition update_app_profile (cnt : nvc_container) (id : Z) : M (option unit) :=
  if 64 <=? minor id then halt (Undefined "shift by 64 or more")
  else
    let dev := Z.shiftl 1 (minor id) in
    let? path := path_resolve_full (rootfs_of cnt) (NV_APP_PROFILE_DIR +:+ "/10-container.conf") else ret None in
    let* txt := file_read_text path in
    let? buf :=
      (match txt with
       | None =>
           let* c := err_code in
           if negb (c =? ENOENT) then ret None else xasprintf (profile dev)
       | Some None => halt (Undefined "strstr(NULL)")
       | Some (Some txt) =>
           let bad := do error_setx ("invalid application profile: " +:+ path) in ret None in
           match strstr txt "0x" with
           | None => bad
           | Some ptr =>
               let n := strtoumax16 ptr in
               if n =? UINTMAX_MAX then bad else xasprintf (profile (Z.lor n dev))
           end
       end) else ret None in
    file_create path (Some buf) (cuid cnt) (cgid cnt) (MODE_REG m555).

(** ** The proc file system *)

(** ["ModifyDeviceFiles: 1"] becomes ["ModifyDeviceFiles: 0"], once. *)
Fixpoint disable_modify (buf : string) : string :=
  if str_has_prefix buf "ModifyDeviceFiles: 1" then
    "ModifyDeviceFiles: 0" +:+ str_drop 20 buf
  else match buf with
       | EmptyString => EmptyString
       | String c buf' => String c (disable_modify buf')
       end.

(** One file of [mount_procfs]; a missing one is skipped. *)
Definition copy_proc_file (cnt : nvc_container) (src dst file : string) : M (option unit) :=
  let? src := path_append src file else ret None in
  let? dst := path_append dst file else ret None in
  let* mode := file_mode src in
  match mode with
  | None => let* c := err_code in if c =? ENOENT then ret (Some tt) else ret None
  | Some mode =>
      let? buf := file_read_text src else ret None in
      let? buf := (if str_equal file "params" then
                     match buf with
                     | None => halt (Undefined "strstr(NULL)")
                     | Some b => ret (Some (Some (disable_modify b)))
                     end
                   else ret (Some buf)) else ret None in
      file_create dst buf (cuid cnt) (cgid cnt) mode
  end.

Definition mount_procfs (root : string) (cnt : nvc_container) : M (option string) :=
  let? src := path_join root NV_PROC_DRIVER else ret None in
  let? dst := path_resolve_full (rootfs_of cnt) NV_PROC_DRIVER else ret None in
  let? _ := tmpfs_at dst else ret None in
  or_unmount dst (
    let? _ := iterM (copy_proc_file cnt src dst) ["params"; "version"; "registry"] else ret None in
    remount_at dst (MS_NODEV .| MS_NOSUID .| MS_NOEXEC)).

(** [goto fail] in the functions whose [dst] is a zeroed buffer that the
    resolution may have filled: the buffer is unmounted, whatever it holds. *)
Definition resolve_or_unmount (cnt : nvc_container) (path : string) : M (option string) :=
  let* r := do_path_resolve_buf true EmptyString (rootfs_of cnt) path in
  match fst r with
  | Some dst => ret (Some dst)
  | None => do unmount (Some (snd r)) in ret None
  end.

(** [mount_procfs_mig] and [mount_config_file] differ in the flags only. *)
Definition mount_below (root : string) (cnt : nvc_container) (path : string) (mountflags : Z) : M (option string) :=
  let? src := path_join root path else do unmount (Some EmptyString) in ret None in
  let? dst := resolve_or_unmount cnt path else ret None in
  or_unmount dst (
    let? mode := file_mode src else ret None in
    let? _ := file_create dst None (cuid cnt) (cgid cnt) mode else ret None in
    bind_remount src dst mountflags).

Definition mount_procfs_mig (root : string) (cnt : nvc_container) (caps_path : string) : M (option string) :=
  mount_below root cnt caps_path (MS_RDONLY .| MS_NODEV .| MS_NOSUID .| MS_NOEXEC).

Definition mount_config_file (root : string) (cnt : nvc_container) (dir : string) : M (option string) :=
  mount_below root cnt dir (MS_RDONLY .| MS_NODEV .| MS_NOSUID).

(** One turn of the loop of [mount_procfs_gpu]: where the directory of the GPU
    is, [Some None] when it is to be looked for with a shorter domain. *)
Definition find_procfs_gpu (root : string) (cnt : nvc_container) (busid : string) (off : nat)
  : M (option (option (string * string * Z))) :=
  if (String.length busid <? off)%nat then halt (Undefined "busid: read past the end")
  else
    let? gpu := xasprintf (NV_PROC_DRIVER +:+ "/gpus/" +:+ str_drop off busid) else ret None in
    let? src := path_join root gpu else do unmount (Some EmptyString) in ret None in
    let? dst := resolve_or_unmount cnt gpu else ret None in
    let* mode := file_mode src in
    match mode with
    | Some mode => ret (Some (Some (src, dst, mode)))
    | None =>
        let* c := err_code in
        if negb (c =? ENOENT) || negb (off =? 0)%nat then do unmount (Some dst) in ret None
        else ret (Some None)
    end.

Definition mount_procfs_gpu (root : string) (cnt : nvc_container) (busid : string) : M (option string) :=
  let mount '(src, dst, mode) :=
    or_unmount dst (
      let? _ := file_create dst None (cuid cnt) (cgid cnt) mode else ret None in
      bind_remount src dst (MS_RDONLY .| MS_NODEV .| MS_NOSUID .| MS_NOEXEC)) in
  let? r := find_procfs_gpu root cnt busid 0 else ret None in
  match r with
  | Some found => mount found
  | None =>
      let? r := find_procfs_gpu root cnt busid 4 else ret None in
      match r with
      | Some found => mount found
      | None => ret None
      end
  end.

(** ** Links to the libraries *)

Definition symlink_library (src target linkname : string) (uid gid : Z) : M (option unit) :=
  let? tmp := xstrdup src else ret None in
  let? path := path_join (dirname tmp) linkname else ret None in
  file_create path (Some target) uid gid (MODE_LNK m777).

(** [regcomp] fails only when memory runs out: the expressions are well formed. *)
Definition macth_target_library (lib : string) (pattern : regex) : M bool :=
  let* ok := call EAlloc in
  if ok : bool then ret (regex_match pattern lib) else ret false.

(** ["^name\.[0-9]+\.[0-9]+\.[0-9]+$"] *)
Definition versioned (name : string) : regex :=
  lit name (lit "." (plus digit (lit "." (plus digit (lit "." (plus digit REmpty)))))).

(** The links of a library: name, then what points to what. *)
Definition library_links (lib : string) : option (string * list (string * string)) :=
  if str_has_prefix lib "libGL_xdxgpu.so" then Some ("libGL_xdxgpu.so", [(lib, "libGL_xdxgpu.so")])
  else if str_has_prefix lib "libxdxgpu-ml.so" then Some ("libxdxgpu-ml.so", [(lib, "libxdxgpu-ml.so")])
  else if str_has_prefix lib "libCL_xdxgpu.so" then
    Some ("libCL_xdxgpu.so", [(lib, "libOpenCL.so.1"); ("libOpenCL.so.1", "libOpenCL.so")])
  else if str_has_prefix lib "libpciaccess.so" then Some ("libpciaccess.so", [(lib, "libpciaccess.so.0")])
  else if str_has_prefix lib "libvlk_xdxgpu.so" then Some ("libvlk_xdxgpu.so", [(lib, "libvlk_xdxgpu.so")])
  else None.

Definition symlink_libraries (cnt : nvc_container) (paths : list string) : M (option unit) :=
  iterM (fun path =>
    match library_links (basename path) with
    | None => ret (Some tt)
    | Some (name, links) =>
        let* ok := macth_target_library (basename path) (versioned name) in
        if ok : bool then
          iterM (fun '(target, link) => symlink_library path target link (cuid cnt) (cgid cnt)) links
        else ret (Some tt)
    end) paths.

(** ** Filtering *)

(** One turn of the loop: the slot of the library, emptied when its version is
    that of the driver or when it has none. *)
Definition filter_library (info : nvc_driver_info) (acc : list (option string)) (p : option string)
  : M (option (list (option string))) :=
  match p with
  | None => halt (Undefined "basename(NULL)")
  | Some path =>
      match strstr (basename path) ".so." with
      | None => ret (Some (acc ++ [None]))
      | Some m =>
          let maj := str_drop 4 m in
          match nvrm_version info with
          | None => halt (Undefined "strncmp(NULL)")
          | Some v => ret (Some (acc ++ [if strneq (strspn maj "0123456789") v maj then None else Some path]))
          end
      end
  end.

Definition filter_libraries (info : nvc_driver_info) (paths : list (option string)) : M (list string) :=
  let* kept := foldM (filter_library info) [] paths in
  let slots := default [] kept in
  let '(arr, n) := array_pack slots (length slots) in
  ret (present (take n arr)).

(** ** Directories of libraries *)

(** ["^xdxgpu_dr[iv].*\.so$"] *)
Definition dri_pattern : regex := lit "xdxgpu_dr" (RSeq (one_of "iv") (RSeq (RStar any_char) (lit ".so" REmpty))).

(** [libs] has room for [cap] entries; the directory is not closed when memory
    runs out. *)
Definition library_search_in_dir (cap : Z) (lib_dir : string) (pattern : regex) : M (option (list string)) :=
  let* r := call (EOpendir lib_dir) in
  let? entries := trap r else do error_set "Open dir error!" in ret None in
  foldM (fun libs name =>
    let* m := macth_target_library name pattern in
    if m : bool then
      let* ok := call EAlloc in
      if negb ok then do set_errno ENOMEM in do error_set "Invoke malloc error!" in ret None
      else if cap <=? Z.of_nat (length libs) then halt (Undefined "library_search_in_dir: write past the end of libs")
      else ret (Some (libs ++ [lib_dir +:+ "/" +:+ name]))
    else ret (Some libs)) [] entries.

(** ** Devices *)

Definition device_mount_dxcore (ctx : nvc_context) (cnt : nvc_container) : M (option unit) :=
  match adapterList (dxcore ctx) with
  | [] => halt (Undefined "adapterList[0] of no adapter")
  | a :: _ =>
      let? _ := mount_driverstore_files (cfg_root (cfg ctx)) cnt (pDriverStorePath a) (components a) else ret None in
      ret (Some tt)
  end.

Section Devices.
Context `{CgroupOps}.

Definition no_cgroups (cnt : nvc_container) : bool := has_flag (flags cnt) OPT_NO_CGROUPS.
Definition no_devbind (cnt : nvc_container) : bool := has_flag (flags cnt) OPT_NO_DEVBIND.

(** [if (!(cnt->flags & OPT_NO_CGROUPS)) setup_device_cgroup(...)] *)
Definition allow_device (cnt : nvc_container) (id : Z) : M (option unit) :=
  if no_cgroups cnt then ret (Some tt) else setup_device_cgroup cnt id.

(** The mounts of [device_mount_native]: what is mounted so far that the failure
    path knows of (the configuration directory, the device) and the result. *)
Definition native_mounts (ctx : nvc_context) (cnt : nvc_container) (dev : nvc_device) (dri_libs : list string)
  : M (list string * option unit) :=
  let root := cfg_root (cfg ctx) in
  let* dev_mnt := if no_devbind cnt then ret (Some []) else
                    let? m := mount_device root cnt (node dev) else ret None in ret (Some [m]) in
  match dev_mnt with
  | None => ret ([], None)
  | Some dev_mnt =>
      let* ld := mount_config_file root cnt LD_CONFIG_DIR in
      match ld with
      | None => ret (dev_mnt, None)
      | Some ld =>
          let mnts := ld :: dev_mnt in
          let* rv :=
            (let? _ := (if has_flag (flags cnt) OPT_GRAPHICS_LIBS then update_app_profile cnt (node_id (node dev))
                        else ret (Some tt)) else ret None in
             let? _ := (if has_flag (flags cnt) OPT_UTILITY_LIBS then
                          let? _ := mount_config_file root cnt SMI_FRONT_DIR else ret None in ret (Some tt)
                        else ret (Some tt)) else ret None in
             let? _ := (if has_flag (flags cnt) OPT_VIDEO_LIBS || has_flag (flags cnt) OPT_GRAPHICS_LIBS then
                          let? _ := mount_files root cnt (dris_dir (ccfg cnt)) dri_libs else ret None in
                          ret (Some tt)
                        else ret (Some tt)) else ret None in
             allow_device cnt (node_id (node dev))) in
          ret (mnts, rv)
      end
  end.

Definition device_mount_native (ctx : nvc_context) (cnt : nvc_container) (dev : nvc_device) : M (option unit) :=
  let* dris := path_arg (dris_dir (ccfg cnt)) in
  let? dri_libs := library_search_in_dir XDX_VIDEO_LIB_NUM dris dri_pattern else ret None in
  let* r := native_mounts ctx cnt dev dri_libs in
  match snd r with
  | Some _ => ret (Some tt)
  | None => do mapM_ (fun m => unmount (Some m)) (fst r) in ret None
  end.

Definition cap_device_mount (ctx : nvc_context) (cnt : nvc_container) (cap_path : string) : M (option unit) :=
  let? node := nvc_nvcaps_device_from_proc_path ctx cap_path else ret None in
  let? dev_mnt := (if no_devbind cnt then ret (Some None) else
                     let? m := mount_device (cfg_root (cfg ctx)) cnt node else ret None in ret (Some (Some m)))
    else ret None in
  let* rv := allow_device cnt (node_id node) in
  match rv with
  | Some _ => ret (Some tt)
  | None => do unmount dev_mnt in ret None
  end.

(** [fclose(fp)] also when [fopen] failed. *)
Definition setup_mig_minor_cgroups (cnt : nvc_container) (mig_major : Z) (n : nvc_device_node) : M (option unit) :=
  let* r := call (EFopen NV_CAPS_MIG_MINORS_PATH "r") in
  let* fp := trap r in
  match fp with
  | None =>
      do error_set ("unable to open file for reading: " +:+ NV_CAPS_MIG_MINORS_PATH) in
      halt (Undefined "fclose(NULL)")
  | Some fp =>
      iterM (fun line =>
        match scan_mig_line line with
        | Some (gpu_minor, mig_minor) =>
            if negb (gpu_minor =? minor (node_id n)) then ret (Some tt)
            else setup_device_cgroup cnt (makedev (to_uint32 mig_major) mig_minor)
        | None => ret (Some tt)
        end) (fgets_all (PATH_MAX - 1) fp)
  end.

(** ** In the namespace of the container *)

(** The end of the functions below: back to the namespace of the library.  After
    a failure the way back must not fail. *)
Definition leave_ns (ctx : nvc_context) (rv : option unit) : M (option unit) :=
  match rv with
  | None =>
      let* r := null_err (ns_enter_at (mnt_ns ctx) CLONE_NEWNS) in
      match r with
      | None => halt Assertion
      | Some _ => ret None
      end
  | Some _ => ns_enter_at (mnt_ns ctx) CLONE_NEWNS
  end.

Definition in_container (ctx : nvc_context) (cnt : nvc_container) (body : M (option unit)) : M (option unit) :=
  let? _ := ns_enter (cmnt_ns cnt) CLONE_NEWNS else ret None in
  let* rv := body in
  leave_ns ctx rv.

(** *** [nvc_driver_mount] *)

(** [*ptr++ = ...] and [array_append] in an array of [nmnt] entries. *)
Definition push (nmnt : nat) (mnt new : list string) : M (list string) :=
  if (nmnt <? length mnt + length new)%nat then halt (Undefined "nvc_driver_mount: write past the end of mnt")
  else ret (mnt ++ new).

(** A part of the function, from the mounts made so far: the mounts after it and
    whether to go on. *)
Definition stage : Type := list string -> M (list string * bool).
Definition then_ (a b : stage) : stage := fun mnt =>
  let* r := a mnt in if snd r then b (fst r) else ret r.

Definition files_stage (nmnt : nat) (root : string) (cnt : nvc_container) (dir : option string) (paths : list string)
  : stage := fun mnt =>
  let* tmp := mount_files root cnt dir paths in
  match tmp with
  | None => ret (mnt, false)
  | Some tmp => let* mnt := push nmnt mnt tmp in ret (mnt, true)
  end.

(** [if (paths != NULL && size > 0)] *)
Definition some_files_stage (nmnt : nat) root cnt dir (paths : list string) : stage := fun mnt =>
  match paths with
  | [] => ret (mnt, true)
  | _ => files_stage nmnt root cnt dir paths mnt
  end.

Definition cntlibs_stage (nmnt : nat) (cnt : nvc_container) (info : nvc_driver_info) : stage := fun mnt =>
  match clibs cnt with
  | [] => ret (mnt, true)
  | _ =>
      let? libs := array_copy (clibs cnt) else ret (mnt, false) in
      let* libs := filter_libraries info libs in
      files_stage nmnt (rootfs_of cnt) cnt (libs_dir (ccfg cnt)) libs mnt
  end.

(** Whether a device is left out. *)
Definition skips_device (ctx : nvc_context) (cnt : nvc_container) (dev : nvc_device_node) : bool :=
  negb (dx_initialized (dxcore ctx)) &&
  ((negb (has_flag (flags cnt) OPT_COMPUTE_LIBS) && negb (major (node_id dev) =? NV_DEVICE_MAJOR))
   || (negb (has_flag (flags cnt) OPT_DISPLAY) && (minor (node_id dev) =? NV_MODESET_DEVICE_MINOR))).

Definition device_stage (nmnt : nat) (ctx : nvc_context) (cnt : nvc_container) (dev : nvc_device_node) : stage := fun mnt =>
  if skips_device ctx cnt dev then ret (mnt, true)
  else
    let* r := (if no_devbind cnt then ret (mnt, true) else
                 let* m := mount_device (cfg_root (cfg ctx)) cnt dev in
                 do push nmnt mnt [default EmptyString m] in
                 match m with
                 | Some m => ret (mnt ++ [m], true)
                 | None => ret (mnt, false)
                 end) in
    if snd r then
      let* ok := allow_device cnt (node_id dev) in
      ret (fst r, match ok with Some _ => true | None => false end)
    else ret r.

Fixpoint devices_stage (nmnt : nat) (ctx : nvc_context) (cnt : nvc_container) (devs : list nvc_device_node) : stage :=
  match devs with
  | [] => fun mnt => ret (mnt, true)
  | dev :: devs' => then_ (device_stage nmnt ctx cnt dev) (devices_stage nmnt ctx cnt devs')
  end.

Definition links_stage (cnt : nvc_container) : stage := fun mnt =>
  let* r := symlink_libraries cnt mnt in
  ret (mnt, match r with Some _ => true | None => false end).

Definition nmnt_of (cnt : nvc_container) (info : nvc_driver_info) : nat :=
  (2 + length (bins info) + length (libs info) + length (clibs cnt) + length (libs32 info)
   + length (ipcs info) + length (devs info) + length (firmwares info))%nat.

Definition driver_stages (ctx : nvc_context) (cnt : nvc_container) (info : nvc_driver_info) : stage :=
  let nmnt := nmnt_of cnt info in
  let root := cfg_root (cfg ctx) in
  then_ (some_files_stage nmnt root cnt (bins_dir (ccfg cnt)) (bins info))
  (then_ (some_files_stage nmnt root cnt (libs_dir (ccfg cnt)) (libs info))
  (then_ (some_files_stage nmnt root cnt (libs32_dir (ccfg cnt))
            (if has_flag (flags cnt) OPT_COMPAT32 then libs32 info else []))
  (then_ (links_stage cnt)
  (then_ (cntlibs_stage nmnt cnt info)
         (devices_stage nmnt ctx cnt (devs info)))))).

Definition nvc_driver_mount (ctx : nvc_context) (cnt : option nvc_container) (info : option nvc_driver_info)
  : M (option unit) :=
  let? _ := validate_context ctx else ret None in
  match cnt, info with
  | Some cnt, Some info =>
      in_container ctx cnt (
        let? _ := array_new (Z.of_nat (nmnt_of cnt info)) else ret None in
        let* r := driver_stages ctx cnt info [] in
        if snd r then ret (Some tt)
        else do mapM_ (fun m => unmount (Some m)) (fst r) in ret None)
  | _, _ => validate_args false
  end.

Definition nvc_device_mount (ctx : nvc_context) (cnt : option nvc_container) (dev : option nvc_device)
  : M (option unit) :=
  let? _ := validate_context ctx else ret None in
  match cnt, dev with
  | Some cnt, Some dev =>
      in_container ctx cnt (
        if dx_initialized (dxcore ctx) then device_mount_dxcore ctx cnt
        else device_mount_native ctx cnt dev)
  | _, _ => validate_args false
  end.

(** *** Capabilities of the MIG devices *)

(** Mount the file [access] of an instance and, when the driver has capability
    devices, its device. *)
Definition mount_access (ctx : nvc_context) (cnt : nvc_container) (caps_path : string)
  : M (list string * option unit) :=
  let? access := path_join caps_path NV_MIG_ACCESS_FILE else ret ([], None) in
  let? mnt := mount_procfs_mig (cfg_root (cfg ctx)) cnt access else ret ([], None) in
  let* maj := nvidia_get_chardev_major NV_CAPS_MODULE_NAME in
  let* rv := if negb (maj =? -1) then cap_device_mount ctx cnt access else ret (Some tt) in
  ret ([mnt], rv).

Definition nvc_mig_device_access_caps_mount (ctx : nvc_context) (cnt : option nvc_container)
    (dev : option nvc_mig_device) : M (option unit) :=
  let? _ := validate_context ctx else ret None in
  match cnt, dev with
  | Some cnt, Some dev =>
      in_container ctx cnt (
        let* r1 := mount_access ctx cnt (gi_caps_path dev) in
        let* r2 := match snd r1 with
                   | Some _ => mount_access ctx cnt (ci_caps_path dev)
                   | None => ret ([], None)
                   end in
        match snd r2 with
        | Some _ => ret (Some tt)
        | None => do mapM_ (fun m => unmount (Some m)) (fst r1 ++ fst r2) in ret None
        end)
  | _, _ => validate_args false
  end.

(** [nvc_mig_config_global_caps_mount] and [nvc_mig_monitor_global_caps_mount]
    differ in the file.  The directory of the capability devices is not undone on
    failure. *)
Definition mig_global_caps_mount (file : string) (ctx : nvc_context) (cnt : option nvc_container) : M (option unit) :=
  let? _ := validate_context ctx else ret None in
  match cnt with
  | Some cnt =>
      in_container ctx cnt (
        let? proc_mnt := mount_procfs_mig (cfg_root (cfg ctx)) cnt NV_PROC_DRIVER_CAPS else ret None in
        let* maj := nvidia_get_chardev_major NV_CAPS_MODULE_NAME in
        let* rv :=
          (if negb (maj =? -1) then
             let? _ := mount_directory (cfg_root (cfg ctx)) cnt NV_CAPS_DEVICE_DIR else ret None in
             let? path := path_join NV_MIG_CAPS_PATH file else ret None in
             let? node := nvc_nvcaps_device_from_proc_path ctx path else ret None in
             allow_device cnt (node_id node)
           else ret (Some tt)) in
        match rv with
        | Some _ => ret (Some tt)
        | None => do unmount (Some proc_mnt) in ret None
        end)
  | None => validate_args false
  end.

Definition nvc_mig_config_global_caps_mount := mig_global_caps_mount NV_MIG_CONFIG_FILE.
Definition nvc_mig_monitor_global_caps_mount := mig_global_caps_mount NV_MIG_MONITOR_FILE.

Definition nvc_device_mig_caps_mount (ctx : nvc_context) (cnt : option nvc_container) (dev : option nvc_device)
  : M (option unit) :=
  let? _ := validate_context ctx else ret None in
  match cnt, dev with
  | Some cnt, Some dev =>
      in_container ctx cnt (
        let* maj := nvidia_get_chardev_major NV_CAPS_MODULE_NAME in
        if negb (maj =? -1) && negb (no_cgroups cnt) then setup_mig_minor_cgroups cnt maj (node dev)
        else ret (Some tt))
  | _, _ => validate_args false
  end.
End Devices.
