(* ===== verification/MountSafety.v ===== *)
(** * Where the mounts go

    Every mount, every file that is made and every file tree that is removed by
    the functions of [Mount] lies inside the root of the container. *)
From S2P Require Import Prelude CString Regex Effects Logic Errors Options Utils Types Paths Files Components Devices Pci Modprobe Ldcache Driver Cgroup Info Container Mount.

(** What may happen while the container is configured.  What is unmounted, and
    walked to be removed, is inside the root, or is what fits in a buffer of a path
    inside the root that is longer than that.  [EUnlink] and [ERmdir] are of the
    entries that the walk of [ENftw] reports, [EFwrite] of the files of the control
    groups; the directories above the root are made when they are missing. *)
Definition confined (root : string) (ev : event) : Prop :=
  match ev_call ev with
  | EMount _ target _ _ _ => inside root target
  | EUmount p _ | ENftw p => inside root p \/ exists q, inside root q /\ cut_of q p
  | ECreat p _ _ | ESymlink _ p => inside root p
  | EMkdir p _ => exists q, inside root q /\ on_path p q
  | EUnlink _ | ERmdir _ | EWrite _ _ | EUmask _ | EFwrite _ _ | ESetns _ _ => True
  | e => match kind_of e with KLib | KRead | KCred | KDev => True | _ => False end
  end.

Lemma confined_kinds root K ev :
  forallb (fun k => bool_decide (k ∈ [KLib; KRead; KCred; KDev])) K = true -> only K ev -> confined root ev.
Proof.
  intros HK Hev. apply (only_mono K [KLib; KRead; KCred; KDev]) in Hev; [|done]. by destruct ev as [[] ?].
Qed.
Lemma confined_lib root ev : only [KLib] ev -> confined root ev.
Proof. by apply confined_kinds. Qed.
Lemma confined_read root ev : only [KLib; KRead] ev -> confined root ev.
Proof. by apply confined_kinds. Qed.
Lemma confined_close root ev : only [KRead] ev -> confined root ev.
Proof. by apply confined_kinds. Qed.
Lemma confined_cgroup root ev : cgroup_event ev -> confined root ev.
Proof. by destruct ev as [[] ?]. Qed.
#[export] Hint Resolve confined_lib confined_read confined_close confined_cgroup : ens.

(** What the functions below can stop with: the overflow of the resolution, and a
    failed [assert] on the way back to an identity or a namespace. *)
Definition base_stops (w : stop) : Prop := overflow_only w \/ w = Assertion.
Lemma base_overflow w : overflow_only w -> base_stops w.
Proof. by left. Qed.
Lemma base_assert w : assert_only w -> base_stops w.
Proof. intros ->. by right. Qed.
#[export] Hint Resolve base_overflow base_assert : ens.

Section Confined.
Variable root : string.
Hypothesis Hroot : Ascii.eqb (first_char root) "/" = true.

Lemma creates_confined dst ev : inside root dst -> creates_below dst ev -> confined root ev.
Proof.
  intros Hd. destruct ev as [[] ?]; unfold creates_below, confined; cbn; try done.
  - by intros [-> _].
  - intros Hq. eauto.
  - by intros ->.
Qed.

Lemma file_create_confined' dst data uid gid mode :
  inside root dst -> ensures (confined root) base_stops (file_create dst data uid gid mode) any.
Proof.
  intros Hd. eapply ensures_weaken; [apply file_create_ens|intros ev; by apply creates_confined|apply base_assert|done].
Qed.

Lemma removes_confined e ev : removes e ev -> confined root ev.
Proof. destruct ev as [[] ?]; unfold removes, confined; cbn; try done. Qed.

Lemma unmount_confined p :
  match p with
  | Some p => inside root p \/ (exists q, inside root q /\ cut_of q p) \/ p = EmptyString
  | None => True
  end ->
  ensures (confined root) no_stop (unmount p) any.
Proof.
  intros Hp. unfold unmount. destruct p as [p|]; [|ens]. destruct (str_empty (Some p)) eqn:E; [ens|].
  assert (inside root p \/ exists q, inside root q /\ cut_of q p) as Hp' by (destruct Hp as [?|[?| ->]]; [auto..|done]).
  ens_step. ens_step. eapply ensures_bind with (R := any); [|intros _ _; ens]. apply ensures_null_err. unfold file_remove.
  ens_step. ens_step. eapply ensures_bind with (R := any).
  { match goal with |- ensures _ _ (match ?x with _ => _ end) _ => destruct x as [l|]; [|ens] end. apply ensures_iterM. intros e _.
    eapply ensures_weaken; [apply do_file_remove_ens|apply removes_confined|done|done]. }
  intros [] _; ens.
Qed.

Lemma xmount_confined src dst fs fl d : inside root dst -> ensures (confined root) base_stops (xmount src dst fs fl d) any.
Proof. intros Hd. unfold xmount. ens. Qed.

Lemma bind_remount_confined src dst fl :
  inside root dst -> ensures (confined root) base_stops (bind_remount src dst fl) (fun r => r = None \/ r = Some dst).
Proof.
  intros Hd. unfold bind_remount. pose proof (fun a fs fl d => xmount_confined a dst fs fl d Hd) as Hm.
  eapply ensures_bind; [apply Hm|]. intros [] _; [|ens]. eapply ensures_bind; [apply Hm|]. intros [] _; [|ens].
  eapply ensures_weaken; [apply xstrdup_ens|apply confined_lib|done|]. intros [s|]; [intros ->|]; auto.
Qed.

Definition abs (p : string) : Prop := Ascii.eqb (first_char p) "/" = true.

(** A file below the root. *)
Definition mounted (m : string) : Prop :=
  abs m /\ exists cs c, Forall normal (cs ++ [c]) /\ comps m = comps root ++ cs ++ [c].

Lemma mounted_inside m : mounted m -> inside root m.
Proof. intros (_ & cs & c & Hn & Hm). by exists (cs ++ [c]). Qed.

Lemma resolve_inside path :
  ensures (only [KLib; KRead]) overflow_only (path_resolve_full root path)
    (fun r => match r with Some p => strlen p < PATH_MAX /\ abs p /\ inside root p | None => True end).
Proof.
  eapply ensures_post; [by apply path_resolve_full_ens|]. intros [p|]; [|done]. intros [Hl Hb].
  split; [done|]. split; [by eapply beneath_abs|by apply beneath_inside].
Qed.

(** *** Files *)

Lemma matched_normal file fl :
  str_mem "/" file = false -> negb (match_binary_flags file fl) && negb (match_library_flags file fl) = false ->
  normal file /\ str_empty (Some file) = false.
Proof.
  intros Hs Hm.
  assert (exists p, p ∈ utility_bins ++ dxcore_libs ++ utility_libs ++ compute_libs ++ video_libs ++ graphics_libs /\
            str_has_prefix file p = true) as (p & Hp & Hf).
  { unfold match_binary_flags, match_library_flags in Hm.
    setoid_rewrite elem_of_app. setoid_rewrite elem_of_app. setoid_rewrite elem_of_app. setoid_rewrite elem_of_app.
    setoid_rewrite elem_of_app.
    repeat match type of Hm with
    | context [str_array_match_prefix file ?l] =>
        let E := fresh "E" in destruct (str_array_match_prefix file l) eqn:E;
        [apply str_array_match_prefix_spec in E as (p & Hp & Hf); exists p; split; [tauto|exact Hf]|];
        rewrite ?andb_false_r in Hm
    end. done. }
  apply str_has_prefix_spec in Hf as (r & ->).
  assert (forallb (fun l => negb (Ascii.eqb (first_char l) ".") && negb (Ascii.eqb (first_char l) NUL))
    (utility_bins ++ dxcore_libs ++ utility_libs ++ compute_libs ++ video_libs ++ graphics_libs) = true) as Ht by done.
  rewrite forallb_forall in Ht. specialize (Ht p (proj1 (list_elem_of_In _ _) Hp)).
  destruct p as [|c p]; [done|]. simpl in Ht. apply andb_prop in Ht as [H1 H2%negb_true_iff]. split; [|exact H2].
  split; [done|]. split; [|split; [|done]]; intros E; injection E as -> _; done.
Qed.

Lemma mounted_snoc dst c m : abs dst -> inside root dst -> normal c -> m = append_trunc dst c ->
  comps m = comps dst ++ [c] -> mounted m.
Proof.
  intros Ha (cs & Hcs & Hd) Hc -> Hm. split.
  - unfold append_trunc. destruct (str_empty (Some c)); [done|]. by destruct dst.
  - exists cs, c. split; [by apply Forall_app; split; [|constructor]|]. by rewrite Hm, Hd, app_assoc.
Qed.

Lemma path_append_mounted dst c :
  strlen dst < PATH_MAX -> abs dst -> inside root dst -> normal c -> str_empty (Some c) = false ->
  ensures (only [KLib]) no_stop (path_append dst c) (fun r => match r with Some m => mounted m | None => True end).
Proof.
  intros Hl Ha Hi Hc He.
  eapply ensures_weaken;
    [exact (ensures_and _ _ _ _ _ _ (path_append_cut dst c Hl) (path_append_comps dst c Hl))|done|by intros w []|].
  intros [m|]; [|done]. intros [(_ & -> & _) [_ Hm]]. eapply mounted_snoc; [done..|]. rewrite Hm. unfold comps'.
  rewrite He. destruct Hc as (Hn & _ & _ & Hs). by rewrite (comps_one c).
Qed.

Lemma mount_file_confined cnt src dst path :
  strlen src < PATH_MAX -> strlen dst < PATH_MAX -> abs dst -> inside root dst ->
  ensures (confined root) base_stops (mount_file cnt src dst path)
    (fun r => match r with Some (Some m) => mounted m | _ => True end).
Proof.
  intros Hs Hl Ha Hi. unfold mount_file. cbv zeta. destruct (_ && _) eqn:Hm; [ens|].
  apply matched_normal in Hm as [Hn He]; [|apply basename_no_slash].
  eapply ensures_bind with (R := any).
  { eapply ensures_weaken; [by apply path_append_ens|apply confined_lib|done|done]. }
  intros [src'|] _; [|ens]. eapply ensures_bind.
  { eapply ensures_weaken; [by apply path_append_mounted|apply confined_lib|done|intros r Hr; exact Hr]. }
  intros [dst'|] Hd; [|ens]. ens_step. destruct a as [mode|]; [|ens].
  pose proof (mounted_inside _ Hd). eapply ensures_bind; [by apply file_create_confined'|]. intros [] _; [|ens].
  eapply ensures_bind; [by apply bind_remount_confined|]. intros r Hr. destruct r; [|ens].
  apply ensures_ret. destruct Hr as [|Hr]; by simplify_eq.
Qed.

Lemma unmount_all_confined l : Forall mounted l -> ensures (confined root) no_stop (mapM_ (fun m => unmount (Some m)) l) any.
Proof.
  intros Hl. apply ensures_mapM_. intros m Hm. apply unmount_confined. left. apply mounted_inside.
  by eapply Forall_forall in Hm.
Qed.

Lemma mount_loop_confined {A} (mount : A -> M (option (option string))) paths mnt :
  (forall p, p ∈ paths -> ensures (confined root) base_stops (mount p)
     (fun r => match r with Some (Some m) => mounted m | _ => True end)) ->
  Forall mounted mnt ->
  ensures (confined root) base_stops (mount_loop mount paths mnt)
    (fun r => match r with
              | Some l => Forall mounted l /\ (length l <= length mnt + length paths)%nat
              | None => True
              end).
Proof.
  revert mnt. induction paths as [|p paths IH]; intros mnt Hp Hm; cbn [mount_loop].
  { apply ensures_ret. split; [done|]. simpl. lia. }
  eapply ensures_bind; [apply Hp, list_elem_of_here|]. intros [[m|]|] Hr.
  - eapply ensures_post; [apply IH; [intros q Hq; by apply Hp, list_elem_of_further|]|].
    + apply Forall_app. by split; [|constructor].
    + intros [l|]; [|done]. rewrite length_app. simpl. intros [? ?]. split; [done|lia].
  - eapply ensures_post; [apply IH; [intros q Hq; by apply Hp, list_elem_of_further|done]|].
    intros [l|]; [|done]. simpl. intros [? ?]. split; [done|lia].
  - eapply ensures_bind; [eapply ensures_weaken; [by apply unmount_all_confined|done|done|intros r Hr'; exact Hr']|].
    intros _ _. ens.
Qed.

(** *** The mounts of one container *)

Variable cnt : nvc_container.
Hypothesis Hcnt : rootfs_of cnt = root.

Lemma mount_files_confined r dir paths :
  ensures (confined root) (fun w => base_stops w \/ dir = None /\ w = null_path) (mount_files r cnt dir paths)
    (fun o => match o with Some l => Forall mounted l /\ (length l <= length paths)%nat | None => True end).
Proof.
  unfold mount_files. rewrite Hcnt. eapply ensures_bind.
  { eapply ensures_weaken; [apply path_new_ens|apply confined_lib|done|intros o Ho; exact Ho]. }
  intros [src|]; [|intros _; ens]. intros [Hs _].
  destruct dir as [dir|]; cbn [path_arg]; [apply ensures_bind_ret|by apply ensures_bind_halt; right].
  eapply ensures_weaken with (P := confined root) (H := base_stops); [|done|by left|intros o Ho; exact Ho].
  eapply ensures_bind; [eapply ensures_weaken; [apply resolve_inside|apply confined_read|apply base_overflow|intros o Ho; exact Ho]|].
  intros [dst|]; [|intros _; ens]. intros (Hl & Ha & Hi).
  eapply ensures_bind; [by apply file_create_confined'|]. intros [] _; [|ens].
  ens_step. destruct a as [arr|]; [|ens].
  apply (mount_loop_confined _ paths []); [|constructor]. intros p _. by apply mount_file_confined.
Qed.

Lemma mount_driverstore_files_confined r store files :
  (forall f, f ∈ files -> normal (basename f) /\ str_empty (Some (basename f)) = false) ->
  ensures (confined root) base_stops (mount_driverstore_files r cnt store files) any.
Proof.
  intros Hf. unfold mount_driverstore_files. rewrite Hcnt. ens_step. destruct a as [src|]; [|ens].
  eapply ensures_bind; [eapply ensures_weaken; [apply resolve_inside|apply confined_read|apply base_overflow|intros o Ho; exact Ho]|].
  intros [dst|]; [|intros _; ens]. intros (Hl & Ha & Hi).
  eapply ensures_bind; [by apply file_create_confined'|]. intros [] _; [|ens].
  ens_step. destruct a as [arr|]; [|ens].
  eapply ensures_post; [apply mount_loop_confined; [|constructor]|done]. intros p Hp. destruct (Hf p Hp) as [Hn He].
  unfold mount_driverstore_file. cbv zeta. eapply ensures_bind with (R := any).
  { eapply ensures_weaken; [by apply path_append_ens|apply confined_lib|done|done]. }
  intros [src'|] _; [|ens]. eapply ensures_bind.
  { eapply ensures_weaken; [by apply path_append_mounted|apply confined_lib|done|intros o Ho; exact Ho]. }
  intros [dst'|] Hd; [|ens]. pose proof (mounted_inside _ Hd).
  eapply ensures_bind; [by apply file_create_confined'|]. intros [] _; [|ens].
  eapply ensures_bind; [by apply bind_remount_confined|]. intros o Ho. destruct o; [|ens].
  apply ensures_ret. destruct Ho as [|Ho]; by simplify_eq.
Qed.

Lemma or_unmount_confined dst (m : M (option string)) :
  inside root dst -> ensures (confined root) base_stops m (fun r => r = None \/ r = Some dst) ->
  ensures (confined root) base_stops (or_unmount dst m) (fun r => r = None \/ r = Some dst).
Proof.
  intros Hd Hm. unfold or_unmount. eapply ensures_bind; [exact Hm|]. intros [x|] Hx; [by apply ensures_ret|].
  eapply ensures_bind; [eapply ensures_weaken; [apply unmount_confined; by left|done|done|intros o Ho; exact Ho]|].
  intros _ _. apply ensures_ret. by left.
Qed.

Definition mnt_inside (r : option string) : Prop := match r with Some m => inside root m | None => True end.

Lemma mnt_inside_of dst r : inside root dst -> r = None \/ r = Some dst -> mnt_inside r.
Proof. by intros Hd [->| ->]. Qed.

Lemma mount_device_confined r dev :
  node_path dev <> None -> ensures (confined root) base_stops (mount_device r cnt dev) mnt_inside.
Proof.
  intros Hp. unfold mount_device. rewrite Hcnt. destruct (node_path dev) as [path|]; [|done].
  ens_step. destruct a as [src|]; [|ens].
  eapply ensures_bind; [eapply ensures_weaken; [apply resolve_inside|apply confined_read|apply base_overflow|intros o Ho; exact Ho]|].
  intros [dst|]; [|intros _; ens]. intros (Hl & Ha & Hi). ens_step. destruct a as [s|]; [|ens].
  destruct (negb _); [ens|]. ens_step. destruct a as [mode|]; [|ens].
  eapply ensures_bind; [by apply file_create_confined'|]. intros [] _; [|ens].
  eapply ensures_post; [by apply or_unmount_confined, bind_remount_confined|]. intros o. by apply mnt_inside_of.
Qed.

Lemma resolve_or_unmount_confined path :
  ensures (confined root) base_stops (resolve_or_unmount cnt path) mnt_inside.
Proof.
  unfold resolve_or_unmount. rewrite Hcnt. eapply ensures_bind.
  { eapply ensures_weaken;
      [exact (ensures_and _ _ _ _ _ _ (do_path_resolve_buf_ens true EmptyString root path)
                (do_path_resolve_buf_total true EmptyString root path Hroot))
      |apply confined_read|intros w [_ Hw]; by apply base_overflow|intros o Ho; exact Ho]. }
  intros [[dst|] buf]; cbn [fst snd]; intros [H1 H2].
  - destruct H1 as (_ & _ & cs & Hcs & ->). apply ensures_ret. apply beneath_inside. by exists cs.
  - eapply ensures_bind; [eapply ensures_weaken; [apply unmount_confined|done|done|intros o Ho; exact Ho]|].
    { destruct H2 as [?|[?|(cs & Hcs & Hc)]]; [by right; right|done|]. right; left. exists (under root cs).
      split; [|done]. apply beneath_inside. by exists cs. }
    intros _ _. by apply ensures_ret.
Qed.

Lemma mount_below_confined r path fl : ensures (confined root) base_stops (mount_below r cnt path fl) mnt_inside.
Proof.
  unfold mount_below. eapply ensures_bind with (R := any).
  { eapply ensures_weaken; [apply path_join_ens|apply confined_lib|done|done]. }
  intros [src|] _.
  2:{ eapply ensures_bind; [eapply ensures_weaken; [by apply unmount_confined; right; right|done|done|intros o Ho; exact Ho]|].
      intros _ _. by apply ensures_ret. }
  eapply ensures_bind; [apply resolve_or_unmount_confined|]. intros [dst|] Hd; [|by apply ensures_ret]. simpl in Hd.
  eapply ensures_post; [apply or_unmount_confined; [exact Hd|]|intros o; by apply mnt_inside_of].
  ens_step. destruct a as [mode|]; [|by apply ensures_ret; left].
  eapply ensures_bind; [by apply file_create_confined'|]. intros [] _; [|by apply ensures_ret; left].
  by apply bind_remount_confined.
Qed.

(** *** Links *)

Lemma dirname_abs m cs c : abs m -> comps m = cs ++ [c] -> str_empty (Some (dirname m)) = false.
Proof.
  intros Ha Hm. unfold dirname. pose proof (comps_strip m) as Et. pose proof (strip_slashes_first m) as Ef.
  destruct (strip_slashes m) as [|x t]; [rewrite Hm in Et; by destruct cs|]. specialize (Ef ltac:(done)).
  unfold abs in Ha. simpl in Ef. apply Ascii.eqb_eq in Ha. rewrite <- Ef in Ha. subst x.
  destruct (strrchr (String "/" t) "/") as [[a b]|] eqn:Er; [|by apply strrchr_None in Er].
  apply strrchr_Some in Er as (Er & b' & -> & _). pose proof (strip_slashes_first a) as Efa.
  destruct (strip_slashes a) as [|y a'] eqn:E; [by destruct (str_equal a "/")|].
  specialize (Efa ltac:(done)). destruct a as [|z a]; [done|]. simpl in Efa, Er. subst z. by injection Er as <- _.
Qed.

Lemma symlink_library_confined m target link uid gid :
  mounted m -> normal link -> str_empty (Some link) = false ->
  ensures (confined root) base_stops (symlink_library m target link uid gid) any.
Proof.
  intros (Ha & cs & c & Hn & Hm) Hl He. unfold symlink_library. rewrite app_assoc in Hm.
  ens_step. destruct a as [tmp|]; [|ens]. subst tmp. eapply ensures_bind.
  { eapply ensures_weaken; [apply path_join_comps|apply confined_lib|done|intros o Ho; exact Ho]. }
  intros [p|]; [|intros _; ens]. intros [_ Hp]. apply file_create_confined'.
  unfold comps' in Hp. rewrite (dirname_abs _ _ _ Ha Hm), He in Hp.
  destruct Hl as (Hl0 & Hl1 & Hl2 & Hl3).
  rewrite (comps_dirname _ _ _ Ha Hm), (comps_one link) in Hp by done.
  apply Forall_app in Hn as [Hn _]. exists (cs ++ [link]). split; [|by rewrite app_assoc].
  apply Forall_app. split; [done|]. by constructor.
Qed.

Lemma library_links_normal lib name links target link :
  library_links lib = Some (name, links) -> (target, link) ∈ links -> normal link /\ str_empty (Some link) = false.
Proof.
  assert (forall l, forallb (fun x => negb (str_mem "/" x) && negb (Ascii.eqb (first_char x) ".")
    && negb (Ascii.eqb (first_char x) NUL)) l = true -> forall x, x ∈ l -> normal x /\ str_empty (Some x) = false) as Hl.
  { intros l Hl x Hx. rewrite forallb_forall in Hl. specialize (Hl x (proj1 (list_elem_of_In _ _) Hx)).
    apply andb_prop in Hl as [[Hs Hd]%andb_prop Hn%negb_true_iff]. apply negb_true_iff in Hs.
    split; [|exact Hn]. split; [by intros ->|]. split; [by intros ->|]. split; [by intros ->|done]. }
  unfold library_links. intros H Hin. apply (list_elem_of_fmap_2 snd) in Hin.
  assert (exists l, snd <$> links ⊆ l /\ forallb (fun x => negb (str_mem "/" x) && negb (Ascii.eqb (first_char x) ".")
    && negb (Ascii.eqb (first_char x) NUL)) l = true) as (l & Hsub & Hfb).
  { eexists ["libGL_xdxgpu.so"; "libxdxgpu-ml.so"; "libOpenCL.so.1"; "libOpenCL.so"; "libpciaccess.so.0"; "libvlk_xdxgpu.so"].
    split; [|done]. repeat case_match; simplify_eq; cbn; intros x Hx;
      repeat (apply elem_of_cons in Hx as [->|Hx]; [apply (bool_decide_unpack _); vm_compute; exact I|]); by apply not_elem_of_nil in Hx. }
  eapply Hl; [exact Hfb|]. by apply Hsub.
Qed.

Lemma symlink_libraries_confined paths :
  Forall mounted paths -> ensures (confined root) base_stops (symlink_libraries cnt paths) any.
Proof.
  intros Hp. apply ensures_iterM. intros m Hm. pose proof (proj1 (Forall_forall _ _) Hp m Hm) as Hmo.
  destruct (library_links (basename m)) as [[name links]|] eqn:E; [|ens].
  eapply ensures_bind with (R := any); [unfold macth_target_library; ens|]. intros [] _; [|ens].
  apply ensures_iterM. intros [target link] Hin. destruct (library_links_normal _ _ _ _ _ E Hin).
  by apply symlink_library_confined.
Qed.
End Confined.

(** ** The whole of [nvc_driver_mount] *)

(** The undefined behaviours named in [l], besides those of the parts. *)
Definition stops_in (l : list string) (H : stop -> Prop) (w : stop) : Prop :=
  base_stops w \/ H w \/ exists x, x ∈ l /\ w = Undefined x.

Lemma stops_in_base l H w : base_stops w -> stops_in l H w.
Proof. by left. Qed.
Lemma stops_in_overflow l H w : overflow_only w -> stops_in l H w.
Proof. by left; left. Qed.
Lemma stops_in_assert l H : stops_in l H Assertion.
Proof. by left; right. Qed.
Lemma stops_in_ops l (H : stop -> Prop) w : H w -> stops_in l H w.
Proof. by right; left. Qed.
Lemma stops_in_elem l H x : x ∈ l -> stops_in l H (Undefined x).
Proof. right; right. eauto. Qed.
#[export] Hint Resolve stops_in_base stops_in_overflow stops_in_assert : ens.
Lemma stops_in_split l H H2 w : stops_in l (fun w => H w \/ H2 w) w -> stops_in l H w \/ H2 w.
Proof. unfold stops_in. tauto. Qed.

(** A directory of the container is missing; [nvc_container_new] fills them all. *)
Definition has_dirs (c : nvc_container_config) : Prop :=
  Forall (fun d : option string => is_Some d) [bins_dir c; libs_dir c; libs32_dir c; dris_dir c].
Definition null_dir (c : nvc_container_config) (w : stop) : Prop := w = null_path /\ ~ has_dirs c.

Lemma null_dir_of c d w : d ∈ [bins_dir c; libs_dir c; libs32_dir c; dris_dir c] -> d = None /\ w = null_path -> null_dir c w.
Proof.
  intros Hd [-> ->]. split; [done|]. unfold has_dirs. rewrite Forall_forall. intros Hf. by destruct (Hf None Hd).
Qed.

Definition filter_stops (w : stop) : Prop := w = Undefined "strncmp(NULL)".

Lemma array_copy_ens arr :
  ensures (only [KLib]) no_stop (array_copy arr)
    (fun r => match r with Some l => l = map Some arr | None => True end).
Proof.
  unfold array_copy. ens_step. destruct a as [dst|]; [|ens]. subst dst. unfold array_append.
  rewrite Nat2Z.id, length_replicate, Nat.ltb_irrefl. cbn [plus take]. apply ensures_bind_ret, ensures_ret.
  cbn [fst]. rewrite drop_ge by (by rewrite length_replicate). by rewrite app_nil_r.
Qed.

Lemma present_length {A} (l : list (option A)) : (length (present l) <= length l)%nat.
Proof.
  induction l as [|[a|] l IH]; [done| |].
  - change (S (length (present l)) <= S (length l))%nat. lia.
  - change (length (present l) <= S (length l))%nat. lia.
Qed.

Lemma filter_libraries_ens info l :
  ensures (only [KLib]) filter_stops (filter_libraries info (map Some l)) (fun r => (length r <= length l)%nat).
Proof.
  unfold filter_libraries. eapply ensures_bind.
  - assert (forall acc, ensures (only [KLib]) filter_stops (foldM (filter_library info) acc (map Some l))
      (fun r => match r with Some a => length a = (length acc + length l)%nat | None => True end)) as Hf; [|apply Hf].
    induction l as [|p l IH]; intros acc; cbn [foldM map]; [apply ensures_ret; simpl; lia|].
    assert (forall x, ensures (only [KLib]) filter_stops (foldM (filter_library info) (acc ++ [x]) (map Some l))
        (fun r => match r with Some a => length a = (length acc + S (length l))%nat | None => True end)) as Hx.
    { intros x. eapply ensures_post; [apply IH|]. intros [a|]; [|done]. rewrite length_app. simpl. lia. }
    unfold filter_library at 1. destruct (strstr (basename p) ".so."); [|apply ensures_bind_ret; apply Hx].
    cbv zeta. destruct (nvrm_version info); [apply ensures_bind_ret; apply Hx|]. by apply ensures_bind_halt.
  - intros kept Hk. set (slots := default [] kept). pose proof (pack_present slots) as E. cbv zeta.
    destruct (array_pack slots (length slots)) as [arr n]. cbn [fst snd] in E. apply ensures_ret. rewrite E.
    pose proof (present_length slots) as H1.
    etrans; [exact H1|]. unfold slots. destruct kept as [a|]; simpl in *; lia.
Qed.
#[export] Hint Resolve array_copy_ens : ens.

Section Driver.
Context (ops : CgroupOps) (H : stop -> Prop) `{!CgroupLaws ops H}.
Variables (ctx : nvc_context) (cnt : nvc_container).
Let root := rootfs_of cnt.
Hypothesis Hroot : abs root.

Definition drv_ub : list string := ["strncmp(NULL)"].
Let ops_stops (w : stop) : Prop := H w \/ null_dir (ccfg cnt) w.
Let stops := stops_in drv_ub ops_stops.

Lemma stops_in_null l dir w :
  dir ∈ [bins_dir (ccfg cnt); libs_dir (ccfg cnt); libs32_dir (ccfg cnt); dris_dir (ccfg cnt)] ->
  base_stops w \/ dir = None /\ w = null_path -> stops_in l ops_stops w.
Proof. intros Hd [Hw|Hw]; [by apply stops_in_base|]. apply stops_in_ops. right. by eapply null_dir_of. Qed.
Lemma stops_in_cgroup l w : H w -> stops_in l ops_stops w.
Proof. intros Hw. apply stops_in_ops. by left. Qed.

(** One of the four directories. *)
Ltac dir := rewrite !elem_of_cons; tauto.

(** A stage keeps the mounts inside the root and makes at most [k] of them; the
    array has room for them. *)
Definition adds (nmnt : nat) (A B : string -> Prop) (k : nat) (s : stage) : Prop := forall mnt,
  Forall A mnt -> (length mnt + k <= nmnt)%nat ->
  ensures (confined root) stops (s mnt) (fun r => Forall B (fst r) /\ (length (fst r) <= length mnt + k)%nat).

Lemma then_adds nmnt A B C k1 k2 (a b : stage) :
  adds nmnt A B k1 a -> adds nmnt B C k2 b -> (forall m, B m -> C m) -> adds nmnt A C (k1 + k2) (then_ a b).
Proof.
  intros Ha Hb HBC mnt Hm Hk. unfold then_. eapply ensures_bind; [apply Ha; [done|lia]|].
  intros [mnt' []] [Hm' Hl]; cbn [fst snd] in *.
  - eapply ensures_post; [apply Hb; [done|lia]|]. intros r [Hr1 Hr2]. split; [done|lia].
  - apply ensures_ret. cbn [fst]. split; [|lia]. by eapply Forall_impl.
Qed.

Lemma push_ens nmnt mnt new : (length mnt + length new <= nmnt)%nat ->
  ensures (confined root) stops (push nmnt mnt new) (fun r => r = mnt ++ new).
Proof. intros Hn. unfold push. rewrite (proj2 (Nat.ltb_ge _ _)) by done. by apply ensures_ret. Qed.

Lemma files_stage_adds nmnt r dir paths :
  dir ∈ [bins_dir (ccfg cnt); libs_dir (ccfg cnt); libs32_dir (ccfg cnt); dris_dir (ccfg cnt)] ->
  adds nmnt (mounted root) (mounted root) (length paths) (files_stage nmnt r cnt dir paths).
Proof.
  intros Hd mnt Hm Hk. unfold files_stage. eapply ensures_bind.
  { eapply ensures_weaken; [by apply (mount_files_confined root)|done|intros w; by apply stops_in_null|intros o Ho; exact Ho]. }
  intros [tmp|]; [intros [Ht Hl]|intros _].
  - eapply ensures_bind; [apply push_ens; lia|]. intros ? ->. apply ensures_ret. cbn [fst].
    rewrite length_app. split; [by apply Forall_app|lia].
  - apply ensures_ret. cbn [fst]. split; [done|lia].
Qed.

Lemma some_files_stage_adds nmnt r dir paths :
  dir ∈ [bins_dir (ccfg cnt); libs_dir (ccfg cnt); libs32_dir (ccfg cnt); dris_dir (ccfg cnt)] ->
  adds nmnt (mounted root) (mounted root) (length paths) (some_files_stage nmnt r cnt dir paths).
Proof.
  intros Hd. destruct paths as [|p paths]; [|by apply files_stage_adds]. intros mnt Hm Hk. apply ensures_ret. cbn [fst].
  split; [done|lia].
Qed.

Lemma links_stage_adds nmnt : adds nmnt (mounted root) (mounted root) 0 (links_stage cnt).
Proof.
  intros mnt Hm Hk. unfold links_stage. eapply ensures_bind.
  { eapply ensures_weaken; [by apply (symlink_libraries_confined root)|done|apply stops_in_base|intros o Ho; exact Ho]. }
  intros o _. apply ensures_ret. cbn [fst]. split; [done|lia].
Qed.

Lemma cntlibs_stage_adds nmnt info :
  adds nmnt (mounted root) (mounted root) (length (clibs cnt)) (cntlibs_stage nmnt cnt info).
Proof.
  intros mnt Hm. unfold cntlibs_stage. destruct (clibs cnt) as [|l ls]; intros Hk.
  { apply ensures_ret. cbn [fst]. split; [done|lia]. }
  set (ls' := l :: ls) in *. eapply ensures_bind.
  { eapply ensures_weaken; [apply array_copy_ens|apply confined_lib|done|intros o Ho; exact Ho]. }
  intros [libs|]; [intros ->|intros _; apply ensures_ret; cbn [fst]; split; [done|lia]].
  eapply ensures_bind.
  { eapply ensures_weaken; [apply filter_libraries_ens|apply confined_lib|intros w ->; by apply stops_in_elem; left|].
    intros o Ho; exact Ho. }
  intros libs Hlibs. cbv beta in Hlibs. eapply ensures_post; [apply files_stage_adds; [dir|done|lia]|]. intros o [? ?]. split; [done|lia].
Qed.

Lemma allow_device_ens id : ensures (confined root) stops (allow_device cnt id) any.
Proof.
  unfold allow_device. destruct (no_cgroups cnt); [ens|].
  eapply ensures_weaken; [apply setup_law|apply confined_cgroup|apply stops_in_cgroup|done].
Qed.

Lemma device_stage_adds nmnt dev :
  node_path dev <> None -> adds nmnt (inside root) (inside root) 1 (device_stage nmnt ctx cnt dev).
Proof.
  intros Hp mnt Hm Hk. unfold device_stage. destruct (skips_device ctx cnt dev).
  { apply ensures_ret. cbn [fst]. split; [done|lia]. }
  eapply ensures_bind with (R := fun r => Forall (inside root) (fst r) /\ (length (fst r) <= length mnt + 1)%nat).
  - destruct (no_devbind cnt); [apply ensures_ret; cbn [fst]; split; [done|lia]|]. eapply ensures_bind.
    { eapply ensures_weaken; [by apply (mount_device_confined root)|done|apply stops_in_base|intros o Ho; exact Ho]. }
    intros o Ho. eapply ensures_bind; [apply push_ens; simpl; lia|]. intros _ _.
    destruct o as [m|]; apply ensures_ret; cbn [fst].
    + rewrite length_app. simpl. split; [|lia]. apply Forall_app. by split; [|constructor].
    + split; [done|lia].
  - intros [mnt' []] Hr; cbn [fst snd] in *; [|by apply ensures_ret].
    eapply ensures_bind; [apply allow_device_ens|]. intros ok _. by apply ensures_ret.
Qed.

Lemma devices_stage_adds nmnt devs :
  Forall (fun d => node_path d <> None) devs ->
  adds nmnt (inside root) (inside root) (length devs) (devices_stage nmnt ctx cnt devs).
Proof.
  induction 1 as [|d devs Hd _ IH]; cbn [devices_stage length].
  - intros mnt Hm Hk. apply ensures_ret. cbn [fst]. split; [done|lia].
  - apply (then_adds _ _ (inside root) _ 1); [by apply device_stage_adds|done|done].
Qed.

Lemma adds_weaken nmnt A A' B k s : adds nmnt A B k s -> (forall m, A' m -> A m) -> adds nmnt A' B k s.
Proof. intros Hs HA mnt Hm Hk. apply Hs; [|done]. by eapply Forall_impl. Qed.

Lemma driver_stages_ens info :
  Forall (fun d => node_path d <> None) (devs info) ->
  ensures (confined root) stops (driver_stages ctx cnt info []) (fun r => Forall (inside root) (fst r)).
Proof.
  intros Hd. unfold driver_stages. cbv zeta. set (nmnt := nmnt_of cnt info).
  set (l32 := if has_flag _ _ then _ else _).
  assert (length l32 <= length (libs32 info))%nat as H32 by (unfold l32; case_match; simpl; lia).
  match goal with |- ensures _ _ (?s []) _ => assert (adds nmnt (mounted root) (inside root) (length (bins info) +
    (length (libs info) + (length l32 + (0 + (length (clibs cnt) + length (devs info)))))) s) as Hs end.
  { do 5 (apply then_adds with (B := mounted root);
      [first [apply some_files_stage_adds; dir|apply links_stage_adds|apply cntlibs_stage_adds]| |apply mounted_inside]).
    eapply adds_weaken; [by apply devices_stage_adds|apply mounted_inside]. }
  eapply ensures_post; [apply Hs; [done|]|by intros r [? _]]. unfold nmnt, nmnt_of. simpl. lia.
Qed.

Lemma ns_enter_confined p : ensures (confined root) no_stop (ns_enter p CLONE_NEWNS) any.
Proof. unfold ns_enter. ens. Qed.
Lemma ns_enter_at_confined fd : ensures (confined root) no_stop (ns_enter_at fd CLONE_NEWNS) any.
Proof. unfold ns_enter_at. ens. Qed.

Lemma leave_ns_confined l rv : ensures (confined root) (stops_in l ops_stops) (leave_ns ctx rv) any.
Proof.
  unfold leave_ns. destruct rv.
  - eapply ensures_weaken; [apply ns_enter_at_confined|done|done|done].
  - eapply ensures_bind with (R := any); [|intros [] _; ens].
    eapply ensures_weaken; [apply ensures_null_err, ns_enter_at_confined|done|done|done].
Qed.

Lemma in_container_confined l body :
  ensures (confined root) (stops_in l ops_stops) body any ->
  ensures (confined root) (stops_in l ops_stops) (in_container ctx cnt body) any.
Proof.
  intros Hb. unfold in_container. eapply ensures_bind.
  { eapply ensures_weaken; [apply ns_enter_confined|done|done|intros o Ho; exact Ho]. }
  intros [] _; [|ens]. eapply ensures_bind; [exact Hb|]. intros rv _. apply leave_ns_confined.
Qed.

Lemma unmount_inside_all l : Forall (inside root) l ->
  ensures (confined root) no_stop (mapM_ (fun m => unmount (Some m)) l) any.
Proof.
  intros Hl. apply ensures_mapM_. intros m Hm. apply unmount_confined. left. by eapply Forall_forall in Hm.
Qed.

Lemma nvc_driver_mount_ens info :
  Forall (fun d => node_path d <> None) (devs info) ->
  ensures (confined root) stops (nvc_driver_mount ctx (Some cnt) (Some info)) any.
Proof.
  intros Hd. unfold nvc_driver_mount. ens_step. destruct a; [|ens]. apply in_container_confined.
  ens_step. destruct a as [arr|]; [|ens]. eapply ensures_bind; [by apply driver_stages_ens|].
  intros [mnt []] Hm; cbn [fst snd] in *; [ens|].
  eapply ensures_bind; [eapply ensures_weaken; [by apply unmount_inside_all|done|done|intros o Ho; exact Ho]|].
  intros _ _. ens.
Qed.

(** *** [nvc_device_mount] *)

Definition dev_ub : list string :=
  ["shift by 64 or more"; "strstr(NULL)"; "err->code of NULL"; "library_search_in_dir: write past the end of libs";
   "adapterList[0] of no adapter"].
Let dstops := stops_in dev_ub ops_stops.

Lemma dev_ub_stop x : x ∈ dev_ub -> dstops (Undefined x).
Proof. apply stops_in_elem. Qed.

Ltac ub := apply dev_ub_stop, (bool_decide_unpack _); vm_compute; exact I.

Lemma library_search_confined cap dir pat : ensures (confined root) dstops (library_search_in_dir cap dir pat) any.
Proof.
  unfold library_search_in_dir. ens_step. ens_step.
  match goal with |- ensures _ _ (match ?x with _ => _ end) _ => destruct x as [entries|]; [|ens] end.
  eapply ensures_post; [apply (ensures_foldM _ _ any); [|done]|done]. intros libs name _ _.
  eapply ensures_bind with (R := any); [unfold macth_target_library; ens|]. intros [] _; [|ens].
  ens_step. destruct (negb _); [ens|]. destruct (cap <=? _); [apply ensures_halt; ub|ens].
Qed.

Lemma err_code_confined : ensures (confined root) dstops err_code any.
Proof. unfold err_code. ens_step. destruct a; [ens|apply ensures_halt; ub]. Qed.

Lemma update_app_profile_confined id : ensures (confined root) dstops (update_app_profile cnt id) any.
Proof.
  unfold update_app_profile. destruct (64 <=? minor id); [apply ensures_halt; ub|]. cbv zeta.
  eapply ensures_bind; [eapply ensures_weaken; [by apply resolve_inside|apply confined_read|apply stops_in_overflow|intros o Ho; exact Ho]|].
  intros [path|]; [|intros _; ens]. intros (_ & _ & Hi).
  eapply ensures_bind with (R := any).
  { eapply ensures_weaken; [apply file_read_text_ens|apply confined_read|done|done]. }
  intros txt _. eapply ensures_bind with (R := any).
  { destruct txt as [[txt|]|]; [|apply ensures_halt; ub|].
    - destruct (strstr txt "0x"); [|ens]. destruct (_ =? _); ens.
    - eapply ensures_bind; [apply err_code_confined|]. intros c _. destruct (negb _); ens. }
  intros [buf|] _; [|ens]. eapply ensures_weaken; [by apply (file_create_confined' root)|done|apply stops_in_base|done].
Qed.

Lemma native_mounts_confined dev libs :
  node_path (node dev) <> None ->
  ensures (confined root) dstops (native_mounts ctx cnt dev libs) (fun r => Forall (inside root) (fst r)).
Proof.
  intros Hp. unfold native_mounts. cbv zeta.
  pose proof (fun r path fl => mount_below_confined root Hroot cnt eq_refl r path fl) as Hb.
  eapply ensures_bind with (R := fun r => match r with Some l => Forall (inside root) l | None => True end).
  { destruct (no_devbind cnt); [apply ensures_ret; constructor|]. eapply ensures_bind.
    { eapply ensures_weaken; [by apply (mount_device_confined root)|done|apply stops_in_base|intros o Ho; exact Ho]. }
    intros [m|] Hm; apply ensures_ret; [by constructor|done]. }
  intros [dm|] Hdm; [|apply ensures_ret; constructor]. eapply ensures_bind.
  { eapply ensures_weaken; [apply Hb|done|apply stops_in_base|intros o Ho; exact Ho]. }
  intros [ld|] Hld; [|by apply ensures_ret]. eapply ensures_bind with (R := any); [|intros rv _; apply ensures_ret; by constructor].
  eapply ensures_bind with (R := any); [destruct (has_flag _ OPT_GRAPHICS_LIBS); [apply update_app_profile_confined|ens]|].
  intros [] _; [|ens]. eapply ensures_bind with (R := any).
  { destruct (has_flag _ OPT_UTILITY_LIBS); [|ens]. eapply ensures_bind.
    { eapply ensures_weaken; [apply Hb|done|apply stops_in_base|intros o Ho; exact Ho]. }
    intros [] _; ens. }
  intros [] _; [|ens]. eapply ensures_bind with (R := any).
  { destruct (_ || _); [|ens]. eapply ensures_bind.
    { eapply ensures_weaken; [by apply (mount_files_confined root)|done|intros w; apply stops_in_null; dir|intros o Ho; exact Ho]. }
    intros [] _; ens. }
  intros [] _; [|ens]. unfold allow_device. destruct (no_cgroups cnt); [ens|].
  eapply ensures_weaken; [apply setup_law|apply confined_cgroup|apply stops_in_cgroup|done].
Qed.

(** The files of the driver store have names. *)
Definition named_components : Prop := forall a f, a ∈ adapterList (dxcore ctx) -> f ∈ components a ->
  normal (basename f) /\ str_empty (Some (basename f)) = false.

Lemma nvc_device_mount_ens dev :
  (dx_initialized (dxcore ctx) = false -> node_path (node dev) <> None) -> named_components ->
  ensures (confined root) dstops (nvc_device_mount ctx (Some cnt) (Some dev)) any.
Proof.
  intros Hp Hc. unfold nvc_device_mount. ens_step. destruct a; [|ens]. apply in_container_confined.
  destruct (dx_initialized (dxcore ctx)) eqn:Edx.
  - unfold device_mount_dxcore. destruct (adapterList (dxcore ctx)) as [|ad l] eqn:El; [apply ensures_halt; ub|].
    eapply ensures_bind with (R := any); [|intros [] _; ens]. eapply ensures_weaken;
      [apply (mount_driverstore_files_confined root); [done..|]|done|apply stops_in_base|done].
    intros f Hf. apply (Hc ad f); [rewrite El; apply list_elem_of_here|done].
  - unfold device_mount_native. eapply ensures_bind with (R := any).
    { destruct (dris_dir (ccfg cnt)) eqn:Ed; [by apply ensures_ret|]. apply ensures_halt.
      apply (stops_in_null _ (dris_dir (ccfg cnt))); [dir|by right]. }
    intros dris _. eapply ensures_bind; [apply library_search_confined|]. intros [libs|] _; [|ens].
    eapply ensures_bind; [apply native_mounts_confined; by apply Hp|]. intros [mnts []] Hm; cbn [fst snd] in *; [ens|].
    eapply ensures_bind; [eapply ensures_weaken; [by apply unmount_inside_all|done|done|intros o Ho; exact Ho]|].
    intros _ _. ens.
Qed.
End Driver.

(** ** Properties *)

(** C3: whatever the kernel and the file system answer, everything that
    [nvc_driver_mount] mounts, every file, link and directory it makes, every
    tree it removes lies inside the root of the container (directories above a
    mount may be made on its path); the array of the mounts is large enough and
    the function ends.  A path is unmounted elsewhere only if it is the first
    [PATH_MAX - 1] characters of a longer one inside the root.  The undefined
    behaviours left are the overflow of the resolution, the missing driver version,
    a missing directory, and those of the control groups. *)
Theorem nvc_driver_mount_confined (ops : CgroupOps) (H : stop -> Prop) (laws : CgroupLaws ops H)
    (o : env) ctx cnt info (s : st) :
  abs (rootfs_of cnt) -> Forall (fun d => node_path d <> None) (devs info) ->
  match exec o (nvc_driver_mount ctx (Some cnt) (Some info)) s with
  | (t, Done _) => Forall (confined (rootfs_of cnt)) t
  | (t, Halted w) => Forall (confined (rootfs_of cnt)) t /\ (stops_in drv_ub H w \/ null_dir (ccfg cnt) w)
  end.
Proof.
  intros Hr Hd. pose proof (ensures_run o _ _ _ _ s (nvc_driver_mount_ens ops H ctx cnt Hr info Hd)) as He.
  destruct (exec o _ s) as [t [[s' r]|w]]; [apply He|]. split; [apply He|]. apply stops_in_split, He.
Qed.

(** C27: the same for [nvc_device_mount]: whatever is answered, the device, its
    libraries and its profile are mounted, made and linked inside the root of the
    container only (missing directories above it may be made).  What a failure
    unmounts and removes is inside the root too, except when a path inside the root
    does not fit in [PATH_MAX]: then its first [PATH_MAX - 1] characters are
    unmounted and removed, which may name something outside the root.  The function
    ends, and stops with the undefined behaviours of [dev_ub] only, a missing
    directory, the overflow of the resolution and those of the control groups. *)
Theorem nvc_device_mount_confined (ops : CgroupOps) (H : stop -> Prop) (laws : CgroupLaws ops H)
    (o : env) ctx cnt dev (s : st) :
  abs (rootfs_of cnt) -> node_path (node dev) <> None -> named_components ctx ->
  match exec o (nvc_device_mount ctx (Some cnt) (Some dev)) s with
  | (t, Done _) => Forall (confined (rootfs_of cnt)) t
  | (t, Halted w) => Forall (confined (rootfs_of cnt)) t /\ (stops_in dev_ub H w \/ null_dir (ccfg cnt) w)
  end.
Proof.
  intros Hr Hd Hc. pose proof (ensures_run o _ _ _ _ s (nvc_device_mount_ens ops H ctx cnt Hr dev (fun _ => Hd) Hc)) as He.
  destruct (exec o _ s) as [t [[s' r]|w]]; [apply He|]. split; [apply He|]. apply stops_in_split, He.
Qed.

(** A host with two libraries, a binary and the render node. *)
Definition demo_info : nvc_driver_info :=
  mkDriverInfo None None ["/usr/bin/xdxsmi"] ["/usr/lib/libdrm.so.2"; "/usr/lib/libGL_xdxgpu.so.1.2.3"] [] []
    [mkNode (Some XDX_RENDER_DEVICE_PATH) (makedev NV_DEVICE_MAJOR XDX_RENDER_DEVICE_MINOR)] [].
Definition demo_flags : Z := OPT_SUPERVISED .| OPT_UTILITY_LIBS .| OPT_UTILITY_BINS .| OPT_GRAPHICS_LIBS.
Definition demo_cnt : nvc_container :=
  mkContainer demo_flags
    (mkCntConfig 42 "/ctr" (Some "/usr/bin") (Some "/usr/lib") (Some "/usr/lib32") (Some "/usr/lib/dri")
       (Some "/usr/local/cuda") (Some "/sbin/ldconfig"))
    0 0 "/proc/42/ns/mnt" 1 (Some "/cg") [].
Definition demo_mount_host : env := fun _ e =>
  match e return resp e with
  | EReadlinkat _ _ => SErr EINVAL
  | EStat p => if str_has_prefix p "/ctr" then SErr ENOENT
               else SOk (mkStat S_IFREG 0 0 (makedev NV_DEVICE_MAJOR XDX_RENDER_DEVICE_MINOR) 0)
  | e => friendly e
  end.

Lemma nvc_driver_mount_confined_witness :
  exists s, snd (exec demo_mount_host (nvc_driver_mount (H := Nvcgo.ops) demo_ctx (Some demo_cnt) (Some demo_info)) init_st)
      = Done (s, Some tt) /\
    Forall (confined "/ctr") (fst (exec demo_mount_host (nvc_driver_mount (H := Nvcgo.ops) demo_ctx (Some demo_cnt)
      (Some demo_info)) init_st)).
Proof.
  pose proof (nvc_driver_mount_confined Nvcgo.ops rpc_stops nvcgo_laws demo_mount_host demo_ctx demo_cnt demo_info init_st
    eq_refl ltac:(by repeat constructor)) as H.
  destruct (exec demo_mount_host _ init_st) as [t out] eqn:E.
  assert (out = snd (exec demo_mount_host (nvc_driver_mount (H := Nvcgo.ops) demo_ctx (Some demo_cnt) (Some demo_info)) init_st))
    as E2 by by rewrite E.
  vm_compute in E2. subst out. eexists. split; [reflexivity|]. exact H.
Defined.

(** The first GPU of the host. *)
Definition demo_gpu : nvc_device :=
  mkDevice None "GPU-0" "0000:01:00.0" None None
    (mkNode (Some "/dev/dri/card0") (makedev NV_DEVICE_MAJOR 0)) false None [].
Definition demo_gpu_host : env := fun _ e =>
  match e return resp e with
  | EReadlinkat _ _ => SErr EINVAL
  | EStat p => if str_has_prefix p "/ctr" then SErr ENOENT
               else SOk (mkStat S_IFREG 0 0 (makedev NV_DEVICE_MAJOR 0) 0)
  | EFopen p _ => if str_has_prefix p "/ctr" then SErr ENOENT else SOk (mkStream [] false)
  | EOpendir _ => SOk ["xdxgpu_dri.so"; "other_dri.so"]
  | e => friendly e
  end.

Lemma nvc_device_mount_confined_witness :
  exists s, snd (exec demo_gpu_host (nvc_device_mount (H := Nvcgo.ops) demo_ctx (Some demo_cnt) (Some demo_gpu)) init_st)
      = Done (s, Some tt) /\
    Forall (confined "/ctr") (fst (exec demo_gpu_host (nvc_device_mount (H := Nvcgo.ops) demo_ctx (Some demo_cnt)
      (Some demo_gpu)) init_st)).
Proof.
  pose proof (nvc_device_mount_confined Nvcgo.ops rpc_stops nvcgo_laws demo_gpu_host demo_ctx demo_cnt demo_gpu init_st
    eq_refl ltac:(done) ltac:(by intros a f Ha%not_elem_of_nil)) as H.
  destruct (exec demo_gpu_host _ init_st) as [t out] eqn:E.
  assert (out = snd (exec demo_gpu_host (nvc_device_mount (H := Nvcgo.ops) demo_ctx (Some demo_cnt) (Some demo_gpu)) init_st))
    as E2 by by rewrite E.
  vm_compute in E2. subst out. eexists. split; [reflexivity|]. exact H.
Defined.
