(* ===== verification/MountState.v ===== *)
(** * What is mounted, and in which namespace

    The mounts the functions of [Mount] have made and not undone, with their
    flags, and the namespace the process is in, as functions of the trace. *)
From S2P Require Import Prelude CString Regex Effects Logic Errors Options Utils Types Paths Files Components Devices Pci Modprobe Ldcache Driver Cgroup Info Container Mount MountSafety.

Record view := mkView {
  live : list (string * Z);  (* the last one first *)
  stuck : list string;       (* what the kernel refused to detach *)
  here : option Z;           (* the descriptor of the namespace entered last *)
  refused : bool             (* the last change of namespace was refused *)
}.

(** The mount on top at [p] goes. *)
Fixpoint forget (p : string) (l : list (string * Z)) : list (string * Z) :=
  match l with
  | [] => []
  | (q, f) :: l' => if str_equal p q then l' else (q, f) :: forget p l'
  end.

(** The mount on top at [p] gets the flags [f]. *)
Fixpoint reflag (p : string) (f : Z) (l : list (string * Z)) : list (string * Z) :=
  match l with
  | [] => []
  | (q, f') :: l' => if str_equal p q then (q, f) :: l' else (q, f') :: reflag p f l'
  end.

(** A successful [mount] adds a mount, unless it is a remount, which changes the
    flags; a successful [umount2] takes one away.  One with [MNT_DETACH] that the
    kernel refuses is remembered: it does not fail because the mount is in use.
    There is nothing to mount on at the empty path. *)
Definition view_step (v : view) (ev : event) : view :=
  match ev_call ev as e return resp e -> view with
  | EMount _ p _ f _ => fun r =>
      match r with
      | SErr _ => v
      | SOk _ =>
          if str_empty (Some p) then v
          else if Z.testbit f 5 then mkView (reflag p (Z.land f 15) (live v)) (stuck v) (here v) (refused v)
          else mkView ((p, 0) :: live v) (stuck v) (here v) (refused v)
      end
  | EUmount p f => fun r =>
      match r with
      | SOk _ => mkView (forget p (live v)) (stuck v) (here v) (refused v)
      | SErr _ => if has_flag f MNT_DETACH then mkView (live v) (p :: stuck v) (here v) (refused v) else v
      end
  | ESetns fd _ => fun r =>
      match r with
      | SOk _ => mkView (live v) (stuck v) (Some fd) false
      | SErr _ => mkView (live v) (stuck v) (here v) true
      end
  | _ => fun _ => v
  end (ev_resp ev).

(** A mount that cannot be written through and gives no privileges. *)
Definition hardened (e : string * Z) : Prop := Z.testbit (snd e) 0 = true /\ Z.testbit (snd e) 1 = true.

Definition names (v : view) : list string := map fst (live v).
Definition named (v : view) : Prop := Forall (fun p => str_empty (Some p) = false) (names v).

(** [v'] is [v] up to its mounts. *)
Definition same_ns (v v' : view) : Prop := here v' = here v /\ refused v' = refused v.

Lemma file_create_kinds path data uid gid mode :
  ensures (only [KLib; KRead; KWrite; KCred]) assert_only (file_create path data uid gid mode) any.
Proof. eapply ensures_weaken; [apply file_create_ens|apply creates_below_kinds|done|done]. Qed.
#[export] Hint Resolve file_create_kinds : ens.

Lemma null_file_remove_ens p : ensures (only [KLib; KRead; KWrite]) no_stop (null_err (file_remove p)) any.
Proof. apply ensures_null_err, file_remove_ens. Qed.
#[export] Hint Resolve null_file_remove_ens : ens.

Definition unmounted (p : string) (v : view) : view :=
  if str_empty (Some p) then v else mkView (forget p (live v)) (stuck v) (here v) (refused v).

(** The kernel refused to detach [p]. *)
Definition remains (p : string) (v : view) : view := mkView (live v) (p :: stuck v) (here v) (refused v).

Lemma unmount_view p v :
  ghost view_step (unmount (Some p)) v (fun _ v' => v' = unmounted p v \/ str_empty (Some p) = false /\ v' = remains p v).
Proof.
  unfold unmount, unmounted. destruct (str_empty (Some p)) eqn:E; [apply ghost_ret; by left|].
  eapply ghost_bind with (R1 := fun r v' => v' = match r with
    | SOk _ => mkView (forget p (live v)) (stuck v) (here v) (refused v) | SErr _ => remains p v end).
  { apply ghost_call. by intros []. }
  intros r v1 Hv1. eapply ghost_bind with (R1 := fun _ v' => v' = v1); [by destruct r; apply ghost_trap|]. intros _ ? ->.
  eapply ghost_bind_ignored; [apply null_file_remove_ens|ignored|]. intros _ _. apply ghost_ret. destruct r; auto.
Qed.

Lemma forget_names p l : map fst (forget p l) ⊆+ map fst l.
Proof.
  induction l as [|[q f] l IH]; simpl; [done|]. destruct (str_equal p q); [by apply submseteq_cons|by apply submseteq_skip].
Qed.

Lemma forget_perm p l : p ∈ map fst l -> map fst l ≡ₚ p :: map fst (forget p l).
Proof.
  induction l as [|[q f] l IH]; simpl; [by intros ?%not_elem_of_nil|]. unfold str_equal.
  destruct (String.eqb_spec p q) as [->|Hne]; [done|]. intros [?|Hin]%elem_of_cons; [done|]. simpl.
  rewrite (IH Hin) at 1. apply Permutation_swap.
Qed.

(** Undoing the mount [p] takes it off the list of those to undo, to those that
    stay if the kernel refuses. *)
Lemma unmounted_submseteq p v rest :
  named v -> names v ⊆+ p :: rest -> names (unmounted p v) ⊆+ rest /\ named (unmounted p v).
Proof.
  intros Hn Hs. unfold unmounted, named, names in *. destruct (str_empty (Some p)) eqn:E.
  - split; [|done]. apply submseteq_cons_r in Hs as [Hs|(l' & Hl & _)]; [done|].
    rewrite Hl in Hn. by apply Forall_cons in Hn as [Hp _]; rewrite E in Hp.
  - cbn [live]. split.
    + destruct (decide (p ∈ map fst (live v))) as [Hin|Hnin].
      * pose proof (forget_perm _ _ Hin) as Hp. apply submseteq_cons_r in Hs as [Hs|(l' & Hl & Hs)].
        -- etrans; [apply forget_names|done].
        -- rewrite Hp in Hl. apply Permutation_cons_inv in Hl. by rewrite Hl.
      * etrans; [apply forget_names|]. apply submseteq_cons_r in Hs as [Hs|(l' & Hl & _)]; [done|].
        destruct Hnin. rewrite Hl. apply list_elem_of_here.
    + clear Hs. induction (live v) as [|[q f] l IH]; simpl; [constructor|]. apply Forall_cons in Hn as [Hq Hn].
      destruct (str_equal p q); [done|]. constructor; [done|by apply IH].
Qed.

Lemma unmount_undoes p v rest tail :
  named v -> names v ⊆+ p :: rest ++ stuck v ++ tail ->
  ghost view_step (unmount (Some p)) v (fun _ v' => same_ns v v' /\ named v' /\ names v' ⊆+ rest ++ stuck v' ++ tail).
Proof.
  intros Hn Hs. eapply ghost_post; [apply unmount_view|]. intros _ v' [->|[_ ->]].
  - destruct (unmounted_submseteq p v (rest ++ stuck v ++ tail) Hn Hs) as [H1 H2].
    assert (stuck (unmounted p v) = stuck v) as -> by (unfold unmounted; by case_match).
    split; [|by split]. unfold same_ns, unmounted. by case_match.
  - split; [done|]. split; [done|]. unfold names, remains in *. cbn [live stuck]. etrans; [exact Hs|].
    cbn [app]. by rewrite Permutation_middle.
Qed.

(** ** One mount *)

Definition added (p : string) (f : Z) (v : view) : view :=
  if str_empty (Some p) then v else mkView ((p, f) :: live v) (stuck v) (here v) (refused v).

Lemma reflag_top p f f' l : reflag p f ((p, f') :: l) = (p, f) :: l.
Proof. simpl. unfold str_equal. by rewrite String.eqb_refl. Qed.

Lemma remount_flags fl : 0 <= fl < 16 ->
  Z.testbit (MS_BIND .| MS_REMOUNT .| fl) 5 = true /\ Z.land (MS_BIND .| MS_REMOUNT .| fl) 15 = fl.
Proof.
  intros Hf. rewrite Z.lor_spec, Z.land_lor_distr_l. split; [done|].
  change (Z.land (MS_BIND .| MS_REMOUNT) 15) with 0. rewrite Z.lor_0_l.
  change 15 with (Z.ones 4). rewrite Z.land_ones by lia. by apply Z.mod_small.
Qed.

Lemma xmount_view src dst fs fl d v :
  ghost view_step (xmount src dst fs fl d) v (fun r v' => match r with
    | Some _ => v' = if str_empty (Some dst) then v
                     else if Z.testbit fl 5 then mkView (reflag dst (Z.land fl 15) (live v)) (stuck v) (here v) (refused v)
                     else mkView ((dst, 0) :: live v) (stuck v) (here v) (refused v)
    | None => v' = v
    end).
Proof. unfold xmount. repeat gstep; done. Qed.

Lemma bind_remount_view src dst fl v : 0 <= fl < 16 ->
  ghost view_step (bind_remount src dst fl) v (fun r v' => match r with
    | Some m => m = dst /\ v' = added dst fl v
    | None => v' = v \/ exists f, v' = added dst f v
    end).
Proof.
  intros Hf. destruct (remount_flags fl Hf) as [H5 H15]. unfold bind_remount.
  eapply ghost_bind; [apply xmount_view|]. intros [] v1 Hv1; [|apply ghost_ret; auto].
  change (Z.testbit MS_BIND 5) with false in Hv1. cbv iota in Hv1.
  eapply ghost_bind; [apply xmount_view|]. intros [] v2 Hv2.
  - rewrite H5, H15 in Hv2. assert (v2 = added dst fl v) as ->.
    { subst. unfold added. destruct (str_empty (Some dst)); [done|]. cbn [live stuck here refused]. by rewrite reflag_top. }
    eapply ghost_ensures; [apply xstrdup_ens|ignored|]. intros [m|]; [by intros ->|eauto].
  - subst. apply ghost_ret. right. exists 0. done.
Qed.

(** [v] holds hardened mounts only, all to be undone by [mnt]; after a failure one
    mount more may be left, and those that the kernel refused to detach. *)
Definition good (v0 : view) (mnt : list string) (v : view) : Prop :=
  same_ns v0 v /\ named v /\ Forall hardened (live v) /\ names v ⊆+ mnt.
Definition bad (v0 : view) (mnt : list string) (v : view) : Prop :=
  same_ns v0 v /\ named v /\ exists x, names v ⊆+ mnt ++ stuck v ++ [x].

Lemma good_bad v0 mnt v : good v0 mnt v -> bad v0 mnt v.
Proof.
  intros (? & ? & _ & Hs). split; [done|]. split; [done|]. exists EmptyString. etrans; [exact Hs|].
  apply submseteq_inserts_r. done.
Qed.

Lemma added_named p f v : named v -> named (added p f v).
Proof. intros Hn. unfold added. destruct (str_empty (Some p)) eqn:E; [done|]. by constructor. Qed.

Lemma added_names p f v : names (added p f v) ⊆+ names v ++ [p].
Proof.
  unfold added. destruct (str_empty (Some p)); [by apply submseteq_inserts_r|]. unfold names. simpl.
  by rewrite (Permutation_app_comm _ [p]).
Qed.

Lemma good_added v0 mnt v m f : good v0 mnt v -> hardened (m, f) -> good v0 (mnt ++ [m]) (added m f v).
Proof.
  intros ([? ?] & Hn & Hh & Hs) Hm. split; [unfold added; by case_match|]. split; [by apply added_named|]. split.
  - unfold added. case_match; [done|by constructor].
  - etrans; [apply added_names|]. by apply submseteq_app.
Qed.

Lemma good_added_bad v0 mnt v m f : good v0 mnt v -> bad v0 mnt (added m f v).
Proof.
  intros ([? ?] & Hn & Hh & Hs). split; [unfold added; by case_match|]. split; [by apply added_named|].
  exists m. etrans; [apply added_names|]. apply submseteq_app; [done|]. apply submseteq_inserts_l. done.
Qed.

Lemma forget_Forall (Q : string * Z -> Prop) p l : Forall Q l -> Forall Q (forget p l).
Proof. induction 1 as [|[q f] l Hq Hl IH]; simpl; [constructor|]. destruct (str_equal p q); [done|by constructor]. Qed.

(** A mount that failed is undone, or the kernel keeps it. *)
Lemma unmount_bad v0 mnt v v' p :
  good v0 mnt v -> (v' = v \/ exists f, v' = added p f v) ->
  ghost view_step (unmount (Some p)) v' (fun _ v2 => bad v0 mnt v2).
Proof.
  intros Hg Hv'. assert (same_ns v v' /\ named v' /\ names v' ⊆+ p :: mnt ++ stuck v' ++ [EmptyString]) as (Hns & Hn & Hs).
  { destruct Hg as (_ & Hn & _ & Hs). destruct Hv' as [->|[f ->]].
    - split; [done|]. split; [done|]. apply submseteq_cons. by apply submseteq_inserts_r.
    - split; [unfold added, same_ns; by case_match|]. split; [by apply added_named|].
      etrans; [apply added_names|]. rewrite Permutation_app_comm. cbn [app]. apply submseteq_skip.
      by apply submseteq_inserts_r. }
  eapply ghost_post; [by apply unmount_undoes|]. intros _ v2 (Hns2 & Hn2 & Hs2).
  destruct Hg as (Hns0 & _). split; [|split; [done|by exists EmptyString]].
  unfold same_ns in *. destruct Hns0, Hns, Hns2. split; congruence.
Qed.

Lemma unmount_all_view l v0 rest v :
  same_ns v0 v -> named v -> names v ⊆+ l ++ stuck v ++ rest ->
  ghost view_step (mapM_ (fun m => unmount (Some m)) l) v
    (fun _ v' => same_ns v0 v' /\ named v' /\ names v' ⊆+ stuck v' ++ rest).
Proof.
  revert v. induction l as [|m l IH]; intros v Hv Hn Hs; cbn [mapM_]; [by apply ghost_ret|].
  eapply ghost_bind; [by apply unmount_undoes|]. intros _ v' (Hv' & Hn' & Hs'). apply IH; [|done|done].
  unfold same_ns in *. destruct Hv, Hv'. split; congruence.
Qed.

Section Files.
Variables (cnt : nvc_container) (v0 : view).
Hypothesis Hroot : abs (rootfs_of cnt).

Lemma mount_file_view src dst path mnt v :
  strlen src < PATH_MAX -> strlen dst < PATH_MAX -> good v0 mnt v ->
  ghost view_step (mount_file cnt src dst path) v (fun r v' => match r with
    | Some (Some m) => good v0 (mnt ++ [m]) v'
    | Some None => good v0 mnt v'
    | None => bad v0 mnt v'
    end).
Proof.
  intros Hs Hd Hg. pose proof (good_bad _ _ _ Hg) as Hb. unfold mount_file. cbv zeta. case_match; [by apply ghost_ret|].
  eapply ghost_bind_ignored; [by apply path_append_ens|ignored|]. intros [src'|] _; [|by apply ghost_ret].
  eapply ghost_bind_ignored; [by apply path_append_ens|ignored|]. intros [dst'|] _; [|by apply ghost_ret].
  do 2 (gstep; match goal with |- ghost _ (match ?x with _ => _ end) _ _ => destruct x; [|by apply ghost_ret] end).
  eapply ghost_bind; [by apply bind_remount_view|]. intros [m|] v' Hv'.
  - destruct Hv' as [-> ->]. apply ghost_ret. by apply good_added.
  - apply ghost_ret. destruct Hv' as [->|[f ->]]; [done|]. by apply good_added_bad.
Qed.

Lemma mount_loop_view {A} (mount : A -> M (option (option string))) outer paths mnt v :
  (forall p mnt v, good v0 mnt v -> ghost view_step (mount p) v (fun r v' => match r with
     | Some (Some m) => good v0 (mnt ++ [m]) v'
     | Some None => good v0 mnt v'
     | None => bad v0 mnt v'
     end)) ->
  good v0 (outer ++ mnt) v ->
  ghost view_step (mount_loop mount paths mnt) v (fun r v' => match r with
    | Some l => good v0 (outer ++ l) v'
    | None => bad v0 outer v'
    end).
Proof.
  intros Hm. revert mnt v. induction paths as [|p paths IH]; intros mnt v Hg; cbn [mount_loop]; [by apply ghost_ret|].
  eapply ghost_bind; [by apply Hm|]. intros [[m|]|] v' Hv'.
  - apply IH. by rewrite app_assoc.
  - by apply IH.
  - destruct Hv' as (Hns & Hn & x & Hx). eapply ghost_bind.
    { apply (unmount_all_view _ v0 (outer ++ [x])); [done|done|]. etrans; [exact Hx|].
      rewrite (Permutation_app_comm outer mnt), <- !app_assoc. apply submseteq_app; [done|].
      by rewrite (app_assoc outer), (Permutation_app_comm outer), <- app_assoc. }
    intros _ v'' (? & ? & Hx''). apply ghost_ret. split; [done|]. split; [done|]. exists x. etrans; [exact Hx''|].
    by rewrite (app_assoc (stuck v'')), (Permutation_app_comm (stuck v'')), <- app_assoc.
Qed.

Lemma mount_files_view r dir paths mnt v :
  good v0 mnt v ->
  ghost view_step (mount_files r cnt dir paths) v (fun o v' => match o with
    | Some l => good v0 (mnt ++ l) v'
    | None => bad v0 mnt v'
    end).
Proof.
  intros Hg. pose proof (good_bad _ _ _ Hg) as Hb. unfold mount_files.
  eapply ghost_bind_ignored; [apply path_new_ens|ignored|]. intros [src|]; [|intros _; by apply ghost_ret]. intros [Hs _].
  eapply ghost_bind with (R1 := fun _ v' => v' = v); [destruct dir; [by apply ghost_ret|apply ghost_halt]|]. intros dir' ? ->.
  eapply ghost_bind_ignored; [by apply path_resolve_full_ens|ignored|]. intros [dst|]; [|intros _; by apply ghost_ret].
  intros [Hd _]. do 2 (gstep; match goal with |- ghost _ (match ?x with _ => _ end) _ _ => destruct x; [|by apply ghost_ret] end).
  apply mount_loop_view; [|by rewrite app_nil_r]. intros p mnt' v' Hg'. by apply mount_file_view.
Qed.

Lemma or_unmount_view dst (m : M (option string)) mnt v fl :
  hardened (dst, fl) -> good v0 mnt v ->
  ghost view_step m v (fun r v' => match r with
    | Some x => x = dst /\ v' = added dst fl v
    | None => v' = v \/ exists f, v' = added dst f v
    end) ->
  ghost view_step (or_unmount dst m) v (fun r v' => match r with
    | Some x => good v0 (mnt ++ [x]) v'
    | None => bad v0 mnt v'
    end).
Proof.
  intros Hh Hg Hm. unfold or_unmount. eapply ghost_bind; [exact Hm|]. intros [x|] v' Hv'.
  - destruct Hv' as [-> ->]. apply ghost_ret. by apply good_added.
  - eapply ghost_bind with (R1 := fun _ v2 => bad v0 mnt v2); [by eapply unmount_bad|]. intros _ v2 Hv2. by apply ghost_ret.
Qed.

Lemma mount_device_view r dev mnt v :
  good v0 mnt v ->
  ghost view_step (mount_device r cnt dev) v (fun o v' => match o with
    | Some x => good v0 (mnt ++ [x]) v'
    | None => bad v0 mnt v'
    end).
Proof.
  intros Hg. pose proof (good_bad _ _ _ Hg) as Hb. unfold mount_device. destruct (node_path dev) as [path|]; [|apply ghost_halt].
  gstep. destruct a as [src|]; [|by apply ghost_ret]. gstep. destruct a as [dst|]; [|by apply ghost_ret].
  gstep. destruct a as [s|]; [|by apply ghost_ret]. case_match; [by repeat gstep|].
  do 2 (gstep; match goal with |- ghost _ (match ?x with _ => _ end) _ _ => destruct x; [|by apply ghost_ret] end).
  eapply or_unmount_view; [|done|by apply bind_remount_view]. done.
Qed.
End Files.

Lemma symlink_libraries_kinds cnt paths :
  ensures (only [KLib; KRead; KWrite; KCred]) assert_only (symlink_libraries cnt paths) any.
Proof.
  apply ensures_iterM. intros m _. destruct (library_links (basename m)) as [[name links]|]; [|ens].
  eapply ensures_bind with (R := any); [unfold macth_target_library; ens|]. intros [] _; [|ens].
  apply ensures_iterM. intros [target link] _. unfold symlink_library. ens.
Qed.
#[export] Hint Resolve symlink_libraries_kinds : ens.

Section DriverView.
Context (ops : CgroupOps) (H : stop -> Prop) `{!CgroupLaws ops H}.
Variables (ctx : nvc_context) (cnt : nvc_container) (v0 : view).
Hypothesis Hroot : abs (rootfs_of cnt).

(** A stage that goes on leaves hardened mounts, all in its list; one that fails
    leaves at most one mount that is not in the list. *)
Definition keeps (s : stage) : Prop := forall mnt v, good v0 mnt v ->
  ghost view_step (s mnt) v (fun r v' => if snd r then good v0 (fst r) v' else bad v0 (fst r) v').

Lemma then_keeps a b : keeps a -> keeps b -> keeps (then_ a b).
Proof.
  intros Ha Hb mnt v Hg. unfold then_. eapply ghost_bind; [by apply Ha|].
  intros [mnt' []] v' Hv'; cbn [fst snd] in *; [by apply Hb|by apply ghost_ret].
Qed.

Lemma push_view nmnt mnt new v (R : list string -> view -> Prop) :
  R (mnt ++ new) v -> ghost view_step (push nmnt mnt new) v R.
Proof. intros HR. unfold push. case_match; [apply ghost_halt|by apply ghost_ret]. Qed.

Lemma files_stage_keeps nmnt r dir paths : keeps (files_stage nmnt r cnt dir paths).
Proof.
  intros mnt v Hg. unfold files_stage. eapply ghost_bind; [by apply mount_files_view|].
  intros [tmp|] v' Hv'; [|by apply ghost_ret]. eapply ghost_bind; [by apply (push_view _ _ _ _ (fun l v => good v0 l v))|].
  intros l v'' Hl. by apply ghost_ret.
Qed.

Lemma some_files_stage_keeps nmnt r dir paths : keeps (some_files_stage nmnt r cnt dir paths).
Proof. destruct paths; [intros mnt v Hg; by apply ghost_ret|apply files_stage_keeps]. Qed.

Lemma links_stage_keeps : keeps (links_stage cnt).
Proof.
  intros mnt v Hg. unfold links_stage. gstep. apply ghost_ret. cbn [fst snd]. case_match; [done|by apply good_bad].
Qed.

Lemma cntlibs_stage_keeps nmnt info : keeps (cntlibs_stage nmnt cnt info).
Proof.
  intros mnt v Hg. unfold cntlibs_stage. destruct (clibs cnt) as [|l ls]; [by apply ghost_ret|].
  eapply ghost_bind_ignored; [apply array_copy_ens|ignored|].
  intros [libs|]; [intros ->|intros _; apply ghost_ret; by apply good_bad].
  eapply ghost_bind_ignored; [apply filter_libraries_ens|ignored|]. intros libs _. by apply files_stage_keeps.
Qed.

Lemma allow_device_view id v (R : option unit -> view -> Prop) :
  (forall r, R r v) -> ghost view_step (allow_device cnt id) v R.
Proof.
  intros HR. unfold allow_device. destruct (no_cgroups cnt); [by apply ghost_ret|].
  eapply ghost_ensures; [apply setup_law|ignored|auto].
Qed.

Lemma device_stage_keeps nmnt dev : keeps (device_stage nmnt ctx cnt dev).
Proof.
  intros mnt v Hg. unfold device_stage. case_match; [by apply ghost_ret|].
  eapply ghost_bind with (R1 := fun (r : list string * bool) v' => if snd r then good v0 (fst r) v' else bad v0 (fst r) v').
  - destruct (no_devbind cnt); [by apply ghost_ret|]. eapply ghost_bind; [by apply mount_device_view|].
    intros o v' Ho. eapply ghost_bind; [apply (push_view _ _ _ _ (fun _ v => v = v')); done|]. intros _ ? ->.
    destruct o; by apply ghost_ret.
  - intros [mnt' []] v' Hv'; cbn [fst snd] in *; [|by apply ghost_ret].
    eapply ghost_bind with (R1 := fun _ v => v = v'); [by apply allow_device_view|]. intros ok ? ->. apply ghost_ret.
    cbn [fst snd]. case_match; [done|by apply good_bad].
Qed.

Lemma driver_stages_keeps info : keeps (driver_stages ctx cnt info).
Proof.
  unfold driver_stages. cbv zeta. do 3 (apply then_keeps; [apply some_files_stage_keeps|]).
  apply then_keeps; [apply links_stage_keeps|]. apply then_keeps; [apply cntlibs_stage_keeps|].
  induction (devs info) as [|d ds IH]; cbn [devices_stage]; [intros mnt v Hg; by apply ghost_ret|].
  apply then_keeps; [apply device_stage_keeps|exact IH].
Qed.
End DriverView.

Definition no_mounts : view := mkView [] [] None false.

(** What the functions that enter the container leave: on success the process is
    back in its namespace; on failure it never left it, or is back, or the kernel
    refused the way back. *)
Definition ns_post (ctx : nvc_context) (Ok : list (string * Z) -> Prop) (Fail : view -> Prop) (r : option unit) (v : view) : Prop :=
  match r with
  | Some _ => here v = Some (mnt_ns ctx) /\ Ok (live v)
  | None =>
      (here v = None /\ live v = []) \/ (here v = Some (mnt_ns ctx) /\ Fail v) \/
      (refused v = true /\ Ok (live v))
  end.

Lemma ns_enter_view p n v :
  ghost view_step (ns_enter p n) v (fun r v' => match r with
    | Some _ => exists fd, v' = mkView (live v) (stuck v) (Some fd) false
    | None => live v' = live v /\ here v' = here v
    end).
Proof. unfold ns_enter. repeat gstep; cbn; eauto. Qed.

Lemma ns_enter_at_view fd n v :
  ghost view_step (ns_enter_at fd n) v (fun r v' => match r with
    | Some _ => v' = mkView (live v) (stuck v) (Some fd) false
    | None => v' = mkView (live v) (stuck v) (here v) true
    end).
Proof. unfold ns_enter_at. repeat gstep; done. Qed.

Lemma in_container_view `{CgroupOps} ctx cnt body (Ok : list (string * Z) -> Prop) (Fail : view -> Prop) :
  (forall v n r, Fail v -> Fail (mkView (live v) (stuck v) n r)) ->
  (forall fd, ghost view_step body (mkView [] [] (Some fd) false)
     (fun r v => match r with Some _ => Ok (live v) | None => Fail v end)) ->
  ghost view_step (in_container ctx cnt body) no_mounts (ns_post ctx Ok Fail).
Proof.
  intros HF Hb. unfold in_container. eapply ghost_bind; [apply ns_enter_view|].
  intros [] v Hv; [|apply ghost_ret; left; by destruct Hv]. destruct Hv as [fd ->].
  eapply ghost_bind; [apply Hb|]. intros rv v Hv. unfold leave_ns. destruct rv.
  - eapply ghost_post; [apply ns_enter_at_view|]. intros [] ? ->; [by split|]. by right; right.
  - eapply ghost_bind; [apply ghost_null_err, ns_enter_at_view|]. intros [] ? ->; [|apply ghost_halt].
    apply ghost_ret. right; left. split; [done|]. by apply HF.
Qed.

(** What is left after a failure: one mount at most, and those that the kernel
    refused to detach. *)
Definition undone (v : view) : Prop := exists x, names v ⊆+ stuck v ++ [x].

Lemma undone_length v : undone v -> stuck v = [] -> (length (live v) <= 1)%nat.
Proof. intros [x Hx] Hs. rewrite Hs in Hx. apply submseteq_length in Hx. unfold names in Hx. by rewrite length_map in Hx. Qed.

Lemma nvc_driver_mount_view (ops : CgroupOps) H `{!CgroupLaws ops H} ctx cnt info :
  abs (rootfs_of cnt) ->
  ghost view_step (nvc_driver_mount ctx (Some cnt) (Some info)) no_mounts
    (ns_post ctx (Forall hardened) undone).
Proof.
  intros Hr. unfold nvc_driver_mount. gstep. destruct a; [|apply ghost_ret; by left].
  apply in_container_view; [done|]. intros fd. set (v0 := mkView [] [] (Some fd) false).
  assert (good v0 [] v0) as Hg by (repeat split; constructor).
  gstep. destruct a; [|apply ghost_ret; by apply (good_bad v0 [])]. eapply ghost_bind; [by apply (driver_stages_keeps ops H)|].
  intros [mnt []] v Hv; cbn [fst snd] in *; [apply ghost_ret; apply Hv|].
  destruct Hv as (Hns & Hn & x & Hx). eapply ghost_bind; [by apply (unmount_all_view _ v0 [x])|].
  intros _ v' (Hns' & Hn' & Hx'). apply ghost_ret. by exists x.
Qed.

(** ** Properties *)

(** C11: a successful [nvc_driver_mount] leaves the process in its own namespace,
    and every mount it leaves in the container is read-only and ignores
    set-user-id bits.  A failed one leaves the process in its own namespace, and of
    its mounts at most one besides those that the kernel refused to detach
    ([umount2] with [MNT_DETACH]), unless the kernel refused the way back. *)
Theorem nvc_driver_mount_undoes (ops : CgroupOps) (H : stop -> Prop) (laws : CgroupLaws ops H)
    (o : env) ctx cnt info (s : st) :
  abs (rootfs_of cnt) ->
  match exec o (nvc_driver_mount ctx (Some cnt) (Some info)) s with
  | (t, Done (_, r)) =>
      ns_post ctx (Forall hardened) undone r (fold_left view_step t no_mounts)
  | (_, Halted _) => True
  end.
Proof. intros Hr. by apply (ghost_run view_step o), (nvc_driver_mount_view ops H). Qed.

Lemma nvc_driver_mount_undoes_witness :
  exists s, snd (exec demo_mount_host (nvc_driver_mount (H := Nvcgo.ops) demo_ctx (Some demo_cnt) (Some demo_info)) init_st)
      = Done (s, Some tt) /\
    exists v, v = fold_left view_step (fst (exec demo_mount_host (nvc_driver_mount (H := Nvcgo.ops) demo_ctx (Some demo_cnt)
                                 (Some demo_info)) init_st)) no_mounts /\
    map fst (live v) = ["/ctr/dev/dri/renderD128"; "/ctr/usr/lib/libGL_xdxgpu.so.1.2.3"; "/ctr/usr/lib/libdrm.so.2";
                        "/ctr/usr/bin/xdxsmi"] /\
    here v = Some 3 /\ Forall hardened (live v).
Proof.
  pose proof (nvc_driver_mount_undoes Nvcgo.ops rpc_stops nvcgo_laws demo_mount_host demo_ctx demo_cnt demo_info init_st
    eq_refl) as H.
  destruct (exec demo_mount_host _ init_st) as [t out] eqn:E.
  assert (out = snd (exec demo_mount_host (nvc_driver_mount (H := Nvcgo.ops) demo_ctx (Some demo_cnt) (Some demo_info)) init_st))
    as E2 by by rewrite E.
  assert (t = fst (exec demo_mount_host (nvc_driver_mount (H := Nvcgo.ops) demo_ctx (Some demo_cnt) (Some demo_info)) init_st))
    as E1 by by rewrite E.
  vm_compute in E2. subst out. eexists. split; [reflexivity|]. eexists. split; [reflexivity|].
  destruct H as [H1 H2]. cbn [fst] in *. split; [|by split]. rewrite E1. vm_compute. reflexivity.
Defined.

(** ** The other calls *)

Lemma returns_home_view `{CgroupOps} ctx cnt body :
  ghost view_step (in_container ctx cnt body) no_mounts (ns_post ctx (fun _ => True) (fun _ => True)).
Proof.
  apply in_container_view; [done|]. intros fd s. eapply wp_mono; [|apply wp_true].
  intros t [[s' [|]]|w] _; done.
Qed.

(** Every call that mounts devices or capabilities into a container comes back
    to the namespace of the process when it succeeds; when it fails, it comes
    back too, or never left it, or the kernel refused the way back. *)
Lemma mount_calls_return_home (ops : CgroupOps) (o : env) ctx cnt dev mig (s : st) :
  Forall (fun m => match exec o m s with
    | (t, Done (_, r)) => ns_post ctx (fun _ => True) (fun _ => True) r (fold_left view_step t no_mounts)
    | (_, Halted _) => True
    end)
    [nvc_device_mount ctx (Some cnt) (Some dev); nvc_mig_device_access_caps_mount ctx (Some cnt) (Some mig);
     nvc_mig_config_global_caps_mount ctx (Some cnt); nvc_mig_monitor_global_caps_mount ctx (Some cnt);
     nvc_device_mig_caps_mount ctx (Some cnt) (Some dev)].
Proof.
  assert (forall body, ghost view_step (let? _ := validate_context ctx else ret None in in_container ctx cnt body)
    no_mounts (ns_post ctx (fun _ => True) (fun _ => True))) as Hb.
  { intros body. gstep. destruct a; [apply returns_home_view|]. apply ghost_ret. by left. }
  repeat (constructor; [apply (ghost_run view_step o); apply Hb|]). constructor.
Qed.
