(* ===== verification/MountProvides.v ===== *)
(** * What a successful mount provides

    When [nvc_driver_mount] of [src/src/nvc_mount.c] succeeds, every file of the
    driver that the options select, and every device that is not left out, has been
    bound into the container, and nothing was taken away again. *)
From S2P Require Import Prelude CString Regex Effects Logic Errors Options Utils Types Paths Files Components Devices Pci Modprobe Ldcache Driver Cgroup Info Container Mount MountSafety MountState.

(** ** Traces without an unmount *)

Definition keeps_mount (ev : event) : Prop := match ev_call ev with EUmount _ _ => False | _ => True end.
Definition kept (t : trace) : Prop := Forall keeps_mount t.

Lemma kept_kinds K ev : forallb (fun k => negb (bool_decide (k = KMount))) K = true -> only K ev -> keeps_mount ev.
Proof.
  intros HK Hev. destruct ev as [[] r]; try exact I. unfold only, kind_of in Hev. cbn in Hev.
  rewrite forallb_forall in HK. apply bool_decide_eq_true, list_elem_of_In in Hev. by apply HK in Hev.
Qed.

Lemma kept_cgroup ev : cgroup_event ev -> keeps_mount ev.
Proof. by destruct ev as [[] r]. Qed.

Lemma kept_app t t' : kept t -> kept t' -> kept (t ++ t').
Proof. intros H H'. by apply Forall_app. Qed.

(** A call that mounts nothing. *)
Lemma attains_quiet {A} P H (m : M (option A)) (Rm : option A -> Prop) :
  ensures P H m Rm -> (forall ev, P ev -> keeps_mount ev) -> attains m (fun a t => kept t /\ Rm (Some a)).
Proof.
  intros Hm HP. eapply gives_post; [by eapply attains_ensures|]. intros [a|] t Ht; [|done]. destruct Ht as [Ht ?].
  split; [|done]. eapply Forall_impl; [exact Ht|]. exact HP.
Qed.

Lemma attains_kinds {A} K H (m : M (option A)) (Rm : option A -> Prop) :
  ensures (only K) H m Rm -> forallb (fun k => negb (bool_decide (k = KMount))) K = true ->
  attains m (fun a t => kept t /\ Rm (Some a)).
Proof. intros Hm HK. eapply attains_quiet; [exact Hm|]. intros ev. by apply kept_kinds. Qed.

(** ** Bind mounts *)

(** [src] was bound at [dst], and remounted with [fl]. *)
Definition bound (src dst : string) (fl : Z) (t : trace) : Prop :=
  Event (EMount (Some src) dst None MS_BIND None) (SOk tt) ∈ t /\
  Event (EMount None dst None (MS_BIND .| MS_REMOUNT .| fl) None) (SOk tt) ∈ t.

Lemma bound_more src dst fl t t' : bound src dst fl t -> t ⊆ t' -> bound src dst fl t'.
Proof. intros [H1 H2] Hs. split; by apply Hs. Qed.

Lemma xmount_attains src dst fs fl d :
  attains (xmount src dst fs fl d) (fun _ t => t = [Event (EMount src dst fs fl d) (SOk tt)]).
Proof.
  unfold xmount. eapply gives_bind; [by apply gives_call with (R := fun r t => t = [Event (EMount src dst fs fl d) r])|].
  intros [[]|e] t ->; [by apply gives_ret|].
  eapply gives_bind with (R1 := fun r _ => r = None); [by intros ?|]. intros ? t ->. apply attains_none.
Qed.

Lemma bind_remount_attains src dst fl : attains (bind_remount src dst fl) (fun _ t => kept t /\ bound src dst fl t).
Proof.
  unfold bind_remount. eapply attains_bind; [apply xmount_attains|]. intros _ t ->.
  eapply attains_bind; [apply xmount_attains|]. intros _ t ->.
  eapply gives_post; [by eapply attains_kinds; [apply xstrdup_ens|]|]. intros [m|] t; [|done].
  intros [Ht _]. split; [by repeat constructor|]. split; set_solver.
Qed.

(** ** Files *)

Section Container.
Variable cnt : nvc_container.
Hypothesis Hroot : abs (rootfs_of cnt).

(** Whether the options select a file. *)
Definition wanted (path : string) : bool :=
  match_binary_flags (basename path) (flags cnt) || match_library_flags (basename path) (flags cnt).

Definition file_flags : Z := MS_RDONLY .| MS_NODEV .| MS_NOSUID.

(** The file [path] below [root] was bound to its name in a directory inside the
    container, read-only. *)
Definition delivered (root path : string) (t : trace) : Prop :=
  exists src dst dir, comps src = comps root ++ comps' path /\ inside (rootfs_of cnt) dir /\
    comps dst = comps dir ++ comps' (basename path) /\ bound src dst file_flags t.

Lemma delivered_more root path t t' : delivered root path t -> t ⊆ t' -> delivered root path t'.
Proof. intros (src & dst & dir & ? & ? & ? & Hb) Hs. exists src, dst, dir. eauto using bound_more. Qed.

Lemma mount_file_attains src dst path :
  strlen src < PATH_MAX -> strlen dst < PATH_MAX -> inside (rootfs_of cnt) dst ->
  attains (mount_file cnt src dst path) (fun _ t => kept t /\ (wanted path = true -> delivered src path t)).
Proof.
  intros Hs Hd Hin. unfold mount_file, wanted. cbv zeta. rewrite <- negb_orb. destruct (_ || _); cbn [negb].
  2:{ apply gives_ret. split; [constructor|done]. }
  eapply attains_bind; [by eapply attains_kinds; [by apply path_append_comps|]|]. intros src' t1 (H1 & _ & Hcs).
  eapply attains_bind; [by eapply attains_kinds; [by apply path_append_comps|]|]. intros dst' t2 (H2 & _ & Hcd).
  eapply attains_bind; [by eapply attains_kinds; [apply file_mode_ens|]|]. intros mode t3 (H3 & _).
  eapply attains_bind; [by eapply attains_kinds; [by apply file_create_kinds|]|].
  intros _ t4 (H4 & _). eapply attains_bind; [apply bind_remount_attains|]. intros m t5 (H5 & Hb).
  apply gives_ret. rewrite app_nil_r. split; [by repeat apply kept_app|]. intros _. exists src', dst', dst.
  split_and!; [done..|]. eapply bound_more; [exact Hb|]. set_solver.
Qed.

Lemma mount_loop_attains {A} (mount : A -> M (option (option string))) (Q : A -> trace -> Prop) paths mnt :
  (forall p t t', Q p t -> t ⊆ t' -> Q p t') -> (forall p, attains (mount p) (fun _ t => kept t /\ Q p t)) ->
  attains (mount_loop mount paths mnt) (fun _ t => kept t /\ forall p, p ∈ paths -> Q p t).
Proof.
  intros HQ Hm. revert mnt. induction paths as [|p paths IH]; intros mnt; cbn [mount_loop].
  { apply gives_ret. split; [constructor|]. by intros p ?%not_elem_of_nil. }
  assert (forall mnt t, kept t /\ Q p t ->
    attains (mount_loop mount paths mnt) (fun _ t' => kept (t ++ t') /\ forall q, q ∈ p :: paths -> Q q (t ++ t'))) as Hrest.
  { intros mnt' t [Hk Hp]. eapply gives_post; [apply (IH mnt')|]. intros [l|] t'; [|done]. intros [Hk' Hq].
    split; [by apply kept_app|]. intros q [->|Hin]%elem_of_cons; [eapply HQ; [exact Hp|]|eapply HQ; [by apply Hq|]]; set_solver. }
  eapply gives_bind; [apply Hm|]. intros [[m|]|] t Ht; [by apply Hrest..|apply attains_none].
Qed.

Lemma mount_files_attains root dir paths :
  abs root ->
  attains (mount_files root cnt dir paths) (fun _ t => kept t /\
    forall p, p ∈ paths -> wanted p = true -> delivered root p t).
Proof.
  intros Hr. unfold mount_files.
  eapply attains_bind; [by eapply attains_kinds; [apply path_new_comps|]|]. intros src t1 (H1 & Hs & Hcs).
  eapply gives_bind with (R1 := fun _ t => t = []); [by destruct dir|]. intros dir' ? ->. cbn [app].
  assert (comps' root = comps root) as E by (unfold comps'; by rewrite str_empty_slash).
  eapply attains_bind; [by eapply attains_kinds; [apply path_resolve_full_ens|]|]. intros dst t2 (H2 & Hd & Hb).
  eapply attains_bind; [by eapply attains_kinds; [apply file_create_kinds|]|]. intros _ t3 (H3 & _).
  eapply attains_bind; [by eapply attains_kinds; [apply array_new_ens|]|]. intros _ t4 (H4 & _).
  eapply gives_post.
  - apply (mount_loop_attains (mount_file cnt src dst) (fun p t => wanted p = true -> delivered src p t)).
    + intros p t t' Hp Hsub Hw. by eapply delivered_more; [apply Hp|].
    + intros p. apply mount_file_attains; [done..|]. by apply beneath_inside.
  - intros [l|] t; [|done]. intros [Hk Hp]. split; [by repeat apply kept_app|]. intros p Hin Hw.
    destruct (Hp p Hin Hw) as (s & d & dd & Hs' & ? & ? & Hbd). exists s, d, dd. rewrite <- E, <- Hcs.
    split_and!; [done..|]. eapply bound_more; [exact Hbd|]. set_solver.
Qed.

(** ** Devices *)

Definition device_flags : Z := MS_RDONLY .| MS_NOSUID .| MS_NOEXEC.

(** The node of the device below [root] was bound inside the container. *)
Definition attached (root : string) (dev : nvc_device_node) (t : trace) : Prop :=
  exists path src dst, node_path dev = Some path /\ comps src = comps root ++ comps' path /\
    inside (rootfs_of cnt) dst /\ bound src dst device_flags t.

Lemma attached_more root dev t t' : attached root dev t -> t ⊆ t' -> attached root dev t'.
Proof. intros (path & src & dst & ? & ? & ? & Hb) Hs. exists path, src, dst. eauto using bound_more. Qed.

Lemma mount_device_attains root dev :
  abs root -> attains (mount_device root cnt dev) (fun _ t => kept t /\ attached root dev t).
Proof.
  intros Hr. unfold mount_device. destruct (node_path dev) as [path|] eqn:Hp; [|by intros ?].
  eapply attains_bind; [by eapply attains_kinds; [apply path_join_comps|]|]. intros src t1 (H1 & _ & Hcs).
  assert (comps' root = comps root) as E by (unfold comps'; by rewrite str_empty_slash).
  eapply attains_bind; [by eapply attains_kinds; [apply path_resolve_full_ens|]|]. intros dst t2 (H2 & Hd & Hb).
  eapply attains_bind; [by eapply attains_kinds; [apply xstat_ens|]|]. intros st t3 (H3 & _).
  destruct (negb _); [apply attains_none|].
  eapply attains_bind; [by eapply attains_kinds; [apply file_mode_ens|]|]. intros mode t4 (H4 & _).
  eapply attains_bind; [by eapply attains_kinds; [apply file_create_kinds|]|]. intros _ t5 (H5 & _).
  unfold or_unmount. eapply gives_bind; [apply bind_remount_attains|]. intros [m|] t6; [|intros _; apply attains_none].
  intros [H6 Hbd]. apply gives_ret. rewrite app_nil_r. split; [by repeat apply kept_app|].
  exists path, src, dst. split_and!; [done|by rewrite Hcs, E|by apply beneath_inside|].
  eapply bound_more; [exact Hbd|]. set_solver.
Qed.

(** ** The stages of the driver *)

Context `{ops : CgroupOps} (H : stop -> Prop) `{!CgroupLaws ops H}.

(** A stage that goes on has done [Q]. *)
Definition reaches (s : stage) (Q : trace -> Prop) : Prop :=
  forall mnt, gives (s mnt) (fun r t => snd r = true -> kept t /\ Q t).

(** What was done stays done. *)
Definition lasting (Q : trace -> Prop) : Prop := forall t t', Q t -> t ⊆ t' -> Q t'.

Lemma lasting_and (Q Q' : trace -> Prop) : lasting Q -> lasting Q' -> lasting (fun t => Q t /\ Q' t).
Proof. intros HQ HQ' t t' [? ?] Hs. split; [by eapply HQ|by eapply HQ']. Qed.

Lemma then_reaches a b (Qa Qb : trace -> Prop) :
  lasting Qa -> lasting Qb ->
  reaches a Qa -> reaches b Qb -> reaches (then_ a b) (fun t => Qa t /\ Qb t).
Proof.
  intros HQa HQb Ha Hb mnt. unfold then_. eapply gives_bind; [apply Ha|]. intros [mnt' []] t Ht; cbn [fst snd] in *.
  - destruct (Ht eq_refl) as [Hk Hq]. eapply gives_post; [apply Hb|]. intros r t' Hr Ho. destruct (Hr Ho) as [Hk' Hq'].
    split; [by apply kept_app|]. split; [eapply HQa; [exact Hq|]|eapply HQb; [exact Hq'|]]; set_solver.
  - by apply gives_ret.
Qed.

Lemma files_stage_reaches nmnt root dir paths :
  abs root ->
  reaches (files_stage nmnt root cnt dir paths) (fun t => forall p, p ∈ paths -> wanted p = true -> delivered root p t).
Proof.
  intros Hr mnt. unfold files_stage. eapply gives_bind; [by apply mount_files_attains|].
  intros [tmp|] t Ht; [|by apply gives_ret]. unfold push. case_match; [by intros ?|].
  apply gives_ret. intros _. by rewrite app_nil_r.
Qed.

Lemma some_files_stage_reaches nmnt root dir paths :
  abs root ->
  reaches (some_files_stage nmnt root cnt dir paths) (fun t => forall p, p ∈ paths -> wanted p = true -> delivered root p t).
Proof.
  intros Hr. destruct paths; [|by apply files_stage_reaches]. intros mnt. apply gives_ret. intros _.
  split; [constructor|]. by intros p ?%not_elem_of_nil.
Qed.

Lemma device_stage_reaches nmnt ctx dev :
  abs (cfg_root (cfg ctx)) ->
  reaches (device_stage nmnt ctx cnt dev)
    (fun t => skips_device ctx cnt dev = false -> no_devbind cnt = false -> attached (cfg_root (cfg ctx)) dev t).
Proof.
  intros Hr mnt. unfold device_stage. destruct (skips_device ctx cnt dev); [apply gives_ret; by split; [constructor|]|].
  eapply gives_bind with (R1 := fun r t => snd r = true -> kept t /\
    (no_devbind cnt = false -> attached (cfg_root (cfg ctx)) dev t)).
  - destruct (no_devbind cnt); [apply gives_ret; by split; [constructor|]|]. eapply gives_bind; [by apply mount_device_attains|].
    intros m t Hm. unfold push. case_match; [by intros ?|]. destruct m as [m|]; apply gives_ret; cbn; [|done].
    intros _. by rewrite app_nil_r; destruct Hm.
  - intros [mnt' []] t Ht; cbn [fst snd] in *; [|by apply gives_ret]. destruct (Ht eq_refl) as [Hk Ha].
    eapply gives_bind with (R1 := fun _ t => kept t).
    { unfold allow_device. destruct (no_cgroups cnt); [apply gives_ret; constructor|].
      eapply gives_post; [eapply gives_ensures, setup_law|]. intros r t' [Ht' _].
      eapply Forall_impl; [exact Ht'|]. apply kept_cgroup. }
    intros ok t' Hk'. apply gives_ret. intros _. rewrite app_nil_r. split; [by apply kept_app|]. intros _ Hn.
    eapply attached_more; [by apply Ha|]. set_solver.
Qed.

Lemma devices_stage_reaches nmnt ctx devs :
  abs (cfg_root (cfg ctx)) ->
  reaches (devices_stage nmnt ctx cnt devs) (fun t => forall d, d ∈ devs ->
    skips_device ctx cnt d = false -> no_devbind cnt = false -> attached (cfg_root (cfg ctx)) d t).
Proof.
  intros Hr. induction devs as [|d ds IH]; cbn [devices_stage].
  { intros mnt. apply gives_ret. intros _. split; [constructor|]. by intros d ?%not_elem_of_nil. }
  intros mnt. eapply gives_post; [apply then_reaches; [| |by apply device_stage_reaches|apply IH]|].
  - intros t t' Ha Hs ? ?. by eapply attached_more; [apply Ha|].
  - intros t t' Ha Hs ? ? ? ?. by eapply attached_more; [apply Ha|].
  - intros r t Ht Ho. destruct (Ht Ho) as (Hk & Hd & Hds). split; [done|]. intros d' [->|Hin]%elem_of_cons; auto.
Qed.

(** What a successful [nvc_driver_mount] has done. *)
Record provides (ctx : nvc_context) (info : nvc_driver_info) (t : trace) : Prop := {
  p_kept : kept t;
  p_files : forall p, p ∈ bins info ++ libs info ++ (if has_flag (flags cnt) OPT_COMPAT32 then libs32 info else []) ->
    wanted p = true -> delivered (cfg_root (cfg ctx)) p t;
  p_devices : forall d, d ∈ devs info -> skips_device ctx cnt d = false -> no_devbind cnt = false ->
    attached (cfg_root (cfg ctx)) d t
}.

Lemma links_stage_reaches : reaches (links_stage cnt) (fun _ => True).
Proof.
  intros mnt. unfold links_stage. eapply gives_bind; [eapply gives_ensures, symlink_libraries_kinds|].
  intros r t [Ht _]. apply gives_ret. intros _. rewrite app_nil_r. split; [|done].
  eapply Forall_impl; [exact Ht|]. intros ev. by apply kept_kinds.
Qed.

Lemma cntlibs_stage_reaches nmnt info : reaches (cntlibs_stage nmnt cnt info) (fun _ => True).
Proof.
  intros mnt. unfold cntlibs_stage. destruct (clibs cnt) as [|l ls]; [apply gives_ret; by split; [constructor|]|].
  eapply gives_bind; [eapply gives_ensures, array_copy_ens|]. intros [libs|] t [Ht Hl]; [|by apply gives_ret]. subst libs.
  eapply gives_bind; [eapply gives_ensures, filter_libraries_ens|]. intros libs t' [Ht' _].
  eapply gives_post; [by apply files_stage_reaches|]. intros r t2 Hr Ho. destruct (Hr Ho) as [Hk _].
  split; [|done]. repeat apply kept_app; [..|done]; (eapply Forall_impl; [eassumption|]; intros ev; by apply kept_kinds).
Qed.

Lemma driver_stages_reaches ctx info :
  abs (cfg_root (cfg ctx)) -> reaches (driver_stages ctx cnt info) (provides ctx info).
Proof.
  intros Hr mnt. unfold driver_stages. cbv zeta.
  set (F := fun (paths : list string) t => forall p, p ∈ paths -> wanted p = true -> delivered (cfg_root (cfg ctx)) p t).
  set (D := fun t => forall d, d ∈ devs info -> skips_device ctx cnt d = false -> no_devbind cnt = false ->
    attached (cfg_root (cfg ctx)) d t).
  assert (forall paths, lasting (F paths)) as HF.
  { intros paths t t' Ha Hs ? ? ?. by eapply delivered_more; [apply Ha|]. }
  assert (lasting D) as HD.
  { intros t t' Ha Hs ? ? ? ?. by eapply attached_more; [apply Ha|]. }
  assert (lasting (fun _ => True)) as HT by done.
  eapply gives_post.
  - apply (then_reaches _ _ (F (bins info)) (fun t => F (libs info) t /\
      F (if has_flag (flags cnt) OPT_COMPAT32 then libs32 info else []) t /\ True /\ True /\ D t));
      [done|by repeat apply lasting_and|by apply some_files_stage_reaches|].
    do 2 (apply then_reaches; [done|by repeat apply lasting_and|by apply some_files_stage_reaches|]).
    apply then_reaches; [done|by repeat apply lasting_and|apply links_stage_reaches|].
    apply then_reaches; [done..|apply cntlibs_stage_reaches|by apply devices_stage_reaches].
  - intros r t Ht Ho. destruct (Ht Ho) as (Hk & Hb & Hl & Hl32 & _ & _ & Hd). split; [done|]. split; [done| |done].
    intros p [Hin|[Hin|Hin]%elem_of_app]%elem_of_app Hw; [by apply Hb|by apply Hl|by apply Hl32].
Qed.

Lemma provides_around ctx info t0 t t' :
  kept t0 -> kept t' -> provides ctx info t -> provides ctx info (t0 ++ t ++ t').
Proof.
  intros H0 H1 [Hk Hf Hd]. split; [by repeat apply kept_app| |].
  - intros p Hp Hw. eapply delivered_more; [by apply Hf|]. set_solver.
  - intros d Hd' ? ?. eapply attached_more; [by apply Hd|]. set_solver.
Qed.

Lemma nvc_driver_mount_attains ctx info :
  abs (cfg_root (cfg ctx)) -> attains (nvc_driver_mount ctx (Some cnt) (Some info)) (fun _ t => provides ctx info t).
Proof.
  intros Hr. unfold nvc_driver_mount, in_container.
  eapply attains_bind; [by eapply attains_kinds; [apply validate_context_ens|]|]. intros _ t1 (H1 & _).
  eapply attains_bind; [by eapply attains_kinds; [apply ns_enter_ens|]|]. intros _ t2 (H2 & _).
  eapply gives_bind with (R1 := fun r t => match r with Some _ => provides ctx info t | None => True end).
  - eapply attains_bind; [by eapply attains_kinds; [apply array_new_ens|]|]. intros _ t3 (H3 & _).
    eapply gives_bind; [by apply driver_stages_reaches|]. intros [mnt []] t4 H4; cbn [fst snd] in *; [|apply attains_none].
    apply gives_ret. destruct (H4 eq_refl) as [H5 H6]. rewrite app_nil_r. rewrite <- (app_nil_r t4).
    apply provides_around; [done|constructor|done].
  - intros [[]|] t4 H4; cbn [leave_ns]; [|].
    + eapply gives_post; [by eapply attains_kinds; [apply ns_enter_at_ens|]|]. intros [[]|] t5; [|done].
      intros [H5 _]. rewrite app_assoc. apply provides_around; [by apply kept_app|done|done].
    + eapply gives_bind; [apply gives_any|]. intros [[]|] t5 _; [by apply gives_ret|by intros ?].
Qed.
End Container.

(** C9: a successful [nvc_driver_mount] provides the container with the driver,
    whatever the kernel answered: each program and library that the options
    select was bound, read-only, to its name in a directory inside the container;
    each device that is not left out was bound inside the container; and nothing
    was unmounted. *)
Theorem nvc_driver_mount_provides (ops : CgroupOps) (H : stop -> Prop) (laws : CgroupLaws ops H)
    (o : env) ctx cnt info (s : st) :
  abs (rootfs_of cnt) -> abs (cfg_root (cfg ctx)) ->
  match exec o (nvc_driver_mount ctx (Some cnt) (Some info)) s with
  | (t, Done (_, Some _)) => provides cnt ctx info t
  | _ => True
  end.
Proof.
  intros Hc Hr. pose proof (gives_run o _ _ s (nvc_driver_mount_attains cnt Hc H ctx info Hr)) as Hg.
  by destruct (exec o _ s) as [t [[s' [r|]]|w]].
Qed.

(** The run of the demonstration host succeeds and mounts three files. *)
Lemma nvc_driver_mount_provides_witness :
  exists s t, exec demo_mount_host (nvc_driver_mount (H := Nvcgo.ops) demo_ctx (Some demo_cnt) (Some demo_info)) init_st
      = (t, Done (s, Some tt)) /\
    length (bins demo_info ++ libs demo_info) = 3%nat /\
    forallb (wanted demo_cnt) (bins demo_info ++ libs demo_info) = true /\
    existsb (fun d => negb (skips_device demo_ctx demo_cnt d)) (devs demo_info) = true /\
    no_devbind demo_cnt = false /\ provides demo_cnt demo_ctx demo_info t.
Proof.
  pose proof (nvc_driver_mount_provides Nvcgo.ops rpc_stops nvcgo_laws demo_mount_host demo_ctx demo_cnt demo_info init_st
    eq_refl eq_refl) as H.
  destruct (exec demo_mount_host _ init_st) as [t out] eqn:E.
  assert (out = snd (exec demo_mount_host (nvc_driver_mount (H := Nvcgo.ops) demo_ctx (Some demo_cnt) (Some demo_info)) init_st))
    as E2 by by rewrite E.
  vm_compute in E2. subst out. eexists _, t. split; [reflexivity|]. split_and!; [vm_compute; reflexivity..|exact H].
Defined.
