(* ===== verification/MountFaults.v ===== *)
(** * What goes wrong in the mounts

    Runs of [Mount] that end in undefined behaviour or leave mounts behind. *)
From S2P Require Import Prelude CString Regex Effects Logic Errors Options Utils Types Paths Files Components Devices Pci Modprobe Ldcache Driver Cgroup Info Container Mount MountSafety MountState.

(** The mounts a run leaves. *)
Definition left_by {A} (o : env) (m : M A) : list (string * Z) :=
  live (fold_left view_step (fst (exec o m init_st)) no_mounts).

(** ** A remount that fails *)

Definition refuses_remount (p : string) : env := fun h e =>
  match e return resp e with
  | EMount None q _ _ _ => if str_equal p q then SErr EPERM else SOk tt
  | e => demo_mount_host h e
  end.

(** When the remount of a library is refused, [nvc_driver_mount] fails and
    undoes the mounts made before, but not this one: the library of the host
    stays mounted in the container, writable. *)
Theorem nvc_driver_mount_leaks :
  exists s, snd (exec (refuses_remount "/ctr/usr/lib/libdrm.so.2")
                   (nvc_driver_mount (H := Nvcgo.ops) demo_ctx (Some demo_cnt) (Some demo_info)) init_st) = Done (s, None) /\
    left_by (refuses_remount "/ctr/usr/lib/libdrm.so.2")
      (nvc_driver_mount (H := Nvcgo.ops) demo_ctx (Some demo_cnt) (Some demo_info)) = [("/ctr/usr/lib/libdrm.so.2", 0)].
Proof. eexists. split; vm_compute; reflexivity. Qed.

(** ** A device whose control group cannot be set up *)

Definition refuses_cgroup : env := fun h e =>
  match e return resp e with
  | ECgroup _ _ _ => Some (1, "denied")
  | e => demo_gpu_host h e
  end.

(** When the control group of a device cannot be set up, [nvc_device_mount]
    fails and undoes the device and the configuration directory, but leaves the
    tool directory and the video libraries mounted. *)
Theorem nvc_device_mount_leaks :
  exists s, snd (exec refuses_cgroup (nvc_device_mount (H := Nvcgo.ops) demo_ctx (Some demo_cnt) (Some demo_gpu)) init_st)
      = Done (s, None) /\
    map fst (left_by refuses_cgroup (nvc_device_mount (H := Nvcgo.ops) demo_ctx (Some demo_cnt) (Some demo_gpu))) =
      ["/ctr/usr/lib/dri/xdxgpu_dri.so"; "/ctr/usr/lib/python3/dist-packages/xdxsmi"].
Proof. eexists. split; vm_compute; reflexivity. Qed.

(** ** Undefined behaviours *)

Definition no_caps_dir : env := fun h e =>
  match e return resp e with
  | EStat p => if str_equal p "/dev/nvidia-caps" then SErr ENOENT else demo_mount_host h (EStat p)
  | EFopen p m => if str_equal p NV_PROC_DEVICES_PATH then SOk demo_proc_devices else demo_mount_host h (EFopen p m)
  | e => demo_mount_host h e
  end.

(** When the directory of the capability devices cannot be examined, the call
    that mounts it unmounts a pointer that was never set. *)
Theorem mig_caps_unmounts_garbage :
  snd (exec no_caps_dir (nvc_mig_config_global_caps_mount (H := Nvcgo.ops) demo_ctx (Some demo_cnt)) init_st) =
    Halted (Undefined "unmount: uninitialised mnt").
Proof. vm_compute. reflexivity. Qed.

Definition many_libs : env := fun h e =>
  match e return resp e with
  | EOpendir _ => SOk ["xdxgpu_dri.so"; "xdxgpu_drv_video.so"; "xdxgpu_drv_video_a0.so"; "xdxgpu_drv_video_b0.so";
                       "xdxgpu_drv_video_c0.so"]
  | e => demo_gpu_host h e
  end.

(** A fifth video library in the directory of the host is written past the end
    of the array on the stack of [device_mount_native]. *)
Theorem fifth_library_overflows :
  snd (exec many_libs (nvc_device_mount (H := Nvcgo.ops) demo_ctx (Some demo_cnt) (Some demo_gpu)) init_st) =
    Halted (Undefined "library_search_in_dir: write past the end of libs").
Proof. vm_compute. reflexivity. Qed.

(** ** Compatibility libraries *)

(** The name of the library has a version behind [.so]. *)
Definition has_version (p : string) : Prop := is_Some (strstr (basename p) ".so.").

(** A stage that does not go on. *)
Definition never (s : stage) : Prop := forall mnt,
  ensures (fun _ => True) any_stop (s mnt) (fun r => snd r = false).

Lemma then_never_l a b : never a -> never (then_ a b).
Proof.
  intros Ha mnt. unfold then_. eapply ensures_bind; [apply Ha|]. intros [mnt' []] Hr; [done|by apply ensures_ret].
Qed.

Lemma then_never_r a b : never b -> never (then_ a b).
Proof.
  intros Hb mnt. unfold then_. eapply ensures_bind; [apply ensures_true|]. intros [mnt' []] _; [apply Hb|by apply ensures_ret].
Qed.

Lemma filter_never info l : nvrm_version info = None ->
  (exists p, p ∈ l /\ has_version p) -> forall acc,
  ensures (fun _ => True) any_stop (foldM (filter_library info) acc (map Some l)) (fun _ => False).
Proof.
  intros Hv (p & Hp & m & Hm). induction l as [|q l IH]; [by apply not_elem_of_nil in Hp|]. intros acc.
  cbn [map foldM]. unfold filter_library at 1.
  destruct (strstr (basename q) ".so.") eqn:E; [cbv zeta; rewrite Hv; by apply ensures_bind_halt|].
  apply ensures_bind_ret, IH. apply elem_of_cons in Hp as [->|Hp]; [congruence|done].
Qed.

Lemma cntlibs_never nmnt cnt info : nvrm_version info = None ->
  (exists p, p ∈ clibs cnt /\ has_version p) -> never (cntlibs_stage nmnt cnt info).
Proof.
  intros Hv Hl mnt. unfold cntlibs_stage. destruct (clibs cnt) as [|l ls]; [by destruct Hl as (p & Hp%not_elem_of_nil & _)|].
  eapply ensures_bind; [eapply ensures_weaken; [apply array_copy_ens|done|done|intros o Ho; exact Ho]|].
  intros [libs|]; [intros ->|intros _; by apply ensures_ret]. unfold filter_libraries. apply ensures_bind_bind.
  eapply ensures_bind; [by apply filter_never|done].
Qed.

(** The version of the driver is never filled in, so a container whose root
    has compatibility libraries with a version cannot be given the driver: no run
    of [nvc_driver_mount] succeeds. *)
Lemma compat_libraries_fail (ops : CgroupOps) (o : env) ctx cnt info (s : st) :
  wf_driver_info info -> (exists p, p ∈ clibs cnt /\ has_version p) ->
  match exec o (nvc_driver_mount ctx (Some cnt) (Some info)) s with
  | (_, Done (_, Some _)) => False
  | _ => True
  end.
Proof.
  intros Hw Hl. assert (ensures (fun _ => True) any_stop (nvc_driver_mount ctx (Some cnt) (Some info)) (fun r => r = None)) as He.
  { unfold nvc_driver_mount. eapply ensures_bind; [apply ensures_true|]. intros [] _; [|by apply ensures_ret].
    unfold in_container. eapply ensures_bind; [apply ensures_true|]. intros [] _; [|by apply ensures_ret].
    eapply ensures_bind with (R := fun r => r = None).
    - eapply ensures_bind; [apply ensures_true|]. intros [] _; [|by apply ensures_ret].
      eapply ensures_bind with (R := fun r => snd r = false); [|intros [mnt []] Hr; [done|]; cbn [snd]; eapply ensures_bind; [apply ensures_true|intros _ _; by apply ensures_ret]].
      unfold driver_stages. cbv zeta. do 4 apply then_never_r. apply then_never_l, cntlibs_never; [apply wf_version, Hw|done].
    - intros ? ->. cbn [leave_ns]. eapply ensures_bind; [apply ensures_true|]. intros [] _; [by apply ensures_ret|by apply ensures_halt]. }
  pose proof (ensures_run o _ _ _ _ s He) as Hr. destruct (exec o _ s) as [t [[s' [r|]]|w]]; [|done..]. by destruct Hr.
Qed.

Definition compat_cnt : nvc_container :=
  mkContainer demo_flags (ccfg demo_cnt) 0 0 "/proc/42/ns/mnt" 1 (Some "/cg") ["/usr/local/cuda/compat/libcuda.so.1"].
Definition found_info : nvc_driver_info := mkDriverInfo None None [] [] [] [] (devs demo_info) [].

Lemma compat_libraries_fail_witness :
  snd (exec demo_mount_host (nvc_driver_mount (H := Nvcgo.ops) demo_ctx (Some compat_cnt) (Some found_info)) init_st)
    = Halted (Undefined "strncmp(NULL)") /\
  ~ exists s, snd (exec demo_mount_host (nvc_driver_mount (H := Nvcgo.ops) demo_ctx (Some compat_cnt) (Some found_info)) init_st)
    = Done (s, Some tt).
Proof.
  split; [vm_compute; reflexivity|]. intros [s Hs].
  pose proof (compat_libraries_fail Nvcgo.ops demo_mount_host demo_ctx compat_cnt found_info init_st) as H.
  destruct (exec demo_mount_host _ init_st) as [t out]. simpl in Hs. subst out. apply H.
  - constructor; try done; constructor.
  - eexists. split; [apply list_elem_of_here|]. eexists. reflexivity.
Defined.
