(* ===== verification/MountLife.v ===== *)
(** * The memory of the mount of the driver

    [nvc_driver_mount] of [src/src/nvc_mount.c] with its arrays and strings: it is
    [Mount.nvc_driver_mount], gives the container and the information back as they
    were, and loses nothing but the expressions [macth_target_library] compiles and
    never frees. *)
From iris.proofmode Require Import proofmode.
From S2P Require Import Prelude CString Regex Effects Errors Options Utils Types Paths Files Cgroup Info Container Heap Lifetime.
From S2P Require Import DeviceLife DriverLife ContainerLife Mount MountSafety.

Section Mounting.
Context `{!Allocator block}.

(** ** Arrays *)

(** The string [arr[i]], which is not [NULL]. *)
Definition path_at (arr : ptr) (i : nat) : H string :=
  let! q := load_slot arr i in
  let! s := text q in
  match s with Some s => hret s | None => bad_pointer end.

Definition array_size (arr : ptr) : H nat :=
  let! l := load_ptrs arr in
  if decide (Null ∈ l) then hret (Utils.array_size (non_null <$> l)) else bad_pointer.

(** [array_append(arr + at_, src, n)]; the result is an index of [arr]. *)
Definition array_append (arr : ptr) (at_ : nat) (src : ptr) (n : nat) : H nat :=
  let! l := load_ptrs src in
  let! d := load_ptrs arr in
  if (length l <? n)%nat || (length d <? at_ + n)%nat then bad_pointer
  else do! store arr (Ptrs (take at_ d ++ take n l ++ drop (at_ + n) d)) in hret (at_ + n)%nat.

Definition array_copy (src : ptr) (n : nat) : H (option ptr) :=
  let!? arr := array_new n else hret None in
  do! array_append arr 0 src n in
  hret (Some arr).

(** ** Mounts *)

(** [for (i = 0; i < n; ++i) unmount(mnt[i]);] *)
Definition unmount_slots (mnt : ptr) (n : nat) : H unit :=
  hiter (fun i => let! q := load_slot mnt i in let! s := text q in hlift (unmount s)) (seq 0 n).

(** One turn of the loop of [mount_files]; [k] is [ptr - mnt]. *)
Definition mount_file (cnt : nvc_container) (src dst path : string) (mnt : ptr) (k : nat) : H (option nat) :=
  let file := basename path in
  if negb (match_binary_flags file (flags cnt)) && negb (match_library_flags file (flags cnt)) then hret (Some k)
  else
    let!? src := hlift (path_append src path) else hret None in
    let!? dst := hlift (path_append dst file) else hret None in
    let!? mode := hlift (file_mode src) else hret None in
    let!? _ := hlift (file_create dst None (cuid cnt) (cgid cnt) mode) else hret None in
    let!? _ := hlift (xmount (Some src) dst None MS_BIND None) else hret None in
    let!? _ := hlift (xmount None dst None (MS_BIND .| MS_REMOUNT .| (MS_RDONLY .| MS_NODEV .| MS_NOSUID)) None)
      else hret None in
    let! m := new_string (xstrdup dst) in
    do! store_slot mnt k (default Null m) in
    hret (match m with Some _ => Some (S k) | None => None end).

Definition mount_files (root : string) (cnt : nvc_container) (dir : option string) (paths : ptr) (size : nat) : H ptr :=
  let!? src := hlift (path_new root) else hret Null in
  let! dir := hlift (path_arg dir) in
  let!? dst := hlift (path_resolve_full (rootfs_of cnt) dir) else hret Null in
  let!? _ := hlift (file_create dst None (cuid cnt) (cgid cnt) (MODE_DIR m755)) else hret Null in
  let!? mnt := array_new (size + 1) else hret Null in
  let! r := hfold (fun k i => let! path := path_at paths i in mount_file cnt src dst path mnt k) 0%nat (seq 0 size) in
  match r with
  | Some _ => hret mnt
  | None =>
      do! unmount_slots mnt size in
      do! array_free (CArray mnt size) in
      hret Null
  end.

(** [dirname] may cut [tmp], which nobody reads afterwards. *)
Definition symlink_library (src target linkname : string) (uid gid : Z) : H (option unit) :=
  let!? tmp := new_string (xstrdup src) else hret None in
  let! s := text tmp in
  let! rv := hlift (let? path := path_join (dirname (default EmptyString s)) linkname else ret None in
                    file_create path (Some target) uid gid (MODE_LNK m777)) in
  do! free tmp in
  hret rv.

(** What [regcomp] allocates stays: [regfree] is never called. *)
Definition macth_target_library (lib : string) (pattern : regex) : H bool :=
  let! ok := hlift (call EAlloc) in
  if ok : bool then do! malloc Compiled in hret (regex_match pattern lib) else hret false.

Definition symlink_libraries (cnt : nvc_container) (mnt : ptr) (k : nat) : H (option unit) :=
  hfold (fun _ i =>
    let! path := path_at mnt i in
    match library_links (basename path) with
    | None => hret (Some tt)
    | Some (name, links) =>
        let! ok := macth_target_library (basename path) (versioned name) in
        if ok : bool then
          hfold (fun _ '(target, link) => symlink_library path target link (cuid cnt) (cgid cnt)) tt links
        else hret (Some tt)
    end) tt (seq 0 k).

(** [filter_libraries(info, paths, &size)]; the result is the new size. *)
Definition filter_libraries (info paths : ptr) (size : nat) : H nat :=
  do! hiter (fun i =>
    let! path := path_at paths i in
    match strstr (basename path) ".so." with
    | None => store_slot paths i Null
    | Some m =>
        let maj := str_drop 4 m in
        let! d := get_info info in
        let! v := text (c_nvrm_version d) in
        match v with
        | None => bad_pointer
        | Some v => if strneq (strspn maj "0123456789") v maj then store_slot paths i Null else hret tt
        end
    end) (seq 0 size) in
  let! arr := array_pack (CArray paths size) in
  hret (a_size arr).

(** [tmp = mount_files(...)], its strings moved to [mnt + k]. *)
Definition mount_into (mnt : ptr) (k : nat) (root : string) (cnt : nvc_container) (dir : option string)
    (paths : ptr) (size : nat) : H (option nat) :=
  let! tmp := mount_files root cnt dir paths size in
  match tmp with
  | Null => hret None
  | _ =>
      let! n := array_size tmp in
      let! k := array_append mnt k tmp n in
      do! free tmp in
      hret (Some k)
  end.

(** [if (paths != NULL && size > 0)] *)
Definition mount_array (mnt : ptr) (k : nat) root cnt dir (a : c_array) : H (option nat) :=
  match a_ptr a, a_size a with
  | Null, _ | _, O => hret (Some k)
  | p, size => mount_into mnt k root cnt dir p size
  end.

Definition mount_cntlibs (mnt : ptr) (k : nat) (cnt : nvc_container) (info : ptr) (a : c_array) : H (option nat) :=
  match a_ptr a, a_size a with
  | Null, _ | _, O => hret (Some k)
  | p, size =>
      let!? libs := array_copy p size else hret None in
      let! nlibs := filter_libraries info libs size in
      let! r := mount_into mnt k (rootfs_of cnt) cnt (libs_dir (ccfg cnt)) libs nlibs in
      do! free libs in
      hret r
  end.

Section Devices.
Context `{CgroupOps}.

(** The loop over the devices, from [devs[i]] on. *)
Definition mount_one_device (ctx : nvc_context) (cnt : nvc_container) (mnt devs : ptr) (k i : nat) : H (option nat) :=
  let! b := load devs in
  match b with
  | Nodes l =>
      match l !! i with
      | None => bad_pointer
      | Some n =>
          let! path := text (c_path n) in
          let dev := mkNode path (c_id n) in
          if skips_device ctx cnt dev then hret (Some k)
          else
            let!? k := (if no_devbind cnt then hret (Some k) else
                          let! m := new_string (mount_device (cfg_root (cfg ctx)) cnt dev) in
                          do! store_slot mnt k (default Null m) in
                          hret (match m with Some _ => Some (S k) | None => None end)) else hret None in
            let!? _ := hlift (allow_device cnt (node_id dev)) else hret None in
            hret (Some k)
      end
  | _ => bad_pointer
  end.

(** The parts of [nvc_driver_mount] between the two arrays of it. *)
Definition driver_mounts (ctx : nvc_context) (cnt : nvc_container) (clibs : c_array) (info mnt : ptr) (d : c_driver_info)
  : H (option nat) :=
  let root := cfg_root (cfg ctx) in
  let!? k := mount_array mnt 0 root cnt (bins_dir (ccfg cnt)) (c_bins d) else hret None in
  let!? k := mount_array mnt k root cnt (libs_dir (ccfg cnt)) (c_libs d) else hret None in
  let!? k := (if has_flag (flags cnt) OPT_COMPAT32 then mount_array mnt k root cnt (libs32_dir (ccfg cnt)) (c_libs32 d)
              else hret (Some k)) else hret None in
  let!? _ := symlink_libraries cnt mnt k else hret None in
  let!? k := mount_cntlibs mnt k cnt info clibs else hret None in
  hfold (fun k i => mount_one_device ctx cnt mnt (c_devs d) k i) k (seq 0 (c_ndevs d)).

Definition nvc_driver_mount (ctx : nvc_context) (cnt info : ptr) : H (option unit) :=
  let!? _ := hlift (validate_context ctx) else hret None in
  match cnt, info with
  | Null, _ | _, Null => hlift (validate_args false)
  | _, _ =>
      let! v := read_container cnt in
      let!? _ := hlift (ns_enter (cmnt_ns v) CLONE_NEWNS) else hret None in
      let! c := get_cnt cnt in
      let! d := get_info info in
      let nmnt := (2 + a_size (c_bins d) + a_size (c_libs d) + a_size (c_clibs c) + a_size (c_libs32 d)
                   + a_size (c_ipcs d) + c_ndevs d + a_size (c_firmwares d))%nat in
      let! mnt := array_new nmnt in
      let! r := (let!? mnt := hret mnt else hret None in driver_mounts ctx v (c_clibs c) info mnt d) in
      do! (match r, mnt with None, Some mnt => unmount_slots mnt nmnt | _, _ => hret tt end) in
      let! rv := hlift (leave_ns ctx (match r with Some _ => Some tt | None => None end)) in
      do! array_free (CArray (default Null mnt) nmnt) in
      hret rv
  end.
End Devices.

(** ** Reading arrays *)

(** With [R], the strings of [arr] are [l]. *)
Definition reads (R : hP) (arr : ptr) (l : list string) : Prop :=
  forall i s B C (k : string -> H B) (m' : M C) (Q : B -> C -> hP),
  l !! i = Some s -> R ∗ (R -∗ refines (k s) m' Q) ⊢ refines (hbind (path_at arr i) k) m' Q.

Lemma slots_read arr l tail : reads (slots arr ((Some <$> l) ++ tail)) arr l.
Proof.
  intros i s B C k m' Q Hi. apply list_elem_of_split_length in Hi as (l1 & l2 & -> & ->). iIntros "[H HQ]".
  rewrite fmap_app fmap_cons -assoc_L. cbn [app]. iDestruct (slots_hole with "H") as (q) "[Hq Hh]".
  iApply refines_step. rewrite /path_at. iApply (step_load_slot _ _ (Some <$> l1)); [by rewrite length_fmap|].
  iFrame "Hh". iIntros "Hh". iApply step_text. iFrame "Hq". iIntros "Hq". iApply refines_ret. iApply "HQ". iApply slots_hole. iExists q. iFrame.
Qed.

(** ** The array of the mounts *)

(** [mnt] has room for [n] strings, [l] are there. *)
Definition mounts (mnt : ptr) (n : nat) (l : list string) : hP :=
  (<affine> ⌜(length l <= n)%nat⌝ ∗ filled mnt n l)%I.

Lemma mounts_new mnt n : slots mnt (replicate n None) ⊢ mounts mnt n [].
Proof. iIntros "H". iSplit; [iPureIntro; apply Nat.le_0_l|]. by rewrite /filled /= Nat.sub_0_r. Qed.

Lemma step_push {B C} mnt n l m o k (m' : M C) (Q : B -> C -> hP) :
  (length l < n)%nat ->
  mounts mnt n l ∗ new_result m o ∗ (mounts mnt n (l ++ option_list o) -∗ refines (k tt) m' Q) ⊢
  refines (hbind (store_slot mnt (length l) (default Null m)) k) m' Q.
Proof.
  iIntros (Hn) "((_ & H) & Hm & HQ)". rewrite /filled. destruct (n - length l)%nat as [|j] eqn:Hj; [lia|]. cbn [replicate].
  iDestruct (slots_hole with "H") as (q) "[Hq Hh]". iDestruct "Hq" as %->.
  iApply (step_store_slot _ _ _ (Some <$> l)); [by rewrite length_fmap|]. iFrame "Hh". iIntros "Hh". iApply "HQ".
  rewrite /mounts /filled. destruct m as [q|], o as [s|]; try done; cbn [option_list].
  - rewrite length_app /=. iSplit; [iPureIntro; lia|]. replace (n - (length l + 1))%nat with j by lia.
    rewrite fmap_app -assoc_L /=. iApply slots_hole. iExists q. iFrame.
  - rewrite app_nil_r Hj. iSplit; [iPureIntro; lia|]. iApply slots_hole. iExists Null. by iFrame.
Qed.

Lemma unmount_refines mnt pre os tail :
  slots mnt (pre ++ os ++ tail) ⊢
  refines (hiter (fun i => let! q := load_slot mnt i in let! s := text q in hlift (unmount s)) (seq (length pre) (length os)))
    (mapM_ (fun m => unmount (Some m)) (present os)) (fun _ _ => slots mnt (pre ++ os ++ tail)).
Proof.
  revert pre. induction os as [|o os IH]; intros pre; iIntros "H"; cbn [hiter seq length]; [by iApply refines_ret|].
  iDestruct (slots_hole with "H") as (q) "[Hq Hh]".
  assert (slots mnt ((pre ++ [o]) ++ os ++ tail) ⊢ slots mnt (pre ++ (o :: os) ++ tail)) as Hback by by rewrite -assoc_L.
  specialize (IH (pre ++ [o])). rewrite length_app Nat.add_1_r in IH.
  iAssert (hole mnt q pre (os ++ tail) -∗ string_at q o -∗ slots mnt ((pre ++ [o]) ++ os ++ tail))%I as "Hclose".
  { iIntros "Hh Hq". rewrite -assoc_L. iApply slots_hole. iExists q. iFrame. }
  destruct o as [s|]; cbn [present omap list_omap].
  - iApply refines_bind. iApply step_load_slot; [done|]. iFrame "Hh". iIntros "Hh". iApply step_text. iFrame "Hq". iIntros "Hq".
    iApply refines_lift. iIntros (_). iDestruct ("Hclose" with "Hh Hq") as "H". iApply (refines_wand with "[H]"); [by iApply IH|].
    iIntros (_ _) "H". by iApply Hback.
  - iApply refines_step. iApply step_load_slot; [done|]. iFrame "Hh". iIntros "Hh". iApply step_text. iFrame "Hq". iIntros "Hq".
    iApply refines_lift. iIntros ([]). iDestruct ("Hclose" with "Hh Hq") as "H". iApply (refines_wand with "[H]"); [by iApply IH|].
    iIntros (_ _) "H". by iApply Hback.
Qed.

Lemma present_fill {A} (l : list A) k : present ((Some <$> l) ++ replicate k None) = l.
Proof. rewrite present_app present_map_Some. induction k as [|k IH]; [by rewrite app_nil_r|done]. Qed.

(** The failure path: the mounts that were made, in order. *)
Lemma unmount_slots_refines mnt n n' l :
  (length l <= n' <= n)%nat ->
  filled mnt n l ⊢ refines (unmount_slots mnt n') (mapM_ (fun m => unmount (Some m)) l) (fun _ _ => filled mnt n l).
Proof.
  intros Hn. pose proof (unmount_refines mnt [] ((Some <$> l) ++ replicate (n' - length l) None) (replicate (n - n') None)) as H.
  rewrite -assoc_L -replicate_add present_fill length_app length_fmap length_replicate /= in H.
  replace (n' - length l + (n - n'))%nat with (n - length l)%nat in H by lia.
  replace (length l + (n' - length l))%nat with n' in H by lia. apply H.
Qed.

(** ** [mount_files] *)

(** The array [mnt] after a turn of a loop that mounts. *)
Definition mounted (mnt : ptr) (n : nat) (l : list string) (r : option nat) (r' : option (option string)) : hP :=
  match r, r' with
  | Some k, Some o => <affine> ⌜k = length (l ++ option_list o)⌝ ∗ mounts mnt n (l ++ option_list o)
  | None, None => mounts mnt n l
  | _, _ => False
  end%I.

Lemma mount_file_refines cnt src dst path mnt n l :
  (length l < n)%nat ->
  mounts mnt n l ⊢ refines (mount_file cnt src dst path mnt (length l)) (Mount.mount_file cnt src dst path) (mounted mnt n l).
Proof.
  iIntros (Hn) "H". rewrite /mount_file /Mount.mount_file. case_match; [iApply refines_ret; rewrite /mounted /= app_nil_r; by iFrame|].
  iApply step_lift. iIntros ([s|]); [|by iApply refines_ret]. iApply step_lift. iIntros ([d|]); [|by iApply refines_ret].
  iApply step_lift. iIntros ([mode|]); [|by iApply refines_ret]. iApply step_lift. iIntros ([u|]); [|by iApply refines_ret].
  iApply refines_bind_r. rewrite /bind_remount.
  iApply step_lift. iIntros ([u1|]); [|by do 2 iApply refines_ret].
  iApply step_lift. iIntros ([u2|]); [|by do 2 iApply refines_ret].
  iApply refines_bind_l. iApply refines_wand; [iApply new_string_refines|]. iIntros (m o) "Hm".
  iAssert (<affine> ⌜match m, o with Some _, Some _ | None, None => True | _, _ => False end⌝ ∗ new_result m o)%I with "[Hm]" as "[%Hmo Hm]".
  { destruct m, o; try done; by iFrame. }
  iApply step_push; [done|]. iFrame "H Hm". iIntros "H". iApply refines_ret. destruct m as [q|], o as [x|]; try done; iApply refines_ret.
  - iFrame. by rewrite length_app Nat.add_1_r.
  - by rewrite app_nil_r.
Qed.

(** The loop, with the failure path. *)
Lemma mount_loop_refines R paths (f : string -> ptr -> nat -> H (option nat)) f' mnt size :
  (forall path l, (length l < size)%nat -> mounts mnt (size + 1) l ⊢ refines (f path mnt (length l)) (f' path) (mounted mnt (size + 1) l)) ->
  forall ls pre l, reads R paths (pre ++ ls) -> size = length (pre ++ ls) -> (length l <= length pre)%nat ->
  R ∗ mounts mnt (size + 1) l ⊢
  refines (hbind (hfold (fun k i => let! path := path_at paths i in f path mnt k) (length l) (seq (length pre) (length ls)))
             (fun r => match r with
                       | Some _ => hret mnt
                       | None => do! unmount_slots mnt size in do! array_free (CArray mnt size) in hret Null
                       end))
    (mount_loop f' ls l)
    (fun q r => R ∗ match r with Some l' => <affine> ⌜q = mnt /\ (length l' <= size)%nat⌝ ∗ mounts mnt (size + 1) l'
                             | None => <affine> ⌜q = Null⌝ end)%I.
Proof.
  intros Hf ls. induction ls as [|path ls IH]; intros pre l HR Hsize Hl; iIntros "[HR H]"; cbn [hfold seq length mount_loop].
  - iApply step_ret. iApply refines_ret. iFrame. iPureIntro. rewrite Hsize app_nil_r. by split.
  - rewrite length_app /= in Hsize. iApply refines_assoc. iApply refines_assoc.
    iApply (HR (length pre) path); [by rewrite list_lookup_middle|]. iFrame "HR". iIntros "HR".
    iApply refines_bind. iApply (refines_wand with "[H]"); [iApply (Hf with "H"); lia|]. iIntros ([k|] [o|]) "H"; try done.
    + iDestruct "H" as "[-> H]". destruct o as [m|]; cbn [option_list].
      * specialize (IH (pre ++ [path]) (l ++ [m])). replace (length (pre ++ [path])) with (S (length pre)) in IH by (rewrite length_app /=; lia). iApply IH; [by rewrite -assoc_L| |..].
        -- rewrite -assoc_L length_app. done.
        -- rewrite length_app /=. lia.
        -- iFrame.
      * rewrite app_nil_r. specialize (IH (pre ++ [path]) l). replace (length (pre ++ [path])) with (S (length pre)) in IH by (rewrite length_app /=; lia).
        iApply IH; [by rewrite -assoc_L| |..].
        -- rewrite -assoc_L length_app. done.
        -- lia.
        -- iFrame.
    + iApply step_ret. iDestruct "H" as "[_ H]". iApply refines_bind.
      iApply (refines_wand with "[H]"); [iApply (unmount_slots_refines with "H"); lia|]. iIntros ([] []) "H".
      iApply step_array_free. iSplitL "H".
      * rewrite /filled. iRight. iExists ((Some <$> l) ++ replicate (size - length l) None), 1%nat.
        rewrite -assoc_L -replicate_add. replace (size - length l + 1)%nat with (size + 1 - length l)%nat by lia. iFrame.
        iPureIntro. rewrite length_app length_fmap length_replicate /=. lia.
      * iApply refines_ret. by iFrame.
Qed.

Lemma mount_files_refines R root cnt dir paths l :
  reads R paths l ->
  R ⊢ refines (mount_files root cnt dir paths (length l)) (Mount.mount_files root cnt dir l)
    (fun q r => R ∗ match r with Some l' => <affine> ⌜(length l' <= length l)%nat⌝ ∗ mounts q (length l + 1) l'
                             | None => <affine> ⌜q = Null⌝ end)%I.
Proof.
  iIntros (HR) "HR". rewrite /mount_files /Mount.mount_files.
  iApply step_lift. iIntros ([src|]); [|iApply refines_ret; by iFrame]. iApply step_lift. iIntros (d).
  iApply step_lift. iIntros ([dst|]); [|iApply refines_ret; by iFrame].
  iApply step_lift. iIntros ([u|]); [|iApply refines_ret; by iFrame].
  iApply refines_bind. replace (Z.of_nat (length l) + 1) with (Z.of_nat (length l + 1)) by lia.
  iApply refines_wand; [iApply array_new_refines|]. iIntros ([mnt|] [a|]) "H"; simpl; try done; [|iApply refines_ret; by iFrame].
  iDestruct "H" as "[H ->]".
  assert (forall path k, (length k < length l)%nat -> mounts mnt (length l + 1) k ⊢
    refines (mount_file cnt src dst path mnt (length k)) (Mount.mount_file cnt src dst path) (mounted mnt (length l + 1) k)) as Hf.
  { intros path k Hk. apply mount_file_refines. lia. }
  iApply (refines_wand with "[HR H]").
  - iApply (mount_loop_refines R paths (mount_file cnt src dst) _ mnt (length l) Hf l [] []); [done..|].
    iFrame "HR". by iApply mounts_new.
  - iIntros (q [l'|]) "[$ H]"; [|done]. iDestruct "H" as "[%Hq H]". destruct Hq as [-> Hl]. by iFrame.
Qed.

(** ** Moving the mounts of a part to the array of the function *)

Lemma strings_size ps l tail :
  ([∗ list] q;o ∈ ps;Some <$> l, string_at q o) ⊢
  <affine> ⌜Utils.array_size (non_null <$> (ps ++ Null :: tail)) = length l⌝ ∗ [∗ list] q;o ∈ ps;Some <$> l, string_at q o.
Proof.
  iIntros "H". iInduction l as [|s l IH] forall (ps).
  - iDestruct (big_sepL2_nil_inv_r with "H") as %->. by iSplit.
  - rewrite fmap_cons. iDestruct (big_sepL2_cons_inv_r with "H") as (q ps' ->) "[Hq H]".
    iDestruct ("IH" with "H") as "[%Hn H]". iDestruct (owns_at with "Hq") as "[(%a & ->) Hq]". cbn [big_sepL2 string_at].
    iFrame. iPureIntro. cbn. by rewrite Hn.
Qed.

Lemma step_array_size {B C} p n l k (m' : M C) (Q : B -> C -> hP) :
  (length l < n)%nat ->
  mounts p n l ∗ (mounts p n l -∗ refines (k (length l)) m' Q) ⊢ refines (hbind (array_size p) k) m' Q.
Proof.
  iIntros (Hn) "[(_ & %ps & Hp & Hl) HQ]". iDestruct (big_sepL2_app_inv_r with "Hl") as (ps1 ps2 ->) "[H1 H2]".
  iEval (rewrite strings_null) in "H2". iDestruct "H2" as %->. destruct (n - length l)%nat as [|j] eqn:Hj; [lia|]. cbn [replicate].
  assert (Null ∈ ps1 ++ Null :: replicate j Null) as Hin by (apply elem_of_app; right; left).
  iDestruct (strings_size _ _ (replicate j Null) with "H1") as "[%Hs H1]". iApply refines_step. rewrite /array_size /load_ptrs. iApply refines_step.
  iApply step_load. iFrame "Hp". iIntros "Hp". iApply refines_ret. case_decide; [|done]. rewrite Hs.
  iApply refines_ret. iApply "HQ". iSplit; [iPureIntro; lia|]. rewrite /filled Hj. iExists (ps1 ++ Null :: replicate j Null). iFrame "Hp".
  iApply (big_sepL2_app with "H1"). iApply (strings_null (Null :: replicate j Null) (S j)). done.
Qed.

Lemma step_array_append {B C} p n l q n' l' k (m' : M C) (Q : B -> C -> hP) :
  (length l + length l' <= n)%nat ->
  mounts p n l ∗ mounts q n' l' ∗
  (mounts p n (l ++ l') -∗ (∃ b, owns q b) -∗ refines (k (length l + length l')%nat) m' Q) ⊢
  refines (hbind (array_append p (length l) q (length l')) k) m' Q.
Proof.
  iIntros (Hn) "((_ & %ps & Hp & Hl) & (_ & %qs & Hq & Hl') & HQ)".
  iDestruct (big_sepL2_app_inv_r with "Hl") as (ps1 ps2 ->) "[H1 H2]". iEval (rewrite strings_null) in "H2". iDestruct "H2" as %->.
  iDestruct (big_sepL2_app_inv_r with "Hl'") as (qs1 qs2 ->) "[H3 H4]". iEval (rewrite strings_null) in "H4". iDestruct "H4" as %->.
  iDestruct (big_sepL2_length with "H1") as %Hl1. iDestruct (big_sepL2_length with "H3") as %Hl3. rewrite length_fmap in Hl1. rewrite length_fmap in Hl3.
  iApply refines_step. rewrite /array_append /load_ptrs. iApply refines_step. iApply step_load. iFrame "Hq". iIntros "Hq".
  iApply refines_ret. iApply refines_step. iApply step_load. iFrame "Hp". iIntros "Hp". iApply refines_ret.
  rewrite !length_app !length_replicate. case_match eqn:Hb; [apply orb_true_iff in Hb as [Hb%Nat.ltb_lt|Hb%Nat.ltb_lt]; lia|].
  iApply step_store. iFrame "Hp". iIntros "Hp". iApply refines_ret. iApply ("HQ" with "[-Hq] [Hq]"); [|by iExists _].
  iSplit; [iPureIntro; rewrite length_app; lia|]. rewrite /filled. iExists (ps1 ++ qs1 ++ replicate (n - length (l ++ l')) Null).
  rewrite (take_app_length' ps1) // (take_app_length' qs1) //.
  rewrite drop_app_ge; [|lia]. rewrite drop_replicate length_app Hl1.
  replace (n - length l - (length l + length l' - length l))%nat with (n - (length l + length l'))%nat by lia. iFrame "Hp".
  rewrite fmap_app -assoc_L. iApply (big_sepL2_app with "H1"). iApply (big_sepL2_app with "H3"). by iApply strings_null.
Qed.

(** ** The parts of [nvc_driver_mount] *)

(** The end of a part: the mounts so far, and whether to go on. *)
Definition after (R : hP) (mnt : ptr) (n : nat) (r : option nat) (x : list string * bool) : hP :=
  (R ∗ mounts mnt n x.1 ∗ <affine> ⌜r = if x.2 then Some (length x.1) else None⌝)%I.

Definition part_refines (R : hP) (mnt : ptr) (n : nat) (hs : nat -> H (option nat)) (s : stage) : Prop :=
  forall l, R ∗ mounts mnt n l ⊢ refines (hs (length l)) (s l) (after R mnt n).

Lemma then_refines R mnt n hs1 hs2 s1 s2 :
  part_refines R mnt n hs1 s1 -> part_refines R mnt n hs2 s2 ->
  part_refines R mnt n (fun k => let!? k := hs1 k else hret None in hs2 k) (then_ s1 s2).
Proof.
  intros H1 H2 l. iIntros "H". iApply refines_bind. iApply (refines_wand with "[H]"); [by iApply H1|].
  iIntros (r [l' b]) "(HR & H & ->)". cbn [fst snd]. destruct b; [iApply H2; iFrame|].
  iApply refines_ret. by iFrame.
Qed.

Lemma mount_into_refines R mnt n root cnt dir paths l :
  reads R paths l ->
  part_refines R mnt n (fun k => mount_into mnt k root cnt dir paths (length l)) (files_stage n root cnt dir l).
Proof.
  intros HR l0. iIntros "[HR H]". rewrite /mount_into /files_stage. iApply refines_bind.
  iApply (refines_wand with "[HR]"); [by iApply (mount_files_refines with "HR")|]. iIntros (q [l'|]) "[HR Hq]".
  2:{ iDestruct "Hq" as %->. iApply refines_ret. by iFrame. }
  iDestruct "Hq" as "[%Hl Hq]". iDestruct "Hq" as "[_ (%ps & Hq & Hl)]". iDestruct (owns_at with "Hq") as "[(%a & ->) Hq]".
  iAssert (mounts (At a) (length l + 1) l') with "[Hq Hl]" as "Hq"; [iSplit; [iPureIntro; lia|]; iExists ps; iFrame|].
  iApply (step_array_size _ (length l + 1) l'); [lia|]. iFrame "Hq". iIntros "Hq". rewrite /push. case_match eqn:Hb.
  { rewrite /bind. iStopProof. apply refines_undefined. }
  apply Nat.ltb_ge in Hb. iApply refines_ret_r. iApply step_array_append; [done|]. iFrame "H Hq". iIntros "H (%b & Hq)".
  iApply step_free. iFrame "Hq". iApply refines_ret. iFrame. by rewrite /= length_app.
Qed.

Lemma reads_frame R R' arr l : (R ⊢ R' ∗ (R' -∗ R)) -> reads R' arr l -> reads R arr l.
Proof.
  intros HR H i s B C k m' Q Hi. iIntros "[HR HQ]". iDestruct (HR with "HR") as "[HR' Hback]".
  iApply (H i s); [done|]. iFrame "HR'". iIntros "HR'". iApply "HQ". by iApply "Hback".
Qed.

Lemma strings_read a l : reads (strings a l) (a_ptr a) l.
Proof.
  intros i s B C k m' Q Hi. iIntros "[(%Hn & [%Hl|(%j & H)]) HQ]"; [by destruct Hl as [_ ->]|].
  iApply (slots_read _ l (replicate j None) i s); [done|]. iFrame "H". iIntros "H". iApply "HQ". iSplit; [done|]. iRight. by iExists j.
Qed.

(** What a member of a structure says of its array. *)
Lemma strings_null_or_at a l : strings a l ⊢
  <affine> ⌜a_size a = length l /\ (l = [] \/ exists b, a_ptr a = At b)⌝ ∗ strings a l.
Proof.
  iIntros "(%Hn & [%Hl|(%j & %ps & Hp & Hs)])".
  - destruct Hl as [Hp ->]. iSplit; [by auto|]. iSplit; [done|]. by iLeft.
  - iDestruct (owns_at with "Hp") as "[(%b & %Hb) Hp]". iSplit; [iPureIntro; eauto|]. iSplit; [done|]. iRight. iExists j, ps. iFrame.
Qed.

Lemma mount_array_refines R mnt n root cnt dir a l :
  (R ⊢ strings a l ∗ (strings a l -∗ R)) ->
  part_refines R mnt n (fun k => mount_array mnt k root cnt dir a) (some_files_stage n root cnt dir l).
Proof.
  intros HR l0. iIntros "[HR H]". iDestruct (HR with "HR") as "[Hs Hback]".
  iDestruct (strings_null_or_at with "Hs") as "[%Ha Hs]". destruct Ha as [Hn Hp]. iDestruct ("Hback" with "Hs") as "HR".
  rewrite /mount_array /some_files_stage Hn. destruct l as [|s l].
  - iAssert (refines (hret (Some (length l0))) (ret (l0, true)) (after R mnt n)) with "[HR H]" as "Hr";
      [iApply refines_ret; by iFrame|]. by destruct (a_ptr a).
  - destruct Hp as [|[b Hb]]; [done|]. rewrite Hb. cbn [length]. rewrite -Hb.
    iApply (mount_into_refines R mnt n root cnt dir (a_ptr a) (s :: l)); [|iFrame].
    apply (reads_frame R _ _ _ HR), strings_read.
Qed.

(** *** Links *)

(** The compiled expressions nobody frees. *)
Definition lost : hP := (∃ ps : list ptr, [∗ list] p ∈ ps, owns p Compiled)%I.

Lemma macth_target_library_refines lib pattern :
  lost ⊢ refines (macth_target_library lib pattern) (Mount.macth_target_library lib pattern) (fun r r' => <affine> ⌜r = r'⌝ ∗ lost).
Proof.
  iIntros "(%ps & H)". iApply step_lift. iIntros ([]); [|iApply refines_ret; iSplit; [done|by iExists ps]].
  iApply step_malloc. iIntros (p) "Hp". iApply refines_ret. iSplit; [done|]. iExists (p :: ps). iFrame.
Qed.

Lemma symlink_library_refines src target linkname uid gid :
  ⊢ refines (symlink_library src target linkname uid gid) (Mount.symlink_library src target linkname uid gid)
    (fun r r' => <affine> ⌜r = r'⌝)%I.
Proof.
  rewrite /symlink_library /Mount.symlink_library. iApply step_new_string.
  iIntros ([p|] [s|]) "Hp"; simpl; try done; [|by iApply refines_ret]. iApply (step_text _ (Some s)). iFrame "Hp". iIntros "Hp".
  iApply refines_bind_l. iApply refines_lift. iIntros (r). iApply step_free. iFrame "Hp". by iApply refines_ret.
Qed.

Lemma symlink_libraries_refines cnt mnt n l :
  lost ∗ mounts mnt n l ⊢
  refines (symlink_libraries cnt mnt (length l)) (Mount.symlink_libraries cnt l)
    (fun r r' => <affine> ⌜r = r'⌝ ∗ lost ∗ mounts mnt n l).
Proof.
  apply refines_iterM; [by rewrite length_seq|]. intros i j path Hi Hpath.
  apply lookup_seq in Hi as [-> _]. iIntros "[HL (%Hn & H)]". iApply (slots_read _ l _ _ _ _ _ _ _ _ Hpath). iFrame "H". iIntros "H".
  iAssert (mounts mnt n l) with "[H]" as "H"; [by iFrame|].
  destruct (library_links (basename path)) as [[name links]|]; [|iApply refines_ret; by iFrame].
  iApply refines_bind. iApply (refines_wand with "[HL]"); [by iApply macth_target_library_refines|].
  iIntros (r ok) "[-> HL]". destruct ok; [|iApply refines_ret; by iFrame].
  iApply (refines_wand _ _ (fun r r' => <affine> ⌜r = r'⌝ ∗ emp)%I with "[]"); [|iIntros (x x') "[-> _]"; by iFrame].
  iStopProof. trans (emp : hP)%I; [by iIntros "_"|].
  apply (refines_iterM (fun '(target, link) => symlink_library path target link (cuid cnt) (cgid cnt))); [done|].
  intros j [target link] x Hx Hx'. rewrite Hx in Hx'. injection Hx' as <-. iIntros "_".
  iApply refines_wand; [iApply symlink_library_refines|]. by iIntros (r r') "->".
Qed.

(** *** The libraries of the container

    [array_copy] copies pointers: the copy reads the strings of the container. *)

Notation owned ps l := ([∗ list] q;o ∈ ps;Some <$> l, string_at q o)%I.

(** [q] is the pointer of the array [ps] to the string [s]. *)
Definition alias (ps : list ptr) (l : list string) (q : ptr) (s : string) : Prop :=
  (exists a, q = At a) /\ exists j, ps !! j = Some q /\ l !! j = Some s.

Lemma alias_self ps l : owned ps l ⊢ <affine> ⌜Forall2 (alias ps l) ps l⌝ ∗ owned ps l.
Proof.
  iIntros "H". iAssert (<affine> ⌜Forall (fun q => exists a, q = At a) ps⌝ ∗ owned ps l)%I with "[H]" as "[%Ha H]".
  { iInduction l as [|s l IH] forall (ps).
    - iDestruct (big_sepL2_nil_inv_r with "H") as %->. iSplit; [done|]. by simpl.
    - rewrite fmap_cons. iDestruct (big_sepL2_cons_inv_r with "H") as (q ps' ->) "[Hq H]".
      iDestruct ("IH" with "H") as "[%Hps H]". iDestruct (owns_at with "Hq") as "[%Hq Hq]". iFrame. iPureIntro. by constructor. }
  iDestruct (big_sepL2_length with "H") as %Hn. rewrite length_fmap in Hn. iFrame. iPureIntro.
  apply Forall2_same_length_lookup. split; [done|]. intros j q s Hq Hs. split; [|eauto].
  eapply Forall_lookup_1 in Ha; [|done]. done.
Qed.

Lemma step_text_alias {B C} ps l q s k (m' : M C) (Q : B -> C -> hP) :
  alias ps l q s -> owned ps l ∗ (owned ps l -∗ refines (k (Some s)) m' Q) ⊢ refines (hbind (text q) k) m' Q.
Proof.
  intros (_ & j & Hq & Hs). iIntros "[H HQ]".
  iDestruct (big_sepL2_lookup_acc _ _ _ j q (Some s) with "H") as "[Hq Hback]"; [done|by rewrite list_lookup_fmap Hs|].
  iApply (step_text _ (Some s)). iFrame "Hq". iIntros "Hq". iApply "HQ". by iApply "Hback".
Qed.

Lemma step_load_nth {B C} p qs i q k (m' : M C) (Q : B -> C -> hP) :
  qs !! i = Some q -> owns p (Ptrs qs) ∗ (owns p (Ptrs qs) -∗ refines (k q) m' Q) ⊢ refines (hbind (load_slot p i) k) m' Q.
Proof.
  iIntros (Hi) "[Hp HQ]". iApply refines_step. rewrite /load_slot /load_ptrs. iApply refines_step. iApply step_load. iFrame "Hp".
  iIntros "Hp". iApply refines_ret. rewrite Hi. iApply refines_ret. by iApply "HQ".
Qed.

Lemma alias_read p qs rest ps l kept :
  Forall2 (alias ps l) qs kept -> reads (owns p (Ptrs (qs ++ rest)) ∗ owned ps l) p kept.
Proof.
  intros Hal i s B C k m' Q Hi. destruct (Forall2_lookup_r _ _ _ _ _ Hal Hi) as (q & Hq & Ha). iIntros "[[Hp H] HQ]".
  iApply refines_step. rewrite /path_at. iApply step_load_nth; [by apply lookup_app_l_Some|]. iFrame "Hp". iIntros "Hp".
  iApply step_text_alias; [done|]. iFrame "H". iIntros "H". iApply refines_ret. iApply "HQ". iFrame.
Qed.

Lemma array_copy_refines p ps l tail :
  Forall2 (alias ps l) ps l ->
  owns p (Ptrs (ps ++ tail)) ⊢
  refines (array_copy p (length l)) (Utils.array_copy l)
    (fun r r' => owns p (Ptrs (ps ++ tail)) ∗ match r, r' with
       | Some q, Some a => <affine> ⌜a = map Some l⌝ ∗ owns q (Ptrs ps)
       | None, None => emp
       | _, _ => False
       end)%I.
Proof.
  iIntros (Hal) "Hp". apply Forall2_length in Hal as Hn. rewrite /array_copy /Utils.array_copy. iApply refines_bind.
  iApply refines_wand; [iApply array_new_refines|]. iIntros ([q|] [a|]) "H"; simpl; try done; [|iApply refines_ret; by iFrame].
  iDestruct "H" as "[(%qs & Hq & H) ->]". iEval (rewrite strings_null) in "H". iDestruct "H" as %->.
  rewrite /Utils.array_append length_replicate /= Nat.ltb_irrefl drop_replicate Nat.sub_diag app_nil_r. iApply refines_step.
  rewrite /array_append /load_ptrs. iApply refines_step. iApply step_load. iFrame "Hp". iIntros "Hp". iApply refines_ret.
  iApply refines_step. iApply step_load. iFrame "Hq". iIntros "Hq". iApply refines_ret. rewrite length_app length_replicate /=.
  case_match eqn:Hb; [apply orb_true_iff in Hb as [Hb%Nat.ltb_lt|Hb%Nat.ltb_lt]; lia|].
  iApply step_store. iFrame "Hq". iIntros "Hq". iApply refines_ret. iApply refines_ret. iFrame "Hp". iSplit; [done|].
  by rewrite -Hn take_app_length drop_replicate Nat.sub_diag app_nil_r.
Qed.

(** A slot of the copy while it is filtered. *)
Definition alias_slot (ps : list ptr) (l : list string) (q : ptr) (o : option string) : Prop :=
  match o with Some s => alias ps l q s | None => q = Null end.

Lemma alias_present ps l qs os :
  Forall2 (alias_slot ps l) qs os -> Forall2 (alias ps l) (default Null <$> (Some <$> present (non_null <$> qs))) (present os).
Proof.
  induction 1 as [|q o qs os Hq _ IH]; [constructor|]. destruct o as [s|]; simpl in *.
  - destruct Hq as [[a ->] Hj]. constructor; [|exact IH]. split; [by eexists|done].
  - by subst q.
Qed.

(** The turns that are left of the loop of [filter_libraries]: the slots that were
    looked at are [qs] and [os], the others [ps'] and [ls]. *)
Lemma filter_loop_refines info d i p ps l qs os ps' ls :
  Forall2 (alias_slot ps l) qs os -> Forall2 (alias ps l) ps' ls ->
  owns info (DriverInfo d) ∗ string_at (c_nvrm_version d) (nvrm_version i) ∗ owned ps l ∗ owns p (Ptrs (qs ++ ps')) ⊢
  refines (hiter (fun i =>
      let! path := path_at p i in
      match strstr (basename path) ".so." with
      | None => store_slot p i Null
      | Some m =>
          let maj := str_drop 4 m in
          let! d := get_info info in
          let! v := text (c_nvrm_version d) in
          match v with
          | None => bad_pointer
          | Some v => if strneq (strspn maj "0123456789") v maj then store_slot p i Null else hret tt
          end
      end) (seq (length qs) (length ls)))
    (foldM (filter_library i) os (map Some ls))
    (fun _ r => ∃ qs' os', <affine> ⌜r = Some os' /\ Forall2 (alias_slot ps l) qs' os' /\ length os' = (length os + length ls)%nat⌝ ∗
       owns info (DriverInfo d) ∗ string_at (c_nvrm_version d) (nvrm_version i) ∗ owned ps l ∗ owns p (Ptrs qs'))%I.
Proof.
  intros Hqs Hps. revert qs os Hqs. induction Hps as [|q s ps' ls Hq Hps IH]; intros qs os Hqs; iIntros "(Hi & Hv & H & Hp)";
    cbn [hiter seq length map foldM].
  { iApply refines_ret. iExists qs, os. rewrite app_nil_r. iFrame. iPureIntro. split_and!; [done..|lia]. }
  apply Forall2_length in Hqs as Hn. iApply refines_bind.
  iApply (refines_wand _ _ (fun _ r => ∃ q' o, <affine> ⌜r = Some (os ++ [o]) /\ alias_slot ps l q' o⌝ ∗
    owns info (DriverInfo d) ∗ string_at (c_nvrm_version d) (nvrm_version i) ∗ owned ps l ∗ owns p (Ptrs (qs ++ q' :: ps')))%I
    with "[Hi Hv H Hp]").
  - iApply refines_assoc. iApply step_load_nth; [by apply list_lookup_middle|]. iFrame "Hp". iIntros "Hp".
    iApply refines_assoc. iApply (step_text_alias _ _ _ _ _ _ _ Hq). iFrame "H". iIntros "H". iApply step_ret. cbn [filter_library].
    iAssert (owns p (Ptrs (qs ++ q :: ps')) -∗ owns info (DriverInfo d) -∗ string_at (c_nvrm_version d) (nvrm_version i) -∗
      owned ps l -∗ refines (store_slot p (length qs) Null) (ret (Some (os ++ [None])))
        (fun _ r => ∃ q' o, <affine> ⌜r = Some (os ++ [o]) /\ alias_slot ps l q' o⌝ ∗ owns info (DriverInfo d) ∗
           string_at (c_nvrm_version d) (nvrm_version i) ∗ owned ps l ∗ owns p (Ptrs (qs ++ q' :: ps'))))%I as "Hdrop".
    { iIntros "Hp Hi Hv H". rewrite /store_slot /load_ptrs. iApply refines_assoc. iApply step_load. iFrame "Hp". iIntros "Hp".
      iApply step_ret. rewrite list_lookup_middle //. iApply owns_store. iFrame "Hp". iIntros "Hp".
      rewrite insert_app_r_alt // Nat.sub_diag /=. iExists Null, None. by iFrame. }
    destruct (strstr (basename s) ".so.") as [m|]; [|iApply ("Hdrop" with "Hp Hi Hv H")].
    iApply step_get_info. iFrame "Hi". iIntros "Hi". iApply step_text. iFrame "Hv". iIntros "Hv".
    destruct (nvrm_version i) as [v|]; [|iStopProof; apply refines_undefined].
    case_match; [iApply ("Hdrop" with "Hp Hi Hv H")|]. iApply refines_ret. iExists q, (Some s). by iFrame.
  - iIntros (_ r) "(%q' & %o & %Hr & Hi & Hv & H & Hp)". destruct Hr as [-> Ho].
    specialize (IH (qs ++ [q']) (os ++ [o])). replace (length (qs ++ [q'])) with (S (length qs)) in IH by (rewrite length_app /=; lia).
    iApply (refines_wand with "[Hi Hv H Hp]").
    { iApply IH; [apply Forall2_app; [done|by constructor]|]. iFrame. by rewrite -assoc_L. }
    iIntros (_ r) "(%qs' & %os' & %Hr & H)". destruct Hr as (-> & Hos & Hlen). iExists qs', os'. iFrame. iPureIntro.
    split_and!; [done..|]. rewrite Hlen length_app /=. lia.
Qed.

Lemma filter_libraries_refines info d i p ps l :
  Forall2 (alias ps l) ps l ->
  owns info (DriverInfo d) ∗ string_at (c_nvrm_version d) (nvrm_version i) ∗ owned ps l ∗ owns p (Ptrs ps) ⊢
  refines (filter_libraries info p (length l)) (Mount.filter_libraries i (map Some l))
    (fun n kept => ∃ qs rest, <affine> ⌜n = length kept /\ Forall2 (alias ps l) qs kept⌝ ∗
       owns info (DriverInfo d) ∗ string_at (c_nvrm_version d) (nvrm_version i) ∗ owned ps l ∗ owns p (Ptrs (qs ++ rest)))%I.
Proof.
  intros Hal. iIntros "H". rewrite /filter_libraries /Mount.filter_libraries. iApply refines_bind.
  iApply (refines_wand with "[H]"); [by iApply (filter_loop_refines _ _ _ _ _ _ [] [] ps l (Forall2_nil_2 _ _ _) Hal)|].
  iIntros ([] r) "(%qs & %os & %Hr & Hi & Hv & H & Hp)". destruct Hr as (-> & Hos & Hlen). cbn [default from_option].
  iDestruct (owns_at with "Hp") as "[(%a & ->) Hp]". rewrite /array_pack /load_ptrs. cbn [a_ptr a_size].
  iApply refines_assoc. iApply refines_assoc. iApply step_load. iFrame "Hp". iIntros "Hp". iApply step_ret.
  destruct (array_pack_eq (non_null <$> qs) []) as [k Hk]. pose proof (Forall2_length _ _ _ Hos) as Hn. cbn [length Nat.add] in Hlen.
  rewrite length_fmap Hn Hlen !app_nil_r in Hk. rewrite Hk. iApply refines_assoc. iApply step_store. iFrame "Hp". iIntros "Hp".
  iApply step_ret. cbn [a_size id]. rewrite /id. destruct (Utils.array_pack os (length os)) as [arr n] eqn:Hp.
  pose proof (pack_present os) as Hpp. rewrite Hp /= in Hpp. cbn [fst snd]. rewrite Hpp.
  iApply refines_ret. apply alias_present in Hos as Hal'. iExists _, (default Null <$> replicate k None). iFrame "Hi Hv H".
  iEval (rewrite fmap_app) in "Hp". iFrame "Hp". iPureIntro. split; [|exact Hal'].
  apply Forall2_length in Hal'. by rewrite !length_fmap in Hal'.
Qed.

Lemma mount_cntlibs_refines R mnt n cnt info d i a :
  (R ⊢ strings a (clibs cnt) ∗ owns info (DriverInfo d) ∗ string_at (c_nvrm_version d) (nvrm_version i) ∗
       (strings a (clibs cnt) -∗ owns info (DriverInfo d) -∗ string_at (c_nvrm_version d) (nvrm_version i) -∗ R)) ->
  part_refines R mnt n (fun k => mount_cntlibs mnt k cnt info a) (cntlibs_stage n cnt i).
Proof.
  intros HR l0. iIntros "[HR H]". iDestruct (HR with "HR") as "(Hs & Hi & Hv & Hback)".
  iDestruct (strings_null_or_at with "Hs") as "[%Ha Hs]". destruct Ha as [Hn Hp].
  rewrite /mount_cntlibs /cntlibs_stage Hn. destruct (clibs cnt) as [|x l] eqn:Hl.
  { iDestruct ("Hback" with "Hs Hi Hv") as "HR".
    iAssert (refines (hret (Some (length l0))) (ret (l0, true)) (after R mnt n)) with "[HR H]" as "Hr";
      [iApply refines_ret; by iFrame|]. by destruct (a_ptr a). }
  destruct Hp as [|[b Hb]]; [done|]. rewrite Hb. cbn [length]. change (S (length l)) with (length (x :: l)).
  set (ls := x :: l) in *. clearbody ls.
  iDestruct "Hs" as "(_ & [%Hs|(%j & %qs & Hq & Hs)])"; [by destruct Hs; congruence|]. rewrite Hb.
  iDestruct (big_sepL2_app_inv_r with "Hs") as (ps nulls ->) "[Hs Hnulls]". iEval (rewrite strings_null) in "Hnulls". iDestruct "Hnulls" as %->.
  iDestruct (alias_self with "Hs") as "[%Hal Hs]".
  iApply refines_bind. iApply (refines_wand with "[Hq]"); [by iApply (array_copy_refines with "Hq")|].
  iAssert (owns (At b) (Ptrs (ps ++ replicate j Null)) -∗ owned ps ls -∗ strings a ls)%I as "Hstrings".
  { iIntros "Hq Hs". iSplit; [done|]. iRight. iExists j. rewrite Hb. iExists _. iFrame "Hq". iApply (big_sepL2_app with "Hs").
    by iApply strings_null. }
  iIntros ([p|] [slots_|]) "[Hq Hp]"; try done.
  2:{ iApply refines_ret. iFrame "H". iSplitL; [|done]. iApply ("Hback" with "[Hq Hs] Hi Hv"). iApply ("Hstrings" with "Hq Hs"). }
  iDestruct "Hp" as "[-> Hp]". iApply refines_bind. iApply (refines_wand with "[Hi Hv Hs Hp]").
  { iApply (filter_libraries_refines info d i p ps ls Hal). iFrame. }
  iIntros (nlibs kept) "(%qs & %rest & %Hk & Hi & Hv & Hs & Hp)". destruct Hk as [-> Hk].
  iApply refines_bind_l.
  iApply (refines_wand with "[-]").
  { iApply (mount_into_refines ((owns p (Ptrs (qs ++ rest)) ∗ owned ps ls) ∗ (owned ps ls -∗ R)) mnt n).
    - eapply reads_frame, alias_read, Hk. by iIntros "[$ $] $".
    - iFrame "Hp Hs H". iIntros "Hs". iApply ("Hback" with "[Hq Hs] Hi Hv"). iApply ("Hstrings" with "Hq Hs"). }
  iIntros (r y) "(((Hp & Hs) & HR) & H & ->)". iApply step_free. iFrame "Hp". iApply refines_ret. iFrame.
  iSplitL; [|done]. by iApply "HR".
Qed.

(** *** The devices *)

Section DriverMount.
Context `{CgroupOps}.

Lemma mount_one_device_refines R mnt n ctx cnt devs l i dev :
  l !! i = Some dev ->
  (R ⊢ owns devs (Nodes (c_node_of <$> l)) ∗ (owns devs (Nodes (c_node_of <$> l)) -∗ R)) ->
  part_refines R mnt n (fun k => mount_one_device ctx cnt mnt devs k i) (device_stage n ctx cnt dev).
Proof.
  intros Hi HR l0. iIntros "[HR H]". iDestruct (HR with "HR") as "[Hd Hback]". rewrite /mount_one_device /device_stage.
  iApply step_load. iFrame "Hd". iIntros "Hd". iDestruct ("Hback" with "Hd") as "HR". rewrite list_lookup_fmap Hi /=.
  iApply refines_step.
  replace (text match node_path dev with Some s => Lit s | None => Null end) with (hret (block := block) (node_path dev))
    by by destruct (node_path dev).
  iApply refines_ret. destruct dev as [path id]. cbn [node_path node_id].
  case_match; [iApply refines_ret; by iFrame|]. iApply refines_bind.
  iApply (refines_wand _ _ (after R mnt n) with "[HR H]").
  - case_match; [iApply refines_ret; by iFrame|]. iApply step_new_string. iIntros (m o) "Hm".
    iAssert (<affine> ⌜match m, o with Some _, Some _ | None, None => True | _, _ => False end⌝ ∗ new_result m o)%I with "[Hm]" as "[%Hmo Hm]".
    { destruct m, o; try done; by iFrame. }
    rewrite /push. destruct (n <? _)%nat eqn:Hb; [rewrite /bind; iStopProof; apply refines_undefined|].
    apply Nat.ltb_ge in Hb. cbn [length] in Hb. iApply (step_push _ n); [lia|]. iFrame "H Hm". iIntros "H".
    destruct m as [q|], o as [s|]; try done; cbn [option_list]; rewrite ?app_nil_r; iApply refines_ret; iFrame; iPureIntro.
    + by rewrite /= length_app Nat.add_1_r.
    + done.
  - iIntros (r [l1 b]) "(HR & H & ->)". cbn [fst snd]. destruct b; [|iApply refines_ret; by iFrame].
    iApply step_lift. iIntros ([u|]); iApply refines_ret; by iFrame.
Qed.

Lemma devices_refines R mnt n ctx cnt devs l :
  (R ⊢ owns devs (Nodes (c_node_of <$> l)) ∗ (owns devs (Nodes (c_node_of <$> l)) -∗ R)) ->
  part_refines R mnt n (fun k => hfold (fun k i => mount_one_device ctx cnt mnt devs k i) k (seq 0 (length l)))
    (devices_stage n ctx cnt l).
Proof.
  intros HR. assert (forall ls pre, l = pre ++ ls ->
    part_refines R mnt n (fun k => hfold (fun k i => mount_one_device ctx cnt mnt devs k i) k (seq (length pre) (length ls)))
      (devices_stage n ctx cnt ls)) as Hls; [|apply (Hls l []); done].
  induction ls as [|dev ls IH]; intros pre Hl.
  - intros l0. iIntros "[HR H]". iApply refines_ret. by iFrame.
  - apply (then_refines R mnt n (fun k => mount_one_device ctx cnt mnt devs k (length pre))).
    + eapply mount_one_device_refines, HR. by rewrite Hl list_lookup_middle.
    + specialize (IH (pre ++ [dev])). rewrite length_app Nat.add_1_r in IH. apply IH. by rewrite -assoc_L.
Qed.

(** *** The whole function *)

Lemma links_refines R mnt n cnt hs s :
  part_refines (lost ∗ R) mnt n hs s ->
  part_refines (lost ∗ R) mnt n (fun k => let!? _ := symlink_libraries cnt mnt k else hret None in hs k) (then_ (links_stage cnt) s).
Proof.
  intros Hs l. iIntros "[[HL HR] H]". rewrite /then_ /links_stage. iApply refines_bind.
  iApply refines_bind_r. iApply (refines_wand with "[HL H]"); [iApply symlink_libraries_refines; iFrame|].
  iIntros (r r') "(-> & HL & H)". iApply refines_ret. destruct r'; cbn [fst snd]; [|iApply refines_ret; by iFrame].
  iApply Hs. iFrame.
Qed.

(** What is read: the container and the information. *)
Definition inputs (cntp : ptr) (c : c_container) (cnt : nvc_container) (infop : ptr) (d : c_driver_info)
    (info : nvc_driver_info) : hP :=
  (owns cntp (Lifetime.Container c) ∗ container_at c cnt ∗ owns infop (DriverInfo d) ∗ driver_at d info)%I.

(** Take what follows from [inputs], and give it back. *)
Ltac open_inputs :=
  rewrite /inputs /container_at /driver_at;
  iIntros "(HL & Hc & (C1 & C2 & C3 & C4 & C5) & Hi & D1 & D2 & D3 & D4 & D5 & D6 & D7 & D8 & D9)".

Lemma driver_mounts_refines ctx cntp c cnt infop d info mnt :
  (lost ∗ inputs cntp c cnt infop d info) ∗ mounts mnt (nmnt_of cnt info) [] ⊢
  refines (driver_mounts ctx cnt (c_clibs c) infop mnt d) (driver_stages ctx cnt info [])
    (after (lost ∗ inputs cntp c cnt infop d info) mnt (nmnt_of cnt info)).
Proof.
  set (n := nmnt_of cnt info). set (root := cfg_root (cfg ctx)). set (R := (lost ∗ inputs _ _ _ _ _ _)%I).
  apply (then_refines R mnt n (fun k => mount_array mnt k root cnt (bins_dir (ccfg cnt)) (c_bins d))).
  { apply mount_array_refines. rewrite /R. open_inputs. iFrame "D3". iIntros "D3". iFrame. }
  apply (then_refines R mnt n (fun k => mount_array mnt k root cnt (libs_dir (ccfg cnt)) (c_libs d))).
  { apply mount_array_refines. rewrite /R. open_inputs. iFrame "D4". iIntros "D4". iFrame. }
  apply (then_refines R mnt n (fun k => if has_flag (flags cnt) OPT_COMPAT32 then mount_array mnt k root cnt (libs32_dir (ccfg cnt)) (c_libs32 d)
              else hret (Some k))).
  { destruct (has_flag _ _); [|intros l; iIntros "[HR H]"; iApply refines_ret; by iFrame].
    apply mount_array_refines. rewrite /R. open_inputs. iFrame "D5". iIntros "D5". iFrame. }
  apply links_refines. apply (then_refines R mnt n (fun k => mount_cntlibs mnt k cnt infop (c_clibs c))).
  { eapply mount_cntlibs_refines. rewrite /R. open_inputs. iFrame "C4 Hi D1". iIntros "C4 Hi D1". iFrame. }
  intros l. iIntros "[HR H]". iAssert (<affine> ⌜c_ndevs d = length (devs info)⌝ ∗ R)%I with "[HR]" as "[%Hn HR]".
  { rewrite /R. iStopProof. open_inputs. iDestruct "D9" as %Hn. by iFrame. }
  rewrite Hn. iApply (devices_refines R mnt n ctx cnt (c_devs d) (devs info)); [|iFrame].
  rewrite /R. open_inputs. iFrame "D8". iIntros "D8". iFrame.
Qed.

Lemma inputs_sizes cntp c cnt infop d info :
  inputs cntp c cnt infop d info ⊢
  <affine> ⌜(2 + a_size (c_bins d) + a_size (c_libs d) + a_size (c_clibs c) + a_size (c_libs32 d)
             + a_size (c_ipcs d) + c_ndevs d + a_size (c_firmwares d))%nat = nmnt_of cnt info⌝ ∗ inputs cntp c cnt infop d info.
Proof.
  rewrite /inputs /container_at /driver_at.
  iIntros "(Hc & (C1 & C2 & C3 & C4 & C5) & Hi & D1 & D2 & D3 & D4 & D5 & D6 & D7 & D8 & %Hd)".
  iDestruct (strings_null_or_at with "C4") as "[%H4 C4]". iDestruct (strings_null_or_at with "D3") as "[%H3 D3]".
  iDestruct (strings_null_or_at with "D4") as "[%H5 D4]". iDestruct (strings_null_or_at with "D5") as "[%H6 D5]".
  iDestruct (strings_null_or_at with "D6") as "[%H7 D6]". iDestruct (strings_null_or_at with "D7") as "[%H8 D7]".
  iSplit; [iPureIntro; rewrite /nmnt_of; lia|]. by iFrame.
Qed.

Lemma mounts_any p n l : mounts p n l ⊢ any_strings (CArray p n).
Proof.
  iIntros "[%Hn H]". iRight. iExists ((Some <$> l) ++ replicate (n - length l) None), 0%nat. rewrite app_nil_r. iFrame.
  iPureIntro. rewrite length_app length_fmap length_replicate /=. lia.
Qed.

Lemma nvc_driver_mount_refines ctx cntp cnt infop info :
  lost ∗ container cntp (Some cnt) ∗ driver_info infop (Some info) ⊢
  refines (nvc_driver_mount ctx cntp infop) (Mount.nvc_driver_mount ctx (Some cnt) (Some info))
    (fun r r' => <affine> ⌜r = r'⌝ ∗ lost ∗ container cntp (Some cnt) ∗ driver_info infop (Some info)).
Proof.
  iIntros "(HL & (%c & Hc & Hcnt) & (%d & Hi & Hd))". iAssert (inputs cntp c cnt infop d info) with "[Hc Hcnt Hi Hd]" as "HI"; [iFrame|].
  iDestruct (inputs_sizes with "HI") as "[%Hn (Hc & Hcnt & Hi & Hd)]".
  iApply (refines_wand _ _ (fun r r' => <affine> ⌜r = r'⌝ ∗ lost ∗ inputs cntp c cnt infop d info)%I with "[-]").
  2:{ iIntros (r r') "(-> & $ & Hc & Hcnt & Hi & Hd)". iSplit; [done|]. iSplitL "Hc Hcnt"; [iExists c|iExists d]; iFrame. }
  rewrite /nvc_driver_mount /Mount.nvc_driver_mount.
  iApply step_lift. iIntros ([u|]); [|iApply refines_ret; by iFrame].
  iDestruct (owns_at with "Hc") as "[(%a & ->) Hc]". iDestruct (owns_at with "Hi") as "[(%b & ->) Hi]". rewrite /in_container.
  iApply step_read_container. iFrame "Hc Hcnt". iIntros "Hc Hcnt".
  iApply step_lift. iIntros ([u1|]); [|iApply refines_ret; by iFrame].
  iApply step_get_cnt. iFrame "Hc". iIntros "Hc". iApply step_get_info. iFrame "Hi". iIntros "Hi". rewrite Hn.
  set (n := nmnt_of cnt info). iAssert (lost ∗ inputs (At a) c cnt (At b) d info)%I with "[HL Hc Hcnt Hi Hd]" as "HR"; [iFrame|].
  iApply refines_assoc_r. iApply refines_bind. iApply refines_wand; [iApply array_new_refines|].
  iIntros ([mnt|] [l0|]) "Hm"; iSimpl in "Hm"; try done.
  2:{ iApply refines_assoc. iApply step_ret. iApply step_ret. iApply step_ret. iApply refines_ret_r. iApply refines_bind_l.
      iApply refines_lift. iIntros (rv). iApply step_ret. iApply refines_ret. by iFrame. }
  iDestruct "Hm" as "[Hm ->]". iApply refines_assoc. iApply step_ret. iApply refines_assoc_r.
  iApply refines_bind. iApply (refines_wand with "[HR Hm]").
  { iApply driver_mounts_refines. iFrame "HR". by iApply mounts_new. }
  iIntros (r [l ok]) "(HR & Hm & ->)". cbn [fst snd]. destruct ok.
  - iApply step_ret. iApply refines_ret_r. iApply refines_bind_l. iApply refines_lift. iIntros (rv).
    iApply step_array_free. iSplitL "Hm"; [by iApply mounts_any|]. iApply refines_ret. by iFrame.
  - iDestruct "Hm" as "[%Hl Hm]". iApply refines_assoc_r. iApply refines_bind.
    iApply (refines_wand with "[Hm]"); [by iApply (unmount_slots_refines _ n n l with "Hm")|]. iIntros ([] []) "Hm".
    iApply refines_ret_r. iApply refines_bind_l. iApply refines_lift. iIntros (rv).
    iApply step_array_free. iSplitL "Hm"; [iApply mounts_any; by iFrame|]. iApply refines_ret. by iFrame.
Qed.

(** C14: [nvc_driver_mount] with its arrays is the function of [Mount] on what the
    container and the information hold, whatever fails: it gives both back as they
    were and leaves the rest of the heap alone; every path it copied and every array
    it made is freed.  What it adds are compiled expressions, which nobody frees. *)
Theorem nvc_driver_mount_memory (ctx : nvc_context) (cntp infop : ptr) (cnt : nvc_container) (info : nvc_driver_info)
    (o : env) (s : st) (h hf : heap block) :
  holds (container cntp (Some cnt) ∗ driver_info infop (Some info))%I h -> h ##ₘ hf ->
  match exec o (Mount.nvc_driver_mount ctx (Some cnt) (Some info)) s with
  | (t, Done (s', r)) =>
      exists h', exec o (nvc_driver_mount ctx cntp infop (h ∪ hf)) s = (t, Done (s', (h' ∪ hf, r))) /\ h' ##ₘ hf /\
        holds (lost ∗ container cntp (Some cnt) ∗ driver_info infop (Some info))%I h'
  | (_, Halted (Undefined _)) => True
  | (t, Halted w) => exec o (nvc_driver_mount ctx cntp infop (h ∪ hf)) s = (t, Halted w)
  end.
Proof.
  intros Hh Hd.
  assert (container cntp (Some cnt) ∗ driver_info infop (Some info) ⊢
    refines (nvc_driver_mount ctx cntp infop) (Mount.nvc_driver_mount ctx (Some cnt) (Some info))
      (fun r r' => <affine> ⌜r = r'⌝ ∗ lost ∗ container cntp (Some cnt) ∗ driver_info infop (Some info))) as Hr.
  { iIntros "[Hc Hi]". iApply nvc_driver_mount_refines. iFrame. by iExists []. }
  pose proof (refines_run _ _ _ _ h hf s o Hr Hh Hd) as Hx.
  destruct (exec o (Mount.nvc_driver_mount _ _ _) s) as [t [[s' r]|w]]; [|exact Hx].
  destruct Hx as (r' & h' & He & Hd' & Hh'). apply holds_pure_sep in Hh' as [-> Hh']. by exists h'.
Qed.
End DriverMount.
End Mounting.

(** *** A run *)

Definition quiet_cnt_opts : option string := Some "supervised utility".
Definition root_cnt_host : env := fun t e =>
  match e return resp e with
  | EStat _ => SOk (mkStat S_IFDIR 0 0 0 0)
  | e => demo_cnt_host t e
  end.

(** What is found on the host of [Info], mounted into a container of the superuser. *)
Lemma nvc_driver_mount_memory_witness :
  exists cntp infop cnt info h,
    holds (container cntp (Some cnt) ∗ driver_info infop (Some info))%I h /\
    bins info = ["/usr/bin/xdxsmi"] /\ libs info = ["/usr/lib/libdrm.so.2"] /\
    exists t s' h', exec demo_mount_host (nvc_driver_mount (H0 := Nvcgo.ops) demo_ctx cntp infop h) init_st
        = (t, Done (s', (h', Some tt))) /\
      holds (lost ∗ container cntp (Some cnt) ∗ driver_info infop (Some info))%I h'.
Proof.
  pose proof (refines_run _ _ emp%I _ ∅ ∅ init_st demo_host (nvc_driver_info_new_refines demo_ctx None eq_refl) eq_refl
    (map_disjoint_empty_r _)) as H1.
  remember (exec demo_host (Info.nvc_driver_info_new demo_ctx None) init_st) as x eqn:Hx. vm_compute in Hx. subst x.
  destruct H1 as (infop & h1 & _ & _ & Hi).
  pose proof (refines_run _ _ emp%I _ ∅ h1 init_st root_cnt_host
    (nvc_container_new_refines (H0 := Nvcgo.ops) demo_ctx (Some demo_cnt_cfg) quiet_cnt_opts) eq_refl (map_disjoint_empty_l _)) as H2.
  remember (exec root_cnt_host (Container.nvc_container_new (H := Nvcgo.ops) demo_ctx (Some demo_cnt_cfg) quiet_cnt_opts) init_st)
    as x eqn:Hx. vm_compute in Hx. subst x. destruct H2 as (cntp & h2 & _ & Hd & Hc).
  assert (holds (container cntp (Some _) ∗ driver_info infop (Some _))%I (h2 ∪ h1)) as Hh by (exists h2, h1; eauto).
  pose proof (nvc_driver_mount_memory (H0 := Nvcgo.ops) demo_ctx cntp infop _ _ demo_mount_host init_st _ ∅ Hh
    (map_disjoint_empty_r _)) as H3.
  eexists cntp, infop, _, _, _. split; [exact Hh|]. split; [reflexivity|]. split; [reflexivity|].
  remember (exec demo_mount_host (Mount.nvc_driver_mount _ _ _) init_st) as x eqn:Hx. vm_compute in Hx. subst x.
  destruct H3 as (h' & He & Hd' & Hh'). rewrite !map_union_empty in He. do 3 eexists. split; [exact He|exact Hh'].
Defined.
