(* ===== verification/Ldconfig.v ===== *)
(** * The update of the loader cache of a container

    [src/src/nvc_ldcache.c]: the library runs the [ldconfig] of the container (or
    of the host) in a process of its own, which it confines before it executes
    it.  The child is the side of [create_process] on which the kernel answers
    [0]; it never comes back.  The log of [src/src/utils.c] is an argument:
    [log_active] says whether there is one, and only [log_pipe_output] does more
    than write to it. *)
From S2P Require Import Prelude CString Effects Logic Errors Options Utils Types Paths Files Devices Ldcache Driver Cgroup Info Container Mount.

Definition SIGCHLD : Z := 17.
Definition CLONE_NEWIPC : Z := 134217728.
Definition CLONE_NEWPID : Z := 536870912.
Definition MS_MOVE : Z := 8192.
Definition MS_REC : Z := 16384.
Definition MS_PRIVATE : Z := 262144.
Definition SECBIT_NO_SETUID_FIXUP : Z := 4.
Definition PROC_SELF : string := "/proc/self".
Definition PROC_SETGROUPS_PATH (proc : string) : string := proc +:+ "/setgroups".

(** ** Creating the process *)

Definition INSECURE : string := "NVC_INSECURE_MODE".

Definition says_secure (s : option string) : bool :=
  match s with
  | None => true
  | Some s => str_equal s "0" || str_case_equal s "false" || str_case_equal s "no"
  end.

Definition secure_mode : M bool :=
  let* s := call (EGetenv INSECURE) in
  ret (says_secure s).

(** The lines themselves go to the log.  The second component is what is left in
    [fd[1]]; closing the stream closes [fd[0]]. *)
Definition log_pipe_output (log_active : bool) (fd0 fd1 : Z) : M (option unit * Z) :=
  if negb log_active then ret (Some tt, fd1)
  else
    let* fd1 := (if 0 <=? fd1 then do close fd1 in ret (-1) else ret fd1) in
    let* r := call (EFdopen fd0) in
    let? fs := trap r else do error_set "open failed" in ret (None, fd1) in
    let* rv := (if s_error fs then do error_set "read error" in ret None else ret (Some tt)) in
    do close fd0 in
    ret (rv, fd1).

(** The standard streams of the child; also the descriptor of [/dev/null]. *)
Definition redirect (log_active : bool) (fd1 : Z) : M (option unit * Z) :=
  let? null := xopen "/dev/null" O_RDWR else ret (None, -1) in
  let out := if log_active then fd1 else null in
  let fail := do error_set "file duplication failed" in ret (None, null) in
  let* r := call (EDup2 null 0) in
  let? _ := trap r else fail in
  let* r := call (EDup2 out 1) in
  let? _ := trap r else fail in
  let* r := call (EDup2 out 2) in
  let? _ := trap r else fail in
  ret (Some tt, null).

(** Failing to capture the output is only logged. *)
Definition create_process (log_active : bool) (flags : Z) : M (option Z) :=
  let fail fd0 fd1 :=
    do error_set "process creation failed" in do xclose fd0 in do xclose fd1 in ret None in
  let? fd := (if log_active then
                let* r := call EPipe in
                let? p := trap r else ret None in
                ret (Some (Z.of_N (fst p), Z.of_N (snd p)))
              else ret (Some (-1, -1))) else fail (-1) (-1) in
  let '(fd0, fd1) := fd in
  let* r := call (EFork (SIGCHLD .| flags)) in
  let? child := trap r else fail fd0 fd1 in
  let* out := (if (child =? 0)%N then
                 let* r := redirect log_active fd1 in ret (fst r, fd1, snd r)
               else
                 let* r := log_pipe_output log_active fd0 fd1 in ret (fst r, snd r, -1)) in
  let '(rv, fd1, null) := out in
  do match rv with Some _ => ret tt | None => error_reset end in
  do xclose fd0 in
  do xclose fd1 in
  do xclose null in
  ret (Some (Z.of_N child)).

(** ** Confinement *)

(** Go to a new root; the descriptors of the old and of the new root are left
    open. *)
Definition enter_root (rootfs : string) (no_pivot : bool) : M (Z * Z * option unit) :=
  let fail := ret (-1, -1, None) in
  let* r := call (EUnshare CLONE_NEWNS) in
  let? _ := trap r else fail in
  let? _ := xmount None "/" None (MS_PRIVATE .| MS_REC) None else fail in
  let? _ := xmount (Some rootfs) rootfs None (MS_BIND .| MS_REC) None else fail in
  let? roots :=
    (if no_pivot then
       let? _ := xmount (Some rootfs) "/" None MS_MOVE None else ret None in
       ret (Some (-1))
     else
       let? oldroot := xopen "/" (O_PATH .| O_DIRECTORY) else ret None in
       ret (Some oldroot)) else fail in
  let oldroot := roots in
  let? newroot := xopen rootfs (O_PATH .| O_DIRECTORY) else ret (oldroot, -1, None) in
  let fail := ret (oldroot, newroot, None) in
  let* r := call (EFchdir newroot) in
  let? _ := trap r else fail in
  let? _ :=
    (if no_pivot then ret (Some tt)
     else
       let* r := call EPivotRoot in
       let? _ := trap r else ret None in
       let* r := call (EFchdir oldroot) in
       let? _ := trap r else ret None in
       let* r := call (EUmount "." MNT_DETACH) in
       let? _ := trap r else ret None in
       let* r := call (EFchdir newroot) in
       let? _ := trap r else ret None in
       ret (Some tt)) else fail in
  let* r := call (EChroot ".") in
  let? _ := trap r else fail in
  ret (oldroot, newroot, Some tt).

(** Hide what the container should not see, and say whether the supplementary
    groups can be dropped. *)
Definition hide_mounts (mount_proc : bool) (uid gid : Z) : M (option bool) :=
  let? _ := (if mount_proc then xmount None "/proc" (Some "proc") MS_RDONLY None else ret (Some tt)) else ret None in
  let* buf := null_err (file_read_line (PROC_SETGROUPS_PATH PROC_SELF) 8) in
  let drop_groups := negb (str_has_prefix (default "" buf) "deny") in
  let? _ := iterM (fun m => xmount None m (Some "tmpfs") MS_RDONLY None)
              (if mount_proc then ["/sys"; "/dev"] else ["/proc"; "/sys"; "/dev"]) else ret None in
  let? _ := xmount None "/dev" (Some "tmpfs") MS_REMOUNT None else ret None in
  let? _ := file_create "/dev/fd" (Some "/proc/self/fd") uid gid (MODE_LNK m777) else ret None in
  let? _ := xmount None "/dev" (Some "tmpfs") (MS_REMOUNT .| MS_RDONLY) None else ret None in
  ret (Some drop_groups).

Definition change_rootfs (rootfs : string) (no_pivot mount_proc : bool) (uid gid : Z) : M (option bool) :=
  do error_reset in
  let* r := enter_root rootfs no_pivot in
  let '(oldroot, newroot, ok) := r in
  let* rv := match ok with None => ret None | Some _ => hide_mounts mount_proc uid gid end in
  do match rv with
     | Some _ => ret 0
     | None => let* c := err_code in if c =? 0 then error_set "process confinement failed" else ret 0
     end in
  do xclose oldroot in
  do xclose newroot in
  ret rv.

Definition adjust_capabilities (uid : Z) (host_ldconfig : bool) : M (option unit) :=
  let* secure := secure_mode in
  let? _ :=
    (if (secure : bool) && negb host_ldconfig then perm_set_capabilities CAP_INHERITABLE []
     else
       let* r := perm_set_capabilities CAP_INHERITABLE [CAP_DAC_OVERRIDE] in
       match r with
       | None =>
           let* c := err_code in
           if negb (c =? EPERM) then ret None
           else perm_set_capabilities CAP_INHERITABLE []
       | Some _ =>
           if uid =? 0 then ret (Some tt)
           else
             let* r := perm_set_capabilities CAP_AMBIENT [CAP_DAC_OVERRIDE] in
             match r with
             | None => let* c := err_code in if negb (c =? EPERM) then ret None else ret (Some tt)
             | Some _ => ret (Some tt)
             end
       end) else ret None in
  perm_set_bounds [].

Definition adjust_privileges (uid gid : Z) (drop_groups : bool) : M (option unit) :=
  let? _ :=
    (if uid =? 0 then ret (Some tt)
     else
       let* r := call (EPrctl "PR_SET_SECUREBITS" SECBIT_NO_SETUID_FIXUP) in
       let* rv := trap r in
       match rv with
       | Some _ => ret (Some tt)
       | None =>
           let* n := get_errno in
           if n =? EPERM then ret (Some tt)
           else do error_set "privilege change failed" in ret None
       end) else ret None in
  perm_drop_privileges uid gid drop_groups.

Definition rlimits : list (string * Z) :=
  [("RLIMIT_CPU", 10); ("RLIMIT_AS", 2 * 1024 * 1024 * 1024); ("RLIMIT_NOFILE", 64); ("RLIMIT_FSIZE", 1024 * 1024)].

Definition limit_resources : M (option unit) :=
  let? _ := iterM (fun l => let* r := call (ESetrlimit (fst l) (snd l)) in trap r) rlimits
    else do error_set "resource limiting failed" in ret None in
  ret (Some tt).

(** The list of the x86 build. *)
Definition syscalls : list string :=
  ["access"; "arch_prctl"; "brk"; "chdir"; "chmod"; "close"; "execve"; "execveat"; "exit"; "exit_group";
   "fcntl"; "fdatasync"; "fstat"; "fsync"; "ftruncate"; "getcwd"; "getdents"; "getdents64"; "getegid";
   "geteuid"; "getgid"; "getpgrp"; "getpid"; "gettid"; "gettimeofday"; "getuid"; "_llseek"; "lseek"; "lstat";
   "mkdir"; "mmap"; "mprotect"; "mremap"; "munmap"; "newfstatat"; "open"; "openat"; "pread64"; "read";
   "readlink"; "readv"; "rename"; "rt_sigaction"; "rt_sigprocmask"; "rt_sigreturn"; "stat"; "symlink";
   "tgkill"; "time"; "uname"; "unlink"; "write"; "writev"].

(** [with_seccomp] is the build option. *)
Definition limit_syscalls (with_seccomp : bool) : M (option unit) :=
  if with_seccomp then
    let fail := do error_setx "syscall limiting failed" in ret None in
    let* ctx := call ESeccompInit in
    if negb ctx then fail
    else
      let? _ := iterM (fun n => let* ok := call (ESeccompRule n) in ret (if ok : bool then Some tt else None)) syscalls
        else fail in
      let* ok := call ESeccompLoad in
      if ok : bool then ret (Some tt) else fail
  else
    let* secure := secure_mode in
    if secure : bool then do error_setx "running in secure mode with seccomp disabled" in ret None
    else ret (Some tt).

(** ** Running [ldconfig] *)

(** A [NULL] entry ends [argv]. *)
Fixpoint argv_of (l : list (option string)) : list string :=
  match l with
  | Some a :: l' => a :: argv_of l'
  | _ => []
  end.

(** What the child does up to its last call; it comes back only on failure. *)
Definition start_ldconfig (with_seccomp : bool) (ctx : nvc_context) (cnt : nvc_container) (fd : option Z)
    (path : string) (argv : list string) : M unit :=
  let* r := call (EPrctl "PR_SET_NAME" 0) in
  do trap r in
  let host_ldconfig := match fd with Some _ => true | None => false end in
  let? _ := ns_enter (cmnt_ns cnt) CLONE_NEWNS else ret tt in
  let? _ := adjust_capabilities (cuid cnt) host_ldconfig else ret tt in
  let? drop_groups := change_rootfs (rootfs_of cnt) (no_pivot ctx) host_ldconfig (cuid cnt) (cgid cnt) else ret tt in
  let? _ := limit_resources else ret tt in
  let? _ := adjust_privileges (cuid cnt) (cgid cnt) drop_groups else ret tt in
  let? _ := limit_syscalls with_seccomp else ret tt in
  let* r := match fd with None => call (EExec path argv) | Some fd => call (EFexec fd argv) end in
  let? _ := trap r else do error_set "process execution failed" in ret tt in
  halt Executed.

(** The status of a child that could not run [ldconfig]: a missing one is not an
    error. *)
Definition child_exit {A} : M A :=
  let* c := err_code in
  halt (Exited (if c =? ENOENT then 0 else 1)).

Definition nvc_ldcache_update (with_seccomp log_active : bool) (ctx : nvc_context) (cnt : option nvc_container)
  : M (option unit) :=
  let? _ := validate_context ctx else ret None in
  match cnt with
  | None => validate_args false
  | Some cnt =>
      match ldconfig (ccfg cnt) with
      | None => halt (Undefined "ldconfig is NULL")
      | Some path =>
          let host := Ascii.eqb (first_char path) "@" in
          let path := if host then str_drop 1 path else path in
          let argv := argv_of [Some path; Some "-f"; Some "/etc/ld.so.conf"; Some "-C"; Some "/etc/ld.so.cache";
                               libs_dir (ccfg cnt); libs32_dir (ccfg cnt)] in
          let? fd := (if host then
                        let? fd := xopen path (O_RDONLY .| O_CLOEXEC) else ret None in ret (Some (Some fd))
                      else ret (Some None)) else ret None in
          let fd_of := default (-1) fd in
          let? child := create_process log_active (CLONE_NEWPID .| CLONE_NEWIPC) else do xclose fd_of in ret None in
          if child =? 0 then
            do start_ldconfig with_seccomp ctx cnt fd path argv in
            child_exit
          else
            do xclose fd_of in
            let* r := call (EWaitpid child) in
            let? status := trap r else do error_set "process reaping failed" in ret None in
            match status with
            | WSignaled sig =>
                do error_setx ("process " +:+ path +:+ " terminated with signal " +:+ print_Z sig) in ret None
            | WExited code =>
                if negb (code =? 0) then
                  do error_setx ("process " +:+ path +:+ " failed with error code: " +:+ print_Z code) in ret None
                else ret (Some tt)
            end
      end
  end.

(** ** Where a process is and what confines it

    All of it is read from the trace: what the process asked for and the kernel
    granted. *)

(** The descriptors it opened, the mount namespace it entered, whether it has
    one of its own with private propagation, its directory, its root, and the
    mounts made since it has this root. *)
Record place := mkPlace {
  pl_fds : list (Z * string); pl_ns : option string; pl_unshared : bool; pl_private : bool;
  pl_cwd : option string; pl_root : option string; pl_mounts : list (string * option string * Z)
}.

Fixpoint fd_path (fds : list (Z * string)) (fd : Z) : option string :=
  match fds with
  | [] => None
  | (n, path) :: fds' => if n =? fd then Some path else fd_path fds' fd
  end.

Definition place_step (g : place) (ev : event) : place :=
  match ev with
  | Event (EOpen path _) (SOk fd) =>
      mkPlace ((Z.of_N fd, path) :: pl_fds g) (pl_ns g) (pl_unshared g) (pl_private g) (pl_cwd g) (pl_root g) (pl_mounts g)
  | Event (ESetns fd _) (SOk _) => mkPlace (pl_fds g) (fd_path (pl_fds g) fd) false false None None []
  | Event (EUnshare fl) (SOk _) =>
      mkPlace (pl_fds g) (pl_ns g) (fl =? CLONE_NEWNS) false (pl_cwd g) (pl_root g) (pl_mounts g)
  | Event (EMount _ target fstype fl _) (SOk _) =>
      if (target =? "/")%string && (fl =? MS_PRIVATE .| MS_REC) then
        mkPlace (pl_fds g) (pl_ns g) (pl_unshared g) (pl_unshared g) (pl_cwd g) (pl_root g) (pl_mounts g)
      else
        mkPlace (pl_fds g) (pl_ns g) (pl_unshared g) (pl_private g) (pl_cwd g) (pl_root g)
                ((target, fstype, fl) :: pl_mounts g)
  | Event (EFchdir fd) (SOk _) =>
      mkPlace (pl_fds g) (pl_ns g) (pl_unshared g) (pl_private g) (fd_path (pl_fds g) fd) (pl_root g) (pl_mounts g)
  | Event (EChroot path) (SOk _) =>
      mkPlace (pl_fds g) (pl_ns g) (pl_unshared g) (pl_private g) (pl_cwd g)
              (if (path =? ".")%string then pl_cwd g else None) []
  | _ => g
  end.

Definition limits_step (l : list (string * Z)) (ev : event) : list (string * Z) :=
  match ev with
  | Event (ESetrlimit what lim) (SOk _) => l ++ [(what, lim)]
  | _ => l
  end.

(** The rules of the filter in preparation, and the filter in force. *)
Definition filter_step (f : list string * option (list string)) (ev : event) : list string * option (list string) :=
  match ev with
  | Event ESeccompInit true => ([], snd f)
  | Event (ESeccompRule n) true => (fst f ++ [n], snd f)
  | Event ESeccompLoad true => (fst f, Some (fst f))
  | _ => f
  end.

(** What the environment said last about the mode. *)
Definition secure_step (b : bool) (ev : event) : bool :=
  match ev with
  | Event (EGetenv n) r => if (n =? INSECURE)%string then says_secure r else b
  | _ => b
  end.

Record box := mkBox {
  b_place : place; b_bset : gset Z; b_privs : privs; b_limits : list (string * Z);
  b_filter : list string * option (list string); b_secure : bool
}.

Definition box_step (g : box) (ev : event) : box :=
  mkBox (place_step (b_place g) ev) (bset_step (b_bset g) ev) (priv_step (b_privs g) ev)
        (limits_step (b_limits g) ev) (filter_step (b_filter g) ev) (secure_step (b_secure g) ev).

(** A read-only mount hides [target]. *)
Definition hidden (g : place) (target : string) : Prop :=
  exists fstype fl, (target, Some fstype, fl) ∈ pl_mounts g /\ Z.testbit fl 0 = true.

(** The process is confined to the container: in its mount namespace, but in a
    copy of its own; in its root, where [/proc], [/sys] and [/dev] are covered;
    with an empty bounding set, the identity of the container for good, limited
    resources, and only the listed system calls (a build without the filter
    needs the insecure mode). *)
Record confined_box (with_seccomp : bool) (cnt : nvc_container) (g : box) : Prop := {
  cb_ns : pl_ns (b_place g) = Some (cmnt_ns cnt);
  cb_private : pl_private (b_place g) = true;
  cb_root : pl_root (b_place g) = Some (rootfs_of cnt);
  cb_hidden : Forall (hidden (b_place g)) ["/proc"; "/sys"; "/dev"];
  cb_bset : forall c, 0 <= c <= CAP_LAST_CAP -> c ∈ b_bset g;
  cb_uid : p_uid (b_privs g) = cuid cnt;
  cb_gid : p_gid (b_privs g) = cgid cnt;
  cb_nnp : p_nnp (b_privs g) = true;
  cb_limits : rlimits ⊆ b_limits g;
  cb_filter : if with_seccomp then snd (b_filter g) = Some syscalls else b_secure g = false
}.

(** ** What each part does *)

Lemma err_code_ens : ensures (only []) (fun w => w = Undefined "err->code of NULL") err_code any.
Proof. unfold err_code. ens. Qed.
Lemma secure_mode_ens : ensures (only [KLib]) no_stop secure_mode any.
Proof. unfold secure_mode. ens. Qed.
#[export] Hint Resolve err_code_ens secure_mode_ens : ens.

(** Making a process runs no program. *)
Definition no_exec (ev : event) : Prop :=
  match ev_call ev with EExec _ _ | EExecle _ _ _ | EFexec _ _ => False | _ => True end.

(** The parts of the state that only the confinement changes. *)
Definition core (g : box) :=
  (pl_ns (b_place g), pl_private (b_place g), pl_root (b_place g), pl_mounts (b_place g)).

(** The events of [change_rootfs]: none changes the identity or the limits. *)
Definition moving (ev : event) : Prop :=
  match kind_of (ev_call ev) with
  | KLib | KRead | KWrite | KMount | KNs => True
  | KCred => fs_ids ev
  | _ => False
  end.

(** The events of [adjust_privileges]. *)
Definition dropping (ev : event) : Prop :=
  match ev_call ev with
  | EPrctl op _ => op = "PR_SET_NO_NEW_PRIVS" \/ op = "PR_SET_SECUREBITS"
  | ECapSetProc _ | ESetrlimit _ _ | ESeccompInit | ESeccompRule _ | ESeccompLoad => False
  | e => match kind_of e with KLib | KCred => True | _ => False end
  end.

Definition limiting (ev : event) : Prop :=
  match ev_call ev with
  | ESetrlimit _ _ => True
  | e => match kind_of e with KLib => True | _ => False end
  end.

Definition filtering (ev : event) : Prop :=
  match ev_call ev with
  | ESeccompInit | ESeccompRule _ | ESeccompLoad => True
  | e => match kind_of e with KLib => True | _ => False end
  end.

Lemma moving_lib ev : only [KLib] ev -> moving ev.
Proof. destruct ev as [[] ?]; done. Qed.
Lemma moving_none ev : only [] ev -> moving ev.
Proof. destruct ev as [[] ?]; done. Qed.
Lemma moving_read ev : only [KRead] ev -> moving ev.
Proof. destruct ev as [[] ?]; done. Qed.
Lemma moving_lib_read ev : only [KLib; KRead] ev -> moving ev.
Proof. destruct ev as [[] ?]; done. Qed.
Lemma moving_lib_mount ev : only [KLib; KMount] ev -> moving ev.
Proof. destruct ev as [[] ?]; done. Qed.
Lemma moving_creates path ev : creates_below path ev -> moving ev.
Proof. destruct ev as [[] ?]; done. Qed.
Lemma dropping_lib ev : only [KLib] ev -> dropping ev.
Proof. destruct ev as [[] ?]; done. Qed.
Lemma limiting_lib ev : only [KLib] ev -> limiting ev.
Proof. destruct ev as [[] ?]; done. Qed.
Lemma filtering_lib ev : only [KLib] ev -> filtering ev.
Proof. destruct ev as [[] ?]; done. Qed.
#[export] Hint Resolve moving_lib moving_none moving_read moving_lib_read moving_lib_mount moving_creates
  dropping_lib limiting_lib filtering_lib : ens.

Lemma change_rootfs_ens rootfs np mp uid gid :
  ensures moving (fun w => w = Assertion \/ w = Undefined "err->code of NULL") (change_rootfs rootfs np mp uid gid) any.
Proof.
  unfold change_rootfs, enter_root, hide_mounts.
  assert (forall l, ensures moving no_stop (iterM (fun m => xmount None m (Some "tmpfs") MS_RDONLY None) l) any) as Hi.
  { intros l. apply ensures_iterM. intros. ens. }
  pose proof file_create_ens. ens.
Qed.

Lemma adjust_privileges_ens uid gid b :
  ensures dropping (fun w => w = Undefined "egroup is not initialised") (adjust_privileges uid gid b) any.
Proof.
  assert (forall op c r, op = "PR_SET_NO_NEW_PRIVS" \/ op = "PR_SET_SECUREBITS" -> dropping (Event (EPrctl op c) r)) by done.
  unfold adjust_privileges, perm_drop_privileges.
  eapply ensures_bind with (R := any); [ens; auto|]. intros [[]|] _; [|ens].
  ens_step. ens_step. cbv zeta.
  eapply ensures_bind with (R := any); [ens|]. intros [[]|] _; [|ens].
  eapply ensures_bind with (R := any); [ens|]. intros [[]|] _; [|ens].
  eapply ensures_bind with (R := any); [ens|]. intros [[]|] _; [|ens].
  eapply ensures_bind with (R := any); [ens|]. intros [] _; ens; auto.
Qed.

Lemma limit_resources_ens : ensures limiting no_stop limit_resources any.
Proof.
  unfold limit_resources. eapply ensures_bind; [apply ensures_iterM; intros; ens|]. intros [] _; ens.
Qed.

Lemma limit_syscalls_ens ws : ensures filtering no_stop (limit_syscalls ws) any.
Proof.
  unfold limit_syscalls. destruct ws; [|ens]. ens_step. destruct (negb a); [ens|].
  eapply ensures_bind; [apply ensures_iterM; intros; ens|]. intros [] _; ens.
Qed.

Lemma adjust_capabilities_ens uid h :
  ensures (only [KLib; KRead; KCred]) (fun w => w = Undefined "signed overflow" \/ w = Undefined "err->code of NULL")
    (adjust_capabilities uid h) any.
Proof. unfold adjust_capabilities. ens. Qed.

Lemma no_exec_lib ev : only [KLib] ev -> no_exec ev.
Proof. by destruct ev as [[] ?]. Qed.
Lemma no_exec_read ev : only [KRead] ev -> no_exec ev.
Proof. by destruct ev as [[] ?]. Qed.
Lemma no_exec_lib_read ev : only [KLib; KRead] ev -> no_exec ev.
Proof. by destruct ev as [[] ?]. Qed.
#[export] Hint Resolve no_exec_lib no_exec_read no_exec_lib_read : ens.

(** Neither makes, awaits nor replaces a process. *)
Definition alone (ev : event) : Prop :=
  match ev_call ev with EExec _ _ | EExecle _ _ _ | EFexec _ _ | EFork _ | EWaitpid _ => False | _ => True end.
Lemma alone_lib ev : only [KLib] ev -> alone ev.
Proof. by destruct ev as [[] ?]. Qed.
Lemma alone_read ev : only [KRead] ev -> alone ev.
Proof. by destruct ev as [[] ?]. Qed.
Lemma alone_lib_read ev : only [KLib; KRead] ev -> alone ev.
Proof. by destruct ev as [[] ?]. Qed.
Lemma alone_no_exec ev : alone ev -> no_exec ev.
Proof. by destruct ev as [[] ?]. Qed.
#[export] Hint Resolve alone_lib alone_read alone_lib_read alone_no_exec : ens.

Lemma log_pipe_output_ens b fd0 fd1 : ensures alone no_stop (log_pipe_output b fd0 fd1) any.
Proof. unfold log_pipe_output. ens. Qed.
Lemma redirect_ens b fd1 : ensures alone no_stop (redirect b fd1) any.
Proof. unfold redirect. ens. Qed.
#[export] Hint Resolve log_pipe_output_ens redirect_ens : ens.

Lemma create_process_ens b fl : ensures no_exec no_stop (create_process b fl) any.
Proof. unfold create_process. ens. Qed.

(** *** The mount namespace and the root *)

Lemma xopen_place path fl g :
  ghost place_step (xopen path fl) g
    (when (fun fd g' => g' = mkPlace ((fd, path) :: pl_fds g) (pl_ns g) (pl_unshared g) (pl_private g) (pl_cwd g)
                               (pl_root g) (pl_mounts g))).
Proof. unfold xopen. repeat gstep; done. Qed.

Lemma ns_enter_place path g :
  ghost place_step (ns_enter path CLONE_NEWNS) g (when (fun _ g' => pl_ns g' = Some path)).
Proof.
  unfold ns_enter, close. eapply ghost_try; [apply xopen_place| |intros; by gstep]. intros fd g1 ->.
  repeat gstep; try done; simpl; by rewrite Z.eqb_refl.
Qed.

Lemma xmount_place src tgt ty fl data g :
  ghost place_step (xmount src tgt ty fl data) g
    (when (fun _ g' => g' = place_step g (Event (EMount src tgt ty fl data) (SOk tt)))).
Proof. unfold xmount. repeat gstep; done. Qed.

(** Going to [rootfs] through the descriptor that was opened for it. *)
Lemma enter_root_place rootfs np g :
  ghost place_step (enter_root rootfs np) g
    (fun r => when (fun _ g' => pl_ns g' = pl_ns g /\ pl_private g' = true /\ pl_root g' = Some rootfs) (snd r)).
Proof.
  unfold enter_root. do 2 gstep; [|by repeat gstep].
  eapply ghost_try; [apply xmount_place| |intros; by gstep]. intros [] g1 ->.
  eapply ghost_try; [apply xmount_place| |intros; by gstep]. intros [] g2 ->.
  set (g2 := place_step _ _).
  assert (pl_ns g2 = pl_ns g /\ pl_private g2 = true) as H2.
  { subst g2. simpl. by destruct (_ && _). }
  clearbody g2.
  eapply ghost_try with (R1 := fun _ g' => pl_ns g' = pl_ns g /\ pl_private g' = true); [| |intros; by gstep].
  { destruct np.
    - eapply ghost_try; [apply xmount_place| |intros; by gstep]. intros [] g3 ->. by gstep.
    - eapply ghost_try; [apply xopen_place| |intros; by gstep]. intros fd g3 ->. by gstep. }
  intros old g3 [Hn Hp].
  eapply ghost_try; [apply xopen_place| |intros; by gstep]. intros new g4 ->.
  destruct np; repeat gstep; try done; simpl; rewrite ?Z.eqb_refl; done.
Qed.

Definition settled (g g' : place) : Prop :=
  (pl_ns g', pl_private g', pl_root g') = (pl_ns g, pl_private g, pl_root g) /\
  forall m, hidden g m -> hidden g' m.

#[export] Instance settled_refl : Reflexive settled.
Proof. split; auto. Qed.
#[export] Instance settled_trans : Transitive settled.
Proof. intros g1 g2 g3 [H1 H1'] [H2 H2']. split; [congruence|auto]. Qed.

Lemma xmount_settled tgt ty fl g :
  tgt <> "/" ->
  ghost place_step (xmount None tgt (Some ty) fl None) g
    (when (fun _ g' => settled g g' /\ (Z.testbit fl 0 = true -> hidden g' tgt))).
Proof.
  intros Ht. eapply ghost_post; [apply xmount_place|]. intros [[]|] g'; [intros ->|done].
  cbn [place_step]. rewrite (proj2 (String.eqb_neq _ _) Ht). cbn [andb]. split; [split|].
  - done.
  - intros m (ty' & fl' & Hin & Hb). exists ty', fl'. split; [by apply list_elem_of_further|done].
  - intros Hb. exists ty, fl. split; [apply list_elem_of_here|done].
Qed.

(** Reading and making a file move nothing. *)
Lemma moved_nothing {A} P H (m : M A) Rm g :
  ensures P H m Rm -> (forall ev, P ev -> kind_of (ev_call ev) <> KMount /\ kind_of (ev_call ev) <> KNs) ->
  ghost place_step m g (fun _ g' => settled g g').
Proof.
  intros Hens HP. eapply ghost_post;
    [eapply (ghost_pres _ _ _ _ _ (fun g => (pl_ns g, pl_private g, pl_root g, pl_mounts g))); [exact Hens|]|].
  - intros ev g0 Hev. destruct (HP ev Hev) as (Hm1 & Hn1). clear HP Hev.
    destruct ev as [[] r]; try done. by destruct r.
  - intros a g' [[= En Ep Er Em] _]. split; [congruence|]. unfold hidden. by rewrite Em.
Qed.

Lemma hide_all_place l g :
  Forall (fun m => m <> "/") l ->
  ghost place_step (iterM (fun m => xmount None m (Some "tmpfs") MS_RDONLY None) l) g
    (when (fun _ g' => settled g g' /\ Forall (hidden g') l)).
Proof.
  revert g. induction l as [|m l IH]; intros g Hl; cbn [iterM]; [by gstep|].
  inversion Hl; subst. eapply ghost_try; [by apply xmount_settled| |intros; by gstep].
  intros [] g1 [Hs Hh]. eapply ghost_post; [by apply IH|]. intros [[]|] g'; [|done]. intros [Hs' Hh'].
  split; [by etrans|]. constructor; [|done]. apply Hs'. by apply Hh.
Qed.

Lemma hide_mounts_place mp uid gid g :
  ghost place_step (hide_mounts mp uid gid) g
    (when (fun _ g' => settled g g' /\ Forall (hidden g') ["/proc"; "/sys"; "/dev"])).
Proof.
  unfold hide_mounts.
  eapply ghost_try with (R1 := fun _ g' => settled g g' /\ (mp = true -> hidden g' "/proc")); [| |intros; by gstep].
  { destruct mp; [|by gstep]. eapply ghost_post; [by apply xmount_settled|]. intros [[]|] g'; [|done]. intros []. simpl. auto. }
  intros [] g1 [Hs1 Hp1].
  eapply ghost_bind; [eapply moved_nothing; [apply ensures_null_err, file_read_line_ens|by intros [[] ?]]|].
  intros buf g2 Hs2. cbv beta zeta.
  eapply ghost_try; [apply hide_all_place; by destruct mp; repeat constructor| |intros; by gstep].
  intros [] g3 [Hs3 Hh3].
  eapply ghost_try; [by apply xmount_settled| |intros; by gstep]. intros [] g4 [Hs4 _].
  eapply ghost_bind; [eapply moved_nothing; [apply file_create_ens|by intros [[] ?]]|].
  intros [[]|] g5 Hs5; [|by gstep].
  eapply ghost_try; [by apply xmount_settled| |intros; by gstep]. intros [] g6 [Hs6 _]. gstep.
  assert (settled g3 g6) as Hs36 by (etrans; [exact Hs4|]; by etrans).
  assert (settled g1 g6) as Hs16 by (etrans; [exact Hs2|]; by etrans).
  split; [by etrans|].
  destruct mp; [|eapply Forall_impl; [exact Hh3|apply Hs36]].
  inversion_clear Hh3 as [|? ? Hsys Hd]. inversion_clear Hd. repeat constructor; [by apply Hs16, Hp1|by apply Hs36..].
Qed.

Lemma change_rootfs_place rootfs np mp uid gid g :
  ghost place_step (change_rootfs rootfs np mp uid gid) g
    (when (fun _ g' => pl_ns g' = pl_ns g /\ pl_private g' = true /\ pl_root g' = Some rootfs /\
                       Forall (hidden g') ["/proc"; "/sys"; "/dev"])).
Proof.
  unfold change_rootfs. gstep. eapply ghost_bind; [apply enter_root_place|]. intros [[old new] ok] g1 H1. cbn [snd] in H1.
  eapply ghost_bind with (R1 := when (fun _ g' => pl_ns g' = pl_ns g /\ pl_private g' = true /\ pl_root g' = Some rootfs /\
                       Forall (hidden g') ["/proc"; "/sys"; "/dev"])).
  { destruct ok as [[]|]; [|by gstep]. destruct H1 as (Hn & Hp & Hr).
    eapply ghost_post; [apply hide_mounts_place|]. intros [dg|] g2; [|done]. intros [[[= H2 H3 H4] _] Hh].
    simpl. split_and!; congruence || done. }
  intros [dg|] g2 H2; unfold xclose; [|repeat gstep; done]. repeat gstep; done.
Qed.

Lemma limit_resources_limits g : ghost limits_step limit_resources g (when (fun _ g' => g' = g ++ rlimits)).
Proof.
  unfold limit_resources, rlimits. cbn [iterM fst snd].
  repeat gstep; try done. simpl. by rewrite <- !app_assoc.
Qed.

Lemma iter_rules l rules f :
  ghost filter_step (iterM (fun n => let* ok := call (ESeccompRule n) in ret (if ok : bool then Some tt else None)) l) (rules, f)
    (when (fun _ g' => g' = (rules ++ l, f))).
Proof.
  revert rules. induction l as [|n l IH]; intros rules; cbn [iterM]; [gstep; by rewrite app_nil_r|].
  gstep. gstep. destruct r; gstep; [|by gstep].
  eapply ghost_post; [apply IH|]. intros [[]|] g'; [|done]. simpl. intros ->. by rewrite <- app_assoc.
Qed.

Lemma limit_syscalls_filter g :
  ghost filter_step (limit_syscalls true) g (when (fun _ g' => snd g' = Some syscalls)).
Proof.
  unfold limit_syscalls. gstep. destruct r; cbn [negb]; [|repeat gstep; done].
  eapply ghost_try; [apply iter_rules| |intros; repeat gstep; done]. intros [] g1 ->. repeat gstep; done.
Qed.

Lemma limit_syscalls_secure g :
  ghost secure_step (limit_syscalls false) g (when (fun _ g' => g' = false)).
Proof.
  unfold limit_syscalls, secure_mode. repeat gstep; [apply ghost_fails|done].
Qed.

(** *** The whole state *)

Lemma ns_enter_box path g :
  ghost box_step (ns_enter path CLONE_NEWNS) g (when (fun _ g' => pl_ns (b_place g') = Some path)).
Proof.
  eapply ghost_post; [apply (ghost_proj _ place_step b_place); [done|apply ns_enter_place]|]. by intros [[]|] g'.
Qed.

Lemma adjust_capabilities_bset uid host g :
  ghost bset_step (adjust_capabilities uid host) g
    (when (fun _ g' => forall c, 0 <= c <= CAP_LAST_CAP -> c ∈ g')).
Proof.
  unfold adjust_capabilities. eapply ghost_bind; [apply ghost_any|]. intros secure g1 _.
  eapply ghost_bind; [apply ghost_any|]. intros [[]|] g2 _; [|by gstep].
  eapply ghost_post; [apply perm_set_bounds_ghost|]. intros [[]|] g'; [|done]. intros H c Hc.
  apply H; [done|apply not_elem_of_nil].
Qed.

(** A result about one part of the state, and the parts that do not change. *)
Lemma box_part {G X A} (step : G -> event -> G) (part : box -> G) (keep : box -> X) P H (m : M (option A)) Rm R g :
  (forall g ev, part (box_step g ev) = step (part g) ev) ->
  ghost step m (part g) (when R) -> ensures P H m Rm ->
  (forall ev g, P ev -> keep (box_step g ev) = keep g) ->
  ghost box_step m g (when (fun a g' => R a (part g') /\ keep g' = keep g)).
Proof.
  intros Hp Hg Hm Hk. eapply ghost_post.
  { apply ghost_and; [by apply (ghost_proj _ step part)|by eapply (ghost_pres _ _ _ _ _ keep)]. }
  intros [a|] g'; [|done]. by intros [Hr [Hs _]].
Qed.

(** An event of a class that leaves a part of the state alone. *)
Ltac left_alone :=
  let x := fresh "x" in let Hev := fresh "Hev" in
  intros [[] x] ? Hev; first [done | by destruct x | by destruct Hev; subst; destruct x].

Lemma adjust_capabilities_box uid host g :
  ghost box_step (adjust_capabilities uid host) g
    (when (fun _ g' => (forall c, 0 <= c <= CAP_LAST_CAP -> c ∈ b_bset g') /\ core g' = core g)).
Proof.
  apply (box_part bset_step b_bset core _ _ _ _ (fun _ b => forall c, 0 <= c <= CAP_LAST_CAP -> c ∈ b) _
           (fun _ _ => eq_refl) (adjust_capabilities_bset _ _ _) (adjust_capabilities_ens _ _)).
  left_alone.
Qed.

Lemma change_rootfs_box rootfs np mp uid gid g :
  ghost box_step (change_rootfs rootfs np mp uid gid) g
    (when (fun _ g' => (pl_ns (b_place g') = pl_ns (b_place g) /\ pl_private (b_place g') = true /\
                        pl_root (b_place g') = Some rootfs /\ Forall (hidden (b_place g')) ["/proc"; "/sys"; "/dev"]) /\
                       b_bset g' = b_bset g)).
Proof.
  apply (box_part place_step b_place b_bset _ _ _ _
           (fun _ p => pl_ns p = pl_ns (b_place g) /\ pl_private p = true /\ pl_root p = Some rootfs /\
                       Forall (hidden p) ["/proc"; "/sys"; "/dev"]) _
           (fun _ _ => eq_refl) (change_rootfs_place _ _ _ _ _ _) (change_rootfs_ens _ _ _ _ _)).
  left_alone.
Qed.

Lemma limit_resources_box g :
  ghost box_step limit_resources g
    (when (fun _ g' => b_limits g' = b_limits g ++ rlimits /\ (core g', b_bset g') = (core g, b_bset g))).
Proof.
  apply (box_part limits_step b_limits (fun g => (core g, b_bset g)) _ _ _ _ (fun _ l => l = b_limits g ++ rlimits) _
           (fun _ _ => eq_refl) (limit_resources_limits _) limit_resources_ens).
  left_alone.
Qed.

Lemma adjust_privileges_privs uid gid b g :
  ghost priv_step (adjust_privileges uid gid b) g
    (when (fun _ p => p_uid p = uid /\ p_gid p = gid /\ p_nnp p = true)).
Proof.
  unfold adjust_privileges. eapply ghost_bind; [apply ghost_any|]. intros [[]|] g1 _; [|by gstep].
  eapply ghost_post; [apply perm_drop_privileges_ghost|]. intros [[]|] g'; [|done]. by intros (? & ? & ? & _).
Qed.

Lemma adjust_privileges_box uid gid b g :
  ghost box_step (adjust_privileges uid gid b) g
    (when (fun _ g' => (p_uid (b_privs g') = uid /\ p_gid (b_privs g') = gid /\ p_nnp (b_privs g') = true) /\
                       (core g', b_bset g', b_limits g') = (core g, b_bset g, b_limits g))).
Proof.
  apply (box_part priv_step b_privs (fun g => (core g, b_bset g, b_limits g)) _ _ _ _
           (fun _ p => p_uid p = uid /\ p_gid p = gid /\ p_nnp p = true) _
           (fun _ _ => eq_refl) (adjust_privileges_privs _ _ _ _) (adjust_privileges_ens uid gid b)).
  left_alone.
Qed.

Lemma limit_syscalls_box ws g :
  ghost box_step (limit_syscalls ws) g
    (when (fun _ g' => (if ws then snd (b_filter g') = Some syscalls else b_secure g' = false) /\
                       (core g', b_bset g', b_limits g', b_privs g') = (core g, b_bset g, b_limits g, b_privs g))).
Proof.
  destruct ws.
  - apply (box_part filter_step b_filter (fun g => (core g, b_bset g, b_limits g, b_privs g)) _ _ _ _
             (fun _ f => snd f = Some syscalls) _
             (fun _ _ => eq_refl) (limit_syscalls_filter _) (limit_syscalls_ens true)).
    left_alone.
  - apply (box_part secure_step b_secure (fun g => (core g, b_bset g, b_limits g, b_privs g)) _ _ _ _
             (fun _ b => b = false) _
             (fun _ _ => eq_refl) (limit_syscalls_secure _) (limit_syscalls_ens false)).
    left_alone.
Qed.

(** *** Running a program *)

(** Only the confined process runs a program, and only the one it was made for. *)
Definition runs_confined (with_seccomp : bool) (cnt : nvc_container) (fd : option Z) (path : string)
    (argv : list string) (g : box) (ev : event) : Prop :=
  match ev_call ev with
  | EExec p a => fd = None /\ p = path /\ a = argv /\ confined_box with_seccomp cnt g
  | EFexec n a => fd = Some n /\ a = argv /\ confined_box with_seccomp cnt g
  | EExecle _ _ _ => False
  | _ => True
  end.

Section Quiet.
Context (I : box -> event -> Prop) (HI : forall g ev, no_exec ev -> I g ev).

(** A part that runs no program. *)
Lemma guarded_quiet {A} P H (m : M A) Rm g R :
  ensures P H m Rm -> (forall ev, P ev -> no_exec ev) -> ghost box_step m g R -> guarded box_step I m g R.
Proof.
  intros Hm HP Hg. eapply guarded_post; [eapply guarded_ghost; [exact Hm| |exact Hg]|by intros a g' []]. auto.
Qed.

(** A part of no interest. *)
Lemma guarded_end {A} P H (m : M A) Rm g :
  ensures P H m Rm -> (forall ev, P ev -> no_exec ev) -> guarded box_step I m g (fun _ _ => True).
Proof. intros Hm HP. eapply guarded_quiet; [exact Hm|exact HP|apply ghost_any]. Qed.
End Quiet.

Lemma runs_quiet ws cnt fd path argv g ev : no_exec ev -> runs_confined ws cnt fd path argv g ev.
Proof. by destruct ev as [[] ?]. Qed.

Ltac quiet_side := by intros [[] ?].
Ltac quiet_part ens_lemma ghost_lemma :=
  eapply guarded_quiet; [apply runs_quiet|apply ens_lemma|quiet_side|apply ghost_lemma].

Lemma start_ldconfig_runs ws cnt fd path argv ctx g :
  guarded box_step (runs_confined ws cnt fd path argv) (start_ldconfig ws ctx cnt fd path argv) g (fun _ _ => True).
Proof.
  unfold start_ldconfig.
  eapply guarded_bind; [by apply guarded_call with (R := fun _ _ => True)|]. intros r g0 _.
  eapply guarded_bind; [apply guarded_trap|].
  intros _ g1 _. cbv zeta.
  eapply guarded_try; [quiet_part ns_enter_ens ns_enter_box| |intros; by apply guarded_ret].
  intros [] g2 Hns.
  eapply guarded_try; [quiet_part adjust_capabilities_ens adjust_capabilities_box| |intros; by apply guarded_ret].
  intros [] g3 [Hb3 Hc3].
  eapply guarded_try; [quiet_part change_rootfs_ens change_rootfs_box| |intros; by apply guarded_ret].
  intros dg g4 [(Hn4 & Hp4 & Hr4 & Hh4) Hb4].
  eapply guarded_try; [quiet_part limit_resources_ens limit_resources_box| |intros; by apply guarded_ret].
  intros [] g5 [Hl5 Hk5].
  eapply guarded_try; [quiet_part adjust_privileges_ens adjust_privileges_box| |intros; by apply guarded_ret].
  intros [] g6 [(Hu6 & Hg6 & Hn6) Hk6].
  eapply guarded_try; [quiet_part limit_syscalls_ens limit_syscalls_box| |intros; by apply guarded_ret].
  intros [] g7 [Hf7 Hk7].
  assert (core g7 = core g4) as Hc by congruence.
  assert (b_bset g7 = b_bset g4 /\ b_limits g7 = b_limits g5 /\ b_privs g7 = b_privs g6) as (Hb7 & Hl7 & Hp7) by (split_and!; congruence).
  unfold core in Hc, Hc3.
  assert (pl_mounts (b_place g7) = pl_mounts (b_place g4)) as Em by congruence.
  assert (confined_box ws cnt g7) as Hbox.
  { split; try congruence.
    - eapply Forall_impl; [exact Hh4|]. unfold hidden. by rewrite Em.
    - rewrite Hb7, Hb4. exact Hb3.
    - rewrite Hl7, Hl5. set_solver. }
  eapply guarded_bind with (R1 := fun _ _ => True).
  { destruct fd as [n|].
    - by apply (guarded_call box_step _ (EFexec n argv) g7 (fun _ _ => True)); [intros r'; split_and!|].
    - by apply (guarded_call box_step _ (EExec path argv) g7 (fun _ _ => True)); [intros r'; split_and!|]. }
  intros r' g8 _. eapply guarded_bind; [apply guarded_trap|].
  intros [[]|] g9 _; [apply guarded_halt|].
  apply (guarded_end _ (runs_quiet _ _ _ _ _) (only [KLib]) no_stop _ any); [ens|quiet_side].
Qed.

Definition ldconfig_argv (cnt : nvc_container) (path : string) : list string :=
  argv_of [Some path; Some "-f"; Some "/etc/ld.so.conf"; Some "-C"; Some "/etc/ld.so.cache";
           libs_dir (ccfg cnt); libs32_dir (ccfg cnt)].

(** The program of the container, or the one of the host when the path says so. *)
Definition right_program (with_seccomp : bool) (cnt : nvc_container) (g : box) (ev : event) : Prop :=
  match ev_call ev with
  | EExec p a => ldconfig (ccfg cnt) = Some p /\ first_char p <> "@"%char /\ a = ldconfig_argv cnt p /\
                 confined_box with_seccomp cnt g
  | EFexec n a => exists p, ldconfig (ccfg cnt) = Some (String "@" p) /\ a = ldconfig_argv cnt p /\
                  (n, p) ∈ pl_fds (b_place g) /\ confined_box with_seccomp cnt g
  | EExecle _ _ _ => False
  | _ => True
  end.

Lemma right_quiet ws cnt g ev : no_exec ev -> right_program ws cnt g ev.
Proof. by destruct ev as [[] ?]. Qed.

Lemma fd_stays p g ev : p ∈ pl_fds (b_place g) -> p ∈ pl_fds (b_place (box_step g ev)).
Proof.
  intros Hp. destruct ev as [[] x]; try done; destruct x; try done; simpl; try case_match; try done.
  by apply list_elem_of_further.
Qed.

Lemma xopen_box path fl g :
  ghost box_step (xopen path fl) g (when (fun fd g' => (fd, path) ∈ pl_fds (b_place g'))).
Proof.
  eapply ghost_post; [apply (ghost_proj _ place_step b_place); [done|apply xopen_place]|].
  intros [fd|] g'; [|done]. simpl. intros ->. apply list_elem_of_here.
Qed.

Lemma child_exit_ens {A} : ensures (only []) any_stop (@child_exit A) (fun _ => False).
Proof. unfold child_exit. eapply ensures_bind; [ens_hint; done|]. intros c _. by apply ensures_halt. Qed.

(** What the library keeps for the child: the descriptor of the program of the
    host, or none. *)
Definition has_program (cnt : nvc_container) (fd : option Z) (path : string) (g : box) : Prop :=
  match fd with
  | Some n => ldconfig (ccfg cnt) = Some (String "@" path) /\ (n, path) ∈ pl_fds (b_place g)
  | None => ldconfig (ccfg cnt) = Some path /\ first_char path <> "@"%char
  end.

Lemma has_program_stays cnt fd path g ev : has_program cnt fd path g -> has_program cnt fd path (box_step g ev).
Proof. destruct fd as [n|]; [|done]. intros []. split; [done|]. by apply fd_stays. Qed.

Lemma runs_right ws cnt fd path g ev :
  runs_confined ws cnt fd path (ldconfig_argv cnt path) g ev -> has_program cnt fd path g -> right_program ws cnt g ev.
Proof.
  unfold runs_confined, right_program, has_program. destruct (ev_call ev); try done.
  - intros (-> & -> & -> & Hb) []. done.
  - intros (-> & -> & Hb) []. by exists path.
Qed.

Lemma open_program cnt lc g :
  ldconfig (ccfg cnt) = Some lc ->
  let host := Ascii.eqb (first_char lc) "@" in
  let path := if host then str_drop 1 lc else lc in
  ghost box_step (if host then let? fd := xopen path (O_RDONLY .| O_CLOEXEC) else ret None in ret (Some (Some fd))
                  else ret (Some None)) g (when (fun fd g' => has_program cnt fd path g')).
Proof.
  intros Hl host path. subst host path. destruct (Ascii.eqb_spec (first_char lc) "@") as [E|E]; [|by gstep].
  assert (lc = String "@" (str_drop 1 lc)) as Hd by (destruct lc as [|a lc]; simpl in *; by subst).
  eapply ghost_try; [apply xopen_box| |intros; by gstep]. intros fd g' Hfd. gstep. split; congruence || done.
Qed.

Lemma nvc_ldcache_update_runs ws log ctx cnt g :
  guarded box_step (right_program ws cnt) (nvc_ldcache_update ws log ctx (Some cnt)) g (fun _ _ => True).
Proof.
  unfold nvc_ldcache_update. pose proof (right_quiet ws cnt) as Hq.
  eapply guarded_try with (R1 := fun _ _ => True); [| |intros; by apply guarded_ret].
  { eapply guarded_post; [eapply guarded_end; [done|apply validate_context_ens|quiet_side]|by intros []]. }
  intros [] g1 _. destruct (ldconfig (ccfg cnt)) as [lc|] eqn:El; [|apply guarded_halt]. cbv zeta.
  set (host := Ascii.eqb (first_char lc) "@"). set (path := if host then str_drop 1 lc else lc).
  eapply guarded_try; [| |intros; by apply guarded_ret].
  { eapply guarded_quiet with (P := only [KLib; KRead]) (H := no_stop) (Rm := any); [done| |quiet_side|by apply open_program].
    destruct host; ens. }
  intros fd g2 Hfd. fold host path in Hfd.
  eapply guarded_try with (R1 := fun _ g' => has_program cnt fd path g').
  { eapply guarded_post; [eapply guarded_quiet; [done|apply create_process_ens|done|
      apply (ghost_stable _ (has_program cnt fd path)); [apply has_program_stays|done]]|by intros []]. }
  2: { intros g'. eapply guarded_end with (P := only [KRead]) (H := no_stop) (Rm := any); [done|ens|quiet_side]. }
  intros child g3 H3. destruct (child =? 0).
  - eapply guarded_bind; [|intros _ g4 _; eapply guarded_end; [done|apply child_exit_ens|quiet_side]].
    eapply guarded_stable; [apply has_program_stays|apply runs_right|exact H3|apply start_ldconfig_runs].
  - eapply guarded_end with (P := no_exec) (H := no_stop) (Rm := any); [done|ens|done].
Qed.

(** *** Parent and child *)

(** The last process that was made and how the last one that was waited for
    ended. *)
Definition proc_step (g : option N * option wstatus) (ev : event) : option N * option wstatus :=
  match ev with
  | Event (EFork _) (SOk n) => (Some n, snd g)
  | Event (EWaitpid _) (SOk st) => (fst g, Some st)
  | _ => g
  end.

Lemma create_process_proc log fl g :
  ghost proc_step (create_process log fl) g
    (fun r g' => match r with Some child => exists n, fst g' = Some n /\ child = Z.of_N n | None => g' = g end).
Proof.
  unfold create_process. repeat gstep; try done; eexists; split; reflexivity.
Qed.

Lemma start_ldconfig_proc ws ctx cnt fd path argv g :
  ghost proc_step (do start_ldconfig ws ctx cnt fd path argv in @child_exit (option unit)) g (fun _ _ => False).
Proof.
  eapply ghost_bind; [apply ghost_any|]. intros _ g' _ s.
  eapply wp_mono; [|apply (child_exit_ens (A := option unit))]. by intros t [[s' a]|w] [_ Ho].
Qed.

Lemma nvc_ldcache_update_proc ws log ctx cnt g :
  fst g = None ->
  ghost proc_step (nvc_ldcache_update ws log ctx (Some cnt)) g
    (fun r g' => fst g' <> Some 0%N /\ (r = Some tt -> is_Some (fst g') /\ snd g' = Some (WExited 0))).
Proof.
  intros Hg. unfold nvc_ldcache_update. gstep. destruct a as [[]|]; [|gstep; by rewrite Hg; split].
  destruct (ldconfig (ccfg cnt)) as [lc|]; [|apply ghost_halt]. cbv zeta. set (host := Ascii.eqb _ _).
  set (path := if host then str_drop 1 lc else lc). set (argv := argv_of _).
  eapply ghost_bind with (R1 := fun _ g' => g' = g). { apply (ghost_ensures _ (only [KLib; KRead]) no_stop _ any); [destruct host; ens|ignored|done]. }
  intros [fd|] g1 ->; [|gstep; by rewrite Hg; split].
  eapply ghost_bind; [apply create_process_proc|].
  intros [child|] g2; [|intros ->; unfold xclose; repeat gstep; by (split; [rewrite ?Hg; simpl; rewrite ?Hg|])].
  intros (n & Hn & ->). destruct (Z.of_N n =? 0) eqn:E0; [eapply ghost_post; [apply start_ldconfig_proc|done]|].
  assert (n <> 0%N) as Hn0 by (intros ->; done).
  unfold xclose. repeat gstep; simpl; bool_hyps; subst; rewrite ?Hn; (split; [congruence|by eauto]).
Qed.

(** ** What holds of every run *)

(** C4: whatever the kernel answers, a program is executed only by a process that
    is in a private copy of the mount namespace of the container and in its root,
    with [/proc], [/sys] and [/dev] covered, an empty bounding set of
    capabilities, the user and group of the container, no way to gain
    privileges, limited resources and the listed system calls only; it is the
    [ldconfig] of the configuration with its arguments. *)
Theorem nvc_ldcache_update_confines (o : env) ws log ctx cnt (s : st) (g : box) :
  always box_step (right_program ws cnt) g (fst (exec o (nvc_ldcache_update ws log ctx (Some cnt)) s)).
Proof.
  pose proof (guarded_run _ _ o _ _ _ s (nvc_ldcache_update_runs ws log ctx cnt g)) as H.
  destruct (exec o _ s) as [t [[s' r]|w]]; apply H.
Qed.

(** The child of [nvc_ldcache_update] never comes back to the caller; the
    parent succeeds only when the child was reaped with the status 0. *)
Theorem nvc_ldcache_update_reaps (o : env) ws log ctx cnt (s : st) :
  match exec o (nvc_ldcache_update ws log ctx (Some cnt)) s with
  | (t, Done (_, r)) =>
      let g' := fold_left proc_step t (None, None) in
      fst g' <> Some 0%N /\ (r = Some tt -> is_Some (fst g') /\ snd g' = Some (WExited 0))
  | (_, Halted _) => True
  end.
Proof.
  pose proof (ghost_run proc_step o _ _ _ s (nvc_ldcache_update_proc ws log ctx cnt (None, None) eq_refl)) as H.
  by destruct (exec o _ s) as [t [[s' r]|w]].
Qed.

Definition ldconfig_cnt : nvc_container :=
  mkContainer 0
    (mkCntConfig 42 "/ctr" (Some "/usr/bin") (Some "/usr/lib") (Some "/usr/lib32") (Some "/usr/lib/dri")
       (Some "/usr/local/cuda") (Some "/sbin/ldconfig"))
    0 0 "/proc/42/ns/mnt" 1 (Some "/cg") [].

(** A host on which the child is followed, up to the program. *)
Definition child_host : env := fun _ e =>
  match e return resp e with
  | EFork _ => SOk 0%N
  | EStat _ => SOk (mkStat (MODE_DIR m755) 0 0 0 0)
  | EFopen path _ => SOk (mkStream [if (path =? PROC_LAST_CAP_PATH)%string then "40" else "allow"] false)
  | e => friendly e
  end.

(** The child gets there: with an obliging kernel it runs the program. *)
Lemma child_host_executes :
  let '(t, out) := exec child_host (nvc_ldcache_update true true demo_ctx (Some ldconfig_cnt)) init_st in
  out = Halted Executed /\
  last (map ev_call t) = Some (EExec "/sbin/ldconfig"
    ["/sbin/ldconfig"; "-f"; "/etc/ld.so.conf"; "-C"; "/etc/ld.so.cache"; "/usr/lib"; "/usr/lib32"]).
Proof. vm_compute. split; reflexivity. Qed.
