(* ===== verification/Dxcore.v ===== *)
(** * The graphics adapters of a Windows host

    [src/src/dxcore.c]: under WSL the adapters come from [libdxcore.so].  The two
    functions the library gives are events, the environment answers them. *)
From S2P Require Import Prelude CString Effects Logic Errors Utils Types Paths Files Driver.

Definition DXCORE_MAX_PATH : Z := 260.
Definition sizeof_wchar : Z := 4.
Definition MAX_DXCORE_DRIVERSTORE_LIBRAIRIES : nat := 16.

Definition dxcore_nvidia_driver_store_components : list string :=
  ["libcuda.so.1.1"; "libcuda_loader.so"; "libnvidia-ptxjitcompiler.so.1"; "libnvidia-ml.so.1";
   "libnvidia-ml_loader.so"; "nvidia-smi"; "nvcubins.bin"].

Definition dxcore_query_adapter_wddm_version (hAdapter : Z) : M (option Z) :=
  let* r := call (EDxVersion hAdapter) in trap r.

(** The path has at most as many characters as the first query announced. *)
Definition dxcore_query_adapter_driverstore (hAdapter : Z) : M (option string) :=
  let* r := call (EDxStoreSize hAdapter) in
  let? size := trap r else ret None in
  let size := to_uint32 size in
  if DXCORE_MAX_PATH * sizeof_wchar <? size then ret None
  else
    let outputSize := size / sizeof_wchar in
    let* ok := call EAlloc in
    if negb ok then ret None
    else
      let* r := call (EDxStorePath hAdapter size) in
      let? output := trap r else ret None in
      let* ok := call EAlloc in
      if negb ok then ret None
      else
        let path := str_take (Z.to_nat outputSize) output in
        let* r := call (EOpen path (Z.lor O_PATH O_DIRECTORY)) in
        let? fd := trap r else ret None in
        do close (Z.of_N fd) in
        ret (Some path).

(** Only an absent component is left out: one that cannot be examined counts as
    found. *)
Fixpoint found_components (path : string) (names found : list string) : M (list string) :=
  match names with
  | [] => ret found
  | name :: names' =>
      let* r := null_err (file_exists_at path name) in
      match r with
      | Some false => found_components path names' found
      | _ =>
          if (MAX_DXCORE_DRIVERSTORE_LIBRAIRIES <=? length found)%nat then
            halt (Undefined "pDriverStoreComponents: write past the end")
          else found_components path names' (found ++ [name])
      end
  end.

Definition dxcore_populate_driverstore_library (path : string) : M (option (list string)) :=
  let* found := found_components path dxcore_nvidia_driver_store_components [] in
  ret (match found with [] => None | _ => Some found end).

(** An adapter that does not qualify is skipped. *)
Definition dxcore_add_adapter (adapters : list dxcore_adapter) (h : Z) : M (list dxcore_adapter) :=
  let? wddm := dxcore_query_adapter_wddm_version h else ret adapters in
  let wddm := to_uint32 wddm in
  if wddm <? 2700 then ret adapters
  else
    let? path := dxcore_query_adapter_driverstore h else ret adapters in
    let* ok := call EAlloc in
    if negb ok then ret adapters
    else
      let? comps := dxcore_populate_driverstore_library path else ret adapters in
      ret (adapters ++ [mkAdapter h wddm path comps]).

(** [pAdapters[i]] for every [i] below the count the second call gives. *)
Fixpoint add_adapters (n : nat) (allocated : list Z) (adapters : list dxcore_adapter) : M (list dxcore_adapter) :=
  match n with
  | O => ret adapters
  | S n' =>
      match allocated with
      | [] => halt (Undefined "pAdapters: read past the end")
      | h :: allocated' => let* adapters := dxcore_add_adapter adapters h in add_adapters n' allocated' adapters
      end
  end.

(** [malloc] is not checked; without the array there is nothing to read. *)
Definition dxcore_enum_adapters : M (list dxcore_adapter) :=
  let* r := call EDxCount in
  let? n := trap r else ret [] in
  let n := to_uint32 n in
  let* ok := call EAlloc in
  let* r := call (EDxList n) in
  let? res := trap r else ret [] in
  let '(count, handles) := res in
  add_adapters (Z.to_nat (to_uint32 count)) (if ok : bool then take (Z.to_nat n) handles else []) [].

Definition dxcore_init_context : M (option dxcore_context) :=
  let* r := call (EDlopen "libdxcore.so") in
  match r with
  | Some _ => ret None
  | None =>
      let* r := call (EDlsym "D3DKMTEnumAdapters2") in
      match r with
      | Some _ => ret None
      | None =>
          let* r := call (EDlsym "D3DKMTQueryAdapterInfo") in
          match r with
          | Some _ => ret None
          | None =>
              let* adapters := dxcore_enum_adapters in
              ret (Some (mkDxcore true adapters))
          end
      end
  end.

(** ** What the adapters satisfy *)

Record good_adapter (a : dxcore_adapter) : Prop := {
  ga_version : 2700 <= wddmVersion a < 2 ^ 32;
  ga_path : strlen (pDriverStorePath a) <= DXCORE_MAX_PATH;
  ga_some : components a <> [];
  ga_known : components a ⊆ dxcore_nvidia_driver_store_components
}.

Definition dx_stops (w : stop) : Prop := w = Undefined "pAdapters: read past the end".

Definition dx_event := only [KLib; KRead; KDev].

Lemma found_components_ens path names found :
  (length found + length names <= MAX_DXCORE_DRIVERSTORE_LIBRAIRIES)%nat ->
  ensures (only [KLib; KRead]) no_stop (found_components path names found) (fun r => r ⊆ found ++ names).
Proof.
  revert found. induction names as [|n names IH]; intros found Hl; cbn [found_components].
  - apply ensures_ret. set_solver.
  - simpl in Hl. ens_step. destruct a as [[]|].
    2: { eapply ensures_post; [apply IH; lia|]. set_solver. }
    all: destruct (Nat.leb_spec MAX_DXCORE_DRIVERSTORE_LIBRAIRIES (length found)); [lia|];
      (eapply ensures_post; [apply IH; rewrite length_app; simpl; lia|]; intros r Hr; rewrite <- app_assoc in Hr; exact Hr).
Qed.

Lemma populate_ens path :
  ensures (only [KLib; KRead]) no_stop (dxcore_populate_driverstore_library path)
    (fun r => match r with Some l => l <> [] /\ l ⊆ dxcore_nvidia_driver_store_components | None => True end).
Proof.
  unfold dxcore_populate_driverstore_library. eapply ensures_bind; [apply found_components_ens; simpl; unfold MAX_DXCORE_DRIVERSTORE_LIBRAIRIES; lia|].
  intros [|c cs] Hf; apply ensures_ret; [done|]. split; [done|exact Hf].
Qed.

Lemma taken_bound size s : size <= DXCORE_MAX_PATH * sizeof_wchar -> 0 <= size ->
  strlen (str_take (Z.to_nat (size / sizeof_wchar)) s) <= DXCORE_MAX_PATH.
Proof.
  intros H H0. unfold strlen. rewrite str_take_length. unfold DXCORE_MAX_PATH, sizeof_wchar in *.
  assert (size / 4 <= 260) by (apply Z.div_le_upper_bound; lia). lia.
Qed.

Lemma driverstore_ens h :
  ensures (only [KLib; KRead; KDev]) no_stop (dxcore_query_adapter_driverstore h)
    (fun r => match r with Some p => strlen p <= DXCORE_MAX_PATH | None => True end).
Proof.
  unfold dxcore_query_adapter_driverstore. ens.
  apply taken_bound; [by apply Z.ltb_ge|]. apply uint_wrap_range. lia.
Qed.
#[export] Hint Resolve populate_ens driverstore_ens : ens.

Lemma add_adapter_ens adapters h :
  Forall good_adapter adapters ->
  ensures (only [KLib; KRead; KDev]) no_stop (dxcore_add_adapter adapters h) (Forall good_adapter).
Proof.
  intros Ha. unfold dxcore_add_adapter, dxcore_query_adapter_wddm_version. ens. apply Forall_app. split; [done|].
  apply Forall_singleton. apply Z.ltb_ge in Heqb. pose proof (uint_wrap_range 32 z ltac:(lia)). split; simpl; (lia || tauto).
Qed.

Lemma add_adapters_ens n l adapters :
  Forall good_adapter adapters ->
  ensures (only [KLib; KRead; KDev]) dx_stops (add_adapters n l adapters) (Forall good_adapter).
Proof.
  revert l adapters. induction n as [|n IH]; intros l adapters Ha; cbn [add_adapters]; [by apply ensures_ret|].
  destruct l as [|h l]; [by apply ensures_halt|].
  eapply ensures_bind; [eapply ensures_weaken; [by apply add_adapter_ens|done|done|intros r Hr; exact Hr]|]. auto.
Qed.

Lemma dxcore_init_context_ens :
  ensures (only [KLib; KRead; KDev]) dx_stops dxcore_init_context
    (fun r => match r with
              | Some dx => dx_initialized dx = true /\ Forall good_adapter (adapterList dx)
              | None => True
              end).
Proof.
  unfold dxcore_init_context. do 3 (ens_step; destruct a; [ens|]).
  eapply ensures_bind with (R := Forall good_adapter); [|intros l Hl; by apply ensures_ret].
  unfold dxcore_enum_adapters. ens_step. ens_step. destruct a0; [|ens]. ens_step. ens_step. ens_step.
  destruct a2 as [[count handles]|]; [|ens]. by apply add_adapters_ens.
Qed.

(** The adapters found through [libdxcore] have a driver new enough, a driver
    store whose path fits, and at least one of the known components; finding them
    only asks and reads, and its arrays are large enough unless the library gives
    more adapters than it announced. *)
Lemma dxcore_init_context_correct (o : env) (s : st) :
  match exec o dxcore_init_context s with
  | (t, Done (_, Some dx)) => Forall dx_event t /\ dx_initialized dx = true /\ Forall good_adapter (adapterList dx)
  | (t, Done (_, None)) => Forall dx_event t
  | (t, Halted w) => Forall dx_event t /\ dx_stops w
  end.
Proof.
  pose proof (ensures_run o _ _ _ _ s dxcore_init_context_ens) as H.
  destruct (exec o _ s) as [t [[s' [dx|]]|w]]; (split; apply H) || apply H.
Qed.
