(* ===== verification/DxcoreLife.v ===== *)
(** * The memory of the adapters

    [src/src/dxcore.c] with its allocations: the list of the adapters grows in the
    context of the library, a context that is given up leaves nothing, and
    [dxcore_deinit_context] frees the list and the path of every adapter.  The path
    of an adapter that is skipped for want of components is lost. *)
From iris.proofmode Require Import proofmode.
From S2P Require Import Prelude CString Effects Errors Utils Types Paths Files Dxcore Heap Lifetime.

Section Adapters.
Context `{!Allocator block}.

(** ** The context *)

Definition get_context (p : ptr) : H c_context :=
  let! b := load p in match b with Context c => hret c | _ => bad_pointer end.
Definition upd_context (p : ptr) (f : c_context -> c_context) : H unit :=
  let! b := load p in match b with Context c => store p (Context (f c)) | _ => bad_pointer end.

Definition set_dxcore (x : c_dxcore) (c : c_context) : c_context :=
  CContext (x_up c) (x_root c) (x_ldcache c) (x_uid c) (x_gid c) (x_mnt_ns c) (x_no_pivot c) x.

(** [pCtx] is [&ctx->dxcore]; [p] is [ctx]. *)
Definition get_dxcore (p : ptr) : H c_dxcore := let! c := get_context p in hret (x_dxcore c).
Definition put_dxcore (p : ptr) (x : c_dxcore) : H unit := upd_context p (set_dxcore x).

(** ** The functions *)

Definition dxcore_query_adapter_driverstore (hAdapter : Z) : H (option ptr) :=
  let! r := hlift (call (EDxStoreSize hAdapter)) in
  let!? size := hlift (trap r) else hret None in
  let size := to_uint32 size in
  if DXCORE_MAX_PATH * sizeof_wchar <? size then hret None
  else
    let outputSize := size / sizeof_wchar in
    let! ok := hlift (call EAlloc) in
    if negb ok then hret None
    else
      let! pValue := malloc Buffer in
      let! r := hlift (call (EDxStorePath hAdapter size)) in
      let!? output := hlift (trap r) else do! free pValue in hret None in
      let! ok := hlift (call EAlloc) in
      if negb ok then do! free pValue in hret None
      else
        let path := str_take (Z.to_nat outputSize) output in
        let! ppDriverStorePath := malloc (Chars path) in
        do! free pValue in
        let! r := hlift (call (EOpen path (Z.lor O_PATH O_DIRECTORY))) in
        let!? fd := hlift (trap r) else do! free ppDriverStorePath in hret None in
        do! hlift (close (Z.of_N fd)) in
        hret (Some ppDriverStorePath).

Definition load_adapters (p : ptr) : H (list c_adapter) :=
  let! b := load p in match b with Adapters l => hret l | _ => bad_pointer end.

(** [realloc(list, n * sizeof(struct dxcore_adapter))] that succeeds. *)
Definition realloc_adapters (list : ptr) (n : nat) : H ptr :=
  match list with
  | Null => malloc (Adapters (replicate n zero_adapter))
  | _ => let! l := load_adapters list in do! free list in malloc (Adapters (resize n zero_adapter l))
  end.

Definition store_adapter (list : ptr) (i : nat) (a : c_adapter) : H unit :=
  let! l := load_adapters list in
  match l !! i with Some _ => store list (Adapters (<[i := a]> l)) | None => bad_pointer end.

Definition dxcore_add_adapter (p : ptr) (h : Z) : H unit :=
  let!? wddm := hlift (dxcore_query_adapter_wddm_version h) else hret tt in
  let wddm := to_uint32 wddm in
  if wddm <? 2700 then hret tt
  else
    let!? path := dxcore_query_adapter_driverstore h else hret tt in
    let! ok := hlift (call EAlloc) in
    if negb ok then free path
    else
      let! x := get_dxcore p in
      let! newList := realloc_adapters (x_adapters x) (S (x_count x)) in
      do! put_dxcore p (CDxcore (x_initialized x) newList (x_count x)) in
      do! store_adapter newList (x_count x) (CAdapter h wddm path []) in
      let! s := text path in
      let!? comps := hlift (dxcore_populate_driverstore_library (default EmptyString s)) else hret tt in
      do! store_adapter newList (x_count x) (CAdapter h wddm path comps) in
      put_dxcore p (CDxcore (x_initialized x) newList (S (x_count x))).

Fixpoint add_adapters (p : ptr) (n : nat) (allocated : list Z) : H unit :=
  match n with
  | O => hret tt
  | S n' =>
      match allocated with
      | [] => bad_pointer
      | h :: allocated' => do! dxcore_add_adapter p h in add_adapters p n' allocated'
      end
  end.

Definition dxcore_enum_adapters (p : ptr) : H unit :=
  let! r := hlift (call EDxCount) in
  let!? n := hlift (trap r) else hret tt in
  let n := to_uint32 n in
  let! ok := hlift (call EAlloc) in
  let! pAdapters := if ok : bool then malloc Buffer else hret Null in
  let! r := hlift (call (EDxList n)) in
  let!? res := hlift (trap r) else free pAdapters in
  let '(count, handles) := res in
  do! add_adapters p (Z.to_nat (to_uint32 count)) (if ok : bool then take (Z.to_nat n) handles else []) in
  free pAdapters.

(** The count and the list stay as they are. *)
Definition dxcore_deinit_context (p : ptr) : H unit :=
  let! x := get_dxcore p in
  do! hiter (fun i =>
    let! l := load_adapters (x_adapters x) in
    match l !! i with Some a => free (ad_path a) | None => bad_pointer end) (seq 0 (x_count x)) in
  do! free (x_adapters x) in
  put_dxcore p (CDxcore false (x_adapters x) (x_count x)).

Definition dxcore_init_context (p : ptr) : H (option unit) :=
  do! put_dxcore p (CDxcore false Null 0) in
  let error := do! dxcore_deinit_context p in hret None in
  let! r := hlift (call (EDlopen "libdxcore.so")) in
  match r with
  | Some _ => error
  | None =>
      let! r := hlift (call (EDlsym "D3DKMTEnumAdapters2")) in
      match r with
      | Some _ => error
      | None =>
          let! r := hlift (call (EDlsym "D3DKMTQueryAdapterInfo")) in
          match r with
          | Some _ => error
          | None =>
              do! dxcore_enum_adapters p in
              let! x := get_dxcore p in
              do! put_dxcore p (CDxcore true (x_adapters x) (x_count x)) in
              hret (Some tt)
          end
      end
  end.

(** ** Ownership *)

Definition adapter_at (c : c_adapter) (a : dxcore_adapter) : hP :=
  (string_at (ad_path c) (Some (pDriverStorePath a)) ∗
   <affine> ⌜ad_handle c = hAdapter a /\ ad_version c = wddmVersion a /\ ad_components c = Types.components a⌝)%I.

(** The list; slots behind the count belong to adapters that were skipped. *)
Definition adapters_at (p : ptr) (l : list dxcore_adapter) : hP :=
  ((<affine> ⌜p = Null /\ l = []⌝) ∨
   ∃ cs rest, owns p (Adapters (cs ++ rest)) ∗ [∗ list] c;a ∈ cs;l, adapter_at c a)%I.

(** The context [c] with the adapters [l]. *)
Definition with_adapters (p : ptr) (c : c_context) (init : bool) (l : list dxcore_adapter) : hP :=
  (∃ list, owns p (Context (set_dxcore (CDxcore init list (length l)) c)) ∗ adapters_at list l)%I.

(** The paths that are lost. *)
Definition skipped : hP := (∃ ps : list (ptr * string), [∗ list] x ∈ ps, owns x.1 (Chars x.2))%I.

(** ** Facts *)

Lemma step_get_context {B C} p c k (m' : M C) (Q : B -> C -> hP) :
  owns p (Context c) ∗ (owns p (Context c) -∗ refines (k c) m' Q) ⊢ refines (hbind (get_context p) k) m' Q.
Proof.
  iIntros "[Hp HQ]". iApply refines_step. rewrite /get_context. iApply step_load. iFrame "Hp". iIntros "Hp".
  iApply refines_ret. by iApply "HQ".
Qed.

Lemma step_upd_context {B C} p c f k (m' : M C) (Q : B -> C -> hP) :
  owns p (Context c) ∗ (owns p (Context (f c)) -∗ refines (k tt) m' Q) ⊢ refines (hbind (upd_context p f) k) m' Q.
Proof.
  iIntros "[Hp HQ]". iApply refines_step. rewrite /upd_context. iApply step_load. iFrame "Hp". iIntros "Hp".
  iApply owns_store. iFrame.
Qed.

Lemma upd_context_spec {A} p c f (Q : unit -> A -> hP) a :
  owns p (Context c) ∗ (owns p (Context (f c)) -∗ Q tt a) ⊢ refines (upd_context p f) (ret a) Q.
Proof.
  iIntros "[Hp HQ]". rewrite /upd_context. iApply step_load. iFrame "Hp". iIntros "Hp". iApply owns_store. iFrame.
Qed.

Lemma step_get_dxcore {B C} p c k (m' : M C) (Q : B -> C -> hP) :
  owns p (Context c) ∗ (owns p (Context c) -∗ refines (k (x_dxcore c)) m' Q) ⊢ refines (hbind (get_dxcore p) k) m' Q.
Proof.
  iIntros "[Hp HQ]". iApply refines_step. rewrite /get_dxcore. iApply step_get_context. iFrame "Hp". iIntros "Hp".
  iApply refines_ret. by iApply "HQ".
Qed.

(** The paths of the adapters, and the list. *)
Lemma deinit_spec {A} p c init l (Q : unit -> A -> hP) a :
  with_adapters p c init l ∗
  (∀ list, owns p (Context (set_dxcore (CDxcore false list (length l)) c)) -∗ Q tt a) ⊢
  refines (dxcore_deinit_context p) (ret a) Q.
Proof.
  iIntros "[(%list & Hp & Hl) HQ]". rewrite /dxcore_deinit_context. iApply step_get_dxcore. iFrame "Hp". iIntros "Hp".
  cbn [set_dxcore x_dxcore x_count x_adapters]. iDestruct "Hl" as "[%Hl|(%cs & %rest & Hl & Hcs)]".
  { destruct Hl as [-> ->]. iApply step_ret. iApply step_ret. iApply upd_context_spec. iFrame "Hp". iApply "HQ". }
  iApply refines_step. iDestruct (big_sepL2_length with "Hcs") as %Hn.
  iApply (refines_iter _ (fun js => owns list (Adapters (cs ++ rest)) ∗
    [∗ list] j ∈ js, ∃ c, <affine> ⌜(cs ++ rest) !! j = Some c⌝ ∗ any_string (ad_path c))%I).
  - intros j js Q'. iIntros "((Hl & (%d & %Hj & Hd) & Hjs) & HQ)". iApply refines_step. rewrite /load_adapters.
    iApply step_load. iFrame "Hl". iIntros "Hl". iApply refines_ret. rewrite Hj. iApply any_string_free. iFrame "Hd".
    iApply "HQ". iFrame.
  - iSplitL "Hl Hcs".
    + iFrame "Hl". rewrite -Hn -(app_nil_l (cs ++ rest)). iApply (indexed _ [] cs rest). clear Hn.
      iInduction cs as [|d cs IH] forall (l).
      * by iDestruct (big_sepL2_nil_inv_l with "Hcs") as %->.
      * iDestruct (big_sepL2_cons_inv_l with "Hcs") as (x l' ->) "[[Hd _] Hcs]". iDestruct ("IH" with "Hcs") as "$".
        by iApply string_any.
    + iIntros "[Hl _]". iApply step_free. iFrame "Hl". iApply upd_context_spec. iFrame "Hp". iApply "HQ".
Qed.

Lemma driverstore_refines h :
  ⊢ refines (dxcore_query_adapter_driverstore h) (Dxcore.dxcore_query_adapter_driverstore h) new_result.
Proof.
  rewrite /dxcore_query_adapter_driverstore /Dxcore.dxcore_query_adapter_driverstore.
  iApply step_lift. iIntros (r). iApply step_lift. iIntros ([size|]); [|iApply refines_ret; by simpl]. cbv zeta.
  destruct (_ <? _); [iApply refines_ret; by simpl|].
  iApply step_lift. iIntros ([]); [|iApply refines_ret; by simpl]. simpl negb. cbv iota.
  iApply step_malloc. iIntros (v) "Hv". iApply step_lift. iIntros (r2). iApply step_lift.
  iIntros ([output|]); [|iApply step_free; iFrame "Hv"; iApply refines_ret; by simpl].
  iApply step_lift. iIntros ([]); simpl negb; cbv iota; [|iApply step_free; iFrame "Hv"; iApply refines_ret; by simpl].
  iApply step_malloc. iIntros (q) "Hq". iApply step_free. iFrame "Hv".
  iApply step_lift. iIntros (r3). iApply step_lift.
  iIntros ([fd|]); [|iApply step_free; iFrame "Hq"; iApply refines_ret; by simpl].
  iApply step_lift. iIntros (u). iApply refines_ret. iExact "Hq".
Qed.

Lemma resize_head {A} (z : A) cs rest : exists x, resize (S (length cs)) z (cs ++ rest) = cs ++ [x].
Proof.
  destruct rest as [|x rest]; [exists z|exists x].
  - rewrite app_nil_r resize_ge; [|lia]. by replace (S (length cs) - length cs)%nat with 1%nat by lia.
  - rewrite (_ : cs ++ x :: rest = (cs ++ [x]) ++ rest); [|by rewrite -assoc_L].
    rewrite (_ : S (length cs) = length (cs ++ [x])); [|rewrite length_app /=; lia]. by rewrite resize_app_le // resize_all.
Qed.

(** The list with one more slot, behind the adapters. *)
Lemma step_realloc_adapters {B C} list l k (m' : M C) (Q : B -> C -> hP) :
  adapters_at list l ∗
  (∀ new cs x, owns new (Adapters (cs ++ [x])) -∗ ([∗ list] c;a ∈ cs;l, adapter_at c a) -∗ refines (k new) m' Q) ⊢
  refines (hbind (realloc_adapters list (S (length l))) k) m' Q.
Proof.
  iIntros "[Hl HQ]". iApply refines_step. iDestruct "Hl" as "[Hl|(%cs & %rest & Hl & Hcs)]".
  - iDestruct "Hl" as %[-> ->]. simpl. iApply owns_malloc. iIntros (new) "Hn".
    by iApply ("HQ" $! new [] zero_adapter with "Hn").
  - iDestruct (owns_at with "Hl") as "[(%a & ->) Hl]". iDestruct (big_sepL2_length with "Hcs") as %<-. simpl.
    rewrite /load_adapters. iApply refines_step. iApply step_load. iFrame "Hl". iIntros "Hl". iApply refines_ret.
    iApply step_free. iFrame "Hl". destruct (resize_head zero_adapter cs rest) as [x ->]. iApply owns_malloc.
    iIntros (new) "Hn". iApply ("HQ" with "Hn Hcs").
Qed.

Lemma step_store_adapter {B C} list cs x y i k (m' : M C) (Q : B -> C -> hP) :
  i = length cs ->
  owns list (Adapters (cs ++ [x])) ∗ (owns list (Adapters (cs ++ [y])) -∗ refines (k tt) m' Q) ⊢
  refines (hbind (store_adapter list i y) k) m' Q.
Proof.
  iIntros (->) "[Hl HQ]". iApply refines_step. rewrite /store_adapter /load_adapters. iApply refines_step.
  iApply step_load. iFrame "Hl". iIntros "Hl". iApply refines_ret. rewrite list_lookup_middle; [|done].
  rewrite insert_app_r_alt; [|lia]. rewrite Nat.sub_diag /=. iApply owns_store. iFrame.
Qed.

Lemma skipped_nil : ⊢ skipped.
Proof. by iExists []. Qed.

Lemma skipped_one p s : owns p (Chars s) ⊢ skipped.
Proof. iIntros "H". iExists [(p, s)]. by iFrame. Qed.

Lemma skipped_app : skipped ∗ skipped ⊢ skipped.
Proof. iIntros "[(%l & H1) (%l' & H2)]". iExists (l ++ l'). iFrame. Qed.

Lemma adapters_new list cs c l a :
  owns list (Adapters (cs ++ [c])) ∗ ([∗ list] c;a ∈ cs;l, adapter_at c a) ∗ adapter_at c a ⊢ adapters_at list (l ++ [a]).
Proof. iIntros "(Hl & Hcs & Hc)". iRight. iExists (cs ++ [c]), []. rewrite app_nil_r. iFrame. by simpl. Qed.

(** One adapter more, or none; a path that is not of an adapter is lost. *)
Lemma dxcore_add_adapter_refines p c init l h :
  with_adapters p c init l ⊢
  refines (dxcore_add_adapter p h) (Dxcore.dxcore_add_adapter l h)
    (fun _ l' => with_adapters p c init l' ∗ skipped).
Proof.
  iIntros "Hw". rewrite /dxcore_add_adapter /Dxcore.dxcore_add_adapter.
  iAssert (∀ l0, with_adapters p c init l0 -∗ refines (hret tt) (ret l0) (fun _ l' => with_adapters p c init l' ∗ skipped))%I
    as "Hskip". { iIntros (l0) "Hw". iApply refines_ret. iFrame "Hw". iApply skipped_nil. }
  iApply step_lift. iIntros ([wddm|]); [|by iApply "Hskip"]. cbv zeta. destruct (_ <? _); [by iApply "Hskip"|].
  iApply refines_bind. iApply refines_wand; [iApply driverstore_refines|]. iIntros ([path|] [s|]) "Hp"; try done;
    [|by iApply "Hskip"]. simpl.
  iApply step_lift. iIntros ([]); simpl negb; cbv iota.
  2: { iApply owns_free. iFrame "Hp Hw". iApply skipped_nil. }
  iDestruct "Hw" as "(%list & Hc & Hl)". iApply step_get_dxcore. iFrame "Hc". iIntros "Hc".
  cbn [set_dxcore x_dxcore x_count x_adapters x_initialized]. iApply step_realloc_adapters. iFrame "Hl".
  iIntros (new cs x) "Hn Hcs". iApply step_upd_context. iFrame "Hc". iIntros "Hc".
  iDestruct (big_sepL2_length with "Hcs") as %Hn. iApply step_store_adapter; [done|]. iFrame "Hn". iIntros "Hn".
  iApply (step_text _ (Some s)). iFrame "Hp". iIntros "Hp". simpl.
  iApply step_lift. iIntros ([comps|]).
  - iApply step_store_adapter; [done|]. iFrame "Hn". iIntros "Hn". iApply upd_context_spec. iFrame "Hc". iIntros "Hc".
    iSplitL; [|iApply skipped_nil]. iExists new. rewrite length_app Nat.add_1_r. iFrame "Hc".
    iApply adapters_new. iFrame. by iPureIntro.
  - iApply refines_ret. iSplitR "Hp"; [|by iApply skipped_one]. iExists new. iFrame "Hc". iRight. iExists cs, [_]. iFrame.
Qed.

Lemma add_adapters_refines p c init n l hs :
  with_adapters p c init l ⊢
  refines (add_adapters p n hs) (Dxcore.add_adapters n hs l) (fun _ l' => with_adapters p c init l' ∗ skipped).
Proof.
  iIntros "Hw". iInduction n as [|n IH] forall (l hs); cbn [add_adapters Dxcore.add_adapters].
  { iApply refines_ret. iFrame "Hw". iApply skipped_nil. }
  destruct hs as [|h hs]; [iApply refines_undefined; iExact "Hw"|]. iApply refines_bind.
  iApply (refines_wand with "[Hw]"); [by iApply dxcore_add_adapter_refines|]. iIntros (_ l1) "[Hw Hs]".
  iApply (refines_wand with "[Hw]"); [by iApply "IH"|]. iIntros (_ l2) "[$ Hs2]". iApply skipped_app. iFrame.
Qed.

Lemma free_or_null (ok : bool) {A} p b (Q : unit -> A -> hP) a :
  (if ok then owns p b else <affine> ⌜p = Null⌝) ∗ Q tt a ⊢ refines (free p) (ret a) Q.
Proof.
  iIntros "[Hp HQ]". destruct ok; [iApply owns_free; iFrame|]. iDestruct "Hp" as %->. by iApply refines_free_null.
Qed.

Lemma dxcore_enum_adapters_refines p c init :
  with_adapters p c init [] ⊢
  refines (dxcore_enum_adapters p) Dxcore.dxcore_enum_adapters (fun _ l => with_adapters p c init l ∗ skipped).
Proof.
  iIntros "Hw". rewrite /dxcore_enum_adapters /Dxcore.dxcore_enum_adapters.
  iApply step_lift. iIntros (r). iApply step_lift.
  iIntros ([n|]); [|iApply refines_ret; iFrame "Hw"; iApply skipped_nil]. cbv zeta.
  iApply step_lift. iIntros (ok).
  iAssert (∀ p0 : ptr, (if ok then owns p0 Buffer else <affine> ⌜p0 = Null⌝) -∗ with_adapters p c init [] -∗
    refines (let! r0 := hlift (call (EDxList (to_uint32 n))) in
             let!? res := hlift (trap r0) else free p0 in
             let '(count, handles) := res in
             do! add_adapters p (Z.to_nat (to_uint32 count)) (if ok then take (Z.to_nat (to_uint32 n)) handles else []) in
             free p0)
      (let* r0 := call (EDxList (to_uint32 n)) in
       let? res := trap r0 else ret [] in
       let '(count, handles) := res in
       Dxcore.add_adapters (Z.to_nat (to_uint32 count)) (if ok then take (Z.to_nat (to_uint32 n)) handles else []) [])
      (fun _ l => with_adapters p c init l ∗ skipped))%I as "Hk".
  - iIntros (p0) "Hp Hw". iApply step_lift. iIntros (r0). iApply step_lift. iIntros ([[count hs]|]).
    + iApply refines_bind_l. iApply (refines_wand with "[Hw]"); [by iApply add_adapters_refines|].
      iIntros (_ l) "Hw". iApply free_or_null. iFrame.
    + iApply free_or_null. iFrame. iApply skipped_nil.
  - destruct ok.
    + iApply step_malloc. iIntros (p0) "Hp". by iApply ("Hk" with "Hp").
    + iApply step_ret. iApply ("Hk" with "[//] Hw").
Qed.

(** What [dxcore_init_context] leaves: the adapters in the context, or nothing. *)
Definition started_dxcore (p : ptr) (c : c_context) (r : option unit) (r' : option dxcore_context) : hP :=
  match r, r' with
  | Some _, Some dx => <affine> ⌜dx_initialized dx = true⌝ ∗ with_adapters p c true (adapterList dx) ∗ skipped
  | None, None => ∃ list, owns p (Context (set_dxcore (CDxcore false list 0) c))
  | _, _ => False
  end%I.

Lemma dxcore_init_context_refines p c :
  owns p (Context c) ⊢ refines (dxcore_init_context p) Dxcore.dxcore_init_context (started_dxcore p c).
Proof.
  iIntros "Hp". rewrite /dxcore_init_context /Dxcore.dxcore_init_context. iApply step_upd_context. iFrame "Hp". iIntros "Hp".
  iAssert (with_adapters p c false []) with "[Hp]" as "Hw". { iExists Null. iFrame "Hp". by iLeft. }
  iAssert (with_adapters p c false [] -∗ refines (do! dxcore_deinit_context p in hret (None : option unit)) (ret None)
    (started_dxcore p c))%I as "Herr".
  { iIntros "Hw". iApply refines_step. iApply deinit_spec. iFrame "Hw". iIntros (list) "Hp". iApply refines_ret. by iExists list. }
  iApply step_lift. iIntros ([e|]); [by iApply "Herr"|]. iApply step_lift. iIntros ([e|]); [by iApply "Herr"|].
  iApply step_lift. iIntros ([e|]); [by iApply "Herr"|]. iClear "Herr".
  iApply refines_bind. iApply (refines_wand with "[Hw]"); [by iApply dxcore_enum_adapters_refines|].
  iIntros (_ l) "[(%list & Hp & Hl) Hs]". iApply step_get_dxcore. iFrame "Hp". iIntros "Hp".
  cbn [set_dxcore x_dxcore x_count x_adapters]. iApply step_upd_context. iFrame "Hp". iIntros "Hp".
  iApply refines_ret. iFrame "Hs". iSplit; [done|]. iExists list. iFrame.
Qed.
End Adapters.
