(* ===== verification/Rpc.v ===== *)
(** * The services and their clients

    [src/src/rpc.c]: a service is a process at the other end of a socket pair.
    [src/src/driver.c] and [src/src/nvcgo.c]: the two services of the library,
    seen from the client.  The child is the side of [fork] on which the kernel
    answers [0]; it serves and exits.  A [struct rpc] is updated in place by the
    code: the operations return the structure they leave behind, on failure
    too. *)
From S2P Require Import Prelude CString Effects Logic Errors Utils Types Paths Files Driver Dxcore.

Definition REAP_TIMEOUT_MS : Z := 10.
Definition SIGTERM : Z := 15.
Definition SIGKILL : Z := 9.

(** [clt] is the handle of the client; that of the service only lives in the
    child. *)
Record rpc := mkRpc {
  r_initialized : bool; fd_clt : Z; fd_svc : Z; r_pid : Z; clt : bool; prog_name : string
}.
Definition rpc_zero : rpc := mkRpc false 0 0 0 false "".
Definition rpc_reset (name : string) : rpc := mkRpc false (-1) (-1) (-1) false name.

Definition setup_client (r : rpc) : M (rpc * option unit) :=
  do xclose (fd_svc r) in
  let* a := call (EGetpeername (fd_clt r)) in
  let? _ := trap a else
    do error_set (prog_name r +:+ " rpc address resolution failed") in ret (r, None) in
  let* c := call (EClntCreate (prog_name r)) in
  match c with
  | Some text => do error_setx (prog_name r +:+ " rpc " +:+ text) in ret (r, None)
  | None => ret (mkRpc (r_initialized r) (fd_clt r) (fd_svc r) (r_pid r) true (prog_name r), Some tt)
  end.

Definition setup_service {A} (r : rpc) (ppid : Z) : M A :=
  let* p := call (EPrctl "PR_SET_NAME" 0) in
  do trap p in
  do xclose (fd_clt r) in
  let* p := call (EPrctl "PR_SET_PDEATHSIG" SIGTERM) in
  let? _ := trap p else
    do error_set (prog_name r +:+ " rpc service initialization failed") in halt (Exited 1) in
  let* parent := call EGetppid in
  do (if negb (parent =? ppid) then
        let* self := call EGetpid in
        let* k := call (EKill self SIGTERM) in
        do trap k in ret tt
      else ret tt) in
  let* ok := call (ESvcCreate (prog_name r)) in
  if negb ok then
    do error_setx (prog_name r +:+ " rpc service registration failed") in halt (Exited 1)
  else
    do call (ESvcRun (prog_name r)) in
    halt (Exited 0).

(** [None]: the process could not be reaped. *)
Definition reap_process (r : rpc) (fd : Z) (force : bool) : M (option unit) :=
  let* w := call (EWaitNohang (r_pid r)) in
  let* w := trap w in
  let* rv :=
    match w with
    | Some (Some _) => ret (Some tt)
    | _ =>
        do (if force then let* k := call (EKill (r_pid r) SIGTERM) in do trap k in ret tt else ret tt) in
        let* p := call (EPoll fd REAP_TIMEOUT_MS) in
        let? n := trap p else ret None in
        let? _ := (if n =? 0 then let* k := call (EKill (r_pid r) SIGKILL) in trap k else ret (Some tt)) else ret None in
        let* w := call (EWaitpid (r_pid r)) in
        let? _ := trap w else ret None in
        ret (Some tt)
    end in
  match rv with
  | None =>
      do error_set ("reaping " +:+ prog_name r +:+ " rpc service process failed (pid " +:+ print_Z (to_int32 (r_pid r)) +:+ ")") in
      ret None
  | Some _ => ret (Some tt)
  end.

Definition clnt_destroy (r : rpc) : M unit := if clt r then call (EClntDestroy (prog_name r)) else ret tt.

Definition rpc_fail (r : rpc) : M (rpc * option unit) :=
  do (if 0 <? r_pid r then do null_err (reap_process r (fd_clt r) true) in ret tt else ret tt) in
  do clnt_destroy r in
  do xclose (fd_clt r) in
  do xclose (fd_svc r) in
  ret (r, None).

Definition rpc_init (r : rpc) (name : string) : M (rpc * option unit) :=
  if r_initialized r then ret (r, Some tt)
  else
    let r := rpc_reset name in
    let fail r := do error_set (name +:+ " rpc service process creation failed") in rpc_fail r in
    let* pid := call EGetpid in
    let* s := call ESocketpair in
    let? fds := trap s else fail r in
    let r := mkRpc false (Z.of_N (fst fds)) (Z.of_N (snd fds)) (-1) false name in
    let* f := call (EFork 0) in
    let? child := trap f else fail r in
    let r := mkRpc false (fd_clt r) (fd_svc r) (Z.of_N child) false name in
    if (child =? 0)%N then setup_service r pid
    else
      let* c := setup_client r in
      match c with
      | (r, None) => rpc_fail r
      | (r, Some _) => ret (mkRpc true (fd_clt r) (fd_svc r) (r_pid r) (clt r) name, Some tt)
      end.

Definition rpc_shutdown (r : rpc) (force : bool) : M (rpc * option unit) :=
  let? _ := (if 0 <? r_pid r then reap_process r (fd_clt r) force else ret (Some tt)) else ret (r, None) in
  do clnt_destroy r in
  do xclose (fd_clt r) in
  do xclose (fd_svc r) in
  ret (mkRpc false (-1) (-1) (-1) false "", Some tt).

(** ** The driver service *)

Definition SONAME_LIBNVML : string := "libxdxgpu-ml.so".

(** The static [global_driver_context]. *)
Record driver_global := mkDriverGlobal { dg_rpc : rpc; dg_initialized : bool; dg_driver : driver }.

Definition driver_init (dxcore : dxcore_context) (root : string) (uid gid : Z) : M (driver_global * option unit) :=
  let fail d := let* r := own_error (rpc_shutdown (dg_rpc d) true) in
                ret (mkDriverGlobal (fst r) (dg_initialized d) (dg_driver d), None) in
  if PATH_MAX <=? strlen root then halt (Undefined "strcpy: root does not fit")
  else
    let d path := mkDriverGlobal rpc_zero false (mkDriver root path uid gid) in
    let? path :=
      (if dx_initialized dxcore then
         match adapterList dxcore with
         | [] => halt (Undefined "adapterList[0]")
         | a :: _ => path_join (pDriverStorePath a) SONAME_LIBNVML
         end
       else ret (Some SONAME_LIBNVML)) else fail (d "") in
    let* r := rpc_init rpc_zero "driver" in
    let d := mkDriverGlobal (fst r) false (mkDriver root path uid gid) in
    match snd r with
    | None => fail d
    | Some _ =>
        let? _ := call_rpc "driver" (driver_init_1_svc (dg_driver d)) else fail d in
        ret (mkDriverGlobal (dg_rpc d) true (dg_driver d), Some tt)
    end.

Definition driver_shutdown (d : driver_global) : M (driver_global * option unit) :=
  if negb (dg_initialized d) then ret (d, Some tt)
  else
    let* rv := call_rpc "driver" driver_shutdown_1_svc in
    let* r := rpc_shutdown (dg_rpc d) (match rv with None => true | Some _ => false end) in
    match snd r with
    | None => ret (mkDriverGlobal (fst r) (dg_initialized d) (dg_driver d), None)
    | Some _ => ret (mkDriverGlobal (fst r) false (dg_driver d), Some tt)
    end.

(** ** The control group service *)

Definition SONAME_LIBNVCGO : string := "libxdxct-container-go.so.1".
Definition nvcgo_funcs : list string :=
  ["GetDeviceCGroupVersion"; "GetDeviceCGroupMountPath"; "GetDeviceCGroupRootPath"; "AddDeviceRules"].

(** The static [global_nvcgo_context]. *)
Record nvcgo_global := mkNvcgoGlobal { ng_rpc : rpc; ng_initialized : bool }.

Definition nvcgo_init_1_svc : M (xres unit) :=
  service (
    let? _ := xdlopen SONAME_LIBNVCGO else ret None in
    iterM (fun f => let* r := call (EDlsym f) in
                    match r with
                    | None => ret (Some tt)
                    | Some text => do error_setx ("dlsym error: " +:+ text) in ret None
                    end) nvcgo_funcs).

Definition nvcgo_init : M (nvcgo_global * option unit) :=
  let fail r := let* r := own_error (rpc_shutdown r true) in ret (mkNvcgoGlobal (fst r) false, None) in
  let* r := rpc_init rpc_zero "nvcgo" in
  match snd r with
  | None => fail (fst r)
  | Some _ =>
      let? _ := call_rpc "nvcgo" nvcgo_init_1_svc else fail (fst r) in
      ret (mkNvcgoGlobal (fst r) true, Some tt)
  end.

Definition nvcgo_shutdown_1_svc : M (xres unit) := service (ret (Some tt)).

Definition nvcgo_shutdown (n : nvcgo_global) : M (nvcgo_global * option unit) :=
  if negb (ng_initialized n) then ret (n, Some tt)
  else
    let* rv := call_rpc "nvcgo" nvcgo_shutdown_1_svc in
    let* r := rpc_shutdown (ng_rpc n) (match rv with None => true | Some _ => false end) in
    match snd r with
    | None => ret (mkNvcgoGlobal (fst r) (ng_initialized n), None)
    | Some _ => ret (mkNvcgoGlobal (fst r) false, Some tt)
    end.

(** ** Descriptors and processes

    What the kernel keeps for the process: its open sockets, the descriptors it
    closed although they were not open, its children, and the signals it sent to
    processes that are not its children. *)
Record held := mkHeld { h_open : list Z; h_stray : list Z; h_children : list Z; h_signals : list Z }.
Definition nothing_held : held := mkHeld [] [] [] [].

Fixpoint remove_one (n : Z) (l : list Z) : option (list Z) :=
  match l with
  | [] => None
  | m :: l' => if m =? n then Some l' else (fun l'' => m :: l'') <$> remove_one n l'
  end.

Definition reaped (pid : Z) (g : held) : held :=
  mkHeld (h_open g) (h_stray g) (default (h_children g) (remove_one pid (h_children g))) (h_signals g).

Definition held_step (g : held) (ev : event) : held :=
  match ev with
  | Event ESocketpair (SOk (a, b)) =>
      mkHeld (Z.of_N b :: Z.of_N a :: h_open g) (h_stray g) (h_children g) (h_signals g)
  | Event (EClose fd) _ =>
      match remove_one fd (h_open g) with
      | Some l => mkHeld l (h_stray g) (h_children g) (h_signals g)
      | None => mkHeld (h_open g) (h_stray g ++ [fd]) (h_children g) (h_signals g)
      end
  | Event (EFork _) (SOk n) => mkHeld (h_open g) (h_stray g) (Z.of_N n :: h_children g) (h_signals g)
  | Event (EWaitNohang pid) (SOk (Some _)) => reaped pid g
  | Event (EWaitpid pid) (SOk _) => reaped pid g
  | Event (EKill pid _) _ =>
      match remove_one pid (h_children g) with
      | Some _ => g
      | None => mkHeld (h_open g) (h_stray g) (h_children g) (h_signals g ++ [pid])
      end
  | _ => g
  end.

(** The name of a service is one line. *)
Definition one_line (s : string) : Prop := str_mem "010" s = false.

(** The service is up: its process and the socket to it. *)
Definition serving (r : rpc) (g g' : held) : Prop :=
  0 < r_pid r /\ 0 <= fd_clt r /\ 0 <= fd_svc r /\ clt r = true /\ r_initialized r = true /\ one_line (prog_name r) /\
  g' = mkHeld (fd_clt r :: h_open g) (h_stray g) (r_pid r :: h_children g) (h_signals g).

#[export] Hint Extern 3 (ErrText _) =>
  (apply err_text_plain; rewrite !str_mem_app, ?print_Z_plain;
   repeat match goal with H : one_line _ |- _ => rewrite H; clear H end; reflexivity) : typeclass_instances ens.

Lemma reap_process_ens r fd force :
  one_line (prog_name r) -> ensures (only [KLib; KProc]) no_stop (reap_process r fd force) any.
Proof.
  intros Hr. unfold reap_process. ens_step. ens_step.
  eapply ensures_bind with (R := any); [ens|]. intros [] _; ens.
Qed.
#[export] Hint Resolve reap_process_ens : ens.

Lemma rpc_fail_ens r :
  one_line (prog_name r) ->
  ensures (only [KLib; KRead; KProc; KDev]) no_stop (rpc_fail r) (fun q => snd q = None).
Proof. intros Hr. unfold rpc_fail, clnt_destroy. ens. Qed.

Lemma setup_service_ens {A} r ppid :
  one_line (prog_name r) ->
  ensures (only [KLib; KRead; KCred; KProc; KDev]) (fun w => w = Exited 0 \/ w = Exited 1) (@setup_service A r ppid) (fun _ => False).
Proof. intros Hr. unfold setup_service. ens. Qed.

Lemma remove_one_head n l : remove_one n (n :: l) = Some l.
Proof. simpl. by rewrite Z.eqb_refl. Qed.

Lemma setup_client_held r g :
  one_line (prog_name r) -> 0 <= fd_svc r ->
  ghost held_step (setup_client r) g
    (fun q g' => prog_name (fst q) = prog_name r /\
       when (fun _ g' => fst q = mkRpc (r_initialized r) (fd_clt r) (fd_svc r) (r_pid r) true (prog_name r) /\
                         g' = held_step g (Event (EClose (fd_svc r)) (SOk tt))) (snd q) g').
Proof.
  intros Hr Hs. unfold setup_client, xclose. destruct (Z.ltb_spec (fd_svc r) 0); [lia|]. repeat gstep; done.
Qed.

Lemma rpc_init_held name g :
  one_line name ->
  ghost held_step (rpc_init rpc_zero name) g (fun r g' => when (fun _ g' => serving (fst r) g g') (snd r) g').
Proof.
  intros Hl.
  assert (forall r g0, prog_name r = name -> ghost held_step (rpc_fail r) g0
            (fun r g' => when (fun _ g' => serving (fst r) g g') (snd r) g')) as Hf.
  { intros r g0 <-. eapply ghost_value; [by apply rpc_fail_ens|]. by intros [? ?] g' [= ->]. }
  assert (forall e r g0, prog_name r = name -> ghost held_step (do error_set e in rpc_fail r) g0
            (fun r g' => when (fun _ g' => serving (fst r) g g') (snd r) g')) as Hf'.
  { intros. eapply ghost_bind; [apply ghost_any|]. intros ? ? _. by apply Hf. }
  unfold rpc_init. cbn [r_initialized rpc_zero]. gstep. gstep. gstep; [|by apply Hf'].
  destruct a as [c v]. gstep. gstep; [|by apply Hf']. rename a into child.
  destruct (N.eqb_spec child 0) as [->|Hc].
  { eapply ghost_value; [by apply setup_service_ens|done]. }
  eapply ghost_bind; [apply setup_client_held; [done|simpl; lia]|].
  intros [r' [[]|]] g' [Hn Hr]; [|by apply Hf]. destruct Hr as [Hr ->]. cbn [fst snd] in Hr. subst r'.
  gstep. simpl. rewrite Z.eqb_refl. unfold serving. simpl. split_and!; done || lia.
Qed.

Lemma reap_process_held r fd force g :
  one_line (prog_name r) -> r_pid r ∈ h_children g ->
  ghost held_step (reap_process r fd force) g (when (fun _ g' => g' = reaped (r_pid r) g)).
Proof.
  intros Hr Hp. assert (is_Some (remove_one (r_pid r) (h_children g))) as [l Hl].
  { revert Hp. generalize (r_pid r) (h_children g). intros n l. induction l as [|m l IH]; [by intros ?%not_elem_of_nil|].
    simpl. intros [->|Hin]%elem_of_cons; [rewrite Z.eqb_refl; eauto|]. destruct (m =? n); [eauto|].
    destruct (IH Hin) as [l' ->]. eauto. }
  unfold reap_process. repeat gstep; try done; cbn [held_step]; rewrite ?Hl; done.
Qed.

Lemma remove_one_absent n l : n ∉ l -> remove_one n l = None.
Proof.
  induction l as [|m l IH]; [done|]. intros [Hm Hl]%not_elem_of_cons. simpl.
  destruct (Z.eqb_spec m n); [congruence|]. by rewrite IH.
Qed.

Lemma rpc_shutdown_held r force g0 g :
  serving r g0 g -> fd_svc r ∉ h_open g0 ->
  ghost held_step (rpc_shutdown r force) g
    (fun q g' => when (fun _ g' => g' = mkHeld (h_open g0) (h_stray g0 ++ [fd_svc r]) (h_children g0) (h_signals g0)) (snd q) g').
Proof.
  intros (Hpid & Hc & Hs & Hclt & _ & Hr & ->) Hsvc. unfold rpc_shutdown, clnt_destroy, xclose.
  destruct (Z.ltb_spec 0 (r_pid r)); [|lia].
  eapply ghost_try; [apply reap_process_held; [done|apply list_elem_of_here]| |intros; by gstep].
  intros [] g1 ->. rewrite Hclt. destruct (Z.ltb_spec (fd_clt r) 0), (Z.ltb_spec (fd_svc r) 0); try lia.
  repeat gstep; try done; simpl; rewrite !Z.eqb_refl; simpl; by rewrite remove_one_absent.
Qed.

(** A service, from its start to its end. *)
Definition rpc_life (name : string) (force : bool) : M (option (rpc * option unit)) :=
  let* r := rpc_init rpc_zero name in
  match r with
  | (_, None) => ret None
  | (r, Some _) => let* q := rpc_shutdown r force in ret (Some (r, snd q))
  end.

(** A service that was started and stopped leaves no socket open, no child
    behind and sends no signal to a stranger; but it closes the descriptor of the
    service, which the client already closed, a second time. *)
Lemma rpc_closes_twice (o : env) name force (s : st) :
  one_line name ->
  match exec o (rpc_life name force) s with
  | (t, Done (_, Some (r, Some _))) => fold_left held_step t nothing_held = mkHeld [] [fd_svc r] [] []
  | _ => True
  end.
Proof.
  intros Hl. assert (ghost held_step (rpc_life name force) nothing_held
    (fun a g' => match a with Some (r, Some _) => g' = mkHeld [] [fd_svc r] [] [] | _ => True end)) as Hg.
  { unfold rpc_life. eapply ghost_bind; [by apply rpc_init_held|]. intros [r [[]|]] g1 H1; [|by gstep]. cbn [fst snd when] in H1.
    eapply ghost_bind; [apply (rpc_shutdown_held _ _ _ _ H1); by apply not_elem_of_nil|].
    intros [r' [[]|]] g2 H2; gstep; simpl in *; done. }
  pose proof (ghost_run held_step o _ _ _ s Hg) as H. by destruct (exec o _ s) as [t [[s' [[r [[]|]]|]]|w]].
Qed.

Lemma rpc_closes_twice_witness :
  fold_left held_step (fst (exec (fun _ e => friendly e) (rpc_life "driver" false) init_st)) nothing_held = mkHeld [] [5] [] [].
Proof.
  pose proof (rpc_closes_twice (fun _ e => friendly e) "driver" false init_st eq_refl) as H.
  destruct (exec (fun _ e => friendly e) (rpc_life "driver" false) init_st) as [t out] eqn:E.
  assert (out = snd (exec (fun _ e => friendly e) (rpc_life "driver" false) init_st)) as Ho by by rewrite E.
  vm_compute in Ho. subst out. exact H.
Defined.

(** The peer of the socket is not known; a child can be reaped once. *)
Definition no_peer : env := fun hist e =>
  match e return resp e with
  | EGetpeername _ => SErr 107
  | EWaitNohang _ =>
      if existsb (fun ev => match ev_call ev with EWaitNohang _ => true | _ => false end) hist then SErr 10
      else SOk (Some (WSignaled SIGTERM))
  | EWaitpid _ => SErr 10
  | e => friendly e
  end.

(** When the client of the driver service cannot be set up, [driver_init]
    stops the service twice: the second time it signals a process that was
    reaped already. *)
Theorem driver_init_signals_reaped :
  fold_left held_step (fst (exec no_peer (driver_init (mkDxcore false []) "/" 0 0) init_st)) nothing_held
    = mkHeld [] [5] [] [1].
Proof. vm_compute. reflexivity. Qed.

(** When the path of the driver store is too long, [driver_init] shuts down a
    service that was never started and closes the standard input, twice. *)
Theorem driver_init_closes_stdin :
  let dx := mkDxcore true [mkAdapter 1 2700 (xs 4090) ["libcuda.so.1.1"]] in
  fold_left held_step (fst (exec (fun _ e => friendly e) (driver_init dx "/" 0 0) init_st)) nothing_held
    = mkHeld [] [0; 0] [] [].
Proof. vm_compute. reflexivity. Qed.
