(* ===== verification/Xdr.v ===== *)
(** * The external data representation of the remote procedures

    The types that [src/src/nvc_rpc.x] declares, as [nvc_rpc.h] has them, and the
    filters of [nvc_xdr.c].  A filter of the XDR library encodes an object to a
    stream, decodes one from it or frees what it holds, according to the
    operation of the stream; the filters of this file are composed of those of
    the library, which are an argument ([XdrLib]) known by their documented
    behaviour ([XdrLaws]). *)
From S2P Require Import Prelude CString.

(** ** Streams and filters *)

Inductive xdr_op := XDR_ENCODE | XDR_DECODE | XDR_FREE.

(** [x_data]: the bytes written so far, or those that are left to read. *)
Record XDR := mkXDR { x_op : xdr_op; x_data : list Z }.

(** [FALSE], or [TRUE] with the stream and the object afterwards. *)
Definition xdrproc (A : Type) : Type := XDR -> A -> option (XDR * A).

Definition UINT_MAX : Z := 2 ^ 32 - 1.

(** The filters of the library; the first argument of [xdr_string] is the
    longest string it accepts. *)
Class XdrLib := {
  xdr_int : xdrproc Z;
  xdr_u_int : xdrproc Z;
  xdr_int64_t : xdrproc Z;
  xdr_u_long : xdrproc Z;
  xdr_string : Z -> xdrproc (option string)
}.

(** An object after [memset(..., 0, ...)]. *)
Class Zeroed (A : Type) := zeroed : A.
#[export] Instance zeroed_unit : Zeroed unit := tt.
#[export] Instance zeroed_Z : Zeroed Z := 0.
#[export] Instance zeroed_string : Zeroed (option string) := None.

(** The bytes of an object: what is appended does not depend on the stream, and
    decoding them into zeroed memory gives the object and leaves what follows. *)
Definition represents {A} `{Zeroed A} (p : xdrproc A) (a : A) (bytes : list Z) : Prop :=
  (forall data, p (mkXDR XDR_ENCODE data) a = Some (mkXDR XDR_ENCODE (data ++ bytes), a)) /\
  (forall rest, p (mkXDR XDR_DECODE (bytes ++ rest)) zeroed = Some (mkXDR XDR_DECODE rest, a)).

(** A filter for the objects of [typed]; any object can be freed. *)
Class Filter {A} `{Zeroed A} (p : xdrproc A) (typed : A -> Prop) : Prop := {
  filter_represents a : typed a -> exists bytes, represents p a bytes;
  filter_frees data a : exists a', p (mkXDR XDR_FREE data) a = Some (mkXDR XDR_FREE data, a')
}.

(** The values of the C types, and the strings that can be sent. *)
Definition is_int (z : Z) : Prop := - 2 ^ 31 <= z < 2 ^ 31.
Definition is_u_int (z : Z) : Prop := 0 <= z < 2 ^ 32.
(** XDR gives [unsigned long] 32 bits. *)
Definition is_u_long (z : Z) : Prop := 0 <= z < 2 ^ 32.
Definition is_int64 (z : Z) : Prop := - 2 ^ 63 <= z < 2 ^ 63.
Definition is_string (s : option string) : Prop :=
  match s with Some s => c_string s /\ strlen s <= UINT_MAX | None => False end.

(** What the manual says of the library; a [NULL] pointer is not a string. *)
Class XdrLaws (lib : XdrLib) : Prop := {
  int_filter :: Filter xdr_int is_int;
  u_int_filter :: Filter xdr_u_int is_u_int;
  int64_filter :: Filter xdr_int64_t is_int64;
  u_long_filter :: Filter xdr_u_long is_u_long;
  string_filter :: Filter (xdr_string UINT_MAX) is_string;
  string_null data : xdr_string UINT_MAX (mkXDR XDR_ENCODE data) None = None
}.

(** ** Types *)

Notation ptr_t := Z (only parsing).

(** The result of a procedure: a union that is discriminated by the error code.
    The arm of the code 0 and the message overlap in C, where only the one that
    the code selects is ever used. *)
Record result (A : Type) := mkResult { errcode : Z; arm : A; errmsg : option string }.
Arguments mkResult {A}. Arguments errcode {A}. Arguments arm {A}. Arguments errmsg {A}.
#[export] Instance zeroed_result {A} `{Zeroed A} : Zeroed (result A) := mkResult 0 zeroed None.

Definition driver_init_res := result unit.
Definition driver_shutdown_res := result unit.
Definition driver_get_rm_version_res := result (option string).

Record driver_cuda_version := mkCuda { cuda_major : Z; cuda_minor : Z }.
Definition driver_get_cuda_version_res := result driver_cuda_version.

Record driver_device_arch := mkArch { arch_major : Z; arch_minor : Z }.
Definition driver_get_device_arch_res := result driver_device_arch.

Definition driver_get_device_count_res := result Z.
Definition driver_get_device_res := result ptr_t.
Definition driver_get_device_minor_res := result Z.
Definition driver_get_device_busid_res := result (option string).
Definition driver_get_device_uuid_res := result (option string).
Definition driver_get_device_model_res := result (option string).
Definition driver_get_device_brand_res := result (option string).

Record driver_device_mig_mode := mkMigMode { mode_error : Z; mode_current : Z; mode_pending : Z }.
Definition driver_get_device_mig_mode_res := result driver_device_mig_mode.

Definition driver_get_device_max_mig_device_count_res := result Z.
Definition driver_get_device_mig_device_res := result ptr_t.
Definition driver_get_device_gpu_instance_id_res := result Z.
Definition driver_get_device_compute_instance_id_res := result Z.

Definition nvcgo_init_res := result unit.
Definition nvcgo_shutdown_res := result unit.
Definition nvcgo_get_device_cgroup_version_res := result Z.
Definition nvcgo_find_device_cgroup_path_res := result (option string).
Definition nvcgo_setup_device_cgroup_res := result unit.

(** The arguments of the procedures that have several: the context, and an index
    or a device. *)
Record driver_get_device_1_argument := mkIndexArgument { ia_arg1 : ptr_t; ia_arg2 : Z }.
Record device_argument := mkDeviceArgument { da_arg1 : ptr_t; da_arg2 : ptr_t }.
Definition driver_get_device_minor_1_argument := device_argument.
Definition driver_get_device_busid_1_argument := device_argument.
Definition driver_get_device_uuid_1_argument := device_argument.
Definition driver_get_device_arch_1_argument := device_argument.
Definition driver_get_device_model_1_argument := device_argument.
Definition driver_get_device_brand_1_argument := device_argument.
Definition driver_get_device_mig_mode_1_argument := device_argument.
Definition driver_get_device_max_mig_device_count_1_argument := device_argument.
Definition driver_get_device_gpu_instance_id_1_argument := device_argument.
Definition driver_get_device_compute_instance_id_1_argument := device_argument.
Record driver_get_device_mig_device_1_argument := mkMigArgument { ma_arg1 : ptr_t; ma_arg2 : ptr_t; ma_arg3 : Z }.

Record nvcgo_get_device_cgroup_version_1_argument :=
  mkVersionArgument { va_arg1 : ptr_t; va_arg2 : option string; va_arg3 : Z }.
Record nvcgo_find_device_cgroup_path_1_argument :=
  mkFindArgument { fa_arg1 : ptr_t; fa_arg2 : Z; fa_arg3 : option string; fa_arg4 : Z; fa_arg5 : Z }.
Record nvcgo_setup_device_cgroup_1_argument :=
  mkSetupArgument { sa_arg1 : ptr_t; sa_arg2 : Z; sa_arg3 : option string; sa_arg4 : Z }.

#[export] Instance zeroed_cuda : Zeroed driver_cuda_version := mkCuda 0 0.
#[export] Instance zeroed_arch : Zeroed driver_device_arch := mkArch 0 0.
#[export] Instance zeroed_mode : Zeroed driver_device_mig_mode := mkMigMode 0 0 0.
#[export] Instance zeroed_index : Zeroed driver_get_device_1_argument := mkIndexArgument 0 0.
#[export] Instance zeroed_device : Zeroed device_argument := mkDeviceArgument 0 0.
#[export] Instance zeroed_mig : Zeroed driver_get_device_mig_device_1_argument := mkMigArgument 0 0 0.
#[export] Instance zeroed_version : Zeroed nvcgo_get_device_cgroup_version_1_argument := mkVersionArgument 0 None 0.
#[export] Instance zeroed_find : Zeroed nvcgo_find_device_cgroup_path_1_argument := mkFindArgument 0 0 None 0 0.
#[export] Instance zeroed_setup : Zeroed nvcgo_setup_device_cgroup_1_argument := mkSetupArgument 0 0 None 0.

(** ** Filters *)

Section Filters.
Context `{lib : XdrLib}.

Definition xdr_ptr_t : xdrproc ptr_t := fun xdrs objp => xdr_int64_t xdrs objp.

(** What every filter of a result does: the code, then the arm it selects. *)
Definition xdr_result {A} (xdr_arm : xdrproc A) : xdrproc (result A) := fun xdrs objp =>
  '(xdrs, code) ← xdr_int xdrs (errcode objp);
  if code =? 0 then
    '(xdrs, a) ← xdr_arm xdrs (arm objp);
    Some (xdrs, mkResult code a (errmsg objp))
  else
    '(xdrs, m) ← xdr_string UINT_MAX xdrs (errmsg objp);
    Some (xdrs, mkResult code (arm objp) m).

(** [case 0: break;] *)
Definition no_arm : xdrproc unit := fun xdrs objp => Some (xdrs, objp).

Definition xdr_driver_init_res : xdrproc driver_init_res := xdr_result no_arm.
Definition xdr_driver_shutdown_res : xdrproc driver_shutdown_res := xdr_result no_arm.
Definition xdr_driver_get_rm_version_res : xdrproc driver_get_rm_version_res := xdr_result (xdr_string UINT_MAX).

Definition xdr_driver_cuda_version : xdrproc driver_cuda_version := fun xdrs objp =>
  '(xdrs, v1) ← xdr_u_int xdrs (cuda_major objp);
  '(xdrs, v2) ← xdr_u_int xdrs (cuda_minor objp);
  Some (xdrs, mkCuda v1 v2).
Definition xdr_driver_get_cuda_version_res : xdrproc driver_get_cuda_version_res := xdr_result xdr_driver_cuda_version.

Definition xdr_driver_device_arch : xdrproc driver_device_arch := fun xdrs objp =>
  '(xdrs, v1) ← xdr_u_int xdrs (arch_major objp);
  '(xdrs, v2) ← xdr_u_int xdrs (arch_minor objp);
  Some (xdrs, mkArch v1 v2).
Definition xdr_driver_get_device_arch_res : xdrproc driver_get_device_arch_res := xdr_result xdr_driver_device_arch.

Definition xdr_driver_get_device_count_res : xdrproc driver_get_device_count_res := xdr_result xdr_u_int.
Definition xdr_driver_get_device_res : xdrproc driver_get_device_res := xdr_result xdr_ptr_t.
Definition xdr_driver_get_device_minor_res : xdrproc driver_get_device_minor_res := xdr_result xdr_u_int.
Definition xdr_driver_get_device_busid_res : xdrproc driver_get_device_busid_res := xdr_result (xdr_string UINT_MAX).
Definition xdr_driver_get_device_uuid_res : xdrproc driver_get_device_uuid_res := xdr_result (xdr_string UINT_MAX).
Definition xdr_driver_get_device_model_res : xdrproc driver_get_device_model_res := xdr_result (xdr_string UINT_MAX).
Definition xdr_driver_get_device_brand_res : xdrproc driver_get_device_brand_res := xdr_result (xdr_string UINT_MAX).

Definition xdr_driver_device_mig_mode : xdrproc driver_device_mig_mode := fun xdrs objp =>
  '(xdrs, v1) ← xdr_int xdrs (mode_error objp);
  '(xdrs, v2) ← xdr_u_int xdrs (mode_current objp);
  '(xdrs, v3) ← xdr_u_int xdrs (mode_pending objp);
  Some (xdrs, mkMigMode v1 v2 v3).
Definition xdr_driver_get_device_mig_mode_res : xdrproc driver_get_device_mig_mode_res := xdr_result xdr_driver_device_mig_mode.

Definition xdr_driver_get_device_max_mig_device_count_res : xdrproc driver_get_device_max_mig_device_count_res := xdr_result xdr_u_int.
Definition xdr_driver_get_device_mig_device_res : xdrproc driver_get_device_mig_device_res := xdr_result xdr_ptr_t.
Definition xdr_driver_get_device_gpu_instance_id_res : xdrproc driver_get_device_gpu_instance_id_res := xdr_result xdr_u_int.
Definition xdr_driver_get_device_compute_instance_id_res : xdrproc driver_get_device_compute_instance_id_res := xdr_result xdr_u_int.

Definition xdr_driver_get_device_1_argument : xdrproc driver_get_device_1_argument := fun xdrs objp =>
  '(xdrs, arg1) ← xdr_ptr_t xdrs (ia_arg1 objp);
  '(xdrs, arg2) ← xdr_u_int xdrs (ia_arg2 objp);
  Some (xdrs, mkIndexArgument arg1 arg2).

(** The filter of two pointers, that rpcgen repeats for each procedure. *)
Definition xdr_device_argument : xdrproc device_argument := fun xdrs objp =>
  '(xdrs, arg1) ← xdr_ptr_t xdrs (da_arg1 objp);
  '(xdrs, arg2) ← xdr_ptr_t xdrs (da_arg2 objp);
  Some (xdrs, mkDeviceArgument arg1 arg2).
Definition xdr_driver_get_device_minor_1_argument : xdrproc driver_get_device_minor_1_argument := xdr_device_argument.
Definition xdr_driver_get_device_busid_1_argument : xdrproc driver_get_device_busid_1_argument := xdr_device_argument.
Definition xdr_driver_get_device_uuid_1_argument : xdrproc driver_get_device_uuid_1_argument := xdr_device_argument.
Definition xdr_driver_get_device_arch_1_argument : xdrproc driver_get_device_arch_1_argument := xdr_device_argument.
Definition xdr_driver_get_device_model_1_argument : xdrproc driver_get_device_model_1_argument := xdr_device_argument.
Definition xdr_driver_get_device_brand_1_argument : xdrproc driver_get_device_brand_1_argument := xdr_device_argument.
Definition xdr_driver_get_device_mig_mode_1_argument : xdrproc driver_get_device_mig_mode_1_argument := xdr_device_argument.
Definition xdr_driver_get_device_max_mig_device_count_1_argument : xdrproc driver_get_device_max_mig_device_count_1_argument := xdr_device_argument.
Definition xdr_driver_get_device_gpu_instance_id_1_argument : xdrproc driver_get_device_gpu_instance_id_1_argument := xdr_device_argument.
Definition xdr_driver_get_device_compute_instance_id_1_argument : xdrproc driver_get_device_compute_instance_id_1_argument := xdr_device_argument.

Definition xdr_driver_get_device_mig_device_1_argument : xdrproc driver_get_device_mig_device_1_argument := fun xdrs objp =>
  '(xdrs, arg1) ← xdr_ptr_t xdrs (ma_arg1 objp);
  '(xdrs, arg2) ← xdr_ptr_t xdrs (ma_arg2 objp);
  '(xdrs, arg3) ← xdr_u_int xdrs (ma_arg3 objp);
  Some (xdrs, mkMigArgument arg1 arg2 arg3).

Definition xdr_nvcgo_init_res : xdrproc nvcgo_init_res := xdr_result no_arm.
Definition xdr_nvcgo_shutdown_res : xdrproc nvcgo_shutdown_res := xdr_result no_arm.
Definition xdr_nvcgo_get_device_cgroup_version_res : xdrproc nvcgo_get_device_cgroup_version_res := xdr_result xdr_u_int.
Definition xdr_nvcgo_find_device_cgroup_path_res : xdrproc nvcgo_find_device_cgroup_path_res := xdr_result (xdr_string UINT_MAX).
Definition xdr_nvcgo_setup_device_cgroup_res : xdrproc nvcgo_setup_device_cgroup_res := xdr_result no_arm.

Definition xdr_nvcgo_get_device_cgroup_version_1_argument : xdrproc nvcgo_get_device_cgroup_version_1_argument := fun xdrs objp =>
  '(xdrs, arg1) ← xdr_ptr_t xdrs (va_arg1 objp);
  '(xdrs, arg2) ← xdr_string UINT_MAX xdrs (va_arg2 objp);
  '(xdrs, arg3) ← xdr_int xdrs (va_arg3 objp);
  Some (xdrs, mkVersionArgument arg1 arg2 arg3).
Definition xdr_nvcgo_find_device_cgroup_path_1_argument : xdrproc nvcgo_find_device_cgroup_path_1_argument := fun xdrs objp =>
  '(xdrs, arg1) ← xdr_ptr_t xdrs (fa_arg1 objp);
  '(xdrs, arg2) ← xdr_int xdrs (fa_arg2 objp);
  '(xdrs, arg3) ← xdr_string UINT_MAX xdrs (fa_arg3 objp);
  '(xdrs, arg4) ← xdr_int xdrs (fa_arg4 objp);
  '(xdrs, arg5) ← xdr_int xdrs (fa_arg5 objp);
  Some (xdrs, mkFindArgument arg1 arg2 arg3 arg4 arg5).
Definition xdr_nvcgo_setup_device_cgroup_1_argument : xdrproc nvcgo_setup_device_cgroup_1_argument := fun xdrs objp =>
  '(xdrs, arg1) ← xdr_ptr_t xdrs (sa_arg1 objp);
  '(xdrs, arg2) ← xdr_int xdrs (sa_arg2 objp);
  '(xdrs, arg3) ← xdr_string UINT_MAX xdrs (sa_arg3 objp);
  '(xdrs, arg4) ← xdr_u_long xdrs (sa_arg4 objp);
  Some (xdrs, mkSetupArgument arg1 arg2 arg3 arg4).

(** ** What they carry *)

Definition typed_result {A} `{Zeroed A} (typed : A -> Prop) (r : result A) : Prop :=
  is_int (errcode r) /\
  if errcode r =? 0 then typed (arm r) /\ errmsg r = None else arm r = zeroed /\ is_string (errmsg r).
Definition typed_unit (_ : unit) : Prop := True.
Definition typed_cuda (v : driver_cuda_version) : Prop := is_u_int (cuda_major v) /\ is_u_int (cuda_minor v).
Definition typed_arch (v : driver_device_arch) : Prop := is_u_int (arch_major v) /\ is_u_int (arch_minor v).
Definition typed_mode (v : driver_device_mig_mode) : Prop :=
  is_int (mode_error v) /\ is_u_int (mode_current v) /\ is_u_int (mode_pending v).
Definition typed_index (a : driver_get_device_1_argument) : Prop := is_int64 (ia_arg1 a) /\ is_u_int (ia_arg2 a).
Definition typed_device (a : device_argument) : Prop := is_int64 (da_arg1 a) /\ is_int64 (da_arg2 a).
Definition typed_mig (a : driver_get_device_mig_device_1_argument) : Prop :=
  is_int64 (ma_arg1 a) /\ is_int64 (ma_arg2 a) /\ is_u_int (ma_arg3 a).
Definition typed_version (a : nvcgo_get_device_cgroup_version_1_argument) : Prop :=
  is_int64 (va_arg1 a) /\ is_string (va_arg2 a) /\ is_int (va_arg3 a).
Definition typed_find (a : nvcgo_find_device_cgroup_path_1_argument) : Prop :=
  is_int64 (fa_arg1 a) /\ is_int (fa_arg2 a) /\ is_string (fa_arg3 a) /\ is_int (fa_arg4 a) /\ is_int (fa_arg5 a).
Definition typed_setup (a : nvcgo_setup_device_cgroup_1_argument) : Prop :=
  is_int64 (sa_arg1 a) /\ is_int (sa_arg2 a) /\ is_string (sa_arg3 a) /\ is_u_long (sa_arg4 a).

Context `{laws : !XdrLaws lib}.

Lemma ptr_filter : Filter xdr_ptr_t is_int64.
Proof. exact int64_filter. Qed.
#[local] Existing Instance ptr_filter.

(** The fields of a structure are the concatenation of what they are alone. *)
Ltac filter_struct filter :=
  split;
  [ intros [] Ha; hnf in Ha; cbn in Ha; repeat match goal with H : _ /\ _ |- _ => destruct H end;
    repeat match goal with
    | H : is_int ?x |- _ => destruct (filter_represents (p := xdr_int) x H) as [? [? ?]]; clear H
    | H : is_u_int ?x |- _ => destruct (filter_represents (p := xdr_u_int) x H) as [? [? ?]]; clear H
    | H : is_u_long ?x |- _ => destruct (filter_represents (p := xdr_u_long) x H) as [? [? ?]]; clear H
    | H : is_int64 ?x |- _ => destruct (filter_represents (p := xdr_ptr_t) x H) as [? [? ?]]; clear H
    | H : is_string ?x |- _ => destruct (filter_represents (p := xdr_string UINT_MAX) x H) as [? [? ?]]; clear H
    end;
    cbv [zeroed zeroed_Z zeroed_string] in *;
    eexists; split;
    [ intros data; unfold filter; cbn;
      repeat match goal with H : forall d, _ = _ |- _ => rewrite H; cbn; clear H end; rewrite <- !app_assoc; reflexivity
    | intros rest; unfold filter; cbn; rewrite <- ?app_assoc;
      repeat match goal with H : forall d, _ = _ |- _ => rewrite H; cbn; clear H end; reflexivity ]
  | intros data []; unfold filter; cbn;
    repeat match goal with
    | |- context [mbind _ (?p (mkXDR XDR_FREE ?d) ?x)] =>
        let a := fresh "a" in let E := fresh "E" in
        destruct (filter_frees (p := p) d x) as [a E]; rewrite E; cbn
    end; eauto ].

Lemma cuda_filter : Filter xdr_driver_cuda_version typed_cuda.
Proof. filter_struct xdr_driver_cuda_version. Qed.

Lemma arch_filter : Filter xdr_driver_device_arch typed_arch.
Proof. filter_struct xdr_driver_device_arch. Qed.
Lemma mode_filter : Filter xdr_driver_device_mig_mode typed_mode.
Proof. filter_struct xdr_driver_device_mig_mode. Qed.
Lemma index_filter : Filter xdr_driver_get_device_1_argument typed_index.
Proof. filter_struct xdr_driver_get_device_1_argument. Qed.
Lemma device_filter : Filter xdr_device_argument typed_device.
Proof. filter_struct xdr_device_argument. Qed.
Lemma mig_filter : Filter xdr_driver_get_device_mig_device_1_argument typed_mig.
Proof. filter_struct xdr_driver_get_device_mig_device_1_argument. Qed.
Lemma version_filter : Filter xdr_nvcgo_get_device_cgroup_version_1_argument typed_version.
Proof. filter_struct xdr_nvcgo_get_device_cgroup_version_1_argument. Qed.
Lemma find_filter : Filter xdr_nvcgo_find_device_cgroup_path_1_argument typed_find.
Proof. filter_struct xdr_nvcgo_find_device_cgroup_path_1_argument. Qed.
Lemma setup_filter : Filter xdr_nvcgo_setup_device_cgroup_1_argument typed_setup.
Proof. filter_struct xdr_nvcgo_setup_device_cgroup_1_argument. Qed.

Lemma no_arm_filter : Filter no_arm typed_unit.
Proof.
  split; [|intros data a; by exists a]. intros [] _. exists []. by split; intros; rewrite ?app_nil_r.
Qed.

(** The filter of a result, from that of its arm. *)
Lemma result_filter {A} `{Zeroed A} (p : xdrproc A) typed :
  Filter p typed -> Filter (xdr_result p) (typed_result typed).
Proof.
  intros Hp. split.
  - intros [c a m] [Hc Ha]. cbn in *. destruct (filter_represents (p := xdr_int) c Hc) as [bc [Ec Dc]].
    destruct (Z.eqb_spec c 0) as [->|Hn].
    + destruct Ha as [Ha ->]. destruct (filter_represents a Ha) as [ba [Ea Da]]. exists (bc ++ ba).
      split; intros; unfold xdr_result; cbn; rewrite <- ?app_assoc, ?Ec, ?Dc; cbn; rewrite ?Ea, ?Da; cbn; by rewrite ?app_assoc.
    + destruct Ha as [-> Hm]. destruct (filter_represents (p := xdr_string UINT_MAX) m Hm) as [bm [Em Dm]]. exists (bc ++ bm).
      apply Z.eqb_neq in Hn.
      split; intros; unfold xdr_result; cbn; rewrite <- ?app_assoc, ?Ec, ?Dc; cbn; rewrite Hn, ?Em, ?Dm; cbn; by rewrite ?app_assoc.
  - intros data [c a m]. unfold xdr_result. cbn.
    destruct (filter_frees (p := xdr_int) data c) as [c' ->]. cbn. destruct (c' =? 0).
    + destruct (filter_frees data a) as [a' ->]. by eexists.
    + destruct (filter_frees (p := xdr_string UINT_MAX) data m) as [m' ->]. by eexists.
Qed.
End Filters.
#[export] Hint Resolve ptr_filter cuda_filter arch_filter mode_filter index_filter device_filter mig_filter version_filter
  find_filter setup_filter no_arm_filter result_filter : typeclass_instances.

(** ** The representation of RFC 4506

    A library with these laws: integers are big-endian, strings are counted and
    padded to a multiple of four bytes. *)
Module Rfc4506.

Fixpoint to_be (n : nat) (z : Z) : list Z :=
  match n with O => [] | S n' => to_be n' (z / 256) ++ [z mod 256] end.
Definition of_be (bytes : list Z) : Z := fold_left (fun z b => z * 256 + b) bytes 0.

(** The next [n] bytes and the rest. *)
Definition read (n : nat) (data : list Z) : option (list Z * list Z) :=
  if (n <=? length data)%nat then Some (take n data, drop n data) else None.

(** A number of [n] bytes; [interpret] is the value of the unsigned number. *)
Definition number (n : nat) (interpret : Z -> Z) : xdrproc Z := fun xdrs z =>
  match x_op xdrs with
  | XDR_ENCODE => Some (mkXDR XDR_ENCODE (x_data xdrs ++ to_be n z), z)
  | XDR_DECODE => '(bytes, rest) ← read n (x_data xdrs); Some (mkXDR XDR_DECODE rest, interpret (of_be bytes))
  | XDR_FREE => Some (xdrs, z)
  end.

Definition bytes_of (s : string) : list Z := (fun c => Z.of_N (N_of_ascii c)) <$> String.list_ascii_of_string s.
Definition string_of (bytes : list Z) : string :=
  String.string_of_list_ascii ((fun z => ascii_of_N (Z.to_N z)) <$> bytes).
Definition padding (n : Z) : nat := Z.to_nat ((- n) mod 4).

Definition text (maxsize : Z) : xdrproc (option string) := fun xdrs s =>
  match x_op xdrs with
  | XDR_ENCODE =>
      s' ← s;
      if maxsize <? strlen s' then None
      else Some (mkXDR XDR_ENCODE (x_data xdrs ++ to_be 4 (strlen s') ++ bytes_of s' ++ repeat 0 (padding (strlen s'))), s)
  | XDR_DECODE =>
      '(size, rest) ← read 4 (x_data xdrs);
      let size := of_be size in
      if maxsize <? size then None
      else
        '(bytes, rest) ← read (Z.to_nat size) rest;
        '(_, rest) ← read (padding size) rest;
        Some (mkXDR XDR_DECODE rest, Some (string_of bytes))
  | XDR_FREE => Some (xdrs, None)
  end.

#[export] Instance lib : XdrLib := {|
  xdr_int := number 4 to_int32; xdr_u_int := number 4 to_uint32; xdr_int64_t := number 8 to_int64;
  xdr_u_long := number 4 to_uint32; xdr_string := text
|}.

Lemma to_be_length n z : length (to_be n z) = n.
Proof. revert z. induction n as [|n IH]; intros z; simpl; [done|]. rewrite length_app, IH. simpl. lia. Qed.

Lemma of_be_to_be n z : of_be (to_be n z) = z mod 2 ^ (8 * Z.of_nat n).
Proof.
  revert z. induction n as [|n IH]; intros z; simpl; [by rewrite Z.mod_1_r|].
  unfold of_be in *. rewrite fold_left_app, IH. simpl.
  replace (8 * Z.of_nat (S n)) with (8 + 8 * Z.of_nat n) by lia. rewrite Z.pow_add_r by lia. change (2 ^ 8) with 256.
  rewrite Z.rem_mul_r by lia. lia.
Qed.

#[local] Arguments to_be : simpl never.
#[local] Arguments of_be : simpl never.
#[local] Arguments read : simpl never.

Lemma read_app n bytes rest : length bytes = n -> read n (bytes ++ rest) = Some (bytes, rest).
Proof.
  intros <-. unfold read. rewrite length_app.
  destruct (Nat.leb_spec (length bytes) (length bytes + length rest)) as [_|]; [|lia]. by rewrite take_app_length, drop_app_length.
Qed.

Lemma number_filter n interpret typed :
  (forall z, typed z -> interpret (z mod 2 ^ (8 * Z.of_nat n)) = z) -> Filter (number n interpret) typed.
Proof.
  intros Hi. split; [|by eexists]. intros z Hz. exists (to_be n z). split; intros; unfold number; cbn; [done|].
  rewrite read_app by apply to_be_length. cbn. rewrite of_be_to_be, Hi by done. done.
Qed.

(** A signed number is the residue it is sent as. *)
Lemma sint_wrap_mod w z : 0 < w -> - 2 ^ (w - 1) <= z < 2 ^ (w - 1) -> sint_wrap w (z mod 2 ^ w) = z.
Proof.
  intros Hw Hz. rewrite <- (sint_wrap_id w z) at 2 by done. unfold sint_wrap. by rewrite Z.add_mod_idemp_l by lia.
Qed.

Lemma string_of_bytes s : string_of (bytes_of s) = s.
Proof.
  unfold string_of, bytes_of. rewrite <- list_fmap_compose.
  rewrite (list_fmap_ext _ id) by (intros i c _; cbn; by rewrite N2Z.id, ascii_N_embedding).
  rewrite list_fmap_id. apply String.string_of_list_ascii_of_string.
Qed.

Lemma bytes_of_length s : length (bytes_of s) = Z.to_nat (strlen s).
Proof. unfold bytes_of, strlen. rewrite length_fmap, Nat2Z.id. induction s; simpl; congruence. Qed.

Lemma text_filter : Filter (text UINT_MAX) is_string.
Proof.
  split; [|by eexists]. intros [s|] Hs; [|by destruct Hs]. destruct Hs as [_ Hs].
  assert ((UINT_MAX <? strlen s) = false) as E by (by apply Z.ltb_ge).
  exists (to_be 4 (strlen s) ++ bytes_of s ++ repeat 0 (padding (strlen s))).
  split; intros; unfold text; cbn; rewrite ?E; [done|].
  rewrite <- !app_assoc, read_app by apply to_be_length. cbn. rewrite of_be_to_be.
  rewrite Z.mod_small by (unfold strlen, UINT_MAX in *; lia). rewrite E, read_app by apply bytes_of_length. cbn.
  rewrite read_app by apply repeat_length. cbn. by rewrite string_of_bytes.
Qed.

#[export] Instance laws : XdrLaws lib.
Proof.
  split; [apply number_filter..|exact text_filter|done]; intros z Hz.
  - by apply (sint_wrap_mod 32).
  - unfold to_uint32, is_u_int in *. by rewrite Z.mod_mod, Z.mod_small by (simpl; lia).
  - by apply (sint_wrap_mod 64).
  - unfold to_uint32, is_u_long in *. by rewrite Z.mod_mod, Z.mod_small by (simpl; lia).
Qed.
End Rfc4506.
