(* ===== verification/Stubs.v ===== *)
(** * The stubs of the remote procedures

    The functions that [rpcgen] makes of [src/src/nvc_rpc.x]: the stubs of the
    client ([nvc_clt.c]) and the dispatchers of the services ([nvc_svc.c]), with the
    [call_rpc] of [rpc.h] around the former and the procedures of [Driver], [Rpc]
    and [Cgroup] behind the latter.  The transport is the RPC library's, an argument
    ([RpcLib]) known by its documented behaviour ([RpcLaws]).  [remote_transparent]
    says that [Driver.call_rpc], which runs a procedure in place, is what the two
    stubs do together. *)
From S2P Require Import Prelude CString Effects Logic Errors Utils Types Paths Files Xdr Driver Cgroup Rpc.

(** ** Numbers of the procedures *)

Definition DRIVER_INIT : Z := 1.
Definition DRIVER_SHUTDOWN : Z := 2.
Definition DRIVER_GET_RM_VERSION : Z := 3.
Definition DRIVER_GET_CUDA_VERSION : Z := 4.
Definition DRIVER_GET_DEVICE_COUNT : Z := 5.
Definition DRIVER_GET_DEVICE : Z := 6.
Definition DRIVER_GET_DEVICE_MINOR : Z := 7.
Definition DRIVER_GET_DEVICE_BUSID : Z := 8.
Definition DRIVER_GET_DEVICE_UUID : Z := 9.
Definition DRIVER_GET_DEVICE_ARCH : Z := 10.
Definition DRIVER_GET_DEVICE_MODEL : Z := 11.
Definition DRIVER_GET_DEVICE_BRAND : Z := 12.
Definition DRIVER_GET_DEVICE_MIG_MODE : Z := 13.
Definition DRIVER_GET_DEVICE_MAX_MIG_DEVICE_COUNT : Z := 14.
Definition DRIVER_GET_DEVICE_MIG_DEVICE : Z := 15.
Definition DRIVER_GET_DEVICE_GPU_INSTANCE_ID : Z := 16.
Definition DRIVER_GET_DEVICE_COMPUTE_INSTANCE_ID : Z := 17.
Definition NVCGO_INIT : Z := 1.
Definition NVCGO_SHUTDOWN : Z := 2.
Definition NVCGO_GET_DEVICE_CGROUP_VERSION : Z := 3.
Definition NVCGO_FIND_DEVICE_CGROUP_PATH : Z := 4.
Definition NVCGO_SETUP_DEVICE_CGROUP : Z := 5.

(** ** The RPC library *)

Definition RPC_TIMEDOUT : Z := 5.
Definition NULLPROC : Z := 0.

(** What a service sends back: the bytes of a result, an error, or nothing. *)
Inductive reply := Replied (data : list Z) | ProcUnavail | GarbageArgs | SystemErr | NoReply.

(** A client: the name of its program, and the service at the other end, which
    answers the number of a procedure and the bytes of its argument. *)
Record CLIENT := mkClient { cl_name : string; cl_serve : Z -> list Z -> M reply }.

(** The status of a call with its text, or the result ([RPC_SUCCESS]). *)
Abbreviation clnt_stat R := (sum (Z * string) R).

Class RpcLib := {
  svc_getargs {A} (data : list Z) (xdr_args : xdrproc A) (args : A) : option A;
  svc_sendreply {A} (xdr_res : xdrproc A) (res : A) : option (list Z);
  svc_freeargs {A} (xdr_args : xdrproc A) (args : A) : bool;
  clnt_sperrno : Z -> string;
  clnt_call {A R} (clnt : CLIENT) (proc : Z) (xdr_args : xdrproc A) (args : A) (xdr_res : xdrproc R) (res : R)
    (timeout : Z * Z) : M (clnt_stat R)
}.

(** The arguments are encoded and sent, which may fail ([ERpc]), the service runs,
    its reply may be lost ([ERpcReply]), and the result is decoded into [res]. *)
Definition remote_call (sperrno : Z -> string) {A R} (clnt : CLIENT) (proc : Z) (xdr_args : xdrproc A) (args : A)
    (xdr_res : xdrproc R) (res : R) : M (clnt_stat R) :=
  let failed code := ret (inl (code, sperrno code)) in
  match xdr_args (mkXDR XDR_ENCODE []) args with
  | None => failed RPC_CANTENCODEARGS
  | Some (xdrs, _) =>
      let* status := call (ERpc (cl_name clnt)) in
      match status with
      | Some status => ret (inl status)
      | None =>
          let* r := cl_serve clnt proc (x_data xdrs) in
          let* received := call (ERpcReply (cl_name clnt)) in
          match received, r with
          | Some status, _ => ret (inl status)
          | None, Replied data =>
              match xdr_res (mkXDR XDR_DECODE data) res with
              | Some (_, res) => ret (inr res)
              | None => failed RPC_CANTDECODERES
              end
          | None, ProcUnavail => failed RPC_PROCUNAVAIL
          | None, GarbageArgs => failed RPC_CANTDECODEARGS
          | None, SystemErr => failed RPC_SYSTEMERROR
          | None, NoReply => failed RPC_TIMEDOUT
          end
      end
  end.

Class RpcLaws (lib : RpcLib) : Prop := {
  getargs_law {A} data (p : xdrproc A) a : svc_getargs data p a = snd <$> p (mkXDR XDR_DECODE data) a;
  sendreply_law {A} (p : xdrproc A) a : svc_sendreply p a = (fun q => x_data (fst q)) <$> p (mkXDR XDR_ENCODE []) a;
  freeargs_law {A} (p : xdrproc A) a : is_Some (p (mkXDR XDR_FREE []) a) -> svc_freeargs p a = true;
  sperrno_law : clnt_sperrno RPC_SYSTEMERROR = "RPC: Remote system error";
  call_law {A R} clnt proc (xa : xdrproc A) a (xr : xdrproc R) r timeout s :
    clnt_call clnt proc xa a xr r timeout s = remote_call clnt_sperrno clnt proc xa a xr r s
}.

(** ** The memory of the service

    The service is a fork of the client: a pointer to the context or to a slot of
    the table of handles, sent as a number, is one to its own copy. *)
Class Memory := {
  driver_at : ptr_t -> driver;
  handle_at : ptr_t -> handle;
  ptr_of : handle -> ptr_t
}.
Definition in_table (h : handle) : Prop :=
  match h with
  | HDev i => 0 <= i < MAX_DEVICES
  | HMig i j => 0 <= i < MAX_DEVICES /\ 0 <= j < MAX_MIG_DEVICES
  end.
Class MemoryLaws (mem : Memory) : Prop := {
  handle_law h : in_table h -> handle_at (ptr_of h) = h;
  ptr_law h : in_table h -> is_int64 (ptr_of h)
}.

Section Stubs.
Context `{xdrlib : XdrLib} `{rpclib : RpcLib} `{mem : Memory}.

Definition ptr_of_handle (h : option handle) : ptr_t := match h with Some h => ptr_of h | None => 0 end.

(** What a procedure leaves in a zeroed result. *)
Definition in_result {A B} `{Zeroed B} (f : A -> B) (r : xres A) : result B :=
  match r with
  | XOk a => mkResult 0 (f a) None
  | XErr code m => mkResult code zeroed m
  end.
Definition cuda_of (v : Z * Z) : driver_cuda_version := mkCuda (fst v) (snd v).
Definition arch_of (v : Z * Z) : driver_device_arch := mkArch (fst v) (snd v).
Definition mode_of (v : Z * (Z * Z)) : driver_device_mig_mode := mkMigMode (fst v) (fst (snd v)) (snd (snd v)).

(** A [char *] that the procedure uses. *)
Definition char_ptr (s : option string) : M string :=
  match s with Some s => ret s | None => halt (Undefined "NULL string") end.

(** ** The functions of the dispatcher ([nvc_svc.c]) *)

Definition _driver_init_1 (argp : ptr_t) : M (bool * driver_init_res) :=
  let* r := driver_init_1_svc (driver_at argp) in ret (true, in_result id r).
Definition _driver_shutdown_1 (argp : ptr_t) : M (bool * driver_shutdown_res) :=
  let* r := driver_shutdown_1_svc in ret (true, in_result id r).
Definition _driver_get_rm_version_1 (argp : ptr_t) : M (bool * driver_get_rm_version_res) :=
  let* r := driver_get_rm_version_1_svc in ret (true, in_result id r).
Definition _driver_get_cuda_version_1 (argp : ptr_t) : M (bool * driver_get_cuda_version_res) :=
  let* r := driver_get_cuda_version_1_svc in ret (true, in_result cuda_of r).
Definition _driver_get_device_count_1 (argp : ptr_t) : M (bool * driver_get_device_count_res) :=
  let* r := driver_get_device_count_1_svc in ret (true, in_result id r).
Definition _driver_get_device_1 (argp : driver_get_device_1_argument) : M (bool * driver_get_device_res) :=
  let* r := driver_get_device_1_svc (ia_arg2 argp) in ret (true, in_result ptr_of_handle r).
Definition _driver_get_device_minor_1 (argp : driver_get_device_minor_1_argument)
  : M (bool * driver_get_device_minor_res) :=
  let* r := driver_get_device_minor_1_svc (handle_at (da_arg2 argp)) in ret (true, in_result id r).
Definition _driver_get_device_busid_1 (argp : driver_get_device_busid_1_argument)
  : M (bool * driver_get_device_busid_res) :=
  let* r := driver_get_device_busid_1_svc (handle_at (da_arg2 argp)) in ret (true, in_result id r).
Definition _driver_get_device_uuid_1 (argp : driver_get_device_uuid_1_argument)
  : M (bool * driver_get_device_uuid_res) :=
  let* r := driver_get_device_uuid_1_svc (handle_at (da_arg2 argp)) in ret (true, in_result id r).
Definition _driver_get_device_arch_1 (argp : driver_get_device_arch_1_argument)
  : M (bool * driver_get_device_arch_res) :=
  let* r := driver_get_device_arch_1_svc (handle_at (da_arg2 argp)) in ret (true, in_result arch_of r).
Definition _driver_get_device_model_1 (argp : driver_get_device_model_1_argument)
  : M (bool * driver_get_device_model_res) :=
  let* r := driver_get_device_model_1_svc (handle_at (da_arg2 argp)) in ret (true, in_result id r).
Definition _driver_get_device_brand_1 (argp : driver_get_device_brand_1_argument)
  : M (bool * driver_get_device_brand_res) :=
  let* r := driver_get_device_brand_1_svc (handle_at (da_arg2 argp)) in ret (true, in_result id r).
Definition _driver_get_device_mig_mode_1 (argp : driver_get_device_mig_mode_1_argument)
  : M (bool * driver_get_device_mig_mode_res) :=
  let* r := driver_get_device_mig_mode_1_svc (handle_at (da_arg2 argp)) in ret (true, in_result mode_of r).
Definition _driver_get_device_max_mig_device_count_1 (argp : driver_get_device_max_mig_device_count_1_argument)
  : M (bool * driver_get_device_max_mig_device_count_res) :=
  let* r := driver_get_device_max_mig_device_count_1_svc (handle_at (da_arg2 argp)) in ret (true, in_result id r).
Definition _driver_get_device_mig_device_1 (argp : driver_get_device_mig_device_1_argument)
  : M (bool * driver_get_device_mig_device_res) :=
  let* r := driver_get_device_mig_device_1_svc (handle_at (ma_arg2 argp)) (ma_arg3 argp) in ret (true,
    in_result ptr_of_handle r).
Definition _driver_get_device_gpu_instance_id_1 (argp : driver_get_device_gpu_instance_id_1_argument)
  : M (bool * driver_get_device_gpu_instance_id_res) :=
  let* r := driver_get_device_gpu_instance_id_1_svc (handle_at (da_arg2 argp)) in ret (true, in_result id r).
Definition _driver_get_device_compute_instance_id_1 (argp : driver_get_device_compute_instance_id_1_argument)
  : M (bool * driver_get_device_compute_instance_id_res) :=
  let* r := driver_get_device_compute_instance_id_1_svc (handle_at (da_arg2 argp)) in ret (true, in_result id r).
Definition _nvcgo_init_1 (argp : ptr_t) : M (bool * nvcgo_init_res) :=
  let* r := nvcgo_init_1_svc in ret (true, in_result id r).
Definition _nvcgo_shutdown_1 (argp : ptr_t) : M (bool * nvcgo_shutdown_res) :=
  let* r := nvcgo_shutdown_1_svc in ret (true, in_result id r).
Definition _nvcgo_get_device_cgroup_version_1 (argp : nvcgo_get_device_cgroup_version_1_argument)
  : M (bool * nvcgo_get_device_cgroup_version_res) :=
  let* root := char_ptr (va_arg2 argp) in
  let* r := Nvcgo.nvcgo_get_device_cgroup_version_1_svc root (va_arg3 argp) in ret (true, in_result id r).
Definition _nvcgo_find_device_cgroup_path_1 (argp : nvcgo_find_device_cgroup_path_1_argument)
  : M (bool * nvcgo_find_device_cgroup_path_res) :=
  let* root := char_ptr (fa_arg3 argp) in
  let* r := Nvcgo.nvcgo_find_device_cgroup_path_1_svc (fa_arg2 argp) root (fa_arg4 argp) (fa_arg5 argp) in
  ret (true, in_result id r).
Definition _nvcgo_setup_device_cgroup_1 (argp : nvcgo_setup_device_cgroup_1_argument)
  : M (bool * nvcgo_setup_device_cgroup_res) :=
  let* dev_cg := char_ptr (sa_arg3 argp) in
  let* r := Nvcgo.nvcgo_setup_device_cgroup_1_svc (sa_arg2 argp) dev_cg (sa_arg4 argp) in ret (true, in_result
    id r).

(** The three variables that the [switch] of a dispatcher sets, with the values
    that the types of [nvc_rpc.x] allow. *)
Record procedure := Procedure {
  p_arg : Type; p_res : Type;
  p_arg_zero : Zeroed p_arg; p_res_zero : Zeroed p_res;
  _xdr_argument : xdrproc p_arg; _xdr_result : xdrproc (result p_res);
  local : p_arg -> M (bool * result p_res);
  p_arg_typed : p_arg -> Prop; p_res_typed : p_res -> Prop
}.
#[export] Existing Instances p_arg_zero p_res_zero.

Definition driver_procedure (rq_proc : Z) : option procedure :=
  if rq_proc =? DRIVER_INIT then
    Some (Procedure _ _ _ _ xdr_ptr_t xdr_driver_init_res _driver_init_1 is_int64 typed_unit)
  else if rq_proc =? DRIVER_SHUTDOWN then
    Some (Procedure _ _ _ _ xdr_ptr_t xdr_driver_shutdown_res _driver_shutdown_1 is_int64 typed_unit)
  else if rq_proc =? DRIVER_GET_RM_VERSION then
    Some (Procedure _ _ _ _ xdr_ptr_t xdr_driver_get_rm_version_res _driver_get_rm_version_1 is_int64 is_string)
  else if rq_proc =? DRIVER_GET_CUDA_VERSION then
    Some (Procedure _ _ _ _ xdr_ptr_t xdr_driver_get_cuda_version_res _driver_get_cuda_version_1 is_int64
      typed_cuda)
  else if rq_proc =? DRIVER_GET_DEVICE_COUNT then
    Some (Procedure _ _ _ _ xdr_ptr_t xdr_driver_get_device_count_res _driver_get_device_count_1 is_int64 is_u_int)
  else if rq_proc =? DRIVER_GET_DEVICE then
    Some (Procedure _ _ _ _ xdr_driver_get_device_1_argument xdr_driver_get_device_res _driver_get_device_1
      typed_index is_int64)
  else if rq_proc =? DRIVER_GET_DEVICE_MINOR then
    Some (Procedure _ _ _ _ xdr_driver_get_device_minor_1_argument xdr_driver_get_device_minor_res
      _driver_get_device_minor_1 typed_device is_u_int)
  else if rq_proc =? DRIVER_GET_DEVICE_BUSID then
    Some (Procedure _ _ _ _ xdr_driver_get_device_busid_1_argument xdr_driver_get_device_busid_res
      _driver_get_device_busid_1 typed_device is_string)
  else if rq_proc =? DRIVER_GET_DEVICE_UUID then
    Some (Procedure _ _ _ _ xdr_driver_get_device_uuid_1_argument xdr_driver_get_device_uuid_res
      _driver_get_device_uuid_1 typed_device is_string)
  else if rq_proc =? DRIVER_GET_DEVICE_ARCH then
    Some (Procedure _ _ _ _ xdr_driver_get_device_arch_1_argument xdr_driver_get_device_arch_res
      _driver_get_device_arch_1 typed_device typed_arch)
  else if rq_proc =? DRIVER_GET_DEVICE_MODEL then
    Some (Procedure _ _ _ _ xdr_driver_get_device_model_1_argument xdr_driver_get_device_model_res
      _driver_get_device_model_1 typed_device is_string)
  else if rq_proc =? DRIVER_GET_DEVICE_BRAND then
    Some (Procedure _ _ _ _ xdr_driver_get_device_brand_1_argument xdr_driver_get_device_brand_res
      _driver_get_device_brand_1 typed_device is_string)
  else if rq_proc =? DRIVER_GET_DEVICE_MIG_MODE then
    Some (Procedure _ _ _ _ xdr_driver_get_device_mig_mode_1_argument xdr_driver_get_device_mig_mode_res
      _driver_get_device_mig_mode_1 typed_device typed_mode)
  else if rq_proc =? DRIVER_GET_DEVICE_MAX_MIG_DEVICE_COUNT then
    Some (Procedure _ _ _ _ xdr_driver_get_device_max_mig_device_count_1_argument
      xdr_driver_get_device_max_mig_device_count_res _driver_get_device_max_mig_device_count_1 typed_device is_u_int)
  else if rq_proc =? DRIVER_GET_DEVICE_MIG_DEVICE then
    Some (Procedure _ _ _ _ xdr_driver_get_device_mig_device_1_argument xdr_driver_get_device_mig_device_res
      _driver_get_device_mig_device_1 typed_mig is_int64)
  else if rq_proc =? DRIVER_GET_DEVICE_GPU_INSTANCE_ID then
    Some (Procedure _ _ _ _ xdr_driver_get_device_gpu_instance_id_1_argument
      xdr_driver_get_device_gpu_instance_id_res _driver_get_device_gpu_instance_id_1 typed_device is_u_int)
  else if rq_proc =? DRIVER_GET_DEVICE_COMPUTE_INSTANCE_ID then
    Some (Procedure _ _ _ _ xdr_driver_get_device_compute_instance_id_1_argument
      xdr_driver_get_device_compute_instance_id_res _driver_get_device_compute_instance_id_1 typed_device is_u_int)
  else None.

Definition nvcgo_procedure (rq_proc : Z) : option procedure :=
  if rq_proc =? NVCGO_INIT then
    Some (Procedure _ _ _ _ xdr_ptr_t xdr_nvcgo_init_res _nvcgo_init_1 is_int64 typed_unit)
  else if rq_proc =? NVCGO_SHUTDOWN then
    Some (Procedure _ _ _ _ xdr_ptr_t xdr_nvcgo_shutdown_res _nvcgo_shutdown_1 is_int64 typed_unit)
  else if rq_proc =? NVCGO_GET_DEVICE_CGROUP_VERSION then
    Some (Procedure _ _ _ _ xdr_nvcgo_get_device_cgroup_version_1_argument
      xdr_nvcgo_get_device_cgroup_version_res _nvcgo_get_device_cgroup_version_1 typed_version is_u_int)
  else if rq_proc =? NVCGO_FIND_DEVICE_CGROUP_PATH then
    Some (Procedure _ _ _ _ xdr_nvcgo_find_device_cgroup_path_1_argument xdr_nvcgo_find_device_cgroup_path_res
      _nvcgo_find_device_cgroup_path_1 typed_find is_string)
  else if rq_proc =? NVCGO_SETUP_DEVICE_CGROUP then
    Some (Procedure _ _ _ _ xdr_nvcgo_setup_device_cgroup_1_argument xdr_nvcgo_setup_device_cgroup_res
      _nvcgo_setup_device_cgroup_1 typed_setup typed_unit)
  else None.

(** What both dispatchers do after their [switch]. *)
Definition serve (p : procedure) (data : list Z) : M reply :=
  match svc_getargs data (_xdr_argument p) zeroed with
  | None => ret GarbageArgs
  | Some argument =>
      let* r := local p argument in
      let sent :=
        if fst r then
          match svc_sendreply (_xdr_result p) (snd r) with Some data => Replied data | None => SystemErr end
        else NoReply in
      if svc_freeargs (_xdr_argument p) argument then ret sent
      else do call (EWarn "unable to free arguments") in halt (Exited 1)
  end.

Definition dispatch (procedure_of : Z -> option procedure) (rq_proc : Z) (data : list Z) : M reply :=
  if rq_proc =? NULLPROC then ret (Replied [])
  else match procedure_of rq_proc with
       | None => ret ProcUnavail
       | Some p => serve p data
       end.
Definition driver_program_1 : Z -> list Z -> M reply := dispatch driver_procedure.
Definition nvcgo_program_1 : Z -> list Z -> M reply := dispatch nvcgo_procedure.

(** [driver_program_1_freeresult] and [nvcgo_program_1_freeresult] only free. *)

(** ** The stubs of the client ([nvc_clt.c]) *)

Definition TIMEOUT : Z * Z := (25, 0).

Definition driver_init_1 (arg1 : ptr_t) (clnt_res : driver_init_res) (clnt : CLIENT)
  : M (clnt_stat driver_init_res) :=
  clnt_call clnt DRIVER_INIT xdr_ptr_t arg1 xdr_driver_init_res clnt_res TIMEOUT.
Definition driver_shutdown_1 (arg1 : ptr_t) (clnt_res : driver_shutdown_res) (clnt : CLIENT)
  : M (clnt_stat driver_shutdown_res) :=
  clnt_call clnt DRIVER_SHUTDOWN xdr_ptr_t arg1 xdr_driver_shutdown_res clnt_res TIMEOUT.
Definition driver_get_rm_version_1 (arg1 : ptr_t) (clnt_res : driver_get_rm_version_res) (clnt : CLIENT)
  : M (clnt_stat driver_get_rm_version_res) :=
  clnt_call clnt DRIVER_GET_RM_VERSION xdr_ptr_t arg1 xdr_driver_get_rm_version_res clnt_res TIMEOUT.
Definition driver_get_cuda_version_1 (arg1 : ptr_t) (clnt_res : driver_get_cuda_version_res) (clnt : CLIENT)
  : M (clnt_stat driver_get_cuda_version_res) :=
  clnt_call clnt DRIVER_GET_CUDA_VERSION xdr_ptr_t arg1 xdr_driver_get_cuda_version_res clnt_res TIMEOUT.
Definition driver_get_device_count_1 (arg1 : ptr_t) (clnt_res : driver_get_device_count_res) (clnt : CLIENT)
  : M (clnt_stat driver_get_device_count_res) :=
  clnt_call clnt DRIVER_GET_DEVICE_COUNT xdr_ptr_t arg1 xdr_driver_get_device_count_res clnt_res TIMEOUT.
Definition driver_get_device_1 (arg1 : ptr_t) (arg2 : Z) (clnt_res : driver_get_device_res) (clnt : CLIENT)
  : M (clnt_stat driver_get_device_res) :=
  clnt_call clnt DRIVER_GET_DEVICE xdr_driver_get_device_1_argument (mkIndexArgument arg1 arg2)
    xdr_driver_get_device_res clnt_res TIMEOUT.
Definition driver_get_device_minor_1 (arg1 arg2 : ptr_t) (clnt_res : driver_get_device_minor_res) (clnt : CLIENT)
  : M (clnt_stat driver_get_device_minor_res) :=
  clnt_call clnt DRIVER_GET_DEVICE_MINOR xdr_driver_get_device_minor_1_argument (mkDeviceArgument arg1 arg2)
    xdr_driver_get_device_minor_res clnt_res TIMEOUT.
Definition driver_get_device_busid_1 (arg1 arg2 : ptr_t) (clnt_res : driver_get_device_busid_res) (clnt : CLIENT)
  : M (clnt_stat driver_get_device_busid_res) :=
  clnt_call clnt DRIVER_GET_DEVICE_BUSID xdr_driver_get_device_busid_1_argument (mkDeviceArgument arg1 arg2)
    xdr_driver_get_device_busid_res clnt_res TIMEOUT.
Definition driver_get_device_uuid_1 (arg1 arg2 : ptr_t) (clnt_res : driver_get_device_uuid_res) (clnt : CLIENT)
  : M (clnt_stat driver_get_device_uuid_res) :=
  clnt_call clnt DRIVER_GET_DEVICE_UUID xdr_driver_get_device_uuid_1_argument (mkDeviceArgument arg1 arg2)
    xdr_driver_get_device_uuid_res clnt_res TIMEOUT.
Definition driver_get_device_arch_1 (arg1 arg2 : ptr_t) (clnt_res : driver_get_device_arch_res) (clnt : CLIENT)
  : M (clnt_stat driver_get_device_arch_res) :=
  clnt_call clnt DRIVER_GET_DEVICE_ARCH xdr_driver_get_device_arch_1_argument (mkDeviceArgument arg1 arg2)
    xdr_driver_get_device_arch_res clnt_res TIMEOUT.
Definition driver_get_device_model_1 (arg1 arg2 : ptr_t) (clnt_res : driver_get_device_model_res) (clnt : CLIENT)
  : M (clnt_stat driver_get_device_model_res) :=
  clnt_call clnt DRIVER_GET_DEVICE_MODEL xdr_driver_get_device_model_1_argument (mkDeviceArgument arg1 arg2)
    xdr_driver_get_device_model_res clnt_res TIMEOUT.
Definition driver_get_device_brand_1 (arg1 arg2 : ptr_t) (clnt_res : driver_get_device_brand_res) (clnt : CLIENT)
  : M (clnt_stat driver_get_device_brand_res) :=
  clnt_call clnt DRIVER_GET_DEVICE_BRAND xdr_driver_get_device_brand_1_argument (mkDeviceArgument arg1 arg2)
    xdr_driver_get_device_brand_res clnt_res TIMEOUT.
Definition driver_get_device_mig_mode_1 (arg1 arg2 : ptr_t)
    (clnt_res : driver_get_device_mig_mode_res) (clnt : CLIENT) : M (clnt_stat driver_get_device_mig_mode_res) :=
  clnt_call clnt DRIVER_GET_DEVICE_MIG_MODE xdr_driver_get_device_mig_mode_1_argument (mkDeviceArgument arg1
    arg2) xdr_driver_get_device_mig_mode_res clnt_res TIMEOUT.
Definition driver_get_device_max_mig_device_count_1 (arg1 arg2 : ptr_t)
    (clnt_res : driver_get_device_max_mig_device_count_res) (clnt : CLIENT) : M (clnt_stat driver_get_device_max_mig_device_count_res) :=
  clnt_call clnt DRIVER_GET_DEVICE_MAX_MIG_DEVICE_COUNT xdr_driver_get_device_max_mig_device_count_1_argument
    (mkDeviceArgument arg1 arg2) xdr_driver_get_device_max_mig_device_count_res clnt_res TIMEOUT.
Definition driver_get_device_mig_device_1 (arg1 arg2 : ptr_t) (arg3 : Z)
    (clnt_res : driver_get_device_mig_device_res) (clnt : CLIENT) : M (clnt_stat driver_get_device_mig_device_res) :=
  clnt_call clnt DRIVER_GET_DEVICE_MIG_DEVICE xdr_driver_get_device_mig_device_1_argument (mkMigArgument arg1
    arg2 arg3) xdr_driver_get_device_mig_device_res clnt_res TIMEOUT.
Definition driver_get_device_gpu_instance_id_1 (arg1 arg2 : ptr_t)
    (clnt_res : driver_get_device_gpu_instance_id_res) (clnt : CLIENT) : M (clnt_stat driver_get_device_gpu_instance_id_res) :=
  clnt_call clnt DRIVER_GET_DEVICE_GPU_INSTANCE_ID xdr_driver_get_device_gpu_instance_id_1_argument
    (mkDeviceArgument arg1 arg2) xdr_driver_get_device_gpu_instance_id_res clnt_res TIMEOUT.
Definition driver_get_device_compute_instance_id_1 (arg1 arg2 : ptr_t)
    (clnt_res : driver_get_device_compute_instance_id_res) (clnt : CLIENT) : M (clnt_stat driver_get_device_compute_instance_id_res) :=
  clnt_call clnt DRIVER_GET_DEVICE_COMPUTE_INSTANCE_ID xdr_driver_get_device_compute_instance_id_1_argument
    (mkDeviceArgument arg1 arg2) xdr_driver_get_device_compute_instance_id_res clnt_res TIMEOUT.
Definition nvcgo_init_1 (arg1 : ptr_t) (clnt_res : nvcgo_init_res) (clnt : CLIENT) : M (clnt_stat nvcgo_init_res) :=
  clnt_call clnt NVCGO_INIT xdr_ptr_t arg1 xdr_nvcgo_init_res clnt_res TIMEOUT.
Definition nvcgo_shutdown_1 (arg1 : ptr_t) (clnt_res : nvcgo_shutdown_res) (clnt : CLIENT)
  : M (clnt_stat nvcgo_shutdown_res) :=
  clnt_call clnt NVCGO_SHUTDOWN xdr_ptr_t arg1 xdr_nvcgo_shutdown_res clnt_res TIMEOUT.
Definition nvcgo_get_device_cgroup_version_1 (arg1 : ptr_t) (arg2 : option string) (arg3 : Z)
    (clnt_res : nvcgo_get_device_cgroup_version_res) (clnt : CLIENT) : M (clnt_stat nvcgo_get_device_cgroup_version_res) :=
  clnt_call clnt NVCGO_GET_DEVICE_CGROUP_VERSION xdr_nvcgo_get_device_cgroup_version_1_argument
    (mkVersionArgument arg1 arg2 arg3) xdr_nvcgo_get_device_cgroup_version_res clnt_res TIMEOUT.
Definition nvcgo_find_device_cgroup_path_1 (arg1 : ptr_t) (arg2 : Z) (arg3 : option string) (arg4 arg5 : Z)
    (clnt_res : nvcgo_find_device_cgroup_path_res) (clnt : CLIENT) : M (clnt_stat nvcgo_find_device_cgroup_path_res) :=
  clnt_call clnt NVCGO_FIND_DEVICE_CGROUP_PATH xdr_nvcgo_find_device_cgroup_path_1_argument (mkFindArgument
    arg1 arg2 arg3 arg4 arg5) xdr_nvcgo_find_device_cgroup_path_res clnt_res TIMEOUT.
Definition nvcgo_setup_device_cgroup_1 (arg1 : ptr_t) (arg2 : Z) (arg3 : option string) (arg4 : Z)
    (clnt_res : nvcgo_setup_device_cgroup_res) (clnt : CLIENT) : M (clnt_stat nvcgo_setup_device_cgroup_res) :=
  clnt_call clnt NVCGO_SETUP_DEVICE_CGROUP xdr_nvcgo_setup_device_cgroup_1_argument (mkSetupArgument arg1 arg2
    arg3 arg4) xdr_nvcgo_setup_device_cgroup_res clnt_res TIMEOUT.

(** [call_rpc(err, ctx, res, func, ...)]; [stub] is [func] applied. *)
Definition call_stub {A} (name : string) (stub : M (clnt_stat (result A))) : M (option A) :=
  let* r := stub in
  match r with
  | inl (code, text) => do error_set_rpc code text (name +:+ " rpc error") in ret None
  | inr res =>
      if errcode res =? 0 then ret (Some (arm res))
      else match errmsg res with
           | Some m => do error_from_xdr (errcode res) m in ret None
           | None => halt (Undefined "strdup(NULL)")
           end
  end.

Definition driver_client : CLIENT := mkClient "driver" driver_program_1.
Definition nvcgo_client : CLIENT := mkClient "nvcgo" nvcgo_program_1.

(** ** What the two stubs do together *)

Context `{xlaws : !XdrLaws xdrlib} `{rlaws : !RpcLaws rpclib} `{mlaws : !MemoryLaws mem}.

(** The values that fit the types of a result. *)
Definition sendable {A B} `{Xdr A} (f : A -> B) (typed : B -> Prop) (r : xres A) : Prop :=
  match r with
  | XOk a => xdr_ok a = true -> typed (f a)
  | XErr code m => is_int code /\ code <> 0 /\ match m with Some _ => is_string m | None => True end
  end.

(** [p] refuses the values that the model says cannot be sent. *)
Definition refuses {A B} `{Xdr A} (f : A -> B) (p : xdrproc B) : Prop :=
  forall a data, xdr_ok a = false -> p (mkXDR XDR_ENCODE data) (f a) = None.

Lemma run_pbind {A B} (o : env) hist (p : prog A) (f : A -> prog B) :
  run o hist (pbind p f) =
    match run o hist p with
    | (t, Done a) => let '(t', out) := run o (hist ++ t) (f a) in (t ++ t', out)
    | (t, Halted w) => (t, Halted w)
    end.
Proof.
  revert hist. induction p as [a|w|e k IH]; intros hist; simpl.
  - rewrite app_nil_r. by destruct (run o hist (f a)).
  - done.
  - rewrite IH. destruct (run o (hist ++ [Event e (o hist e)]) (k (o hist e))) as [t [a|w]]; [|done].
    rewrite <- app_assoc. simpl. by destruct (run o _ (f a)).
Qed.

Lemma run_bind {A B} (o : env) hist (m : M A) (k : A -> M B) s :
  run o hist (bind m k s) =
    match run o hist (m s) with
    | (t, Done (s', a)) => let '(t', out) := run o (hist ++ t) (k a s') in (t ++ t', out)
    | (t, Halted w) => (t, Halted w)
    end.
Proof. unfold bind. rewrite run_pbind. by destruct (run o hist (m s)) as [t [[s' a]|w]]. Qed.

Lemma is_int_0 : is_int 0.
Proof. unfold is_int. lia. Qed.

Lemma run_bind_bind {A B C} (o : env) hist (m : M A) (k : A -> M B) (k' : B -> M C) s :
  run o hist (bind (bind m k) k' s) = run o hist (bind m (fun a => bind (k a) k') s).
Proof.
  rewrite !run_bind. destruct (run o hist (m s)) as [t [[s' a]|w]]; [|done]. rewrite run_bind.
  destruct (run o (hist ++ t) (k a s')) as [t' [[s'' b]|w]]; [|done]. rewrite <- app_assoc.
  destruct (run o _ (k' b s'')) as [t'' out]. by rewrite app_assoc.
Qed.

Lemma run_bind_ret {A B} (o : env) hist (a : A) (k : A -> M B) s :
  run o hist (bind (ret a) k s) = run o hist (k a s).
Proof. done. Qed.

Lemma run_bind_call {B} (o : env) hist e (k : resp e -> M B) s :
  run o hist (bind (call e) k s) =
    let r := o hist e in let '(t, out) := run o (hist ++ [Event e r]) (k r s) in (Event e r :: t, out).
Proof. done. Qed.

(** The bytes of a result that was made by a procedure. *)
Lemma sent_result {A B} `{Xdr A} `{Zeroed B} (f : A -> B) (p : xdrproc B) typed (r : xres A) :
  Filter p typed -> refuses f p -> sendable f typed r ->
  match svc_sendreply (xdr_result p) (in_result f r) with
  | Some data => xdr_result p (mkXDR XDR_DECODE data) zeroed = Some (mkXDR XDR_DECODE [], in_result f r) /\
                 match r with XOk a => xdr_ok a = true | XErr _ m => is_Some m end
  | None => match r with XOk a => xdr_ok a = false | XErr _ m => m = None end
  end.
Proof using xlaws rlaws.
  intros Hp Hn Hs. rewrite sendreply_law.
  assert (Filter (xdr_result p) (typed_result typed)) as Hf by (by apply result_filter).
  assert (typed_result typed (in_result f r) ->
    exists data, xdr_result p (mkXDR XDR_ENCODE []) (in_result f r) = Some (mkXDR XDR_ENCODE data, in_result f r) /\
      xdr_result p (mkXDR XDR_DECODE data) zeroed = Some (mkXDR XDR_DECODE [], in_result f r)) as Hr.
  { intros Ht. destruct (filter_represents _ Ht) as [data [He Hd]]. exists data.
    split; [by rewrite He|]. specialize (Hd []). by rewrite app_nil_r in Hd. }
  destruct r as [a|c m]; cbn in *.
  - destruct (xdr_ok a) eqn:E.
    + destruct Hr as [data [-> Hd]]; [split; [exact is_int_0|by split; [apply Hs|]]|]. by split.
    + unfold xdr_result. cbn. destruct (filter_represents (p := xdr_int) 0 is_int_0) as [b [-> _]]. cbn. by rewrite Hn.
  - destruct Hs as (Hc & Hz%Z.eqb_neq & Hm). destruct m as [m|].
    + destruct Hr as [data [-> Hd]]; [split; [done|]; cbn; by rewrite Hz|]. cbn. eauto.
    + unfold xdr_result. cbn. destruct (filter_represents (p := xdr_int) c Hc) as [b [-> _]]. cbn. by rewrite Hz, string_null.
Qed.

(** A call through both stubs is [call_rpc], when the values fit. *)
Lemma call_transparent {A B X} `{Xdr A} `{Zeroed B} `{Zeroed X} name server proc (f : A -> B)
    (xa : xdrproc X) arg targ (xr : xdrproc B) tres (loc : X -> M (bool * result B)) (svc : M (xres A)) (o : env) hist s :
  Filter xa targ -> targ arg -> Filter xr tres -> refuses f xr ->
  (forall data, server proc data = serve (Procedure X B _ _ xa (xdr_result xr) loc targ tres) data) ->
  loc arg = (let* r := svc in ret (true, in_result f r)) ->
  match run o (hist ++ [Event (ERpc name) None]) (svc s) with
  | (_, Done (_, r)) => sendable f tres r
  | _ => True
  end ->
  run o hist (call_stub name (clnt_call (mkClient name server) proc xa arg (xdr_result xr) zeroed TIMEOUT) s) =
  run o hist ((let* r := call_rpc name svc in ret (f <$> r)) s).
Proof using xlaws rlaws.
  intros Hxa Harg Hxr Hn Hserver Hlocal Hsend. destruct (filter_represents arg Harg) as [bytes [He Hd]].
  specialize (Hd []). rewrite app_nil_r in Hd.
  unfold call_stub. rewrite run_bind, call_law, <- run_bind.
  unfold call_rpc, remote_call. rewrite He. cbn [app x_data cl_name cl_serve].
  rewrite !run_bind_bind, !run_bind_call. cbv zeta.
  destruct (o hist (ERpc name)) as [[c text]|]; [by rewrite run_bind_bind|].
  rewrite !run_bind_bind, Hserver. unfold serve. cbn [p_arg p_res p_arg_zero p_res_zero _xdr_argument _xdr_result local].
  rewrite getargs_law, Hd. cbn [fmap option_fmap option_map snd]. rewrite Hlocal, freeargs_law
    by (destruct (filter_frees (p := xa) [] arg) as [? ->]; eauto).
  rewrite !run_bind_bind.
  rewrite !(run_bind o _ svc). destruct (run o _ (svc s)) as [t [[s' r]|w]]; [|done].
  pose proof (sent_result f xr tres r Hxr Hn Hsend) as Hr. rewrite !run_bind_ret. cbn [fst snd].
  destruct (svc_sendreply _ _) as [data|]; cbv beta iota.
  - destruct Hr as [-> Hr]. rewrite !run_bind_bind, !run_bind_call. cbv zeta.
    destruct (o _ (ERpcReply name)) as [[c text]|]; [rewrite run_bind_ret; by rewrite run_bind_bind|].
    rewrite run_bind_ret. destruct r as [a|c [m|]]; [|destruct Hsend as (_ & Hc%Z.eqb_neq & _)|by destruct Hr];
      cbn [in_result errcode arm errmsg]; [by rewrite Hr|]. by rewrite Hc, run_bind_bind.
  - rewrite !run_bind_bind, !run_bind_call. cbv zeta.
    destruct (o _ (ERpcReply name)) as [[c text]|]; [rewrite run_bind_ret; by rewrite run_bind_bind|].
    rewrite run_bind_ret, sperrno_law. destruct r as [a|c m]; rewrite Hr; by rewrite run_bind_bind.
Qed.

(** The calls of the library: what the client runs, the procedure of the service,
    and how a value of the model is one of [nvc_rpc.x]. *)
Section Remote.
Context (ctx : ptr_t).
Inductive remote : forall A B, Xdr A -> string -> M (option B) -> M (xres A) -> (A -> B) -> (B -> Prop) -> Prop :=
| remote_driver_init : remote _ _ _ "driver"
    (call_stub "driver" (driver_init_1 ctx zeroed driver_client)) (driver_init_1_svc (driver_at ctx)) id typed_unit
| remote_driver_shutdown : remote _ _ _ "driver"
    (call_stub "driver" (driver_shutdown_1 ctx zeroed driver_client)) (driver_shutdown_1_svc) id typed_unit
| remote_driver_get_rm_version : remote _ _ _ "driver"
    (call_stub "driver" (driver_get_rm_version_1 ctx zeroed driver_client))
    (driver_get_rm_version_1_svc) id is_string
| remote_driver_get_cuda_version : remote _ _ _ "driver"
    (call_stub "driver" (driver_get_cuda_version_1 ctx zeroed driver_client))
    (driver_get_cuda_version_1_svc) cuda_of typed_cuda
| remote_driver_get_device_count : remote _ _ _ "driver"
    (call_stub "driver" (driver_get_device_count_1 ctx zeroed driver_client))
    (driver_get_device_count_1_svc) id is_u_int
| remote_driver_get_device idx (Hi : is_u_int idx) : remote _ _ _ "driver"
    (call_stub "driver" (driver_get_device_1 ctx idx zeroed driver_client))
    (driver_get_device_1_svc idx) ptr_of_handle is_int64
| remote_driver_get_device_minor h (Hh : in_table h) : remote _ _ _ "driver"
    (call_stub "driver" (driver_get_device_minor_1 ctx (ptr_of h) zeroed driver_client))
    (driver_get_device_minor_1_svc h) id is_u_int
| remote_driver_get_device_busid h (Hh : in_table h) : remote _ _ _ "driver"
    (call_stub "driver" (driver_get_device_busid_1 ctx (ptr_of h) zeroed driver_client))
    (driver_get_device_busid_1_svc h) id is_string
| remote_driver_get_device_uuid h (Hh : in_table h) : remote _ _ _ "driver"
    (call_stub "driver" (driver_get_device_uuid_1 ctx (ptr_of h) zeroed driver_client))
    (driver_get_device_uuid_1_svc h) id is_string
| remote_driver_get_device_arch h (Hh : in_table h) : remote _ _ _ "driver"
    (call_stub "driver" (driver_get_device_arch_1 ctx (ptr_of h) zeroed driver_client))
    (driver_get_device_arch_1_svc h) arch_of typed_arch
| remote_driver_get_device_model h (Hh : in_table h) : remote _ _ _ "driver"
    (call_stub "driver" (driver_get_device_model_1 ctx (ptr_of h) zeroed driver_client))
    (driver_get_device_model_1_svc h) id is_string
| remote_driver_get_device_brand h (Hh : in_table h) : remote _ _ _ "driver"
    (call_stub "driver" (driver_get_device_brand_1 ctx (ptr_of h) zeroed driver_client))
    (driver_get_device_brand_1_svc h) id is_string
| remote_driver_get_device_mig_mode h (Hh : in_table h) : remote _ _ _ "driver"
    (call_stub "driver" (driver_get_device_mig_mode_1 ctx (ptr_of h) zeroed driver_client))
    (driver_get_device_mig_mode_1_svc h) mode_of typed_mode
| remote_driver_get_device_max_mig_device_count h (Hh : in_table h) : remote _ _ _ "driver"
    (call_stub "driver" (driver_get_device_max_mig_device_count_1 ctx (ptr_of h) zeroed driver_client))
    (driver_get_device_max_mig_device_count_1_svc h) id is_u_int
| remote_driver_get_device_mig_device h idx (Hh : in_table h) (Hi : is_u_int idx) : remote _ _ _ "driver"
    (call_stub "driver" (driver_get_device_mig_device_1 ctx (ptr_of h) idx zeroed driver_client))
    (driver_get_device_mig_device_1_svc h idx) ptr_of_handle is_int64
| remote_driver_get_device_gpu_instance_id h (Hh : in_table h) : remote _ _ _ "driver"
    (call_stub "driver" (driver_get_device_gpu_instance_id_1 ctx (ptr_of h) zeroed driver_client))
    (driver_get_device_gpu_instance_id_1_svc h) id is_u_int
| remote_driver_get_device_compute_instance_id h (Hh : in_table h) : remote _ _ _ "driver"
    (call_stub "driver" (driver_get_device_compute_instance_id_1 ctx (ptr_of h) zeroed driver_client))
    (driver_get_device_compute_instance_id_1_svc h) id is_u_int
| remote_nvcgo_init : remote _ _ _ "nvcgo"
    (call_stub "nvcgo" (nvcgo_init_1 ctx zeroed nvcgo_client)) (nvcgo_init_1_svc) id typed_unit
| remote_nvcgo_shutdown : remote _ _ _ "nvcgo"
    (call_stub "nvcgo" (nvcgo_shutdown_1 ctx zeroed nvcgo_client)) (nvcgo_shutdown_1_svc) id typed_unit
| remote_nvcgo_get_device_cgroup_version root pid (Hr : is_string (Some root))
    (Hp : is_int pid) : remote _ _ _ "nvcgo"
    (call_stub "nvcgo" (nvcgo_get_device_cgroup_version_1 ctx (Some root) pid zeroed nvcgo_client))
    (Nvcgo.nvcgo_get_device_cgroup_version_1_svc root pid) id is_u_int
| remote_nvcgo_find_device_cgroup_path v root mp rp (Hv : is_int v)
    (Hr : is_string (Some root)) (Hm : is_int mp) (Hp : is_int rp) : remote _ _ _ "nvcgo"
    (call_stub "nvcgo" (nvcgo_find_device_cgroup_path_1 ctx v (Some root) mp rp zeroed nvcgo_client))
    (Nvcgo.nvcgo_find_device_cgroup_path_1_svc v root mp rp) id is_string
| remote_nvcgo_setup_device_cgroup v cg dev (Hv : is_int v)
    (Hc : is_string (Some cg)) (Hd : is_u_long dev) : remote _ _ _ "nvcgo"
    (call_stub "nvcgo" (nvcgo_setup_device_cgroup_1 ctx v (Some cg) dev zeroed nvcgo_client))
    (Nvcgo.nvcgo_setup_device_cgroup_1_svc v cg dev) id typed_unit.

End Remote.

Lemma string_refuses : refuses id (xdr_string UINT_MAX).
Proof using xlaws. intros [x|] data; [done|]. intros _. apply string_null. Qed.

Lemma never_refuses {A B} `{Xdr A} (f : A -> B) p : (forall a, xdr_ok a = true) -> refuses f p.
Proof. intros Ha a data. by rewrite Ha. Qed.

(** The goals [call_transparent] leaves for a procedure of the tables. *)
Ltac stub :=
  eapply call_transparent;
  [ | | | | intros; reflexivity | | eassumption];
  [ typeclasses eauto with typeclass_instances
  | cbn; unfold typed_index, typed_device, typed_mig, typed_version, typed_find, typed_setup; cbn; auto using ptr_law
  | typeclasses eauto with typeclass_instances
  | first [exact string_refuses | by apply never_refuses]
  | match goal with |- ?loc ?arg = _ => unfold loc end; cbn; rewrite ?handle_law by assumption; reflexivity ].

(** C8: what the client's stub and the dispatcher of the service do together, with
    the bytes of the arguments and of the result between them, is what the model
    of a remote call does by running the procedure in place: the same events, the
    same value and the same error, on every answer of the transport, a reply that is
    lost after the procedure ran included. *)
Theorem remote_transparent (ctx : ptr_t) A B (X : Xdr A) prog (wire : M (option B)) (svc : M (xres A)) f typed
    (o : env) hist (s : st) :
  remote ctx A B X prog wire svc f typed -> is_int64 ctx ->
  match run o (hist ++ [Event (ERpc prog) None]) (svc s) with
  | (_, Done (_, r)) => sendable f typed r
  | _ => True
  end ->
  run o hist (wire s) = run o hist ((let* r := call_rpc prog svc in ret (f <$> r)) s).
Proof using xlaws rlaws mlaws. intros Hr Hctx Hs. destruct Hr; stub. Qed.

(** Every procedure of the tables has filters for its types. *)
Lemma procedure_filters rq_proc p :
  driver_procedure rq_proc = Some p \/ nvcgo_procedure rq_proc = Some p ->
  Filter (_xdr_argument p) (p_arg_typed p) /\ Filter (_xdr_result p) (typed_result (p_res_typed p)).
Proof using xlaws.
  unfold driver_procedure, nvcgo_procedure. intros [Hp|Hp]; repeat case_hyp; simplify_eq/=;
    split; cbn; typeclasses eauto with typeclass_instances.
Qed.

(** C25: for every procedure, an argument and a result of their types are the same
    after they were encoded and decoded, whatever was written before and follows,
    and what a dispatcher decoded can always be freed. *)
Theorem stubs_roundtrip rq_proc p :
  driver_procedure rq_proc = Some p \/ nvcgo_procedure rq_proc = Some p ->
  (forall a, p_arg_typed p a -> exists bytes, represents (_xdr_argument p) a bytes) /\
  (forall r, typed_result (p_res_typed p) r -> exists bytes, represents (_xdr_result p) r bytes) /\
  (forall a, svc_freeargs (_xdr_argument p) a = true).
Proof using xlaws rlaws.
  intros Hp. destruct (procedure_filters rq_proc p Hp) as [Ha Hr]. split_and!.
  - intros a. apply filter_represents.
  - intros r. apply filter_represents.
  - intros a. apply freeargs_law. destruct (filter_frees [] a) as [a' ->]. eauto.
Qed.
End Stubs.

(** ** The types of what the procedures send *)

(** A value that is sent satisfies [typed], and an error code is an [int]. *)
Definition sends_typed {A} (svc : M (xres A)) (typed : A -> Prop) : Prop :=
  forall (o : env) s, match exec o svc s with
                      | (_, Done (_, XOk a)) => typed a
                      | (_, Done (_, XErr c _)) => is_int c
                      | _ => True
                      end.

Definition is_slot (h : option handle) : Prop :=
  match h with Some h => in_table h | None => True end.

Lemma sends_ensures {A} P H (svc : M (xres A)) (R : A -> Prop) :
  ensures P H svc (sends R) -> sends_typed svc R.
Proof.
  intros He o s. pose proof (ensures_run o svc P H _ s He) as Hr.
  destruct (exec o svc s) as [t [[s' [a|]]|w]]; [apply Hr..|done].
Qed.

(** Whatever a procedure does, the code it reports is an [int]. *)
Lemma service_codes {A} `{Xdr A} (m : M (option A)) : sends_typed (service m) any.
Proof.
  eapply (sends_ensures (fun _ => True) any_stop), ensures_post.
  - apply (service_ens _ any_stop (fun ev _ => I) (fun w _ => I) m any). eapply ensures_post; [apply ensures_true|].
    by intros [].
  - by intros [a|c x].
Qed.

(** A procedure of one query of the library. *)
Lemma query_typed {A} `{Xdr A} (q : M (option dval)) (k : dval -> A) (R : A -> Prop) :
  ensures (only [KLib; KDev]) no_stop q any -> R xdr_zero -> (forall v, R (k v)) ->
  sends_typed (service (let? v := q else ret None in ret (Some (k v)))) R.
Proof.
  intros Hq Hz Hk. eapply sends_ensures, ensures_post.
  - apply (service_ens _ rpc_stops (fun ev H => H) (fun w H => H) _ R).
    eapply ensures_bind; [eapply ensures_weaken; [exact Hq|done..]|]. intros [v|] _; by apply ensures_ret.
  - intros [a|c m] Ha; [|done]. by destruct Ha as [?| ->].
Qed.

Lemma u_int_wrap z : is_u_int (to_uint32 z).
Proof. apply uint_wrap_range. lia. Qed.

Lemma cuda_version_typed z : typed_cuda (cuda_of (to_uint32 z / 1000, to_uint32 z mod 100 / 10)).
Proof.
  pose proof (u_int_wrap z) as H. unfold is_u_int in *. unfold typed_cuda, is_u_int. cbn.
  pose proof (Z.mod_pos_bound (to_uint32 z) 100 ltac:(lia)).
  split; (split; [apply Z.div_pos; lia|apply Z.div_lt_upper_bound; lia]).
Qed.

Lemma get_device_typed idx : 0 <= idx -> sends_typed (driver_get_device_1_svc idx) is_slot.
Proof.
  intros Hi. eapply sends_ensures, ensures_post.
  - apply (service_ens _ rpc_stops (fun ev H => H) (fun w H => H) _ is_slot). ens. bool_hyps. done.
  - intros [a|c m] Ha; [|done]. by destruct Ha as [?| ->].
Qed.

Lemma get_mig_device_typed h idx : in_table h -> 0 <= idx -> sends_typed (driver_get_device_mig_device_1_svc h idx) is_slot.
Proof.
  intros Hh Hi. eapply (sends_ensures (only [KLib; KDev]) rpc_stops). unfold driver_get_device_mig_device_1_svc.
  destruct (Z.leb_spec MAX_MIG_DEVICES idx).
  - eapply ensures_post; [apply (service_ens _ _ (fun ev H => H) (fun w H => H) _ is_slot); ens|].
    intros [a|c m] Ha; [|done]. by destruct Ha as [?| ->].
  - eapply ensures_bind with (R := any).
    { eapply ensures_with_err; [eapply ensures_weaken; [apply call_nvml_ens|done..]|done]. }
    intros [[v|] e] _; cbn [fst snd]; [apply ensures_ret; destruct h; cbn in *; lia|]. destruct (_ =? _); [by apply ensures_ret|].
    eapply ensures_post; [by apply error_to_xdr_ens|]. by intros [a|c m] Ha; [cbn in Ha; subst|].
Qed.

Lemma mig_mode_typed h :
  sends_typed (driver_get_device_mig_mode_1_svc h) (fun v => typed_mode (mode_of v)).
Proof.
  eapply (sends_ensures (only [KLib; KDev]) rpc_stops). unfold driver_get_device_mig_mode_1_svc.
  eapply ensures_bind with (R := any).
  { eapply ensures_with_err; [eapply ensures_weaken; [apply call_nvml_ens|done..]|done]. }
  assert (forall z c p, is_int z -> typed_mode (mode_of (z, (to_uint32 c, to_uint32 p)))) as Ht.
  { intros z c p Hz. split_and!; [done|apply u_int_wrap..]. }
  intros [[v|] e] _; cbn [fst snd]; [apply ensures_ret; by apply Ht|].
  ens_step. ens_step. apply ensures_ret. apply Ht. destruct e as [e|]; [apply to_int32_range|done].
Qed.

(** C26: whatever the management library answers, what a procedure of the driver
    service sends has the types that [nvc_rpc.x] declares: its numbers fit them,
    the error and the modes of [driver_device_mig_mode] included, its pointers are
    [NULL] or slots of the table of handles, and the error code of every procedure
    is an [int]. *)
Theorem driver_values_typed (ctx : driver) (h : handle) (idx : Z) :
  in_table h -> 0 <= idx ->
  sends_typed driver_get_device_count_1_svc is_u_int /\
  sends_typed (driver_get_device_minor_1_svc h) is_u_int /\
  sends_typed (driver_get_device_max_mig_device_count_1_svc h) is_u_int /\
  sends_typed (driver_get_device_gpu_instance_id_1_svc h) is_u_int /\
  sends_typed (driver_get_device_compute_instance_id_1_svc h) is_u_int /\
  sends_typed driver_get_cuda_version_1_svc (fun v => typed_cuda (cuda_of v)) /\
  sends_typed (driver_get_device_arch_1_svc h) (fun v => typed_arch (arch_of v)) /\
  sends_typed (driver_get_device_mig_mode_1_svc h) (fun v => typed_mode (mode_of v)) /\
  sends_typed (driver_get_device_1_svc idx) is_slot /\
  sends_typed (driver_get_device_mig_device_1_svc h idx) is_slot /\
  (* no number but the code *)
  sends_typed (driver_init_1_svc ctx) any /\
  sends_typed driver_shutdown_1_svc any /\
  sends_typed driver_get_rm_version_1_svc any /\
  sends_typed (driver_get_device_busid_1_svc h) any /\
  sends_typed (driver_get_device_uuid_1_svc h) any /\
  sends_typed (driver_get_device_model_1_svc h) any /\
  sends_typed (driver_get_device_brand_1_svc h) any.
Proof.
  intros Hh Hi. assert (is_u_int 0) as H0 by (unfold is_u_int; lia).
  do 5 (split; [apply query_typed; auto using u_int_wrap, call_xdxml_ens, call_nvml_ens|]).
  split_and!; [| |by apply mig_mode_typed|by apply get_device_typed|by apply get_mig_device_typed|apply service_codes..].
  - apply query_typed; [apply call_nvml_ens|by split|]. intros v. apply cuda_version_typed.
  - apply query_typed; [apply call_nvml_ens|by split|]. intros v. split; apply u_int_wrap.
Qed.

(** ** A transport and a memory *)

(** The RPC library over streams in memory. *)
Module Tirpc.

Definition sperrno (code : Z) : string :=
  if code =? RPC_SYSTEMERROR then "RPC: Remote system error" else "RPC: (unknown error code)".

#[export] Instance lib : RpcLib := {|
  svc_getargs A data p a := snd <$> p (mkXDR XDR_DECODE data) a;
  svc_sendreply A p a := (fun q => x_data (fst q)) <$> p (mkXDR XDR_ENCODE []) a;
  svc_freeargs A p a := match p (mkXDR XDR_FREE []) a with Some _ => true | None => false end;
  clnt_sperrno := sperrno;
  clnt_call A R clnt proc xa a xr r _ := remote_call sperrno clnt proc xa a xr r
|}.
#[export] Instance laws : RpcLaws lib.
Proof. split; try done. by intros A p a [? Ha]; cbn; rewrite Ha. Qed.

(** The table of handles at the address 4096, nine words for each device. *)
#[export] Instance mem : Memory := {|
  driver_at _ := mkDriver "/" "libxdxgpu-ml.so" 65534 65534;
  handle_at p := let i := (p - 4096) / 9 in let j := (p - 4096) mod 9 in if j =? 0 then HDev i else HMig i (j - 1);
  ptr_of h := match h with HDev i => 4096 + 9 * i | HMig i j => 4096 + 9 * i + 1 + j end
|}.
#[export] Instance mem_laws : MemoryLaws mem.
Proof.
  split; intros [i|i j] Hh; cbn in *; unfold MAX_DEVICES, MAX_MIG_DEVICES, is_int64 in *; [| |lia..].
  - replace (4096 + 9 * i - 4096) with (i * 9) by lia. by rewrite Z.mod_mul, Z.div_mul by lia.
  - replace (4096 + 9 * i + 1 + j - 4096) with ((j + 1) + i * 9) by lia.
    rewrite Z.mod_add, Z.div_add, Z.mod_small, Z.div_small by lia. destruct (Z.eqb_spec (j + 1) 0); [lia|]. f_equal; lia.
Qed.
End Tirpc.
#[local] Existing Instances Rfc4506.lib Rfc4506.laws Tirpc.lib Tirpc.laws Tirpc.mem Tirpc.mem_laws.

(** A device whose minor number is 7, asked for through the stubs. *)
Definition minor_7 : env := fun _ e =>
  match e return resp e with
  | EDriver _ _ => inr (DNums [7])
  | e => friendly e
  end.

Lemma remote_transparent_witness :
  run minor_7 [] (call_stub "driver" (driver_get_device_minor_1 4096 (ptr_of (HDev 2)) zeroed driver_client) init_st) =
  run minor_7 [] ((let* r := driver_get_device_minor (HDev 2) in ret (id <$> r)) init_st) /\
  snd (run minor_7 [] (call_stub "driver" (driver_get_device_minor_1 4096 (ptr_of (HDev 2)) zeroed driver_client) init_st)) =
    Done (init_st, Some 7).
Proof.
  split; [|vm_compute; reflexivity].
  refine (remote_transparent 4096 Z Z _ "driver" _ _ id is_u_int minor_7 [] init_st (remote_driver_get_device_minor _ _ _) _ _).
  - split; by vm_compute.
  - split; by vm_compute.
  - vm_compute. intros _. split; [discriminate|reflexivity].
Defined.

Lemma stubs_roundtrip_witness :
  exists p, driver_procedure DRIVER_GET_DEVICE_MIG_MODE = Some p /\
  (forall a, p_arg_typed p a -> exists bytes, represents (_xdr_argument p) a bytes) /\
  (forall r, typed_result (p_res_typed p) r -> exists bytes, represents (_xdr_result p) r bytes) /\
  (forall a, svc_freeargs (_xdr_argument p) a = true).
Proof.
  eexists. split; [reflexivity|]. apply (stubs_roundtrip DRIVER_GET_DEVICE_MIG_MODE). left. reflexivity.
Defined.

Lemma driver_values_typed_witness :
  in_table (HMig 1 2) /\ sends_typed (driver_get_device_minor_1_svc (HMig 1 2)) is_u_int.
Proof.
  split; [split; split; by vm_compute|]. refine (proj1 (proj2 (driver_values_typed (mkDriver "/" "libxdxgpu-ml.so" 65534 65534) (HMig 1 2) 0 _ _))).
  - split; split; by vm_compute.
  - reflexivity.
Defined.
