(* ===== verification/Context.v ===== *)
(** * The life cycle of the library

    [src/src/nvc.c]: the context is initialised with a configuration, the two
    services are started, and everything is stopped again.  [library] is the
    context with the static state of the services and of the log. *)
From S2P Require Import Prelude CString Scanf Effects Logic Errors Options Utils Types Paths Files Devices Pci Modprobe Ldcache Driver Cgroup Info Container Mount Dxcore Rpc Ldconfig.

Record library := mkLibrary {
  l_ctx : nvc_context; l_driver : driver_global; l_nvcgo : nvcgo_global; l_log : bool
}.

(** What the caller may leave out of a [struct nvc_config]. *)
Record config_arg := mkConfigArg { a_root : option string; a_ldcache : option string; a_uid : Z; a_gid : Z }.

Definition nvc_config_new : M (option config_arg) :=
  let* ok := call EAlloc in
  if ok : bool then ret (Some (mkConfigArg None None ID_NONE ID_NONE)) else do set_errno ENOMEM in ret None.

Definition driver_zero : driver_global := mkDriverGlobal rpc_zero false (mkDriver "" "" 0 0).
Definition no_config : nvc_config := mkConfig "" "" 0 0.

(** The statics of a new process, around a context. *)
Definition nvc_context_new : M (option nvc_context) :=
  let* ok := call EAlloc in
  if ok : bool then ret (Some (mkContext false no_config 0 false (mkDxcore false []))) else do set_errno ENOMEM in ret None.

(** ** User namespaces *)

Definition PROC_UID_MAP_PATH (proc : string) : string := proc +:+ "/uid_map".
Definition PROC_GID_MAP_PATH (proc : string) : string := proc +:+ "/gid_map".
Definition PROC_OVERFLOW_UID : string := "/proc/sys/kernel/overflowuid".
Definition PROC_OVERFLOW_GID : string := "/proc/sys/kernel/overflowgid".

(** What a map says: [None], it cannot be read; otherwise whether it is not the
    identity on all the numbers. *)
Definition map_translates (buf : string) : option bool :=
  if str_empty (Some buf) then Some true
  else match sscanf buf "%u %u %u" with
       | [start; pstart; len] => Some (negb ((start =? 0) && (pstart =? 0) && (len =? UINT32_MAX)))
       | _ => None
       end.

(** One of the maps; a file that does not exist ends the search. *)
Definition check_map (path : string) (next : M (option bool)) : M (option bool) :=
  let? buf := file_read_line path 64 else
    (let* c := err_code in ret (if c =? ENOENT then Some false else None)) in
  match map_translates buf with
  | None => do error_setx ("invalid map file: " +:+ path) in ret None
  | Some true => ret (Some true)
  | Some false => next
  end.

Definition init_within_userns : M (option bool) :=
  check_map (PROC_UID_MAP_PATH PROC_SELF)
  (check_map (PROC_GID_MAP_PATH PROC_SELF)
  (let? buf := file_read_line (PROC_SETGROUPS_PATH PROC_SELF) 64 else
     (let* c := err_code in ret (if c =? ENOENT then Some false else None)) in
   ret (Some (str_has_prefix buf "deny")))).

(** ** Kernel modules *)

(** The capability file and the minor number a line of the minors gives: [None], the
    line is not understood; [Some None], it is of a device that is not there. *)
Definition mig_cap_path (num_gpus : Z) (line : string) : option (option (string * Z)) :=
  match sscanf line "gpu%d/gi%d/ci%d/access %d" with
  | [gpu; gi; ci; m] =>
      Some (if num_gpus <=? gpu then None else Some (NV_COMP_INST_CAPS_PATH gpu gi ci +:+ "/" +:+ NV_MIG_ACCESS_FILE, m))
  | _ =>
      match sscanf line "gpu%d/gi%d/access %d" with
      | [gpu; gi; m] =>
          Some (if num_gpus <=? gpu then None else Some (NV_GPU_INST_CAPS_PATH gpu gi +:+ "/" +:+ NV_MIG_ACCESS_FILE, m))
      | _ =>
          match sscanf line "config %d" with
          | [m] => Some (Some (NV_MIG_CAPS_PATH +:+ "/" +:+ NV_MIG_CONFIG_FILE, m))
          | _ =>
              match sscanf line "monitor %d" with
              | [m] => Some (Some (NV_MIG_CAPS_PATH +:+ "/" +:+ NV_MIG_MONITOR_FILE, m))
              | _ => None
              end
          end
      end
  end.

(** [!file_exists(NULL, path)]: a failed lookup is not an absence. *)
Definition absent (path : string) : M bool :=
  let* r := null_err (file_exists path) in
  ret (match r with Some false => true | _ => false end).

Definition mig_nvcaps_mknod (num_gpus : Z) (line : string) : M (option unit) :=
  match mig_cap_path num_gpus line with
  | None => do error_setx ("unexpected line in mig-monitors file: " +:+ line) in ret None
  | Some None => ret (Some tt)
  | Some (Some (path, mig_minor)) =>
      let* gone := absent path in
      if gone : bool then ret (Some tt)
      else
        let* q := nvidia_cap_mknod path mig_minor in
        if fst q then ret (Some tt)
        else do error_setx ("error running mknod for nvcap: " +:+ path) in ret None
  end.

Definition mig_nvcaps_mknodes (num_gpus : Z) : M (option unit) :=
  let* gone := absent NV_CAPS_MIG_MINORS_PATH in
  if gone : bool then ret (Some tt)
  else
    let* r := call (EFopen NV_CAPS_MIG_MINORS_PATH "r") in
    let? fp := trap r else do error_setx ("unable to open: " +:+ NV_CAPS_MIG_MINORS_PATH) in ret None in
    iterM (mig_nvcaps_mknod num_gpus) (fgets_all (PATH_MAX - 1) fp).

(** The side of the child. *)
Definition load_modules {A} (root : string) (matched : Z) : M A :=
  let fail := halt (Exited 1) in
  let? _ := (if str_equal root "/" then ret (Some tt)
             else
               let* r := call (EChroot root) in
               let? _ := trap r else ret None in
               let* r := call (EChdir "/") in
               let? _ := trap r else ret None in
               ret (Some tt)) else fail in
  let? _ := null_err (perm_set_capabilities CAP_INHERITABLE [CAP_SYS_MODULE]) else fail in
  let* ok := nvidia_modprobe false in
  do (if ok : bool then
        do nvidia_mknod XDX_RENDER_DEVICE_MINOR in
        do mapM_ nvidia_mknod (seqZ 0 (to_int32 matched)) in
        do mig_nvcaps_mknodes (to_int32 matched) in
        error_reset
      else ret tt) in
  let* ok := nvidia_uvm_modprobe in
  do (if ok : bool then do nvidia_uvm_mknod 0 in ret tt else ret tt) in
  let* ok := nvidia_modeset_modprobe in
  do (if ok : bool then do nvidia_modeset_mknod in ret tt else ret tt) in
  halt (Exited 0).

Definition load_kernel_modules (root : string) : M (option unit) :=
  let? userns := init_within_userns else ret None in
  if userns : bool then ret (Some tt)
  else
    let* q := pci_enum_match_id display_match in
    let* f := call (EFork 0) in
    let? pid := trap f else do error_set "process creation failed" in ret None in
    if (pid =? 0)%N then load_modules root (num_matches (snd q))
    else
      let* w := call (EWaitpid (Z.of_N pid)) in
      do trap w in
      ret (Some tt).

(** ** Initialisation *)

Definition copy_config (cfg : config_arg) : M (option nvc_config) :=
  let? root := xstrdup (default "/" (a_root cfg)) else ret None in
  let? ldcache := xstrdup (default LDCACHE_PATH (a_ldcache cfg)) else ret None in
  let? uid := (if negb (a_uid cfg =? ID_NONE) then ret (Some (a_uid cfg)) else file_read_uint32 PROC_OVERFLOW_UID) else ret None in
  let? gid := (if negb (a_gid cfg =? ID_NONE) then ret (Some (a_gid cfg)) else file_read_uint32 PROC_OVERFLOW_GID) else ret None in
  ret (Some (mkConfig root ldcache uid gid)).

(** Whether there is a log afterwards. *)
Definition log_open (log : bool) (path : option string) : M bool :=
  match path with
  | None => ret log
  | Some path =>
      if log then ret true
      else
        let* r := call (EFopen path "ae") in
        let? _ := trap r else halt Assertion in
        ret true
  end.

(** What [nvc_init] has made when it stops: the descriptor of the namespace, the
    adapters, the services, and the configuration when everything went well. *)
Record started := mkStarted {
  s_ns : Z; s_dx : dxcore_context; s_driver : driver_global; s_nvcgo : nvcgo_global; s_cfg : option nvc_config
}.

(** [nvc_init] from the open log on; [dx0], [d0] and [n0] are what was there. *)
Definition start_services (flags : Z) (cfg : config_arg) (dx0 : dxcore_context) (d0 : driver_global) (n0 : nvcgo_global)
  : M started :=
  let fail ns dx := ret (mkStarted ns dx d0 n0 None) in
  let? cfg := copy_config cfg else fail (-1) dx0 in
  let? path := xsnprintf PATH_MAX (PROC_NS_PATH PROC_SELF "mnt") else fail (-1) dx0 in
  let? mnt_ns := xopen path (O_RDONLY .| O_CLOEXEC) else fail (-1) dx0 in
  let* dx := dxcore_init_context in
  let dx := default (mkDxcore false []) dx in
  if dx_initialized dx && match adapterList dx with [] => true | _ => false end then
    do error_setx "WSL environment detected but no adapters were found" in fail mnt_ns dx
  else
    let? _ := (if has_flag flags OPT_LOAD_KMODS && negb (dx_initialized dx) then load_kernel_modules (cfg_root cfg)
               else ret (Some tt)) else fail mnt_ns dx in
    let* d := driver_init dx (cfg_root cfg) (cfg_uid cfg) (cfg_gid cfg) in
    match d with
    | (d, None) => ret (mkStarted mnt_ns dx d n0 None)
    | (d, Some _) =>
        let* n := nvcgo_init in
        match n with
        | (n, None) => ret (mkStarted mnt_ns dx d n None)
        | (n, Some _) => ret (mkStarted mnt_ns dx d n (Some cfg))
        end
    end.

Definition NVC_DEBUG_FILE : string := "NVC_DEBUG_FILE".

(** [cfg] and [opts] may be [NULL]. *)
Definition nvc_init (lib : library) (cfg : option config_arg) (opts : option string) : M (library * option unit) :=
  let ctx := l_ctx lib in
  if initialized ctx then ret (lib, Some tt)
  else
    let cfg := default (mkConfigArg None None ID_NONE ID_NONE) cfg in
    let? _ := validate_args (negb (str_empty (a_ldcache cfg)) && negb (str_empty (a_root cfg))) else ret (lib, None) in
    let? flags := options_parse (default default_library_opts opts) library_opts else ret (lib, None) in
    let* debug := call (EGetenv NVC_DEBUG_FILE) in
    let* log := log_open (l_log lib) debug in
    let* r := start_services flags cfg (dxcore ctx) (l_driver lib) (l_nvcgo lib) in
    match s_cfg r with
    | Some cfg => ret (mkLibrary (mkContext true cfg (s_ns r) (no_pivot ctx) (s_dx r)) (s_driver r) (s_nvcgo r) log, Some tt)
    | None =>
        do xclose (s_ns r) in
        ret (mkLibrary (mkContext false no_config (s_ns r) (no_pivot ctx) (s_dx r)) (s_driver r) (s_nvcgo r) log, None)
    end.

(** What is done does not depend on whether a service could be stopped; the
    result does. *)
Definition nvc_shutdown (lib : library) : M (library * option unit) :=
  let* n := nvcgo_shutdown (l_nvcgo lib) in
  let* d := driver_shutdown (l_driver lib) in
  let rv := match snd n, snd d with Some _, Some _ => Some tt | _, _ => None end in
  let ctx := l_ctx lib in
  if negb (initialized ctx) then ret (mkLibrary ctx (fst d) (fst n) (l_log lib), rv)
  else
    do xclose (mnt_ns ctx) in
    ret (mkLibrary (mkContext false no_config (-1) (no_pivot ctx) (mkDxcore false (adapterList (dxcore ctx))))
           (fst d) (fst n) false, rv).

Definition nvc_error (e : error) : option string :=
  if negb (code e =? 0) && match msg e with None => true | Some _ => false end then Some "unknown error" else msg e.

(** ** The library from call to call *)

Notation returns := (ensures (fun _ => True) any_stop).

(** Once it is initialised, the library has a namespace to come back to, both
    services, and adapters that can be used, if there are any. *)
Record ready (lib : library) : Prop := {
  rd_ns : 0 <= mnt_ns (l_ctx lib);
  rd_driver : dg_initialized (l_driver lib) = true;
  rd_nvcgo : ng_initialized (l_nvcgo lib) = true;
  rd_adapters : Forall good_adapter (adapterList (dxcore (l_ctx lib)));
  rd_wsl : dx_initialized (dxcore (l_ctx lib)) = true -> adapterList (dxcore (l_ctx lib)) <> []
}.

Definition library_ok (lib : library) : Prop := initialized (l_ctx lib) = true -> ready lib.

(** One step of a chain of calls: nothing is known of what failed. *)
Ltac rstep :=
  first [ apply ensures_ret; cbn; done
        | apply ensures_halt; done
        | eapply ensures_bind; [apply ensures_true|intros [] _] ].

Lemma driver_init_value dx root uid gid :
  returns (driver_init dx root uid gid) (fun q => snd q = Some tt -> dg_initialized (fst q) = true).
Proof.
  unfold driver_init. destruct (_ <=? _); [by apply ensures_halt|]. cbv zeta.
  eapply ensures_bind; [apply ensures_true|]. intros [path|] _; [|repeat rstep].
  eapply ensures_bind; [apply ensures_true|]. intros [r [[]|]] _; cbn [fst snd]; [|repeat rstep].
  eapply ensures_bind; [apply ensures_true|]. intros [[]|] _; repeat rstep.
Qed.

Lemma nvcgo_init_value :
  returns nvcgo_init (fun q => snd q = Some tt -> ng_initialized (fst q) = true).
Proof.
  unfold nvcgo_init. eapply ensures_bind; [apply ensures_true|]. intros [r [[]|]] _; cbn [fst snd]; [|repeat rstep].
  eapply ensures_bind; [apply ensures_true|]. intros [[]|] _; repeat rstep.
Qed.

Lemma xopen_value path fl : returns (xopen path fl) (fun r => match r with Some fd => 0 <= fd | None => True end).
Proof.
  unfold xopen. eapply ensures_bind; [apply ensures_true|]. intros r _.
  eapply ensures_bind; [apply ensures_true|]. intros [fd|] _; [apply ensures_ret; lia|]. by repeat rstep.
Qed.

Lemma start_services_value flags cfg dx0 d0 n0 :
  returns (start_services flags cfg dx0 d0 n0) (fun r => is_Some (s_cfg r) ->
    0 <= s_ns r /\ dg_initialized (s_driver r) = true /\ ng_initialized (s_nvcgo r) = true /\
    Forall good_adapter (adapterList (s_dx r)) /\ (dx_initialized (s_dx r) = true -> adapterList (s_dx r) <> [])).
Proof.
  assert (forall ns dx, returns (ret (mkStarted ns dx d0 n0 None)) (fun r => is_Some (s_cfg r) ->
    0 <= s_ns r /\ dg_initialized (s_driver r) = true /\ ng_initialized (s_nvcgo r) = true /\
    Forall good_adapter (adapterList (s_dx r)) /\ (dx_initialized (s_dx r) = true -> adapterList (s_dx r) <> []))) as Hf.
  { intros. apply ensures_ret. by intros []. }
  unfold start_services.
  eapply ensures_bind; [apply ensures_true|]. intros [c|] _; [|apply Hf].
  eapply ensures_bind; [apply ensures_true|]. intros [path|] _; [|apply Hf].
  eapply ensures_bind; [apply xopen_value|]. intros [ns|] Hns; [|apply Hf].
  eapply ensures_bind; [eapply ensures_value, dxcore_init_context_ens|]. intros dx Hdx. cbv zeta.
  assert (Forall good_adapter (adapterList (default (mkDxcore false []) dx))) as Hg by (destruct dx; [apply Hdx|constructor]).
  set (dx' := default _ dx) in *. clearbody dx'.
  destruct (_ && _) eqn:E; [eapply ensures_bind; [apply ensures_true|]; intros _ _; apply Hf|].
  eapply ensures_bind; [apply ensures_true|]. intros [[]|] _; [|apply Hf].
  eapply ensures_bind; [apply driver_init_value|]. intros [d [[]|]] Hd; [|apply ensures_ret; by intros []].
  eapply ensures_bind; [apply nvcgo_init_value|]. intros [n [[]|]] Hn; [|apply ensures_ret; by intros []].
  apply ensures_ret. intros _. cbn. split_and!; auto. intros Hi Ha. rewrite Hi, Ha in E. done.
Qed.

Lemma nvc_init_value lib cfg opts :
  library_ok lib ->
  returns (nvc_init lib cfg opts) (fun q => library_ok (fst q) /\
    match snd q with
    | Some _ => initialized (l_ctx (fst q)) = true
    | None => initialized (l_ctx lib) = false /\ initialized (l_ctx (fst q)) = false
    end).
Proof.
  intros Hok. unfold nvc_init. destruct (initialized (l_ctx lib)) eqn:Ei; [by apply ensures_ret|].
  eapply ensures_bind; [apply ensures_true|]. intros [[]|] _; [|by apply ensures_ret].
  eapply ensures_bind; [apply ensures_true|]. intros [flags|] _; [|by apply ensures_ret].
  eapply ensures_bind; [apply ensures_true|]. intros debug _.
  eapply ensures_bind; [apply ensures_true|]. intros log _.
  eapply ensures_bind; [apply start_services_value|]. intros [ns dx d n [c|]] Hs; cbn [s_cfg s_ns s_dx s_driver s_nvcgo] in *.
  - apply ensures_ret. split; [|done]. intros _. destruct (Hs (mk_is_Some _ _ eq_refl)) as (?&?&?&?&?). by split.
  - eapply ensures_bind; [apply ensures_true|]. intros _ _. by apply ensures_ret.
Qed.

Lemma copy_config_ens c :
  ensures (only [KLib; KRead]) no_stop (copy_config c)
    (fun r => match r with Some cfg => cfg_root cfg = default "/" (a_root c) | None => True end).
Proof.
  unfold copy_config. ens_step. destruct a; [|ens]. subst. ens_step. destruct a; [|ens]. subst.
  do 2 (eapply ensures_bind with (R := any); [destruct (negb _); [ens|]; ens_hint; done|intros [] _; [|ens]]). by apply ensures_ret.
Qed.

(** The driver root of the library is the one asked for. *)
Lemma nvc_init_root lib c opts :
  initialized (l_ctx lib) = false ->
  returns (nvc_init lib (Some c) opts)
    (fun q => snd q = Some tt -> cfg_root (cfg (l_ctx (fst q))) = default "/" (a_root c)).
Proof.
  intros Hi. unfold nvc_init. rewrite Hi. cbn [default from_option id].
  do 2 (eapply ensures_bind; [apply ensures_true|]; intros [] _; [|by apply ensures_ret]).
  do 2 (eapply ensures_bind; [apply ensures_true|]; intros ? _).
  eapply ensures_bind with (R := fun r => match s_cfg r with Some cfg => cfg_root cfg = default "/" (a_root c) | None => True end).
  - unfold start_services. eapply ensures_bind; [eapply ensures_value, copy_config_ens|]. intros [cf|] Hc; [|by apply ensures_ret].
    do 2 (eapply ensures_bind; [apply ensures_true|]; intros [] _; [|by apply ensures_ret]).
    eapply ensures_bind; [apply ensures_true|]. intros dx _. cbv zeta.
    destruct (_ && _); [eapply ensures_bind; [apply ensures_true|]; intros; by apply ensures_ret|].
    eapply ensures_bind; [apply ensures_true|]. intros [] _; [|by apply ensures_ret].
    eapply ensures_bind; [apply ensures_true|]. intros [d []] _; [|by apply ensures_ret].
    eapply ensures_bind; [apply ensures_true|]. intros [n []] _; by apply ensures_ret.
  - intros r Hr. destruct (s_cfg r); [by apply ensures_ret|]. eapply ensures_bind; [apply ensures_true|]. intros. by apply ensures_ret.
Qed.

Lemma nvc_shutdown_value lib :
  returns (nvc_shutdown lib) (fun q => initialized (l_ctx (fst q)) = false).
Proof.
  unfold nvc_shutdown. eapply ensures_bind; [apply ensures_true|]. intros n _.
  eapply ensures_bind; [apply ensures_true|]. intros d _. cbv zeta.
  destruct (initialized (l_ctx lib)) eqn:Ei; cbn [negb]; [|by apply ensures_ret].
  eapply ensures_bind; [apply ensures_true|]. intros _ _. by apply ensures_ret.
Qed.

(** *** The abstract library

    To its caller the library is down or up.  Initialising it succeeds when it
    is up; when it is down it may fail, and stays down.  Every other call is
    refused while it is down and leaves it as it is.  Shutting it down always
    leaves it down. *)
Inductive life := Down | Up.

Inductive request :=
| RInit (cfg : option config_arg) (opts : option string)
| RShutdown
| RContainer (cfg : option nvc_container_config) (opts : option string)
| RDriverMount (cnt : nvc_container) (info : nvc_driver_info)
| RDeviceMount (cnt : nvc_container) (dev : nvc_device)
| RUpdate (cnt : nvc_container).

Definition uses (r : request) : bool := match r with RInit _ _ | RShutdown => false | _ => true end.

Inductive life_step : life -> request -> bool -> life -> Prop :=
| life_init l cfg opts : life_step l (RInit cfg opts) true Up
| life_no_init cfg opts : life_step Down (RInit cfg opts) false Down
| life_shutdown l b : life_step l RShutdown b Down
| life_use r b : uses r = true -> life_step Up r b Up
| life_refused r : uses r = true -> life_step Down r false Down.

Inductive life_run : life -> list request -> list bool -> life -> Prop :=
| run_nil l : life_run l [] [] l
| run_cons l r b l' rs bs l'' :
    life_step l r b l' -> life_run l' rs bs l'' -> life_run l (r :: rs) (b :: bs) l''.

(** The state of the abstract library that a library implements. *)
Definition life_of (lib : library) : life := if initialized (l_ctx lib) then Up else Down.

Section Serving.
Context {ops : CgroupOps} (with_seccomp : bool).

Definition succeeded {A} (r : option A) : bool := match r with Some _ => true | None => false end.

(** The requests that leave the context as it is. *)
Definition use (lib : library) (r : request) : M bool :=
  let ctx := l_ctx lib in
  match r with
  | RContainer cfg opts => let* q := nvc_container_new ctx cfg opts in ret (succeeded q)
  | RDriverMount cnt info => let* q := nvc_driver_mount ctx (Some cnt) (Some info) in ret (succeeded q)
  | RDeviceMount cnt dev => let* q := nvc_device_mount ctx (Some cnt) (Some dev) in ret (succeeded q)
  | RUpdate cnt => let* q := nvc_ldcache_update with_seccomp (l_log lib) ctx (Some cnt) in ret (succeeded q)
  | _ => ret false
  end.

Definition answer (lib : library) (r : request) : M (library * bool) :=
  match r with
  | RInit cfg opts => let* q := nvc_init lib cfg opts in ret (fst q, succeeded (snd q))
  | RShutdown => let* q := nvc_shutdown lib in ret (fst q, succeeded (snd q))
  | r => let* b := use lib r in ret (lib, b)
  end.

Fixpoint serve (lib : library) (rs : list request) : M (library * list bool) :=
  match rs with
  | [] => ret (lib, [])
  | r :: rs' =>
      let* q := answer lib r in
      let* q' := serve (fst q) rs' in
      ret (fst q', snd q :: snd q')
  end.

Lemma validate_context_down ctx :
  initialized ctx = false -> returns (validate_context ctx) (fun r => r = None).
Proof.
  intros Hi. unfold validate_context. rewrite Hi. eapply ensures_bind; [apply ensures_true|].
  intros _ _. by apply ensures_ret.
Qed.

(** A call that checks the context first. *)
Lemma refused {A} ctx (k : unit -> M (option A)) :
  initialized ctx = false ->
  returns (let? x := validate_context ctx else ret None in k x) (fun r => r = None).
Proof.
  intros Hi. eapply ensures_bind; [by apply validate_context_down|]. intros ? ->. by apply ensures_ret.
Qed.

Lemma use_value lib r :
  returns (use lib r) (fun b => initialized (l_ctx lib) = false -> b = false).
Proof.
  destruct (initialized (l_ctx lib)) eqn:Ei; [eapply ensures_post; [apply ensures_true|done]|].
  destruct r; cbn [use]; try (by apply ensures_ret);
    (eapply ensures_bind; [by apply refused|]; intros ? ->; by apply ensures_ret).
Qed.

Lemma answer_refines lib r :
  library_ok lib ->
  returns (answer lib r) (fun q => library_ok (fst q) /\ life_step (life_of lib) r (snd q) (life_of (fst q))).
Proof.
  intros Hok.
  assert (uses r = true -> returns (let* b := use lib r in ret (lib, b))
            (fun q => library_ok (fst q) /\ life_step (life_of lib) r (snd q) (life_of (fst q)))) as Hu.
  { intros Hr. eapply ensures_bind; [apply use_value|]. intros b Hb. apply ensures_ret. split; [done|]. cbn [fst snd].
    unfold life_of. destruct (initialized (l_ctx lib)); [by apply life_use|]. rewrite Hb by done. by apply life_refused. }
  destruct r; cbn [answer]; try (by apply Hu); clear Hu.
  - eapply ensures_bind; [by apply nvc_init_value|]. intros [lib' [[]|]] [Hl Hr]; apply ensures_ret; (split; [done|]);
      unfold life_of; cbn [fst snd succeeded] in *; [rewrite Hr; constructor|destruct Hr as [-> ->]; constructor].
  - eapply ensures_bind; [apply nvc_shutdown_value|]. intros [lib' rv] Hr. cbn [fst] in Hr. apply ensures_ret.
    unfold library_ok, life_of. cbn [fst snd]. rewrite Hr. split; [done|constructor].
Qed.

Lemma serve_refines lib rs :
  library_ok lib ->
  returns (serve lib rs) (fun q => library_ok (fst q) /\ life_run (life_of lib) rs (snd q) (life_of (fst q))).
Proof.
  revert lib. induction rs as [|r rs IH]; intros lib Hok; cbn [serve]; [apply ensures_ret; split; [done|constructor]|].
  eapply ensures_bind; [by apply answer_refines|]. intros [lib1 b] [Hok1 Hs]. cbn [fst snd] in *.
  eapply ensures_bind; [by apply IH|]. intros [lib2 bs] [Hok2 Hr]. apply ensures_ret. split; [done|]. by econstructor.
Qed.
End Serving.

(** C10: every sequence of calls on a library that returns is a run of the abstract
    library with the same results, whatever the environment answers; and while
    the library is up, it has a namespace to come back to, both services and
    usable adapters. *)
Theorem library_refines_life (ops : CgroupOps) (o : env) ws lib rs (s : st) :
  library_ok lib ->
  match exec o (serve ws lib rs) s with
  | (_, Done (_, (lib', bs))) => library_ok lib' /\ life_run (life_of lib) rs bs (life_of lib')
  | (_, Halted _) => True
  end.
Proof.
  intros Hok. pose proof (ensures_run o _ _ _ _ s (serve_refines ws lib rs Hok)) as H.
  destruct (exec o _ s) as [t [[s' [lib' bs]]|w]]; [apply H|done].
Qed.

Definition demo_library : library :=
  mkLibrary (mkContext false no_config 0 false (mkDxcore false [])) driver_zero (mkNvcgoGlobal rpc_zero false) false.
Definition demo_requests : list request :=
  [RContainer None None; RInit (Some (mkConfigArg None None 0 0)) None; RInit None None; RContainer None None; RShutdown; RContainer None None].

(** A host without the adapters of WSL. *)
Definition demo_library_host : env := fun _ e =>
  match e return resp e with
  | EDlopen lib => if str_equal lib "libdxcore.so" then Some "not found" else None
  | e => friendly e
  end.

Lemma library_refines_life_witness :
  exists s lib, snd (exec demo_library_host (serve (ops := Nvcgo.ops) true demo_library demo_requests) init_st)
      = Done (s, (lib, [false; true; true; false; true; false])) /\
    life_run Down demo_requests [false; true; true; false; true; false] Down.
Proof.
  pose proof (library_refines_life Nvcgo.ops demo_library_host true demo_library demo_requests init_st ltac:(done)) as H.
  destruct (exec demo_library_host _ init_st) as [t out] eqn:E.
  assert (out = snd (exec demo_library_host (serve (ops := Nvcgo.ops) true demo_library demo_requests) init_st)) as E2 by by rewrite E.
  vm_compute in E2. subst out. eexists _, _. split; [reflexivity|]. exact (proj2 H).
Defined.
