(* ===== verification/ContextLife.v ===== *)
(** * The memory of the context

    [src/src/nvc.c] with its allocations: the configuration and the context of the
    library, what [nvc_init] puts into the context and [nvc_shutdown] takes out of
    it again.  The statics of the services and of the log have no memory of their
    own here, and the message of [ctx->err] is not counted. *)
From iris.proofmode Require Import proofmode.
From S2P Require Import Prelude CString Effects Errors Options Utils Types Paths Files Dxcore Container Rpc Ldconfig Context Heap Lifetime DxcoreLife.

(** The state of the process that is not in the context. *)
Record statics := mkStatics { t_driver : driver_global; t_nvcgo : nvcgo_global; t_log : bool }.

Definition statics_of (lib : library) : statics := mkStatics (l_driver lib) (l_nvcgo lib) (l_log lib).

Section Contexts.
Context `{!Allocator block}.

(** ** Making and freeing *)

Definition nvc_config_new : H (option ptr) :=
  let!? cfg := ccalloc (LibConfig (CLibConfig Null Null 0 0)) else hret None in
  do! store cfg (LibConfig (CLibConfig Null Null ID_NONE ID_NONE)) in
  hret (Some cfg).

Definition nvc_config_free (cfg : ptr) : H unit :=
  match cfg with Null => hret tt | _ => free cfg end.

Definition nvc_context_new : H (option ptr) := ccalloc (Context zero_context).

Definition nvc_context_free (ctx : ptr) : H unit :=
  match ctx with Null => hret tt | _ => do! hlift error_reset in free ctx end.

(** ** Initialisation *)

Definition set_config (root ldcache : ptr) (uid gid : Z) (c : c_context) : c_context :=
  CContext (x_up c) root ldcache uid gid (x_mnt_ns c) (x_no_pivot c) (x_dxcore c).
Definition set_root (p : ptr) (c : c_context) : c_context := set_config p (x_ldcache c) (x_uid c) (x_gid c) c.
Definition set_ldcache (p : ptr) (c : c_context) : c_context := set_config (x_root c) p (x_uid c) (x_gid c) c.
Definition set_uid (uid : Z) (c : c_context) : c_context := set_config (x_root c) (x_ldcache c) uid (x_gid c) c.
Definition set_gid (gid : Z) (c : c_context) : c_context := set_config (x_root c) (x_ldcache c) (x_uid c) gid c.
Definition set_mnt_ns (fd : Z) (c : c_context) : c_context :=
  CContext (x_up c) (x_root c) (x_ldcache c) (x_uid c) (x_gid c) fd (x_no_pivot c) (x_dxcore c).
Definition set_up (up : bool) (c : c_context) : c_context :=
  CContext up (x_root c) (x_ldcache c) (x_uid c) (x_gid c) (x_mnt_ns c) (x_no_pivot c) (x_dxcore c).

Definition copy_config (ctx : ptr) (cfg : c_libconfig) : H (option unit) :=
  let! root := text (y_root cfg) in
  let!? r := new_string (xstrdup (default "/" root)) else do! upd_context ctx (set_root Null) in hret None in
  do! upd_context ctx (set_root r) in
  let! ldcache := text (y_ldcache cfg) in
  let!? l := new_string (xstrdup (default LDCACHE_PATH ldcache)) else do! upd_context ctx (set_ldcache Null) in hret None in
  do! upd_context ctx (set_ldcache l) in
  let!? uid := hlift (if negb (y_uid cfg =? ID_NONE) then ret (Some (y_uid cfg)) else file_read_uint32 PROC_OVERFLOW_UID)
    else hret None in
  do! upd_context ctx (set_uid uid) in
  let!? gid := hlift (if negb (y_gid cfg =? ID_NONE) then ret (Some (y_gid cfg)) else file_read_uint32 PROC_OVERFLOW_GID)
    else hret None in
  do! upd_context ctx (set_gid gid) in
  hret (Some tt).

(** What a callee reads of [&ctx->dxcore]. *)
Fixpoint read_adapters (l : list c_adapter) : H (list dxcore_adapter) :=
  match l with
  | [] => hret []
  | a :: l' =>
      let! path := text (ad_path a) in
      let! r := read_adapters l' in
      hret (mkAdapter (ad_handle a) (ad_version a) (default EmptyString path) (ad_components a) :: r)
  end.

Definition read_dxcore (ctx : ptr) : H dxcore_context :=
  let! x := get_dxcore ctx in
  match x_count x with
  | O => hret (mkDxcore (x_initialized x) [])
  | n => let! l := load_adapters (x_adapters x) in
         let! l := read_adapters (take n l) in
         hret (mkDxcore (x_initialized x) l)
  end.

(** [nvc_init] from the kernel modules on. *)
Definition start_drivers (flags : Z) (ctx : ptr) (lib : statics) : H (statics * option unit) :=
  let! c := get_context ctx in
  let! root := text (x_root c) in
  let root := default EmptyString root in
  let!? _ := hlift (if has_flag flags OPT_LOAD_KMODS && negb (x_initialized (x_dxcore c)) then load_kernel_modules root
                    else ret (Some tt)) else hret (lib, None) in
  let! dx := read_dxcore ctx in
  let! d := hlift (driver_init dx root (x_uid c) (x_gid c)) in
  match snd d with
  | None => hret (mkStatics (fst d) (t_nvcgo lib) (t_log lib), None)
  | Some _ =>
      let! n := hlift nvcgo_init in
      hret (mkStatics (fst d) (fst n) (t_log lib), snd n)
  end.

(** [nvc_init] from the open log on. *)
Definition start_services (flags : Z) (ctx : ptr) (cfg : c_libconfig) (lib : statics) : H (statics * option unit) :=
  let fail := hret (lib, None) in
  let!? _ := copy_config ctx cfg else fail in
  let!? path := hlift (xsnprintf PATH_MAX (PROC_NS_PATH PROC_SELF "mnt")) else fail in
  let!? fd := hlift (xopen path (Z.lor O_RDONLY O_CLOEXEC)) else fail in
  do! upd_context ctx (set_mnt_ns fd) in
  let! r := dxcore_init_context ctx in
  let! none := match r with
               | None =>
                   let! x := get_dxcore ctx in
                   do! put_dxcore ctx (CDxcore false (x_adapters x) (x_count x)) in
                   hret false
               | Some _ => let! x := get_dxcore ctx in hret (x_count x =? 0)%nat
               end in
  if none then do! hlift (error_setx "WSL environment detected but no adapters were found") in fail
  else start_drivers flags ctx lib.

Definition nvc_init (lib : statics) (ctx cfg : ptr) (opts : option string) : H (statics * option unit) :=
  match ctx with
  | Null => hret (lib, None)
  | _ =>
      let! c := get_context ctx in
      if x_up c then hret (lib, Some tt)
      else
        let! cfg := match cfg with
                    | Null => hret (CLibConfig Null Null ID_NONE ID_NONE)
                    | _ => let! b := load cfg in match b with LibConfig y => hret y | _ => bad_pointer end
                    end in
        let! ldcache := text (y_ldcache cfg) in
        let! root := text (y_root cfg) in
        let!? _ := hlift (validate_args (negb (str_empty ldcache) && negb (str_empty root))) else hret (lib, None) in
        let!? flags := hlift (options_parse (default default_library_opts opts) library_opts) else hret (lib, None) in
        let! debug := hlift (call (EGetenv NVC_DEBUG_FILE)) in
        let! log := hlift (log_open (t_log lib) debug) in
        do! upd_context ctx (fun c => set_mnt_ns (-1) (set_config Null Null 0 0 c)) in
        let! r := start_services flags ctx cfg (mkStatics (t_driver lib) (t_nvcgo lib) log) in
        match snd r with
        | Some _ => do! upd_context ctx (set_up true) in hret (fst r, Some tt)
        | None =>
            let! c := get_context ctx in
            do! free (x_root c) in
            do! free (x_ldcache c) in
            do! hlift (xclose (x_mnt_ns c)) in
            hret (fst r, None)
        end
  end.

Definition nvc_shutdown (lib : statics) (ctx : ptr) : H (statics * option unit) :=
  match ctx with
  | Null => hret (lib, None)
  | _ =>
      let! n := hlift (nvcgo_shutdown (t_nvcgo lib)) in
      let! d := hlift (driver_shutdown (t_driver lib)) in
      let rv := match snd n, snd d with Some _, Some _ => Some tt | _, _ => None end in
      let! c := get_context ctx in
      if negb (x_up c) then hret (mkStatics (fst d) (fst n) (t_log lib), rv)
      else
        do! if x_initialized (x_dxcore c) then dxcore_deinit_context ctx else hret tt in
        let! c := get_context ctx in
        do! free (x_root c) in
        do! free (x_ldcache c) in
        do! hlift (xclose (x_mnt_ns c)) in
        do! upd_context ctx (fun c => set_up false (set_mnt_ns (-1) (set_config Null Null 0 0 c))) in
        hret (mkStatics (fst d) (fst n) false, rv)
  end.

(** ** Ownership *)

(** A string of the caller, or a constant. *)
Definition given (p : ptr) (o : option string) : hP :=
  (string_at p o ∨ <affine> ⌜exists s, p = Lit s /\ o = Some s⌝)%I.

Definition config_strings (y : c_libconfig) (a : config_arg) : hP :=
  (given (y_root y) (a_root a) ∗ given (y_ldcache y) (a_ldcache a) ∗ <affine> ⌜y_uid y = a_uid a /\ y_gid y = a_gid a⌝)%I.

(** The [struct nvc_config] of the caller, if there is one. *)
Definition config_at (p : ptr) (y : c_libconfig) (a : option config_arg) : hP :=
  match a with
  | None => <affine> ⌜p = Null⌝
  | Some a => owns p (LibConfig y) ∗ config_strings y a
  end%I.

Definition config_up (c : c_context) (k : nvc_config) : hP :=
  (string_at (x_root c) (Some (cfg_root k)) ∗ string_at (x_ldcache c) (Some (cfg_ldcache k)) ∗
   <affine> ⌜x_uid c = cfg_uid k /\ x_gid c = cfg_gid k⌝)%I.

Definition dxcore_up (x : c_dxcore) (dx : dxcore_context) : hP :=
  (<affine> ⌜x_initialized x = dx_initialized dx /\ x_count x = length (adapterList dx)⌝ ∗
   if dx_initialized dx then adapters_at (x_adapters x) (adapterList dx) else <affine> ⌜adapterList dx = []⌝)%I.

(** A context that is down owns nothing but itself. *)
Definition context_at (p : ptr) (ctx : nvc_context) : hP :=
  (∃ c, owns p (Context c) ∗
    <affine> ⌜x_up c = initialized ctx /\ x_mnt_ns c = mnt_ns ctx /\ x_no_pivot c = no_pivot ctx⌝ ∗
    if initialized ctx then config_up c (cfg ctx) ∗ dxcore_up (x_dxcore c) (dxcore ctx) else emp)%I.

(** Blocks nobody leads to any more. *)
Definition junk : hP := (∃ l : list (ptr * block), [∗ list] x ∈ l, owns x.1 x.2)%I.

(** Only adapters are lost. *)
Definition left_behind (dx : dxcore_context) : hP := if dx_initialized dx then junk else emp%I.

(** ** Facts *)

Lemma given_text {B C} p o k (m' : M C) (Q : B -> C -> hP) :
  given p o ∗ (given p o -∗ refines (k o) m' Q) ⊢ refines (hbind (text p) k) m' Q.
Proof.
  iIntros "[[Hp|%Hp] HQ]".
  - iApply step_text. iFrame "Hp". iIntros "Hp". iApply "HQ". by iLeft.
  - destruct Hp as (s & -> & ->). iApply step_ret. iApply "HQ". iRight. iPureIntro. by exists s.
Qed.

Lemma junk_nil : ⊢ junk. Proof. by iExists []. Qed.
Lemma junk_one p b : owns p b ⊢ junk. Proof. iIntros "H". iExists [(p, b)]. by iFrame. Qed.
Lemma junk_app : junk ∗ junk ⊢ junk.
Proof. iIntros "[(%l & H1) (%l' & H2)]". iExists (l ++ l'). iFrame. Qed.
Lemma junk_skipped : skipped ⊢ junk.
Proof.
  iIntros "(%l & H)". iInduction l as [|[p s] l IH]; [by iApply junk_nil|]. iDestruct "H" as "[Hp H]".
  iApply junk_app. iSplitL "Hp"; [by iApply junk_one|by iApply "IH"].
Qed.

Lemma junk_adapters p l : adapters_at p l ⊢ junk.
Proof.
  iIntros "[_|(%cs & %rest & Hp & Hcs)]"; [by iApply junk_nil|]. iApply junk_app. iSplitL "Hp"; [by iApply junk_one|].
  iInduction cs as [|c cs IH] forall (l).
  - iDestruct (big_sepL2_nil_inv_l with "Hcs") as %->. by iApply junk_nil.
  - iDestruct (big_sepL2_cons_inv_l with "Hcs") as (a l' ->) "[[Hc _] Hcs]". iApply junk_app.
    iSplitL "Hc"; [by iApply junk_one|by iApply "IH"].
Qed.

Lemma left_nothing dx : ⊢ left_behind dx.
Proof. rewrite /left_behind. destruct (dx_initialized dx); [by iApply junk_nil|done]. Qed.

(** *** The configuration *)

(** The strings, as far as they were made. *)
Definition copied (p : ptr) (c : c_context) (r : option unit) (r' : option nvc_config) : hP :=
  (∃ root ldcache uid gid, owns p (Context (set_config root ldcache uid gid c)) ∗
   match r, r' with
   | Some _, Some k => config_up (set_config root ldcache uid gid c) k
   | None, None => any_string root ∗ any_string ldcache
   | _, _ => False
   end)%I.

Lemma library_config_refines p c y a :
  x_root c = Null -> x_ldcache c = Null ->
  owns p (Context c) ∗ config_strings y a ⊢
  refines (copy_config p y) (Context.copy_config a) (fun r r' => copied p c r r' ∗ config_strings y a).
Proof.
  iIntros (Hr Hl) "[Hp (Hr & Hl & %Hids)]". destruct Hids as [Hu Hg]. rewrite /copy_config /Context.copy_config Hu Hg.
  iApply given_text. iFrame "Hr". iIntros "Hr". iApply step_new_string. iIntros (q [s|]) "Hq"; destruct q as [q|]; try done; iSimpl in "Hq".
  2:{ iClear "Hq". iApply step_upd_context. iFrame "Hp". iIntros "Hp". iApply refines_ret. iFrame "Hr Hl". iSplit; [|done].
      iExists _, _, _, _. iFrame "Hp". rewrite Hl. iSplitL; by iApply (string_any _ None). }
  iApply step_upd_context. iFrame "Hp". iIntros "Hp".
  iApply given_text. iFrame "Hl". iIntros "Hl". iApply step_new_string. iIntros (q2 [s2|]) "Hq2"; destruct q2 as [q2|]; try done; iSimpl in "Hq2".
  2:{ iClear "Hq2". iApply step_upd_context. iFrame "Hp". iIntros "Hp". iApply refines_ret. iFrame "Hr Hl". iSplit; [|done].
      iExists q, Null, _, _. iFrame "Hp". iSplitL "Hq"; [by iApply (string_any _ (Some s))|]. by iApply (string_any _ None). }
  iApply step_upd_context. iFrame "Hp". iIntros "Hp".
  iApply step_lift. iIntros ([uid|]).
  2:{ iApply refines_ret. iFrame "Hr Hl". iSplit; [|done]. iExists q, q2, _, _. iFrame "Hp".
      iSplitL "Hq"; [by iApply (string_any _ (Some s))|by iApply (string_any _ (Some s2))]. }
  iApply step_upd_context. iFrame "Hp". iIntros "Hp". iApply step_lift. iIntros ([gid|]).
  2:{ iApply refines_ret. iFrame "Hr Hl". iSplit; [|done]. iExists q, q2, _, _. iFrame "Hp".
      iSplitL "Hq"; [by iApply (string_any _ (Some s))|by iApply (string_any _ (Some s2))]. }
  iApply step_upd_context. iFrame "Hp". iIntros "Hp". iApply refines_ret. iFrame "Hr Hl". iSplit; [|done].
  iExists q, q2, uid, gid. iFrame "Hp". iFrame. by iPureIntro.
Qed.

(** *** The adapters *)

Lemma read_adapters_spec {A} cs l (Q : list dxcore_adapter -> A -> hP) a :
  ([∗ list] c;x ∈ cs;l, adapter_at c x) ∗ (([∗ list] c;x ∈ cs;l, adapter_at c x) -∗ Q l a) ⊢
  refines (read_adapters cs) (ret a) Q.
Proof.
  revert A l Q a. induction cs as [|c cs IH]; intros A l Q a; iIntros "[H HQ]"; simpl.
  - iDestruct (big_sepL2_nil_inv_l with "H") as %->. iApply refines_ret. by iApply "HQ".
  - iDestruct (big_sepL2_cons_inv_l with "H") as (x l' ->) "[[Hc %Hx] H]". destruct Hx as (Hx1 & Hx2 & Hx3).
    iApply step_text. iFrame "Hc". iIntros "Hc". iApply refines_step. iApply IH. iFrame "H". iIntros "H".
    iApply refines_ret. rewrite Hx1 Hx2 Hx3. destruct x. simpl in *. iApply "HQ". iFrame. by iPureIntro.
Qed.

Lemma read_dxcore_spec {A} p c dx (Q : dxcore_context -> A -> hP) a :
  owns p (Context c) ∗ dxcore_up (x_dxcore c) dx ∗ (owns p (Context c) -∗ dxcore_up (x_dxcore c) dx -∗ Q dx a) ⊢
  refines (read_dxcore p) (ret a) Q.
Proof.
  iIntros "(Hp & [%Hx Hd] & HQ)". destruct Hx as [Hi Hn]. rewrite /read_dxcore. iApply step_get_dxcore. iFrame "Hp". iIntros "Hp".
  rewrite Hi Hn. destruct dx as [init l]. cbn [dx_initialized adapterList] in *. destruct l as [|x l].
  { simpl. iApply refines_ret. iApply ("HQ" with "Hp"). iFrame. by iPureIntro. }
  destruct init; [|by iDestruct "Hd" as %?]. iDestruct "Hd" as "[%Hd|(%cs & %rest & Hl & Hcs)]"; [by destruct Hd|].
  iDestruct (big_sepL2_length with "Hcs") as %Hlen. rewrite -Hlen. destruct cs as [|y cs]; [done|].
  cbn [length]. rewrite /load_adapters. iApply refines_step. iApply step_load. iFrame "Hl". iIntros "Hl".
  iApply refines_ret. rewrite (take_app_length' (y :: cs)); [|done]. iApply refines_step. iApply read_adapters_spec. iFrame "Hcs". iIntros "Hcs".
  iApply refines_ret. iApply ("HQ" with "Hp"). iSplit; [by iPureIntro|]. iRight. iExists _, rest. iFrame.
Qed.

Lemma dxcore_left x dx : left_behind dx ∗ dxcore_up x dx ⊢ left_behind dx.
Proof.
  rewrite /left_behind. iIntros "[Hj [_ Hd]]". destruct (dx_initialized dx); [|by iDestruct "Hd" as %?].
  iApply junk_app. iFrame "Hj". by iApply junk_adapters.
Qed.

(** *** The services *)

(** What [start_services] leaves: everything the context needs, or the strings that
    [nvc_init] frees. *)
Definition services (p : ptr) (c0 : c_context) (lib : statics) (r : statics * option unit) (st : started) : hP :=
  (<affine> ⌜r.1 = mkStatics (s_driver st) (s_nvcgo st) (t_log lib)⌝ ∗ left_behind (s_dx st) ∗
   ∃ c, owns p (Context c) ∗
     <affine> ⌜x_up c = x_up c0 /\ x_mnt_ns c = s_ns st /\ x_no_pivot c = x_no_pivot c0⌝ ∗
     match r.2, s_cfg st with
     | Some _, Some k => config_up c k ∗ dxcore_up (x_dxcore c) (s_dx st)
     | None, None => any_string (x_root c) ∗ any_string (x_ldcache c)
     | _, _ => False
     end)%I.

Lemma config_up_any c k : config_up c k ⊢ any_string (x_root c) ∗ any_string (x_ldcache c).
Proof. iIntros "(Hr & Hl & _)". iSplitL "Hr"; by iApply string_any. Qed.

(** A failure behind the adapters. *)
Lemma services_failed p c0 lib r dx ns d n c k :
  r = (mkStatics d n (t_log lib), None) -> x_up c = x_up c0 -> x_mnt_ns c = ns -> x_no_pivot c = x_no_pivot c0 ->
  owns p (Context c) ∗ config_up c k ∗ dxcore_up (x_dxcore c) dx ∗ left_behind dx ⊢
  services p c0 lib r (mkStarted ns dx d n None).
Proof.
  iIntros (-> Hu Hm Hn) "(Hp & Hk & Hd & Hl)". iSplit; [done|]. iSplitL "Hl Hd"; [iApply dxcore_left; iFrame|].
  iExists c. iFrame "Hp". iSplit; [done|]. by iApply config_up_any.
Qed.

(** A failure before them. *)
Lemma services_early p c0 lib dx ns c :
  x_up c = x_up c0 -> x_mnt_ns c = ns -> x_no_pivot c = x_no_pivot c0 ->
  owns p (Context c) ∗ any_string (x_root c) ∗ any_string (x_ldcache c) ⊢
  services p c0 lib (lib, None) (mkStarted ns dx (t_driver lib) (t_nvcgo lib) None).
Proof.
  iIntros (Hu Hm Hn) "[Hp Hs]". destruct lib. iSplit; [done|]. iSplitR; [iApply left_nothing|].
  iExists c. iFrame "Hp". by iFrame.
Qed.

Lemma dxcore_off x : x_initialized x = false -> x_count x = O -> ⊢ dxcore_up x (mkDxcore false []).
Proof. intros Hi Hc. rewrite /dxcore_up /=. iSplit; by iPureIntro. Qed.

Lemma start_drivers_refines flags p c0 c lib dx k ns :
  x_up c = x_up c0 -> x_mnt_ns c = ns -> x_no_pivot c = x_no_pivot c0 ->
  owns p (Context c) ∗ config_up c k ∗ dxcore_up (x_dxcore c) dx ∗ left_behind dx ⊢
  refines (start_drivers flags p lib)
    (let? _ := (if has_flag flags OPT_LOAD_KMODS && negb (dx_initialized dx) then load_kernel_modules (cfg_root k)
                else ret (Some tt)) else ret (mkStarted ns dx (t_driver lib) (t_nvcgo lib) None) in
     let* d := driver_init dx (cfg_root k) (cfg_uid k) (cfg_gid k) in
     match d with
     | (d, None) => ret (mkStarted ns dx d (t_nvcgo lib) None)
     | (d, Some _) =>
         let* n := nvcgo_init in
         match n with
         | (n, None) => ret (mkStarted ns dx d n None)
         | (n, Some _) => ret (mkStarted ns dx d n (Some k))
         end
     end)
    (services p c0 lib).
Proof.
  iIntros (Hu Hm Hn) "(Hp & (Hr & Hl & %Hids) & Hd & Hj)". destruct Hids as [Huid Hgid]. rewrite /start_drivers.
  iApply step_get_context. iFrame "Hp". iIntros "Hp". iApply step_text. iFrame "Hr". iIntros "Hr". iSimpl.
  iDestruct "Hd" as "[%Hx Hd]". iAssert (dxcore_up (x_dxcore c) dx) with "[Hd]" as "Hd"; [by iFrame|].
  destruct Hx as [-> _]. iApply step_lift. iIntros ([u|]).
  2:{ iApply refines_ret. iApply (services_failed _ _ _ _ _ _ _ _ c k); [by destruct lib|done..|]. iFrame. by iPureIntro. }
  iApply refines_step. iApply read_dxcore_spec. iFrame "Hp Hd". iIntros "Hp Hd". rewrite Huid Hgid.
  iApply step_lift. iIntros ([d [u2|]]); cbn [fst snd].
  2:{ iApply refines_ret. iApply (services_failed _ _ _ _ _ _ _ _ c k); [done..|]. iFrame. by iPureIntro. }
  iApply step_lift. iIntros ([n [u3|]]); cbn [fst snd]; iApply refines_ret.
  - iSplit; [done|]. iFrame "Hj". iExists c. iFrame. by iPureIntro.
  - iApply (services_failed _ _ _ _ _ _ _ _ c k); [done..|]. iFrame. by iPureIntro.
Qed.

Lemma empty_count (dx : dxcore_context) : (length (adapterList dx) =? 0)%nat = match adapterList dx with [] => true | _ => false end.
Proof. by destruct (adapterList dx). Qed.

Lemma start_services_refines flags p c0 y a lib dx0 :
  x_root c0 = Null -> x_ldcache c0 = Null -> x_mnt_ns c0 = -1 ->
  owns p (Context c0) ∗ config_strings y a ⊢
  refines (start_services flags p y lib) (Context.start_services flags a dx0 (t_driver lib) (t_nvcgo lib))
    (fun r st => services p c0 lib r st ∗ config_strings y a).
Proof.
  iIntros (Hr Hl Hm) "[Hp Hy]". rewrite /start_services /Context.start_services. cbv zeta.
  iApply refines_bind. iApply (refines_wand with "[Hp Hy]"); [iApply library_config_refines; [done|done|]; iFrame|].
  iIntros (r r') "[(%root & %ld & %uid & %gid & Hp & Hr) Hy]". destruct r as [u|], r' as [k|]; try (by iDestruct "Hr" as %[]).
  2:{ iApply refines_ret. iFrame "Hy". iApply (services_early with "[$Hp $Hr]"); done. }
  iApply step_lift. iIntros ([path|]).
  2:{ iApply refines_ret. iFrame "Hy". iDestruct (config_up_any with "Hr") as "Hr".
      iApply (services_early with "[$Hp $Hr]"); done. }
  iApply step_lift. iIntros ([fd|]).
  2:{ iApply refines_ret. iFrame "Hy". iDestruct (config_up_any with "Hr") as "Hr".
      iApply (services_early with "[$Hp $Hr]"); done. }
  iApply step_upd_context. iFrame "Hp". iIntros "Hp".
  iApply refines_bind. iApply (refines_wand with "[Hp]"); [by iApply dxcore_init_context_refines|].
  iIntros (r r') "Hd". iApply (refines_wand _ _ (services p c0 lib) with "[Hd Hr] [Hy]"); [|iIntros (r0 st) "$"; iFrame].
  destruct r as [u2|], r' as [dx|]; try done; iSimpl in "Hd".
  - iDestruct "Hd" as "(%Hi & (%list & Hp & Hd) & Hs)". iApply refines_assoc. iApply step_get_dxcore. iFrame "Hp". iIntros "Hp".
    iApply step_ret. cbn [default from_option id set_dxcore x_dxcore x_count]. rewrite empty_count {1}Hi.
    iAssert (left_behind dx) with "[Hs]" as "Hj"; [rewrite /left_behind Hi; by iApply junk_skipped|].
    iAssert (dxcore_up (CDxcore true list (length (adapterList dx))) dx) with "[Hd]" as "Hd".
    { rewrite /dxcore_up Hi. by iFrame. }
    destruct (match adapterList dx with [] => true | _ => false end); simpl andb; cbv iota.
    + iApply step_lift. iIntros (e). iApply refines_ret.
      iApply (services_failed _ _ _ _ _ _ _ _ (set_dxcore _ _) k with "[$Hp $Hr $Hd $Hj]"); try done. by destruct lib.
    + iApply (start_drivers_refines with "[$Hp $Hr $Hd $Hj]"); done.
  - iDestruct "Hd" as "(%list & Hp)". iApply refines_assoc. iApply step_get_dxcore. iFrame "Hp". iIntros "Hp".
    iApply refines_assoc. iApply step_upd_context. iFrame "Hp". iIntros "Hp". iApply step_ret. iSimpl.
    iApply (start_drivers_refines with "[$Hp $Hr]"); [done..|]. iSplitL; [by iApply dxcore_off|done].
Qed.

(** *** The functions of the interface *)

(** What a call leaves: the statics and the context of [lib'], and what was lost. *)
Definition library_at (p : ptr) (lib : library) (l : statics) : hP :=
  (<affine> ⌜l = statics_of lib⌝ ∗ context_at p (l_ctx lib))%I.

Definition answered (p : ptr) (r : statics * option unit) (r' : library * option unit) : hP :=
  (<affine> ⌜r.2 = r'.2⌝ ∗ library_at p r'.1 r.1)%I.

Lemma nvc_context_new_refines :
  ⊢ refines nvc_context_new Context.nvc_context_new
    (fun r r' => match r, r' with Some p, Some ctx => <affine> ⌜initialized ctx = false⌝ ∗ context_at p ctx | None, None => emp | _, _ => False end).
Proof.
  rewrite /nvc_context_new /ccalloc /Context.nvc_context_new /calloc. iApply refines_lift_bind.
  iApply step_lift. iIntros ([]).
  - iApply (step_ret (Some tt)). iApply step_malloc. iIntros (p) "Hp". iApply refines_ret. iSplit; [done|]. iExists _. iFrame "Hp". by iSplit.
  - iApply refines_lift_bind. iApply step_lift. iIntros (u). iApply (step_ret None). by iApply refines_ret.
Qed.

Lemma nvc_config_new_refines :
  ⊢ refines nvc_config_new Context.nvc_config_new
    (fun r r' => match r, r' with Some p, Some a => config_at p (CLibConfig Null Null ID_NONE ID_NONE) (Some a) | None, None => emp | _, _ => False end).
Proof.
  rewrite /nvc_config_new /ccalloc /Context.nvc_config_new /calloc. iApply refines_assoc. iApply refines_lift_bind.
  iApply step_lift. iIntros ([]).
  - iApply (step_ret (Some tt)). iApply refines_assoc. iApply step_malloc. iIntros (p) "Hp". iApply step_ret.
    iApply step_store. iFrame "Hp". iIntros "Hp". iApply refines_ret. iFrame "Hp".
    iSplitL; [by iLeft|]. iSplitL; [by iLeft|]. done.
  - iApply refines_lift_bind. iApply step_lift. iIntros (u). iApply (step_ret None). iApply step_ret. by iApply refines_ret.
Qed.

Lemma nvc_context_free_spec p ctx :
  initialized ctx = false ->
  context_at p ctx ⊢ refines (nvc_context_free p) error_reset (fun _ _ => emp).
Proof.
  iIntros (Hi) "(%c & Hp & _ & Hc)". rewrite Hi. iDestruct (owns_at with "Hp") as "[(%l & ->) Hp]". rewrite /nvc_context_free.
  iApply refines_lift_tail. iIntros (u). iApply owns_free. by iFrame.
Qed.

Lemma config_at_load {A} p y a (Q : c_libconfig -> A -> hP) b :
  owns p (LibConfig y) ∗ config_strings y a ∗ (owns p (LibConfig y) -∗ config_strings y a -∗ Q y b) ⊢
  refines (match p with
           | Null => hret (CLibConfig Null Null ID_NONE ID_NONE)
           | _ => let! b := load p in match b with LibConfig y => hret y | _ => bad_pointer end
           end) (ret b) Q.
Proof.
  iIntros "(Hp & Hy & HQ)". iDestruct (owns_at with "Hp") as "[(%l & ->) Hp]". iApply step_load. iFrame "Hp". iIntros "Hp".
  iApply refines_ret. by iApply ("HQ" with "Hp").
Qed.

(** The configuration that [nvc_init] uses, which may be its own. *)
Lemma step_config {B C} p z a k (m' : M C) (Q : B -> C -> hP) :
  config_at p z a ∗
  (∀ y, config_strings y (default (mkConfigArg None None ID_NONE ID_NONE) a) -∗
        (config_strings y (default (mkConfigArg None None ID_NONE ID_NONE) a) -∗ config_at p z a) -∗ refines (k y) m' Q) ⊢
  refines (hbind match p with
                 | Null => hret (CLibConfig Null Null ID_NONE ID_NONE)
                 | _ => let! b := load p in match b with LibConfig y => hret y | _ => bad_pointer end
                 end k) m' Q.
Proof.
  iIntros "[Hp HQ]". iApply refines_step. destruct a as [a|]; simpl.
  - iDestruct "Hp" as "[Hp Hy]". iApply config_at_load. iFrame "Hp Hy". iIntros "Hp Hy".
    iApply ("HQ" with "Hy"). iIntros "Hy". iFrame.
  - iDestruct "Hp" as %->. iApply refines_ret. iApply "HQ".
    + iSplitL; [by iLeft|]. iSplitL; [by iLeft|]. done.
    + iIntros "(Hr & Hl & _)". iDestruct "Hr" as "[Hr|%Hr]"; [|by destruct Hr as (?&?&?)].
      iDestruct "Hl" as "[Hl|%Hl]"; [|by destruct Hl as (?&?&?)]. simpl. iDestruct "Hr" as %?. by iDestruct "Hl" as %?.
Qed.

Lemma step_free_strings {B C} r l k (m' : M C) (Q : B -> C -> hP) :
  any_string r ∗ any_string l ∗ refines k m' Q ⊢ refines (do! free r in do! free l in k) m' Q.
Proof. iIntros "(Hr & Hl & HQ)". iApply step_free_string. iFrame "Hr". iApply step_free_string. iFrame. Qed.

Lemma nvc_init_refines p lib cfgp z a opts :
  context_at p (l_ctx lib) ∗ config_at cfgp z a ⊢
  refines (nvc_init (statics_of lib) p cfgp opts) (Context.nvc_init lib a opts)
    (fun r r' => answered p r r' ∗ config_at cfgp z a ∗ left_behind (dxcore (l_ctx r'.1))).
Proof.
  iIntros "[Hc Hy]".
  iAssert (∀ rv, context_at p (l_ctx lib) -∗ config_at cfgp z a -∗ refines (hret (statics_of lib, rv)) (ret (lib, rv))
    (fun r r' => answered p r r' ∗ config_at cfgp z a ∗ left_behind (dxcore (l_ctx r'.1))))%I as "Hsame".
  { iIntros (rv) "Hc Hy". iApply refines_ret. iFrame "Hy". iSplitL; [iSplit; [done|]; by iFrame|iApply left_nothing]. }
  iDestruct "Hc" as "(%c & Hp & %Hx & Hc)". destruct Hx as (Hu & Hm & Hn). rewrite /nvc_init /Context.nvc_init.
  iDestruct (owns_at with "Hp") as "[(%l & ->) Hp]". iApply step_get_context. iFrame "Hp". iIntros "Hp". rewrite Hu. cbv zeta.
  destruct (initialized (l_ctx lib)) eqn:Hi.
  { iApply ("Hsame" with "[Hp Hc] Hy"). iExists c. rewrite Hi. iFrame. by iPureIntro. }
  iDestruct "Hc" as "_".
  iAssert (owns (At l) (Context c) -∗ context_at (At l) (l_ctx lib))%I as "Hdown".
  { iIntros "Hp". iExists c. rewrite Hi. iFrame. by iPureIntro. }
  iApply step_config. iFrame "Hy". iIntros (y) "Hy Hback". set (b := default _ a).
  iDestruct "Hy" as "(Hr & Hl & Hids)". iApply given_text. iFrame "Hl". iIntros "Hl". iApply given_text. iFrame "Hr". iIntros "Hr".
  iAssert (config_strings y b) with "[Hr Hl Hids]" as "Hy"; [iFrame|].
  iApply step_lift. iIntros ([u|]); [|iApply ("Hsame" with "[Hp Hdown] [Hy Hback]"); [by iApply "Hdown"|by iApply "Hback"]].
  iApply step_lift. iIntros ([fl|]); [|iApply ("Hsame" with "[Hp Hdown] [Hy Hback]"); [by iApply "Hdown"|by iApply "Hback"]].
  iClear "Hsame Hdown". iApply step_lift. iIntros (debug). iApply step_lift. iIntros (log).
  iApply step_upd_context. iFrame "Hp". iIntros "Hp". set (c0 := set_mnt_ns _ _).
  set (lib0 := mkStatics (l_driver lib) (l_nvcgo lib) log).
  iApply refines_bind. iApply (refines_wand with "[Hp Hy]").
  { iApply (start_services_refines fl (At l) c0 y b lib0); [done..|]. iFrame. }
  iIntros ([ls rv] [ns dx d n k]) "[(%Hls & Hj & (%c1 & Hp & %Hc1 & Hc)) Hy]". iSpecialize ("Hback" with "Hy").
  cbn [fst snd s_cfg s_ns s_dx s_driver s_nvcgo] in *. subst ls. destruct Hc1 as (Hu1 & Hm1 & Hn1).
  destruct rv as [[]|], k as [k|]; try (by iDestruct "Hc" as %[]).
  - iApply step_upd_context. iFrame "Hp". iIntros "Hp". iApply refines_ret. iFrame "Hback Hj". iSplit; [done|]. iSplit; [done|].
    iExists _. iFrame "Hp". iSplit; [iPureIntro; split_and!; [done|done|]; cbn; by rewrite Hn1|]. done.
  - iApply step_get_context. iFrame "Hp". iIntros "Hp". iDestruct "Hc" as "[Hr Hl]". iApply step_free_strings. iFrame "Hr Hl".
    rewrite Hm1. iApply step_lift. iIntros (u1). iApply refines_ret. iFrame "Hback Hj". iSplit; [done|]. iSplit; [done|].
    iExists _. iFrame "Hp". iSplit; [iPureIntro; split_and!; [by rewrite Hu1|done|]; cbn; by rewrite Hn1|]. done.
Qed.

Lemma with_adapters_of p c dx :
  dx_initialized dx = true ->
  owns p (Context c) ∗ dxcore_up (x_dxcore c) dx ⊢ with_adapters p c true (adapterList dx).
Proof.
  iIntros (Hi) "[Hp [%Hx Hd]]". rewrite Hi in Hx |- *. destruct Hx as [Hx Hn]. destruct c as [? ? ? ? ? ? ? [xi list n]].
  cbn [x_dxcore x_initialized x_count x_adapters] in *. subst. iExists list. iFrame.
Qed.

Lemma nvc_shutdown_refines p lib :
  context_at p (l_ctx lib) ⊢
  refines (nvc_shutdown (statics_of lib) p) (Context.nvc_shutdown lib)
    (fun r r' => <affine> ⌜initialized (l_ctx r'.1) = false⌝ ∗ answered p r r').
Proof.
  iIntros "(%c & Hp & %Hx & Hc)". destruct Hx as (Hu & Hm & Hn). rewrite /nvc_shutdown /Context.nvc_shutdown.
  iDestruct (owns_at with "Hp") as "[(%l & ->) Hp]". iApply step_lift. iIntros (n). iApply step_lift. iIntros (d). cbv zeta.
  iApply step_get_context. iFrame "Hp". iIntros "Hp". rewrite Hu. destruct (initialized (l_ctx lib)) eqn:Hi; simpl negb; cbv iota.
  2:{ iApply refines_ret. iSplit; [done|]. iSplit; [done|]. iSplit; [done|]. iExists c. rewrite /= Hi. iFrame. by iPureIntro. }
  iDestruct "Hc" as "[Hk Hd]".
  iAssert (∀ x, owns (At l) (Context (set_dxcore x c)) -∗ config_up c (cfg (l_ctx lib)) -∗
    refines (let! c := get_context (At l) in do! free (x_root c) in do! free (x_ldcache c) in
             do! hlift (xclose (x_mnt_ns c)) in
             do! upd_context (At l) (fun c => set_up false (set_mnt_ns (-1) (set_config Null Null 0 0 c))) in
             hret (mkStatics (fst d) (fst n) false, match snd n, snd d with Some _, Some _ => Some tt | _, _ => None end))
      (do xclose (mnt_ns (l_ctx lib)) in
       ret (mkLibrary (mkContext false no_config (-1) (no_pivot (l_ctx lib)) (mkDxcore false (adapterList (dxcore (l_ctx lib)))))
              (fst d) (fst n) false, match snd n, snd d with Some _, Some _ => Some tt | _, _ => None end))
      (fun r r' => <affine> ⌜initialized (l_ctx r'.1) = false⌝ ∗ answered (At l) r r'))%I as "Hend".
  { iIntros (x) "Hp Hk". iApply step_get_context. iFrame "Hp". iIntros "Hp". iDestruct (config_up_any with "Hk") as "[Hr Hl]".
    iApply step_free_strings. iFrame "Hr Hl". iEval (cbn [set_dxcore x_mnt_ns]). rewrite Hm. iApply step_lift. iIntros (u).
    iApply step_upd_context. iFrame "Hp". iIntros "Hp". iApply refines_ret. iSplit; [done|]. iSplit; [done|]. iSplit; [done|].
    iExists _. iFrame "Hp". iSplit; [|done]. iPureIntro. split_and!; [done..|]. cbn. by rewrite Hn. }
  iAssert (<affine> ⌜x_initialized (x_dxcore c) = dx_initialized (dxcore (l_ctx lib))⌝ ∗
    dxcore_up (x_dxcore c) (dxcore (l_ctx lib)))%I with "[Hd]" as "[%Hxi Hd]".
  { iDestruct "Hd" as "[%Hx Hd]". iSplit; [iPureIntro; apply Hx|]. by iFrame. }
  rewrite Hxi. destruct (dx_initialized (dxcore (l_ctx lib))) eqn:Hd.
  - iApply refines_step. iApply deinit_spec. iSplitL "Hp Hd"; [by iApply with_adapters_of; [|iFrame]|]. iIntros (list) "Hp".
    iApply ("Hend" with "Hp Hk").
  - iDestruct "Hd" as "[_ Hd]". rewrite Hd. iDestruct "Hd" as %?. iApply step_ret. iApply ("Hend" $! (x_dxcore c) with "[Hp] Hk").
    by destruct c.
Qed.

(** ** A program that uses the library *)

Inductive life_call := Init (opts : option string) | Shutdown.

(** Initialising and shutting down, in any order; the answers. *)
Fixpoint calls (lib : statics) (ctx cfg : ptr) (rs : list life_call) : H (statics * list (option unit)) :=
  match rs with
  | [] => hret (lib, [])
  | r :: rs' =>
      let! q := match r with Init opts => nvc_init lib ctx cfg opts | Shutdown => nvc_shutdown lib ctx end in
      let! q' := calls (fst q) ctx cfg rs' in
      hret (fst q', snd q :: snd q')
  end.

(** The same on values: the states of the library, the last one first. *)
Fixpoint calls_of (libs : list library) (lib : library) (a : config_arg) (rs : list life_call)
  : M (list library * library * list (option unit)) :=
  match rs with
  | [] => ret (libs, lib, [])
  | r :: rs' =>
      let* q := match r with Init opts => Context.nvc_init lib (Some a) opts | Shutdown => Context.nvc_shutdown lib end in
      let* q' := calls_of (fst q :: libs) (fst q) a rs' in
      ret (fst q', snd q :: snd q')
  end.

Definition lit (o : option string) : ptr := match o with Some s => Lit s | None => Null end.

(** A context and a configuration with constants, some calls, and everything is
    given up again. *)
Definition session (lib : statics) (a : config_arg) (rs : list life_call) : H (list (option unit)) :=
  let!? ctx := nvc_context_new else hret [] in
  let!? cfg := nvc_config_new else do! nvc_context_free ctx in hret [] in
  do! store cfg (LibConfig (CLibConfig (lit (a_root a)) (lit (a_ldcache a)) (a_uid a) (a_gid a))) in
  let! r := calls lib ctx cfg rs in
  let! q := nvc_shutdown (fst r) ctx in
  do! nvc_config_free cfg in
  do! nvc_context_free ctx in
  hret (snd r ++ [snd q]).

Definition session_of (d : driver_global) (n : nvcgo_global) (log : bool) (a : config_arg) (rs : list life_call)
  : M (list library * list (option unit)) :=
  let? ctx := Context.nvc_context_new else ret ([], []) in
  let? _ := Context.nvc_config_new else do error_reset in ret ([], []) in
  let* r := calls_of [] (mkLibrary ctx d n log) a rs in
  let* q := Context.nvc_shutdown (snd (fst r)) in
  do error_reset in
  ret (fst (fst r), snd r ++ [snd q]).

(** Whether [libdxcore.so] was ever there. *)
Definition under_wsl (libs : list library) : bool := existsb (fun lib => dx_initialized (dxcore (l_ctx lib))) libs.

Definition lost_adapters (libs : list library) : hP := if under_wsl libs then junk else emp%I.

Lemma lost_adapters_cons lib libs :
  left_behind (dxcore (l_ctx lib)) ∗ lost_adapters libs ⊢ lost_adapters (lib :: libs).
Proof.
  rewrite /lost_adapters /left_behind /under_wsl /=. iIntros "[H1 H2]". destruct (dx_initialized _), (existsb _ _); simpl; try done.
  iApply junk_app. iFrame.
Qed.

Lemma calls_refines p cfgp z a rs libs lib :
  context_at p (l_ctx lib) ∗ config_at cfgp z (Some a) ∗ lost_adapters libs ⊢
  refines (calls (statics_of lib) p cfgp rs) (calls_of libs lib a rs)
    (fun r r' => <affine> ⌜r.2 = r'.2⌝ ∗ library_at p r'.1.2 r.1 ∗ config_at cfgp z (Some a) ∗ lost_adapters r'.1.1).
Proof.
  iIntros "(Hc & Hy & Hl)". iInduction rs as [|r rs IH] forall (libs lib); cbn [calls calls_of].
  { iApply refines_ret. iFrame. by iPureIntro. }
  iApply refines_bind. iApply (refines_wand _ _ (fun q q' => answered p q q' ∗ config_at cfgp z (Some a) ∗ lost_adapters (q'.1 :: libs))%I
    with "[Hc Hy Hl]").
  - destruct r as [opts|].
    + iApply (refines_wand with "[Hc Hy]"); [iApply nvc_init_refines; iFrame|]. iIntros (q q') "($ & $ & Hj)".
      iApply lost_adapters_cons. iFrame.
    + iApply (refines_wand with "[Hc]"); [by iApply nvc_shutdown_refines|]. iIntros (q q') "[_ $]". iFrame "Hy".
      iApply lost_adapters_cons. iFrame. iApply left_nothing.
  - iIntros (q q') "((%Hq & -> & Hc) & Hy & Hl)". iApply refines_bind. iApply (refines_wand with "[-]").
    { iApply ("IH" with "Hc Hy Hl"). }
    iIntros (q1 q1') "(%Hq1 & Hc & Hy & Hl)". iApply refines_ret. cbn [fst snd]. rewrite Hq Hq1. by iFrame.
Qed.

Lemma nvc_config_free_spec {A} p y (Q : unit -> A -> hP) a :
  owns p (LibConfig y) ∗ Q tt a ⊢ refines (nvc_config_free p) (ret a) Q.
Proof. iIntros "[Hp HQ]". iDestruct (owns_at with "Hp") as "[(%l & ->) Hp]". iApply owns_free. iFrame. Qed.

Lemma given_lit o : ⊢ given (lit o) o.
Proof. destruct o as [s|]; [|by iLeft]. iRight. iPureIntro. by exists s. Qed.

(** Of a configuration with constants only the block is the program's. *)
Definition constants (a : config_arg) : c_libconfig := CLibConfig (lit (a_root a)) (lit (a_ldcache a)) (a_uid a) (a_gid a).

Lemma given_constant o o' : given (lit o) o' ⊢ emp.
Proof.
  iIntros "[H|%H]"; [|done]. destruct o as [s|]; simpl.
  - destruct o' as [s'|]; simpl; [by iDestruct (owns_lit with "H") as %[]|by iDestruct "H" as %?].
  - destruct o' as [s'|]; simpl; [by iDestruct (owns_null with "H") as %[]|by iDestruct "H" as %?].
Qed.

Lemma session_refines d n log a rs :
  ⊢ refines (session (mkStatics d n log) a rs) (session_of d n log a rs)
      (fun r r' => <affine> ⌜r = r'.2⌝ ∗ lost_adapters r'.1).
Proof.
  rewrite /session /session_of. iApply refines_bind. iApply refines_wand; [iApply nvc_context_new_refines|].
  iIntros ([ctx|] [c|]) "Hc"; try done; [|by iApply refines_ret]. iDestruct "Hc" as "[%Hdown Hc]".
  iApply refines_bind. iApply refines_wand; [iApply nvc_config_new_refines|]. iIntros ([cfg|] [z|]) "Hz"; try done.
  2:{ iClear "Hz". iApply refines_bind. iApply (refines_wand with "[Hc]"); [by iApply nvc_context_free_spec|].
      iIntros (_ _) "_". by iApply refines_ret. }
  iDestruct "Hz" as "[Hz (H1 & H2 & _)]". iDestruct (given_constant None with "H1") as "_".
  iDestruct (given_constant None with "H2") as "_". iApply step_store. iFrame "Hz". iIntros "Hz".
  iApply refines_bind. iApply (refines_wand with "[Hc Hz]").
  { iApply (calls_refines ctx cfg (constants a) a rs [] (mkLibrary c d n log)). iFrame "Hc Hz".
    iSplitL; [iApply given_lit|]. iSplitL; [iApply given_lit|]. done. }
  iIntros (r r') "(%Hr & [-> Hc] & [Hz (H1 & H2 & _)] & Hl)". iDestruct (given_constant with "H1") as "_".
  iDestruct (given_constant with "H2") as "_".
  iApply refines_bind. iApply (refines_wand with "[Hc]"); [by iApply nvc_shutdown_refines|].
  iIntros (q q') "(%Hdown' & %Hq & _ & Hc)". iApply refines_step. iApply nvc_config_free_spec. iFrame "Hz".
  iApply refines_bind. iApply (refines_wand with "[Hc]"); [by iApply nvc_context_free_spec|]. iIntros (_ _) "_".
  iApply refines_ret. cbn [fst snd]. rewrite Hr Hq. by iFrame.
Qed.

(** C17: a program that makes a context and a configuration, initialises the library
    and shuts it down however often and in any order, and frees both, does what the
    same calls do on values, whatever fails on the way; and unless [libdxcore.so]
    was there, it ends with the heap it began with. *)
Theorem library_session_memory (d : driver_global) (n : nvcgo_global) (log : bool) (a : config_arg)
    (rs : list life_call) (o : env) (s : st) (h : heap block) :
  match exec o (session_of d n log a rs) s with
  | (t, Done (s', (libs, rvs))) =>
      exists h', exec o (session (mkStatics d n log) a rs h) s = (t, Done (s', (h' ∪ h, rvs))) /\ h' ##ₘ h /\
        (under_wsl libs = false -> h' = ∅)
  | (_, Halted (Undefined _)) => True
  | (t, Halted w) => exec o (session (mkStatics d n log) a rs h) s = (t, Halted w)
  end.
Proof.
  pose proof (refines_run _ _ emp%I _ ∅ h s o (session_refines d n log a rs) eq_refl (map_disjoint_empty_l h)) as Hx.
  rewrite map_empty_union in Hx. destruct (exec o (session_of _ _ _ _ _) s) as [t [[s' [libs rvs]]|w]]; [|exact Hx].
  destruct Hx as (r & h' & He & Hd & Hh). apply holds_pure_sep in Hh as [Hr Hh]. cbn [fst snd] in *. subst r.
  exists h'. split_and!; [done..|]. intros Hw. rewrite /lost_adapters Hw in Hh. exact Hh.
Qed.
End Contexts.

Definition demo_session : list life_call := [Shutdown; Init None; Init None; Shutdown; Init (Some "nonsense"); Init None].

(** A heap that has something of somebody else. *)
Definition demo_heap : heap block := {[ 1%N := Chars "not the library's" ]}.

Lemma library_session_memory_witness :
  exists t s', exec demo_library_host (session (mkStatics driver_zero (mkNvcgoGlobal rpc_zero false) false)
      (mkConfigArg None None 0 0) demo_session demo_heap) init_st
    = (t, Done (s', (demo_heap, [Some tt; Some tt; Some tt; Some tt; None; Some tt; Some tt]))).
Proof.
  pose proof (library_session_memory driver_zero (mkNvcgoGlobal rpc_zero false) false (mkConfigArg None None 0 0)
    demo_session demo_library_host init_st demo_heap) as H.
  remember (exec demo_library_host (session_of _ _ _ _ _) init_st) as x eqn:Hx. vm_compute in Hx. subst x.
  destruct H as (h' & He & _ & Hw). rewrite (Hw eq_refl) map_empty_union in He. do 2 eexists. exact He.
Defined.
