(* ===== verification/Kmods.v ===== *)
(** * What loading the kernel modules does

    [load_kernel_modules] of [src/src/nvc.c] with the functions of
    [nvidia-modprobe] it calls: what the process does and what its child does. *)
From S2P Require Import Prelude CString Scanf Effects Logic Errors Options Utils Types Paths Files Devices Pci Modprobe Ldcache Driver Cgroup Info Container Mount Dxcore Rpc Ldconfig Context.

(** Whether the process is a child, has the root of the driver and is in it. *)
Record kmods := mkKmods { km_child : bool; km_rooted : bool; km_inside : bool }.

Section Kmods.
Variable root : string.

Definition kmods_step (g : kmods) (ev : event) : kmods :=
  match ev with
  | Event (EFork _) (SOk 0%N) => mkKmods true (km_rooted g) (km_inside g)
  | Event (EChroot q) (SOk _) => mkKmods (km_child g) (str_equal q root || km_rooted g) (km_inside g)
  | Event (EChdir q) (SOk _) => mkKmods (km_child g) (km_rooted g) ((str_equal q "/" && km_rooted g) || km_inside g)
  | _ => g
  end.

(** A child that sees the files of the driver. *)
Definition settled_in (g : kmods) : Prop := km_child g = true /\ (root = "/" \/ km_inside g = true).

Definition kernel_modules : list string := [NV_NVIDIA_MODULE_NAME; NV_UVM_MODULE_NAME; NV_MODESET_MODULE_NAME].

(** The process itself reads, forks and waits.  Its child goes to the root of the
    driver before anything else, makes nodes of [/dev/nvidia...] only, and
    executes [modprobe] only, with the name of one of the three modules. *)
Definition kmods_event (g : kmods) (ev : event) : Prop :=
  match ev_call ev with
  | EMknod q _ _ | EChmod q _ | EChown q _ _ | ERemove q | EMkdir q _ => settled_in g /\ dev_nvidia q = true
  | EExecle _ argv envp =>
      settled_in g /\ (exists m, m ∈ kernel_modules /\ argv = ["modprobe"; m]) /\ envp = ["PATH=/sbin"]
  | EChroot q => km_child g = true /\ q = root
  | EChdir q => km_child g = true /\ q = "/"
  | EFork _ | EWaitpid _ => km_child g = false \/ settled_in g
  | EDup2 _ _ | EGeteuid => settled_in g
  | ECapSetProc _ | EPrctl _ _ => settled_in g
  | ECapGetProc => True
  | _ => only [KLib; KRead] ev \/ settled_in g /\ only [KProc; KCred] ev /\
         match ev_call ev with EExec _ _ | EFexec _ _ | EKill _ _ => False | _ => True end
  end.

Abbreviation kloads := (guarded kmods_step kmods_event).

Lemma settled_stays g ev : settled_in g -> settled_in (kmods_step g ev).
Proof.
  destruct g as [c r i], ev as [e ans]. unfold settled_in. simpl.
  intros [-> Hi]. destruct e; try done; destruct ans as [a|a]; simpl; try done.
  - split; [done|]. destruct Hi as [Hi|Hi]; [by left|right]. subst. apply orb_true_r.
  - by destruct a.
Qed.

(** A part of the child. *)
Lemma settled_part {A} P H (m : M A) Rm g :
  ensures P H m Rm -> (forall ev g, settled_in g -> P ev -> kmods_event g ev) -> settled_in g ->
  kloads m g (fun _ g' => settled_in g').
Proof.
  intros Hm HP Hg. eapply guarded_post; [eapply guarded_held; [exact Hm|exact HP|apply settled_stays|exact Hg]|].
  by intros a g' [].
Qed.

(** A part that only reads. *)
Lemma reading_part {A} H (m : M A) Rm g :
  ensures (only [KLib; KRead]) H m Rm -> kloads m g (fun _ g' => g' = g).
Proof.
  intros Hm. eapply guarded_post; [eapply guarded_ghost with (R := fun _ g' => g' = g); [exact Hm| |]|by intros a g' []].
  - intros ev g0 Hev. destruct ev as [[] ans]; try (by left); by vm_compute in Hev.
  - eapply ghost_post; [eapply (ghost_pres _ _ _ _ _ (fun g => g)); [exact Hm|]|by intros a g' []].
    intros ev g0 Hev. destruct ev as [[] ans]; try done; by vm_compute in Hev.
Qed.

Lemma settled_nodes ev g : settled_in g -> makes_nodes ev -> kmods_event g ev.
Proof. destruct ev as [[] ans]; intros Hg Hev; try (by split); try (by left); by vm_compute in Hev. Qed.

Lemma settled_modprobe m ev g : m ∈ kernel_modules -> settled_in g -> modprobe_event m ev -> kmods_event g ev.
Proof.
  intros Hm. destruct ev as [[] ans]; intros Hg Hev; try (by left); try (by right); try done; try (by vm_compute in Hev).
  destruct Hev as [-> ->]. split_and!; eauto.
Qed.

Lemma settled_cred ev g : settled_in g -> only [KLib; KCred] ev -> kmods_event g ev.
Proof. destruct ev as [[] ans]; intros Hg Hev; try (by left); try (by right); try done; by vm_compute in Hev. Qed.

(** ** The child *)

Lemma makes_nodes_lib ev : only [KLib] ev -> makes_nodes ev.
Proof. destruct ev as [[] ans]; try done; intros H; by vm_compute in H. Qed.
#[local] Hint Resolve makes_nodes_lib : ens.

Lemma mig_nvcaps_mknod_ens n line : ensures makes_nodes no_stop (mig_nvcaps_mknod n line) any.
Proof. unfold mig_nvcaps_mknod, absent. ens. Qed.

Lemma mig_nvcaps_mknodes_ens n : ensures makes_nodes no_stop (mig_nvcaps_mknodes n) any.
Proof.
  unfold mig_nvcaps_mknodes, absent. ens. apply ensures_iterM. intros line _. apply mig_nvcaps_mknod_ens.
Qed.

(** Loading one module. *)
Lemma modprobe_part pe m t g : m ∈ kernel_modules -> settled_in g ->
  kloads (modprobe_helper pe m t) g (fun _ g' => settled_in g').
Proof. intros Hm. eapply settled_part; [apply modprobe_helper_ens|]. intros ev g0. by apply settled_modprobe. Qed.

(** Making nodes. *)
Lemma nodes_part {A} (m : M A) g R : ensures makes_nodes no_stop m R -> settled_in g -> kloads m g (fun _ g' => settled_in g').
Proof. intros Hm. eapply settled_part; [exact Hm|]. intros ev g0. apply settled_nodes. Qed.

Lemma in_modules : NV_NVIDIA_MODULE_NAME ∈ kernel_modules /\ NV_UVM_MODULE_NAME ∈ kernel_modules /\
  NV_MODESET_MODULE_NAME ∈ kernel_modules.
Proof. unfold kernel_modules. set_solver. Qed.

Lemma load_modules_loads {A} matched g (R : A -> kmods -> Prop) :
  km_child g = true -> kloads (load_modules root matched) g R.
Proof.
  intros Hc. unfold load_modules. cbv zeta. destruct in_modules as (H1 & H2 & H3).
  eapply guarded_try with (R1 := fun _ g' => settled_in g'); [| |intros; by astep].
  { destruct (str_equal root "/") eqn:Er; [apply String.eqb_eq in Er; astep; split; [done|by left]|].
    astep. astep. destruct r; cbn beta iota; [|by astep]. astep. astep. destruct r; cbn beta iota; astep; [|done].
    unfold settled_in. cbn. unfold str_equal. rewrite !String.eqb_refl. split; [done|by right]. }
  intros [] g1 Hg1.
  eapply guarded_try with (R1 := fun _ g' => settled_in g'); [| |intros; by astep].
  { eapply guarded_post; [eapply settled_part; [apply ensures_null_err, perm_set_capabilities_ens|intros ev g0; apply settled_cred|done]|].
    by intros [] g'. }
  intros [] g2 Hg2.
  eapply guarded_bind; [by apply modprobe_part|]. intros ok g3 Hg3.
  eapply guarded_bind with (R1 := fun _ g' => settled_in g').
  { destruct ok; [|by astep].
    eapply guarded_bind; [eapply nodes_part; [apply nvidia_mknod_ens|done]|]. intros b g4 Hg4.
    eapply guarded_bind; [eapply nodes_part; [apply ensures_mapM_; intros; apply nvidia_mknod_ens|done]|]. intros [] g5 Hg5.
    eapply guarded_bind; [eapply nodes_part; [apply mig_nvcaps_mknodes_ens|done]|]. intros x g6 Hg6.
    eapply nodes_part; [eapply ensures_weaken; [apply error_reset_ens|apply makes_nodes_lib|done..]|done]. }
  intros [] g4 Hg4. eapply guarded_bind; [by apply modprobe_part|]. intros ok2 g5 Hg5.
  eapply guarded_bind with (R1 := fun _ g' => settled_in g').
  { destruct ok2; [|by astep]. eapply guarded_bind; [eapply nodes_part; [apply nvidia_uvm_mknod_ens|done]|]. intros b g6 Hg6. by astep. }
  intros [] g6 Hg6. eapply guarded_bind; [by apply modprobe_part|]. intros ok3 g7 Hg7.
  eapply guarded_bind with (R1 := fun _ g' => settled_in g').
  { destruct ok3; [|by astep]. eapply guarded_bind; [eapply nodes_part; [apply nvidia_modeset_mknod_ens|done]|]. intros b g8 Hg8. by astep. }
  intros [] g8 Hg8. by astep.
Qed.

(** ** The process *)

Lemma init_within_userns_ens : ensures (only [KLib; KRead]) any_stop init_within_userns any.
Proof. unfold init_within_userns, check_map. pose proof err_code_ens. ens.
Qed.

Lemma load_kernel_modules_loads g : km_child g = false -> kloads (load_kernel_modules root) g (fun _ _ => True).
Proof.
  intros Hc. unfold load_kernel_modules.
  eapply guarded_bind; [eapply reading_part, init_within_userns_ens|]. intros [[]|] g1 ->; [by astep| |by astep].
  eapply guarded_bind; [eapply reading_part, ensures_weaken; [apply pci_enum_match_id_ens|apply pci_read_only|done|done]|].
  intros q g1 ->. astep; [by left|]. astep. destruct r as [pid|e]; cbn beta iota.
  2:{ eapply guarded_bind; [eapply reading_part with (H := any_stop) (Rm := any); ens|]. intros ? g1 ->. by astep. }
  destruct (pid =? 0)%N eqn:E; [apply N.eqb_eq in E as ->; by apply load_modules_loads|].
  replace (kmods_step _ _) with g by (by destruct pid). astep; [by left|]. astep. by astep.
Qed.
End Kmods.

(** C5: whatever the kernel answers, loading the kernel modules is done by a child:
    the process itself only reads, forks and waits.  The child enters the root of
    the driver before anything else, makes, changes and removes nodes of
    [/dev/nvidia...] only, and runs [modprobe] only, with one of the names
    [nvidia], [nvidia-uvm] and [nvidia-modeset] and an environment of its own. *)
Theorem load_kernel_modules_confined (o : env) root (s : st) :
  always (kmods_step root) (kmods_event root) (mkKmods false false false) (fst (exec o (load_kernel_modules root) s)).
Proof.
  pose proof (guarded_run _ _ o _ _ _ s (load_kernel_modules_loads root (mkKmods false false false) eq_refl)) as Hr.
  destruct (exec o _ s) as [t [[s' b]|w]]; [apply Hr|exact Hr].
Qed.
