(* ===== verification/Args.v ===== *)
(** * The command line

    The parsers of [src/src/cli/main.c], [configure.c], [list.c] and [info.c].
    [argp] splits the arguments into options and words and gives them to a parser
    one by one: an [item] is what it found, a [key] what it says to the parser. *)
From S2P Require Import Prelude CString Effects Logic Errors Options Utils Types Files.

(** ** The context of the commands *)

(** [struct context], by its groups. *)
Record main_opts := mkMainOpts {
  c_uid : Z; c_gid : Z; c_root : option string; c_ldcache : option string;
  c_load_kmods : bool; c_no_pivot : bool; c_init_flags : option string
}.
Record configure_opts := mkConfigureOpts {
  c_pid : Z; c_rootfs : option string; c_reqs : list string; c_ldconfig : option string;
  c_container_flags : option string
}.
Record list_opts := mkListOpts {
  c_compat32 : bool; c_list_bins : bool; c_list_libs : bool; c_list_ipcs : bool; c_list_firmwares : bool
}.
Record device_opts := mkDeviceOpts {
  c_devices : option string; c_mig_config : option string; c_mig_monitor : option string
}.
Record context := mkCli {
  c_main : main_opts; c_csv_output : bool; c_configure : configure_opts; c_list : list_opts; c_devs : device_opts
}.

Definition set_main (c : context) (m : main_opts) : context := mkCli m (c_csv_output c) (c_configure c) (c_list c) (c_devs c).
Definition set_configure (c : context) (x : configure_opts) : context := mkCli (c_main c) (c_csv_output c) x (c_list c) (c_devs c).
Definition set_list (c : context) (l : list_opts) : context := mkCli (c_main c) (c_csv_output c) (c_configure c) l (c_devs c).
Definition set_devs (c : context) (d : device_opts) : context := mkCli (c_main c) (c_csv_output c) (c_configure c) (c_list c) d.

(** [struct context ctx = {.uid = (uid_t)-1, .gid = (gid_t)-1}] *)
Definition context0 : context :=
  mkCli (mkMainOpts ID_NONE ID_NONE None None false false None) false (mkConfigureOpts 0 None [] None None)
    (mkListOpts false false false false false) (mkDeviceOpts None None None).

(** ** [argp] *)

(** An option with its argument, or a word. *)
Inductive item := IOpt (c : ascii) (arg : option string) | IArg (word : string).

(** What a parser is called with; it knows the number of the words before. *)
Inductive key := Opt (c : ascii) (arg : option string) | ARGP_KEY_ARG (word : string) | ARGP_KEY_SUCCESS | ARGP_KEY_END.

(** The new context; [None] is [ARGP_ERR_UNKNOWN]. *)
Definition parser_t : Type := key -> nat -> context -> M (option context).

Definition EXIT_FAILURE : Z := 1.
Definition EXIT_SUCCESS : Z := 0.

(** The usage is shown, and the program exits. *)
Definition argp_usage {A} : M A := halt (Exited EXIT_FAILURE).

(** [fatal:] in the parsers. *)
Definition fatal {A} : M A :=
  let* e := get_err in
  do call (EWarn ("input error: " +:+ opt_str (e ← e; msg e))) in
  halt (Exited EXIT_FAILURE).

(** The items in order, with the number of the words so far.  An item the parser
    does not know is an error of the user. *)
Fixpoint argp_items (parser : parser_t) (items : list item) (arg_num : nat) (c : context) : M (nat * context) :=
  match items with
  | [] => ret (arg_num, c)
  | IOpt o arg :: items' =>
      let? c := parser (Opt o arg) arg_num c else argp_usage in
      argp_items parser items' arg_num c
  | IArg w :: items' =>
      let? c := parser (ARGP_KEY_ARG w) arg_num c else argp_usage in
      argp_items parser items' (S arg_num) c
  end.

(** The items, then the two calls that end a parse; there an unknown key does not
    matter. *)
Definition argp_parse (parser : parser_t) (items : list item) (c : context) : M context :=
  let* r := argp_items parser items O c in
  let '(n, c) := r in
  let* r := parser ARGP_KEY_END n c in
  let c := default c r in
  let* r := parser ARGP_KEY_SUCCESS n c in
  ret (default c r).

(** ** [configure] *)

Definition MAX_REQS : nat := 32.

(** [str_join(&err, &s, word, sep)], or [fatal]. *)
Definition join (s : option string) (word sep : string) : M (option string) :=
  let? s := str_join s word sep else fatal in ret (Some s).

Definition add_flag (c : context) (word : string) : M (option context) :=
  let x := c_configure c in
  let* fl := join (c_container_flags x) word " " in
  ret (Some (set_configure c (mkConfigureOpts (c_pid x) (c_rootfs x) (c_reqs x) (c_ldconfig x) fl))).

(** The flag an option stands for. *)
Definition option_flag (c : ascii) : option string :=
  if Ascii.eqb c "c" then Some "compute" else if Ascii.eqb c "u" then Some "utility"
  else if Ascii.eqb c "v" then Some "video" else if Ascii.eqb c "g" then Some "graphics"
  else if Ascii.eqb c "D" then Some "display" else if Ascii.eqb c "n" then Some "ngx"
  else if Ascii.eqb c "128" then Some "compat32" else if Ascii.eqb c "131" then Some "no-cgroups"
  else if Ascii.eqb c "132" then Some "no-devbind" else None.

(** What [--require] means to a library of major version 0. *)
Definition jetpack_flag (arg : string) : option string :=
  if strneq 14 arg "csv-mounts=all" then Some "jetpack-mount-all"
  else if strneq 9 arg "base-only" then Some "jetpack-base-only" else None.

(** [major] is [libnvc.version()->major].  [argp] gives an argument to every
    option that takes one. *)
Definition configure_parser (major : Z) : parser_t := fun k arg_num c =>
  let x := c_configure c in
  let d := c_devs c in
  own_error match k with
  | Opt o arg =>
      let arg := default EmptyString arg in
      if Ascii.eqb o "p" then
        let? pid := str_to_pid arg else fatal in
        ret (Some (set_configure c (mkConfigureOpts pid (c_rootfs x) (c_reqs x) (c_ldconfig x) (c_container_flags x))))
      else if Ascii.eqb o "d" then
        let* s := join (c_devices d) arg "," in
        ret (Some (set_devs c (mkDeviceOpts s (c_mig_config d) (c_mig_monitor d))))
      else if Ascii.eqb o "r" then
        match (if major =? 0 then jetpack_flag arg else None) with
        | Some flag => add_flag c flag
        | None =>
            if (MAX_REQS <=? length (c_reqs x))%nat then do error_setx "too many requirements" in fatal
            else ret (Some (set_configure c (mkConfigureOpts (c_pid x) (c_rootfs x) (c_reqs x ++ [arg]) (c_ldconfig x) (c_container_flags x))))
        end
      else if Ascii.eqb o "l" then
        ret (Some (set_configure c (mkConfigureOpts (c_pid x) (c_rootfs x) (c_reqs x) (Some arg) (c_container_flags x))))
      else if Ascii.eqb o "129" then
        let* s := join (c_mig_config d) arg "," in
        ret (Some (set_devs c (mkDeviceOpts (c_devices d) s (c_mig_monitor d))))
      else if Ascii.eqb o "130" then
        let* s := join (c_mig_monitor d) arg "," in
        ret (Some (set_devs c (mkDeviceOpts (c_devices d) (c_mig_config d) s)))
      else
        match option_flag o with
        | Some flag => if Ascii.eqb o "n" && (major =? 0) then ret (Some c) else add_flag c flag
        | None => ret None
        end
  | ARGP_KEY_ARG arg =>
      do (if (0 <? arg_num)%nat then argp_usage else ret tt) in
      if negb (Ascii.eqb (first_char arg) "/") || str_equal arg "/" then
        do error_setx "invalid rootfs directory" in fatal
      else ret (Some (set_configure c (mkConfigureOpts (c_pid x) (Some arg) (c_reqs x) (c_ldconfig x) (c_container_flags x))))
  | ARGP_KEY_SUCCESS =>
      if 0 <? c_pid x then add_flag c "supervised"
      else
        let* ppid := call EGetppid in
        add_flag (set_configure c (mkConfigureOpts ppid (c_rootfs x) (c_reqs x) (c_ldconfig x) (c_container_flags x))) "standalone"
  | ARGP_KEY_END => if (arg_num <? 1)%nat then argp_usage else ret (Some c)
  end.

(** ** [list] and [info] *)

Definition list_parser (argc : nat) : parser_t := fun k _ c =>
  let l := c_list c in
  let d := c_devs c in
  own_error match k with
  | Opt o arg =>
      let arg := default EmptyString arg in
      if Ascii.eqb o "d" then
        let* s := join (c_devices d) arg "," in
        ret (Some (set_devs c (mkDeviceOpts s (c_mig_config d) (c_mig_monitor d))))
      else if Ascii.eqb o "l" then
        ret (Some (set_list c (mkListOpts (c_compat32 l) (c_list_bins l) true (c_list_ipcs l) (c_list_firmwares l))))
      else if Ascii.eqb o "b" then
        ret (Some (set_list c (mkListOpts (c_compat32 l) true (c_list_libs l) (c_list_ipcs l) (c_list_firmwares l))))
      else if Ascii.eqb o "i" then
        ret (Some (set_list c (mkListOpts (c_compat32 l) (c_list_bins l) (c_list_libs l) true (c_list_firmwares l))))
      else if Ascii.eqb o "f" then
        ret (Some (set_list c (mkListOpts (c_compat32 l) (c_list_bins l) (c_list_libs l) (c_list_ipcs l) true)))
      else if Ascii.eqb o "128" then
        ret (Some (set_list c (mkListOpts true (c_list_bins l) (c_list_libs l) (c_list_ipcs l) (c_list_firmwares l))))
      else if Ascii.eqb o "129" then
        let* s := join (c_mig_config d) arg "," in
        ret (Some (set_devs c (mkDeviceOpts (c_devices d) s (c_mig_monitor d))))
      else if Ascii.eqb o "130" then
        let* s := join (c_mig_monitor d) arg "," in
        ret (Some (set_devs c (mkDeviceOpts (c_devices d) (c_mig_config d) s)))
      else ret None
  | ARGP_KEY_END =>
      if (argc =? 1)%nat then
        let? s := xstrdup "all" else fatal in
        ret (Some (set_list (set_devs c (mkDeviceOpts (Some s) None None)) (mkListOpts true true true true true)))
      else ret (Some c)
  | _ => ret None
  end.

Definition info_parser : parser_t := fun k _ c =>
  match k with
  | Opt o _ =>
      if Ascii.eqb o "128" then ret (Some (mkCli (c_main c) true (c_configure c) (c_list c) (c_devs c))) else ret None
  | _ => ret None
  end.

(** ** [main] *)

Inductive command := CInfo | CList | CConfigure.

Definition commands : list (string * command) := [("info", CInfo); ("list", CList); ("configure", CConfigure)].

(** The options of the program itself; the other keys are those of
    [parse_args]. *)
Definition parser : parser_t := fun k _ c =>
  let m := c_main c in
  own_error match k with
  | Opt o arg =>
      if Ascii.eqb o "d" then do call (ESetenv "NVC_DEBUG_FILE" (default EmptyString arg)) in ret (Some c)
      else if Ascii.eqb o "k" then
        let* fl := join (c_init_flags m) "load-kmods" " " in
        ret (Some (set_main c (mkMainOpts (c_uid m) (c_gid m) (c_root m) (c_ldcache m) true (c_no_pivot m) fl)))
      else if Ascii.eqb o "n" then
        ret (Some (set_main c (mkMainOpts (c_uid m) (c_gid m) (c_root m) (c_ldcache m) (c_load_kmods m) true (c_init_flags m))))
      else if Ascii.eqb o "u" then
        match arg with
        | Some arg =>
            let? ids := str_to_ugid arg else fatal in
            ret (Some (set_main c (mkMainOpts (fst ids) (snd ids) (c_root m) (c_ldcache m) (c_load_kmods m) (c_no_pivot m) (c_init_flags m))))
        | None =>
            let* uid := call EGeteuid in
            let* gid := call EGetegid in
            ret (Some (set_main c (mkMainOpts uid gid (c_root m) (c_ldcache m) (c_load_kmods m) (c_no_pivot m) (c_init_flags m))))
        end
      else if Ascii.eqb o "r" then
        ret (Some (set_main c (mkMainOpts (c_uid m) (c_gid m) arg (c_ldcache m) (c_load_kmods m) (c_no_pivot m) (c_init_flags m))))
      else if Ascii.eqb o "l" then
        ret (Some (set_main c (mkMainOpts (c_uid m) (c_gid m) (c_root m) arg (c_load_kmods m) (c_no_pivot m) (c_init_flags m))))
      else ret None
  | _ => ret None
  end.

(** The arguments of the program: its own options, in order, then a word and what
    follows it; [argc] counts that word and all the strings behind it. *)
Record args := mkArgs { a_opts : list (ascii * option string); a_rest : option (string * nat * list item) }.

Definition lookup_command (major : Z) (name : string) (argc : nat) (items : list item) (c : context) : M (command * context) :=
  match find (fun p => str_equal name (fst p)) commands with
  | None => argp_usage
  | Some (_, cmd) =>
      let* c := argp_parse (match cmd with
                            | CInfo => info_parser
                            | CList => list_parser argc
                            | CConfigure => configure_parser major
                            end) items c in
      ret (cmd, c)
  end.

(** [argp_parse(&usage, argc, argv, ARGP_IN_ORDER, NULL, &ctx)]: the words are left
    to the command. *)
Definition parse_args (major : Z) (a : args) : M (command * context) :=
  let* r := argp_items parser (map (fun '(o, arg) => IOpt o arg) (a_opts a)) O context0 in
  match a_rest a with
  | None => argp_usage
  | Some (name, argc, items) => lookup_command major name argc items (snd r)
  end.

(** ** What the arguments of [configure] mean *)

(** The flags an item asks for. *)
Definition item_flag (major : Z) (i : item) : option string :=
  match i with
  | IOpt o arg =>
      if Ascii.eqb o "r" then if major =? 0 then jetpack_flag (default EmptyString arg) else None
      else if Ascii.eqb o "n" && (major =? 0) then None else option_flag o
  | IArg _ => None
  end.
Definition item_flags (major : Z) (items : list item) : list string := omap (item_flag major) items.

Definition item_req (major : Z) (i : item) : option string :=
  match i with
  | IOpt o arg =>
      if Ascii.eqb o "r" && (negb (major =? 0) || match jetpack_flag (default EmptyString arg) with None => true | _ => false end)
      then Some (default EmptyString arg) else None
  | IArg _ => None
  end.
Definition item_reqs (major : Z) (items : list item) : list string := omap (item_req major) items.

Definition item_words (items : list item) : list string :=
  omap (fun i => match i with IArg w => Some w | IOpt _ _ => None end) items.

(** The arguments of the options [key], in order. *)
Definition item_args (key : ascii) (items : list item) : list string :=
  omap (fun i => match i with
    | IOpt o arg => if Ascii.eqb o key then Some (default EmptyString arg) else None
    | IArg _ => None
    end) items.

(** Arguments with commas between them; an empty one in front does not count. *)
Definition with_commas (ws : list string) : string :=
  fold_left (fun s w => match s with EmptyString => w | _ => s +:+ "," +:+ w end) ws EmptyString.
Definition item_list (key : ascii) (items : list item) : option string :=
  match item_args key items with [] => None | ws => Some (with_commas ws) end.

(** The process the last [--pid] names; none is 0. *)
Definition item_pid (items : list item) : Z :=
  fold_left (fun pid i => match i with
    | IOpt o arg => if Ascii.eqb o "p" then to_int32 (fst (strtoimax (default EmptyString arg))) else pid
    | IArg _ => pid
    end) items 0.

(** The string [str_join] builds from words. *)
Fixpoint joined (ws : list string) : string :=
  match ws with
  | [] => EmptyString
  | [w] => w
  | w :: ws' => w +:+ " " +:+ joined ws'
  end.
Definition joined_opt (ws : list string) : option string := match ws with [] => None | _ => Some (joined ws) end.

(** The arguments are C strings. *)
Definition item_ok (i : item) : Prop :=
  match i with IOpt _ (Some s) => c_string s | IOpt _ None => True | IArg w => c_string w end.

Definition is_flag (w : string) : Prop := w <> EmptyString /\ c_string w /\ str_mem " " w = false.

Lemma item_flag_is_flag major i w : item_flag major i = Some w -> is_flag w.
Proof.
  destruct i as [o arg|]; [|done]. unfold item_flag, option_flag, jetpack_flag.
  intros Hw. repeat case_match; simplify_eq; done.
Qed.

Lemma joined_app ws w : ws <> [] -> joined (ws ++ [w]) = joined ws +:+ " " +:+ w.
Proof.
  induction ws as [|x [|y ws] IH]; intros Hn; [done..|]. cbn [app joined] in *. rewrite IH by done.
  by rewrite !string_app_assoc.
Qed.

Lemma joined_c_string ws : Forall is_flag ws -> c_string (joined ws).
Proof.
  induction 1 as [|w [|y ws] [_ [Hw _]] Hf IH]; [done..|]. cbn [joined] in *. unfold c_string in *.
  rewrite !str_mem_app, Hw. cbn. done.
Qed.

Lemma joined_nonempty ws : Forall is_flag ws -> ws <> [] -> exists c s, joined ws = String c s.
Proof.
  intros Hf Hn. destruct Hf as [|[|c s] ws [He _] Hf]; [done..|]. destruct ws; [|]; cbn [joined]; [eauto|].
  cbn. eauto.
Qed.

Lemma words_joined ws : Forall is_flag ws -> ws <> [] -> opt_words (joined ws) = ws.
Proof.
  assert (forall w, is_flag w -> Ascii.eqb (first_char w) NUL = false) as Hn.
  { intros [|c w] (He & Hc & _); [done|]. unfold c_string in Hc. cbn in Hc. apply orb_false_elim in Hc as [Hc _].
    cbn. by rewrite Ascii.eqb_sym. }
  unfold opt_words. induction 1 as [|w [|y ws] Hw Hf IH]; intros Hnil; [done| |].
  - cbn [joined]. rewrite tokens_single by apply Hw. by rewrite filter_cons_True by by apply Hn.
  - change (joined (w :: y :: ws)) with (w +:+ String " " (joined (y :: ws))).
    rewrite tokens_app_sep by apply Hw. rewrite filter_cons_True by by apply Hn. by rewrite IH.
Qed.

(** What is known of the context after some items. *)
Definition opt_c_string (s : option string) : Prop := match s with Some s => c_string s | None => True end.

Record parsed (major : Z) (items : list item) (c : context) : Prop := mkParsed {
  p_flags : c_container_flags (c_configure c) = joined_opt (item_flags major items);
  p_reqs : c_reqs (c_configure c) = item_reqs major items;
  p_nreqs : (length (c_reqs (c_configure c)) <= MAX_REQS)%nat;
  p_root : match c_rootfs (c_configure c) with
           | None => item_words items = []
           | Some w => item_words items = [w] /\ first_char w = "/"%char /\ w <> "/"
           end;
  p_pid : c_pid (c_configure c) = item_pid items;
  p_ldconfig : c_ldconfig (c_configure c) = last (item_args "l" items);
  p_lists : c_devs c = mkDeviceOpts (item_list "d" items) (item_list "129" items) (item_list "130" items);
  p_devs : opt_c_string (c_devices (c_devs c)) /\ opt_c_string (c_mig_config (c_devs c)) /\ opt_c_string (c_mig_monitor (c_devs c))
}.

Definition input_event : event -> Prop := only [KLib; KCred].
Definition exits (w : stop) : Prop := w = Exited EXIT_FAILURE.
Definition then_parsed (major : Z) (items : list item) (r : option context) : Prop :=
  match r with Some c => parsed major items c | None => True end.
Notation accepts m R := (ensures input_event exits m R).

Lemma accepts_weaken {A} (m : M A) R : ensures (only [KLib]) no_stop m R -> accepts m R.
Proof. intros Hm. eapply ensures_weaken; [exact Hm|intros ev; by apply only_mono|done|done]. Qed.

Lemma fatal_ens {A} R : accepts (@fatal A) R.
Proof.
  unfold fatal. eapply ensures_bind; [by apply ensures_get_err with (R := any)|]. intros e _.
  eapply ensures_bind; [apply ensures_call with (R := any); done|]. intros _ _. by apply ensures_halt.
Qed.

Lemma usage_ens {A} R : accepts (@argp_usage A) R.
Proof. by apply ensures_halt. Qed.

Lemma error_fatal_ens {A} text R : accepts (do error_setx text in @fatal A) R.
Proof. eapply ensures_bind; [apply accepts_weaken, error_setx_ens|]. intros _ _. apply fatal_ens. Qed.

Lemma join_ens s word sep :
  opt_c_string s ->
  accepts (join s word sep) (fun r => r = Some match s with Some (String _ _ as s0) => s0 +:+ sep +:+ word | _ => word end).
Proof.
  intros Hs. unfold join. eapply ensures_bind; [by apply accepts_weaken, str_join_ens|].
  intros [s'|] Hr; [|apply fatal_ens]. apply ensures_ret. by rewrite Hr.
Qed.

Lemma join_c_string s word sep :
  opt_c_string s -> c_string word -> c_string sep -> accepts (join s word sep) opt_c_string.
Proof.
  intros Hs Hw Hp. eapply ensures_post; [by apply join_ens|]. intros ? ->. unfold opt_c_string, c_string in *.
  destruct s as [[|a s]|]; [done| |done]. by rewrite !str_mem_app, Hs, Hw, Hp.
Qed.

Lemma flags_are_flags major items : Forall is_flag (item_flags major items).
Proof.
  apply Forall_forall. intros w Hw. apply list_elem_of_omap in Hw as (i & _ & Hi). by eapply item_flag_is_flag.
Qed.

Lemma joined_opt_c_string ws : Forall is_flag ws -> opt_c_string (joined_opt ws).
Proof. intros Hf. destruct ws; [done|]. by apply joined_c_string. Qed.

(** A word behind the flags there are. *)
Lemma join_flag ws w :
  Forall is_flag ws -> accepts (join (joined_opt ws) w " ") (fun r => r = joined_opt (ws ++ [w])).
Proof.
  intros Hf. eapply ensures_post; [by apply join_ens, joined_opt_c_string|]. intros ? ->.
  destruct ws as [|x ws]; [done|]. destruct (joined_nonempty (x :: ws)) as (c & s & E); [done..|].
  cbn [joined_opt]. change ((x :: ws) ++ [w]) with (x :: (ws ++ [w])). cbn [joined_opt].
  change (x :: (ws ++ [w])) with ((x :: ws) ++ [w]). rewrite joined_app, E by done. done.
Qed.

Lemma str_to_pid_value s :
  accepts (str_to_pid s) (fun r => match r with Some p => p = to_int32 (fst (strtoimax s)) | None => True end).
Proof. apply accepts_weaken. unfold str_to_pid. destruct (strtoimax s) as [n ptr]. ens. Qed.

(** What an option does to the lists of devices, and to the path of [ldconfig]. *)
Definition list_more (s : option string) (w : string) : option string :=
  Some match s with Some (String _ _ as s0) => s0 +:+ "," +:+ w | _ => w end.
Definition devs_more (o : ascii) (w : string) (d : device_opts) : device_opts :=
  if Ascii.eqb o "d" then mkDeviceOpts (list_more (c_devices d) w) (c_mig_config d) (c_mig_monitor d)
  else if Ascii.eqb o "129" then mkDeviceOpts (c_devices d) (list_more (c_mig_config d) w) (c_mig_monitor d)
  else if Ascii.eqb o "130" then mkDeviceOpts (c_devices d) (c_mig_config d) (list_more (c_mig_monitor d) w)
  else d.

Lemma item_args_snoc key items o arg :
  item_args key (items ++ [IOpt o arg]) =
    item_args key items ++ (if Ascii.eqb o key then [default EmptyString arg] else []).
Proof. unfold item_args. rewrite omap_app. cbn. by destruct (Ascii.eqb o key). Qed.

Lemma item_args_word key items w : item_args key (items ++ [IArg w]) = item_args key items.
Proof. unfold item_args. rewrite omap_app. cbn. by rewrite app_nil_r. Qed.

Lemma item_list_snoc key items o arg :
  item_list key (items ++ [IOpt o arg]) =
    if Ascii.eqb o key then list_more (item_list key items) (default EmptyString arg) else item_list key items.
Proof.
  unfold item_list, list_more. rewrite item_args_snoc. destruct (Ascii.eqb o key); [|by rewrite app_nil_r].
  destruct (item_args key items) as [|w ws]; [done|]. cbn [app]. f_equal.
  change (w :: (ws ++ [default EmptyString arg])) with ((w :: ws) ++ [default EmptyString arg]).
  set (l := w :: ws). unfold with_commas. by rewrite fold_left_app.
Qed.

Lemma item_list_word key items w : item_list key (items ++ [IArg w]) = item_list key items.
Proof. unfold item_list. by rewrite item_args_word. Qed.

Lemma lists_more items o arg :
  mkDeviceOpts (item_list "d" (items ++ [IOpt o arg])) (item_list "129" (items ++ [IOpt o arg]))
    (item_list "130" (items ++ [IOpt o arg])) =
  devs_more o (default EmptyString arg) (mkDeviceOpts (item_list "d" items) (item_list "129" items) (item_list "130" items)).
Proof.
  rewrite !item_list_snoc. unfold devs_more. destruct (Ascii.eqb o "d") eqn:Ed; [by apply Ascii.eqb_eq in Ed as ->|].
  destruct (Ascii.eqb o "129") eqn:E1; [by apply Ascii.eqb_eq in E1 as ->|]. by destruct (Ascii.eqb o "130").
Qed.

(** An option that concerns neither. *)
Definition plain_opt (o : ascii) : Prop := existsb (Ascii.eqb o) ["p"; "l"; "d"; "129"; "130"]%char = false.

Lemma plain_opt_spec o w d : plain_opt o -> Ascii.eqb o "p" = false /\ Ascii.eqb o "l" = false /\ devs_more o w d = d.
Proof.
  unfold plain_opt, devs_more. cbn [existsb]. intros Hp. repeat (apply orb_false_elim in Hp as [?Ho Hp]).
  repeat match goal with E : Ascii.eqb o _ = false |- _ => rewrite E; clear E end. done.
Qed.

(** An option other than [--pid], by what it adds. *)
Lemma parsed_option major items c o arg c' :
  parsed major items c -> Ascii.eqb o "p" = false ->
  c_container_flags (c_configure c') = joined_opt (item_flags major items ++ option_list (item_flag major (IOpt o arg))) ->
  c_reqs (c_configure c') = item_reqs major items ++ option_list (item_req major (IOpt o arg)) ->
  (length (c_reqs (c_configure c')) <= MAX_REQS)%nat ->
  c_rootfs (c_configure c') = c_rootfs (c_configure c) -> c_pid (c_configure c') = c_pid (c_configure c) ->
  c_ldconfig (c_configure c') = (if Ascii.eqb o "l" then Some (default EmptyString arg) else c_ldconfig (c_configure c)) ->
  c_devs c' = devs_more o (default EmptyString arg) (c_devs c) ->
  opt_c_string (c_devices (c_devs c')) /\ opt_c_string (c_mig_config (c_devs c')) /\ opt_c_string (c_mig_monitor (c_devs c')) ->
  parsed major (items ++ [IOpt o arg]) c'.
Proof.
  intros Hc Ho Hf Hr Hn Hroot Hpid Hld Hl Hd. constructor; [..|done].
  - unfold item_flags. by rewrite omap_app.
  - unfold item_reqs. by rewrite omap_app.
  - done.
  - rewrite Hroot. unfold item_words. rewrite omap_app. cbn. rewrite app_nil_r. apply Hc.
  - rewrite Hpid. unfold item_pid. rewrite fold_left_app. cbn. rewrite Ho. apply Hc.
  - rewrite Hld, item_args_snoc. destruct (Ascii.eqb o "l"); [by rewrite last_snoc|]. rewrite app_nil_r. apply Hc.
  - by rewrite lists_more, Hl, (p_lists _ _ _ Hc).
Qed.

Lemma add_flag_ens major items c o arg flag :
  parsed major items c -> plain_opt o -> item_flag major (IOpt o arg) = Some flag ->
  item_req major (IOpt o arg) = None ->
  accepts (add_flag c flag) (then_parsed major (items ++ [IOpt o arg])).
Proof.
  intros Hc Ho Hf Hr. destruct (plain_opt_spec o (default EmptyString arg) (c_devs c) Ho) as (Hp & Hl & Hd).
  unfold add_flag. eapply ensures_bind; [rewrite (p_flags _ _ _ Hc); apply join_flag, flags_are_flags|].
  intros ? ->. apply ensures_ret. eapply parsed_option; [exact Hc|done|..];
    cbn [c_configure set_configure c_container_flags c_reqs c_rootfs c_pid c_devs c_ldconfig]; try apply Hc; try done.
  - by rewrite Hf.
  - rewrite Hr, app_nil_r. apply Hc.
  - by rewrite Hl.
Qed.

(** An option that adds neither a flag nor a requirement. *)
Lemma parsed_plain major items c o arg c' :
  parsed major items c -> Ascii.eqb o "p" = false ->
  item_flag major (IOpt o arg) = None -> item_req major (IOpt o arg) = None ->
  c_container_flags (c_configure c') = c_container_flags (c_configure c) -> c_reqs (c_configure c') = c_reqs (c_configure c) ->
  c_rootfs (c_configure c') = c_rootfs (c_configure c) -> c_pid (c_configure c') = c_pid (c_configure c) ->
  c_ldconfig (c_configure c') = (if Ascii.eqb o "l" then Some (default EmptyString arg) else c_ldconfig (c_configure c)) ->
  c_devs c' = devs_more o (default EmptyString arg) (c_devs c) ->
  opt_c_string (c_devices (c_devs c')) /\ opt_c_string (c_mig_config (c_devs c')) /\ opt_c_string (c_mig_monitor (c_devs c')) ->
  parsed major (items ++ [IOpt o arg]) c'.
Proof.
  intros Hc Ho Hf Hr Ef Er Eroot Epid Hld Hl Hd. eapply parsed_option; [exact Hc|done|..|done]; try done.
  - rewrite Ef, Hf. cbn [option_list]. rewrite app_nil_r. apply Hc.
  - rewrite Er, Hr. cbn [option_list]. rewrite app_nil_r. apply Hc.
  - rewrite Er. apply Hc.
Qed.

(** A list of devices grows. *)
Lemma join_devices_ens major items c o arg s (k : option string -> context) :
  parsed major items c -> item_ok (IOpt o arg) -> opt_c_string s ->
  (forall s', opt_c_string s' -> s' = list_more s (default EmptyString arg) -> parsed major (items ++ [IOpt o arg]) (k s')) ->
  accepts (let* s := join s (default EmptyString arg) "," in ret (Some (k s))) (then_parsed major (items ++ [IOpt o arg])).
Proof.
  intros Hc Hi Hs Hk. eapply ensures_bind.
  { eapply ensures_weaken; [apply ensures_and; [apply join_c_string; [done|by destruct arg|done]|by apply join_ens]|..].
    - done.
    - by intros w [? _].
    - intros s' Hs'. exact Hs'. }
  intros s' [Hs' Hv]. by apply ensures_ret, Hk.
Qed.

Lemma configure_option_ens major items c o arg n :
  parsed major items c -> item_ok (IOpt o arg) ->
  accepts (configure_parser major (Opt o arg) n c) (then_parsed major (items ++ [IOpt o arg])).
Proof.
  intros Hc Hi. unfold configure_parser. cbv zeta. apply ensures_own_error.
  destruct (Ascii.eqb o "p") eqn:Ep.
  { apply Ascii.eqb_eq in Ep as ->. eapply ensures_bind; [apply str_to_pid_value|]. intros [pid|] Hp; [|apply fatal_ens].
    apply ensures_ret. subst pid. destruct Hc. constructor; cbn; try done.
    - unfold item_flags. rewrite omap_app. cbn. by rewrite app_nil_r.
    - unfold item_reqs. rewrite omap_app. cbn. by rewrite app_nil_r.
    - unfold item_words. rewrite omap_app. cbn. by rewrite app_nil_r.
    - unfold item_pid. by rewrite fold_left_app.
    - by rewrite item_args_snoc, app_nil_r.
    - by rewrite lists_more. }
  destruct (Ascii.eqb o "d") eqn:Ed.
  { apply Ascii.eqb_eq in Ed as ->. pose proof (p_devs _ _ _ Hc) as (? & ? & ?).
    eapply join_devices_ens; [done..|]. intros s' Hs' ->. by apply (parsed_plain _ _ c). }
  destruct (Ascii.eqb o "r") eqn:Er.
  { apply Ascii.eqb_eq in Er as ->. destruct (if major =? 0 then _ else _) as [flag|] eqn:Ef.
    - apply add_flag_ens; [done..|]. destruct (major =? 0) eqn:Em; [|done]. unfold item_req. by rewrite Em, Ef.
    - destruct (_ <=? _)%nat eqn:En; [apply error_fatal_ens|]. apply ensures_ret.
      assert (item_req major (IOpt "r" arg) = Some (default EmptyString arg)) as Hr.
      { unfold item_req. cbn. destruct (major =? 0); [by rewrite Ef|done]. }
      eapply parsed_option; [exact Hc|done|..|apply Hc]; cbn [c_configure set_configure c_container_flags c_reqs c_rootfs c_pid c_ldconfig c_devs]; try done.
      + cbn [item_flag]. rewrite Ascii.eqb_refl, Ef, app_nil_r. apply Hc.
      + rewrite Hr. cbn. by rewrite (p_reqs _ _ _ Hc).
      + rewrite length_app. cbn. apply Nat.leb_gt in En. lia. }
  destruct (Ascii.eqb o "l") eqn:El.
  { apply Ascii.eqb_eq in El as ->. apply ensures_ret. apply (parsed_plain _ _ c); try done. apply Hc. }
  destruct (Ascii.eqb o "129") eqn:E1.
  { apply Ascii.eqb_eq in E1 as ->. pose proof (p_devs _ _ _ Hc) as (? & ? & ?).
    eapply join_devices_ens; [done..|]. intros s' Hs' ->. by apply (parsed_plain _ _ c). }
  destruct (Ascii.eqb o "130") eqn:E2.
  { apply Ascii.eqb_eq in E2 as ->. pose proof (p_devs _ _ _ Hc) as (? & ? & ?).
    eapply join_devices_ens; [done..|]. intros s' Hs' ->. by apply (parsed_plain _ _ c). }
  assert (item_req major (IOpt o arg) = None) as Hr by (unfold item_req; by rewrite Er).
  destruct (option_flag o) as [flag|] eqn:Ef; [|by apply ensures_ret].
  assert (plain_opt o) as Hplain by (unfold plain_opt; cbn [existsb]; by rewrite Ep, El, Ed, E1, E2).
  destruct (Ascii.eqb o "n" && (major =? 0)) eqn:En.
  - destruct (plain_opt_spec o (default EmptyString arg) (c_devs c) Hplain) as (_ & _ & Hdv).
    apply ensures_ret. apply (parsed_plain _ _ c); try done; [unfold item_flag; by rewrite Er, En|by rewrite El|apply Hc].
  - apply add_flag_ens; try done. unfold item_flag. by rewrite Er, En.
Qed.

Lemma configure_word_ens major items c w :
  parsed major items c -> item_ok (IArg w) ->
  accepts (configure_parser major (ARGP_KEY_ARG w) (length (item_words items)) c) (then_parsed major (items ++ [IArg w])).
Proof.
  intros Hc Hi. unfold configure_parser. cbv zeta. apply ensures_own_error.
  eapply ensures_bind with (R := fun _ => item_words items = []).
  { destruct (_ <? _)%nat eqn:E; [apply usage_ens|]. apply ensures_ret. apply Nat.ltb_ge in E.
    by destruct (item_words items); [|cbn in E; lia]. }
  intros _ Hw. destruct (negb _ || _) eqn:E; [apply error_fatal_ens|]. apply orb_false_elim in E as [Ea Er].
  apply ensures_ret. apply negb_false_iff, Ascii.eqb_eq in Ea. destruct Hc. constructor; cbn; try done.
  - unfold item_flags. rewrite omap_app. cbn. by rewrite app_nil_r.
  - unfold item_reqs. rewrite omap_app. cbn. by rewrite app_nil_r.
  - unfold item_words in *. rewrite omap_app, Hw. cbn. split_and!; [done..|]. by intros ->.
  - unfold item_pid. by rewrite fold_left_app.
  - by rewrite item_args_word.
  - by rewrite !item_list_word.
Qed.

Lemma configure_items_ens major items done_ c :
  parsed major done_ c -> Forall item_ok items ->
  accepts (argp_items (configure_parser major) items (length (item_words done_)) c)
    (fun r => fst r = length (item_words (done_ ++ items)) /\ parsed major (done_ ++ items) (snd r)).
Proof.
  intros Hc Hi. revert done_ c Hc. induction Hi as [|i items Hi Hf IH]; intros done_ c Hc; cbn [argp_items].
  { apply ensures_ret. by rewrite app_nil_r. }
  replace (done_ ++ i :: items) with ((done_ ++ [i]) ++ items) by by rewrite <- app_assoc.
  destruct i as [o arg|w].
  - eapply ensures_bind; [by apply configure_option_ens|]. intros [c'|] Hc'; [|apply usage_ens].
    replace (item_words done_) with (item_words (done_ ++ [IOpt o arg]))
      by (unfold item_words; rewrite omap_app; cbn; by rewrite app_nil_r). by apply IH.
  - eapply ensures_bind; [by apply configure_word_ens|]. intros [c'|] Hc'; [|apply usage_ens].
    replace (S (length (item_words done_))) with (length (item_words (done_ ++ [IArg w])))
      by (unfold item_words; rewrite omap_app, length_app; cbn; lia). by apply IH.
Qed.

(** A command line of [configure] that is accepted. *)
Record configured (major : Z) (items : list item) (c : context) : Prop := mkConfigured {
  cf_root : exists w, item_words items = [w] /\ c_rootfs (c_configure c) = Some w /\ first_char w = "/"%char /\ w <> "/";
  cf_reqs : c_reqs (c_configure c) = item_reqs major items /\ (length (item_reqs major items) <= MAX_REQS)%nat;
  cf_flags : c_container_flags (c_configure c) =
    Some (joined (item_flags major items ++ [if 0 <? item_pid items then "supervised" else "standalone"]));
  cf_pid : 0 < item_pid items -> c_pid (c_configure c) = item_pid items;
  cf_ldconfig : c_ldconfig (c_configure c) = last (item_args "l" items);
  cf_devices : c_devices (c_devs c) = item_list "d" items;
  cf_mig_config : c_mig_config (c_devs c) = item_list "129" items;
  cf_mig_monitor : c_mig_monitor (c_devs c) = item_list "130" items
}.

Lemma mode_flag major items c mode :
  c_container_flags (c_configure c) = joined_opt (item_flags major items) ->
  accepts (add_flag c mode) (fun r => exists c', r = Some c' /\
    c_container_flags (c_configure c') = Some (joined (item_flags major items ++ [mode])) /\
    c_rootfs (c_configure c') = c_rootfs (c_configure c) /\ c_reqs (c_configure c') = c_reqs (c_configure c) /\
    c_pid (c_configure c') = c_pid (c_configure c) /\ c_ldconfig (c_configure c') = c_ldconfig (c_configure c) /\
    c_devs c' = c_devs c).
Proof.
  intros Hf. unfold add_flag. rewrite Hf. eapply ensures_bind; [apply join_flag, flags_are_flags|]. intros ? ->.
  apply ensures_ret. eexists. split; [done|]. cbn. split_and!; [|done..]. by destruct (item_flags major items).
Qed.

Lemma configure_args_ens major items c :
  parsed major [] c -> Forall item_ok items ->
  accepts (argp_parse (configure_parser major) items c) (configured major items).
Proof.
  intros Hc Hi. unfold argp_parse. eapply ensures_bind; [by apply (configure_items_ens major items [] c)|].
  intros [n c1] [Hn H1]. cbn [fst snd app] in *. cbv zeta.
  eapply ensures_bind with (R := fun r => r = Some c1 /\ n <> O).
  { unfold configure_parser. cbv zeta. apply ensures_own_error. destruct (_ <? _)%nat eqn:E; [apply usage_ens|].
    apply ensures_ret. split; [done|]. apply Nat.ltb_ge in E. lia. }
  intros ? [-> Hnz]. cbn [default from_option id].
  assert (exists w, item_words items = [w] /\ c_rootfs (c_configure c1) = Some w /\ first_char w = "/"%char /\ w <> "/") as Hw.
  { pose proof (p_root _ _ _ H1) as Hr. destruct (c_rootfs (c_configure c1)) as [w|]; [|by rewrite Hr in Hn].
    exists w. by destruct Hr as (? & ? & ?). }
  destruct H1 as [Hf Hr Hlen _ Hp Hld Hl _]. rewrite Hr in Hlen.
  eapply ensures_bind with (R := fun r => exists c', r = Some c' /\ configured major items c');
    [|intros ? (c' & -> & Hc'); by apply ensures_ret].
  unfold configure_parser. cbv zeta. apply ensures_own_error. destruct (0 <? _) eqn:E; rewrite Hp in E.
  - eapply ensures_post; [by eapply mode_flag|]. intros ? (c' & -> & Ef & Eroot & Er & Epid & Eld & El). exists c'. split; [done|].
    constructor; [by rewrite Eroot|by rewrite Er|by rewrite E| |by rewrite Eld|by rewrite El, Hl..]. intros _. by rewrite Epid.
  - eapply ensures_bind; [by apply ensures_call with (R := any)|]. intros ppid _.
    eapply ensures_post; [by eapply mode_flag|]. intros ? (c' & -> & Ef & Eroot & Er & Epid & Eld & El). exists c'. split; [done|].
    cbn in Eroot, Er, Eld, El. constructor; [by rewrite Eroot|by rewrite Er|by rewrite E| |by rewrite Eld|by rewrite El, Hl..].
    apply Z.ltb_ge in E. lia.
Qed.

(** Without a process, [configure] is for the one that started it. *)
Lemma standalone_pid major items c :
  parsed major [] c -> Forall item_ok items ->
  gives (argp_parse (configure_parser major) items c)
    (fun c' t => item_pid items <= 0 -> Event EGetppid (c_pid (c_configure c')) ∈ t).
Proof.
  intros Hc Hi. unfold argp_parse. eapply gives_bind; [by eapply gives_ensures, (configure_items_ens major items [] c)|].
  intros [n c1] t [_ [_ H1]]. cbn [fst snd app] in *. cbv zeta. pose proof (p_pid _ _ _ H1) as Hp.
  eapply gives_bind with (R1 := fun r _ => r = Some c1).
  { eapply gives_post; [eapply gives_ensures with (P := input_event) (H := exits) (Rm := fun r => r = Some c1)|by intros r ? []].
    unfold configure_parser. cbv zeta. apply ensures_own_error. destruct (_ <? _)%nat; [apply usage_ens|by apply ensures_ret]. }
  intros ? t1 ->. cbn [default from_option id].
  eapply gives_bind with (R1 := fun r t => item_pid items <= 0 -> exists c', r = Some c' /\ Event EGetppid (c_pid (c_configure c')) ∈ t).
  - unfold configure_parser, own_error. cbv zeta. rewrite Hp. eapply gives_bind.
    + apply gives_with_err with (R := fun r t => item_pid items <= 0 -> exists c', r = Some c' /\ Event EGetppid (c_pid (c_configure c')) ∈ t).
      destruct (Z.ltb_spec 0 (item_pid items)); [eapply gives_post; [apply gives_any|]; intros; lia|].
      eapply gives_bind with (R1 := fun r t => t = [Event EGetppid r]); [by apply gives_call|]. intros ppid ? ->.
      eapply gives_post; [eapply gives_ensures, mode_flag; cbn; apply H1|].
      intros ? t' [_ (c' & -> & _ & _ & _ & Epid & _)] _. exists c'. split; [done|]. rewrite Epid. cbn. by left.
    + intros [r e] t' Ht. apply gives_ret. by rewrite app_nil_r.
  - intros r t' Ht. apply gives_ret. intros Hle. destruct (Ht Hle) as (c' & -> & Hin). cbn. set_solver.
Qed.

(** The flags a library of the present version is given. *)
Definition mode_bits : Z := Z.lor OPT_SUPERVISED OPT_STANDALONE.

Lemma item_flag_known major i w :
  major <> 0 -> item_flag major i = Some w ->
  exists v, find_option w container_opts = Some v /\ Z.land v mode_bits = 0.
Proof.
  intros Hm. destruct i as [o arg|]; [|done]. unfold item_flag, option_flag.
  replace (major =? 0) with false by (symmetry; by apply Z.eqb_neq). rewrite andb_false_r.
  intros Hw. repeat case_match; simplify_eq; by eexists.
Qed.

Lemma flags_no_mode major items :
  major <> 0 -> Z.land (opts_union container_opts (item_flags major items)) mode_bits = 0.
Proof.
  intros Hm. unfold opts_union. apply fold_left_preserves; [|done]. intros f w Hw Hf.
  apply list_elem_of_omap in Hw as (i & _ & Hi). destruct (item_flag_known _ _ _ Hm Hi) as (v & -> & Hv). cbn.
  by rewrite Z.land_lor_distr_l, Hf, Hv.
Qed.

(** What [nvc_container_new] makes of the flags: the mode is one of the two, and
    the only possible error is their length. *)
Definition mode_known (c : context) : Prop :=
  forall flags, c_container_flags (c_configure c) = Some flags ->
    opts_valid flags container_opts = (strlen flags <? NVC_ARG_MAX) /\
    has_flag (opts_union container_opts (opt_words flags)) OPT_SUPERVISED =
      negb (has_flag (opts_union container_opts (opt_words flags)) OPT_STANDALONE).

Lemma configured_mode major items c : major <> 0 -> configured major items c -> mode_known c.
Proof.
  intros Hm Hc flags Hf. rewrite (cf_flags _ _ _ Hc) in Hf. simplify_eq. unfold opts_valid.
  set (mode := if 0 <? item_pid items then "supervised" else "standalone").
  assert (Forall is_flag (item_flags major items ++ [mode])) as Hfl.
  { apply Forall_app. split; [apply flags_are_flags|]. constructor; [|done]. unfold mode. by destruct (_ <? _). }
  rewrite words_joined; [|done|by destruct (item_flags major items)]. split.
  - replace (forallb _ _) with true; [by rewrite andb_true_r|]. symmetry. apply forallb_forall. intros w Hw%list_elem_of_In.
    apply elem_of_app in Hw as [Hw| ->%list_elem_of_singleton]; [|unfold mode; by destruct (_ <? _)].
    apply list_elem_of_omap in Hw as (i & _ & Hi). by destruct (item_flag_known _ _ _ Hm Hi) as (v & -> & _).
  - unfold opts_union. rewrite fold_left_app. fold (opts_union container_opts (item_flags major items)).
    pose proof (flags_no_mode major items Hm) as Hz. set (u := opts_union _ _) in *. cbn [fold_left].
    assert (forall v b, Z.land mode_bits b = b -> has_flag (Z.lor u v) b = has_flag v b) as Hu.
    { intros v b Hb. unfold has_flag. rewrite Z.land_lor_distr_l, <- Hb at 1. rewrite Z.land_assoc, Hz. done. }
    rewrite !Hu by done. unfold mode. by destruct (_ <? _).
Qed.

(** ** Properties *)

(** C23: [configure] accepts a command line only with one word, an absolute path
    other than the root of the host, and at most 32 requirements; the context then
    has that path, the requirements in order, the last path of [--ldconfig], the
    devices of the [--device], [--mig-config] and [--mig-monitor] options, each with
    commas between them, and exactly the flags of the options, followed by the
    mode: supervised, for the process of the last [--pid], when that is positive,
    standalone, for the parent of the program, otherwise.  For a library whose major
    version is not 0 every flag is known and exactly one mode is chosen, so only
    flags of 256 characters and more are refused.  Anything else on the command line
    makes the program exit with a failure; no string is joined past its buffer. *)
Theorem configure_args_correct (o : env) major items (s : st) :
  Forall item_ok items ->
  match exec o (argp_parse (configure_parser major) items context0) s with
  | (t, Done (_, c)) => Forall input_event t /\ configured major items c /\
      (item_pid items <= 0 -> Event EGetppid (c_pid (c_configure c)) ∈ t) /\ (major <> 0 -> mode_known c)
  | (t, Halted w) => Forall input_event t /\ exits w
  end.
Proof.
  intros Hi. assert (parsed major [] context0) as H0 by (constructor; cbn; try done; unfold MAX_REQS; lia).
  pose proof (ensures_run o _ _ _ _ s (configure_args_ens major items context0 H0 Hi)) as H.
  pose proof (gives_run o _ _ s (standalone_pid major items context0 H0 Hi)) as Hp.
  destruct (exec o _ s) as [t [[s' c]|w]]; [|done]. destruct H as [Ht Hc]. split_and!; [done..|].
  intros Hm. by eapply configured_mode.
Qed.

Definition demo_items : list item :=
  [IOpt "p" (Some "42"); IOpt "d" (Some "0"); IOpt "r" (Some "cuda>=9.0"); IOpt "u" None; IOpt "c" None;
   IOpt "d" (Some "1"); IArg "/ctr"].
Definition demo_context : context :=
  mkCli (c_main context0) false (mkConfigureOpts 42 (Some "/ctr") ["cuda>=9.0"] None (Some "utility compute supervised"))
    (c_list context0) (mkDeviceOpts (Some "0,1") None None).

Lemma configure_args_correct_witness :
  exists s, snd (exec (fun _ => friendly) (argp_parse (configure_parser 1) demo_items context0) init_st) = Done (s, demo_context) /\
    configured 1 demo_items demo_context /\ mode_known demo_context.
Proof.
  pose proof (configure_args_correct (fun _ => friendly) 1 demo_items init_st ltac:(by repeat constructor)) as H.
  destruct (exec (fun _ => friendly) _ init_st) as [t out] eqn:E.
  assert (out = snd (exec (fun _ => friendly) (argp_parse (configure_parser 1) demo_items context0) init_st)) as E2 by by rewrite E.
  vm_compute in E2. subst out. destruct H as (_ & Hc & _ & Hm). eexists. split; [reflexivity|].
  split; [exact Hc|]. by apply Hm.
Defined.
