(* ===== verification/Configure.v ===== *)
(** * Configuring a container

    [src/src/cli/configure.c]: the command that initialises the library, makes the
    container, looks the driver and the devices up, checks the requirements,
    mounts everything and updates the cache of the dynamic linker, each phase with
    its own capabilities. *)
From S2P Require Import Prelude CString Effects Logic Errors Options Utils Types Paths Files Dsl Devices Ldcache Driver Cgroup Info Container Mount MountSafety Dxcore Rpc Ldconfig Context Args.

(** ** Requirements *)

(** [struct dsl_data]: pointers to the driver and to the device. *)
Record dsl_data := mkData { d_drv : option nvc_driver_info; d_dev : option nvc_device }.

Definition check_cuda_version (data : dsl_data) (cmp : dsl_comparator) (version : string) : option bool :=
  match d_drv data with
  | None => Some true
  | Some drv => match cuda_version drv with None => Some true | Some v => dsl_compare_version v cmp version end
  end.

Definition check_driver_version (data : dsl_data) (cmp : dsl_comparator) (version : string) : option bool :=
  match d_drv data with
  | None => Some true
  | Some drv => match nvrm_version drv with None => Some true | Some v => dsl_compare_version v cmp version end
  end.

Definition check_device_arch (data : dsl_data) (cmp : dsl_comparator) (arch_ : string) : option bool :=
  match d_dev data with
  | None => Some true
  | Some dev => match arch dev with None => Some true | Some v => dsl_compare_version v cmp arch_ end
  end.

Definition check_device_brand (data : dsl_data) (cmp : dsl_comparator) (brand_ : string) : option bool :=
  match d_dev data with
  | None => Some true
  | Some dev => match brand dev with None => Some true | Some v => dsl_compare_string v cmp brand_ end
  end.

Definition rules (data : dsl_data) : list dsl_rule :=
  [("cuda", check_cuda_version data); ("driver", check_driver_version data);
   ("arch", check_device_arch data); ("brand", check_device_brand data)].

(** ** Reporting *)

(** [warnx("what: %s", err.msg)] when [m] fails; [err] is that of the command. *)
Definition reported {A} (what : string) (m : M (option A)) : M (option A) :=
  let? a := m else
    (let* e := get_err in do call (EWarn (what +:+ ": " +:+ opt_str (e ← e; msg e))) in ret None) in
  ret (Some a).

(** [warn], with the text of [errno] behind. *)
Definition warn (text : string) : M unit :=
  let* n := get_errno in
  let* why := call (EStrerror n) in
  call (EWarn (text +:+ ": " +:+ why)).

Definition allocated {A} (m : M (option A)) : M (option A) :=
  let? a := m else
    (let* e := get_err in do warn ("memory allocation failed: " +:+ opt_str (e ← e; msg e)) in ret None) in
  ret (Some a).

(** A call of the library, which reports in the error of its context; [e] is what
    is there, and what is there afterwards comes with the result. *)
Definition nvc_call {A} (what : string) (e : error) (m : M (option A)) : M (option (A * error)) :=
  let* r := with_err (Some e) m in
  let e := default e (snd r) in
  match fst r with
  | Some a => ret (Some (a, e))
  | None => do call (EWarn (what +:+ ": " +:+ opt_str (nvc_error e))) in ret None
  end.

Definition capabilities (p : phase) : M (option unit) :=
  reported "permission error" (perm_set_capabilities CAP_EFFECTIVE (ecaps p)).

Definition init_phase (c : context) : phase := if c_load_kmods (c_main c) then NVC_INIT_KMODS else NVC_INIT.

(** The first thing both root commands do. *)
Definition bound_privileges : M (option unit) :=
  reported "permission error" (
    let? _ := perm_set_capabilities CAP_PERMITTED pcaps else ret None in
    let? _ := perm_set_capabilities CAP_INHERITABLE [] else ret None in
    perm_set_bounds bcaps).

(** ** The selection *)

(** The devices to mount, and those for MIG configuration and monitoring. *)
Definition select_all (c : context) (dev : nvc_device_info) : M (option (devices * devices * devices)) :=
  let d := c_devs c in
  let? visible := allocated (new_devices dev) else ret None in
  let? config := allocated (new_devices dev) else ret None in
  let? monitor := allocated (new_devices dev) else ret None in
  let? visible := (if (0 <? length dev)%nat then reported "device error" (select_devices (c_devices d) dev visible)
                   else ret (Some visible)) else ret None in
  let? config := reported "mig-config error" (select_mig_config_devices (c_mig_config d) dev visible config) else ret None in
  let? monitor := reported "mig-monitor error" (select_mig_monitor_devices (c_mig_monitor d) dev visible monitor) else ret None in
  ret (Some (visible, config, monitor)).

(** The devices the requirements are checked for: every visible one, or none in
    particular. *)
Definition required_for (dev : nvc_device_info) (visible : devices) : list (option nvc_device) :=
  match map (fun i => dev !! i) (gpus visible) ++ map (fun m => dev !! mig_parent dev m) (migs visible) with
  | [] => [None]
  | l => l
  end.

Definition check_requirements (c : context) (drv : nvc_driver_info) (dev : nvc_device_info) (visible : devices) : M (option unit) :=
  iterM (fun d =>
    iterM (fun req => reported "requirement error" (dsl_evaluate req (rules (mkData (Some drv) d)))) (c_reqs (c_configure c)))
    (required_for dev visible).

(** ** Mounting *)

Section Command.
Context {ops : CgroupOps} (with_seccomp : bool).

Definition mount_call (e : error) (m : M (option unit)) : M (option error) :=
  let? r := nvc_call "mount error" e m else ret None in ret (Some (snd r)).

(** What is mounted for MIG management when all the devices are asked for. *)
Definition mount_mig_management (ctx : nvc_context) (cnt : nvc_container) (dev : nvc_device_info) (d : devices)
    (global : nvc_context -> option nvc_container -> M (option unit)) (e : error) : M (option error) :=
  if all d && (0 <? length (gpus d))%nat then
    let? e := mount_call e (global ctx (Some cnt)) else ret None in
    foldM (fun e i => mount_call e (nvc_device_mig_caps_mount ctx (Some cnt) (dev !! i))) e (gpus d)
  else ret (Some e).

Definition find_mig_device (dev : nvc_device_info) (m : nat * nat) : option nvc_mig_device :=
  g ← dev !! fst m; mig_devices g !! snd m.

Definition mount_all (ctx : nvc_context) (cnt : nvc_container) (drv : nvc_driver_info) (dev : nvc_device_info)
    (visible config monitor : devices) (e : error) : M (option error) :=
  let? e := mount_call e (nvc_driver_mount ctx (Some cnt) (Some drv)) else ret None in
  let? e := foldM (fun e i => mount_call e (nvc_device_mount ctx (Some cnt) (dev !! i))) e (gpus visible) else ret None in
  let? e := (if negb (all config) && negb (all monitor) then
               foldM (fun e m => mount_call e (nvc_mig_device_access_caps_mount ctx (Some cnt) (find_mig_device dev m)))
                     e (migs visible)
             else ret (Some e)) else ret None in
  let? e := mount_mig_management ctx cnt dev config nvc_mig_config_global_caps_mount e else ret None in
  mount_mig_management ctx cnt dev monitor nvc_mig_monitor_global_caps_mount e.

(** ** The command *)

Definition EXIT (r : option unit) : Z := match r with Some _ => EXIT_SUCCESS | None => EXIT_FAILURE end.

(** What the mounts need. *)
Record findings := mkFindings {
  f_cnt : nvc_container; f_drv : nvc_driver_info; f_dev : nvc_device_info;
  f_visible : devices; f_config : devices; f_monitor : devices; f_err : error
}.

(** From the initialised library to the requirements. *)
Definition examine (c : context) (lib : library) (cnt_cfg : nvc_container_config) (e : error) : M (option findings) :=
  let ctx := l_ctx lib in
  let? _ := capabilities NVC_CONTAINER else ret None in
  let? q := nvc_call "container error" e (nvc_container_new ctx (Some cnt_cfg) (c_container_flags (c_configure c))) else ret None in
  let '(cnt, e) := q in
  let? _ := capabilities NVC_INFO else ret None in
  let? q := nvc_call "detection error" e (nvc_driver_info_new ctx None) else ret None in
  let '(drv, e) := q in
  let? q := nvc_call "detection error" e (nvc_device_info_new ctx) else ret None in
  let '(dev, e) := q in
  let? sel := select_all c dev else ret None in
  let '(visible, config, monitor) := sel in
  let? _ := check_requirements c drv dev visible else ret None in
  ret (Some (mkFindings cnt drv dev visible config monitor e)).

(** From the initialised library to the end; [cnt_cfg] comes from the context. *)
Definition configure_container (c : context) (lib : library) (cnt_cfg : nvc_container_config) (e : error) : M (option unit) :=
  let ctx := l_ctx lib in
  let? f := examine c lib cnt_cfg e else ret None in
  let? _ := capabilities NVC_MOUNT else ret None in
  let? e := mount_all ctx (f_cnt f) (f_drv f) (f_dev f) (f_visible f) (f_config f) (f_monitor f) (f_err f) else ret None in
  let? _ := capabilities NVC_LDCACHE else ret None in
  let? _ := nvc_call "ldcache error" e (nvc_ldcache_update with_seccomp (l_log lib) ctx (Some (f_cnt f))) else ret None in
  capabilities NVC_SHUTDOWN.

(** The library of a new process, around a context. *)
Definition library_new (ctx : nvc_context) : library := mkLibrary ctx driver_zero (mkNvcgoGlobal rpc_zero false) false.

Definition no_error : error := mkError 0 None.

(** [libnvc.shutdown(nvc)] on the way out; the result does not matter. *)
Definition leave (lib : library) (e : error) (rv : Z) : M Z :=
  do with_err (Some e) (nvc_shutdown lib) in ret rv.

(** [libnvc.shutdown(NULL)] does nothing; a [NULL] root is refused like an empty
    one. *)
Definition configure_command (c : context) : M Z :=
  let m := c_main c in
  let x := c_configure c in
  own_error (
    let? _ := bound_privileges else ret EXIT_FAILURE in
    let? _ := capabilities (init_phase c) else ret EXIT_FAILURE in
    let? nvc := nvc_context_new else do warn "memory allocation failed" in ret EXIT_FAILURE in
    let fail := do warn "memory allocation failed" in leave (library_new nvc) no_error EXIT_FAILURE in
    let? _ := nvc_config_new else fail in
    let? cnt_cfg := nvc_container_config_new (c_pid x) (default EmptyString (c_rootfs x)) else fail in
    let nvc := mkContext (initialized nvc) (cfg nvc) (mnt_ns nvc) (c_no_pivot m) (dxcore nvc) in
    let* q := with_err (Some no_error)
                (nvc_init (library_new nvc) (Some (mkConfigArg (c_root m) (c_ldcache m) (c_uid m) (c_gid m))) (c_init_flags m)) in
    let '((lib, ok), e) := q in
    let e := default no_error e in
    match ok with
    | None =>
        do call (EWarn ("initialization error: " +:+ opt_str (nvc_error e))) in
        leave lib e EXIT_FAILURE
    | Some _ =>
        let cnt_cfg := mkCntConfig (cc_pid cnt_cfg) (cc_rootfs cnt_cfg) None None None None None (c_ldconfig x) in
        let* r := configure_container c lib cnt_cfg e in
        leave lib e (EXIT r)
    end).
End Command.
