(* ===== verification/ConfigureSafety.v ===== *)
(** * What the command does to the system

    Whole runs of [configure_command].  The trace of a run is that of one process:
    where a fork answers [0] the run goes on as the child. *)
From S2P Require Import Prelude CString Effects Logic Errors Options Utils Types Paths Files Dsl Devices Pci Modprobe Ldcache Driver Cgroup Info Container Mount MountSafety Dxcore Rpc Ldconfig Context Args Configure.

(** ** The process itself and its children *)

Definition child_step (child : bool) (ev : event) : bool :=
  match ev with Event (EFork _) (SOk 0%N) => true | _ => child end.

(** What the process does besides configuring the container: it starts its
    services and asks them, and watches its children.  Changing the root is what
    the driver service does for itself when it is asked to start. *)
Definition attends (e : sys) : bool :=
  match e with
  | EFork _ | EWaitpid _ | EWaitNohang _ | EKill _ _ | EGetpid | EPoll _ _ | EPipe | EFdopen _ | ESocketpair | EGetpeername _
  | EChroot _ | EChdir _ => true
  | _ => false
  end.

(** Nothing is mounted, made or removed. *)
Definition quiet (ev : event) : Prop := cgroup_event ev \/ attends (ev_call ev) = true.
(** Only the container changes. *)
Definition own_event (root : string) (ev : event) : Prop := confined root ev \/ attends (ev_call ev) = true.

Definition proper (Q : event -> Prop) (child : bool) (ev : event) : Prop := child = true \/ Q ev.

Section Own.
Variable Q : event -> Prop.

Lemma child_stays t : fold_left child_step t true = true.
Proof. induction t as [|[[] r] t IH]; try done. simpl. by destruct r as [[]|]. Qed.

Lemma child_proper t : always child_step (proper Q) true t.
Proof.
  induction t as [|ev t IH]; simpl; [done|]. split; [by left|].
  replace (child_step true ev) with true; [done|]. by pose proof (child_stays [ev]).
Qed.

(** Until it becomes a child, [m] does what is proper; a value it then returns
    satisfies [R]. *)
Definition own {A} (m : M A) (R : A -> Prop) : Prop :=
  guarded child_step (proper Q) m false (fun a g => g = false -> R a).

Lemma guarded_child {A} (m : M A) (R : A -> Prop) : guarded child_step (proper Q) m true (fun a g => g = false -> R a).
Proof.
  intros s. eapply wp_mono; [|apply wp_true]. intros t o _. split; [apply child_proper|].
  destruct o as [[s' a]|w]; [|done]. by rewrite child_stays.
Qed.

Lemma own_bind {A B} (m : M A) (k : A -> M B) R1 R2 :
  own m R1 -> (forall a, R1 a -> own (k a) R2) -> own (bind m k) R2.
Proof.
  intros Hm Hk. eapply guarded_bind; [exact Hm|]. intros a [] Ha; [apply guarded_child|]. by apply Hk, Ha.
Qed.

Lemma own_ret {A} (a : A) (R : A -> Prop) : R a -> own (ret a) R.
Proof. intros Ha. by apply guarded_ret. Qed.

Lemma own_ensures {A} P H (m : M A) R : ensures P H m R -> (forall ev, P ev -> Q ev) -> own m R.
Proof.
  intros Hm HP s. eapply wp_mono; [|apply Hm]. intros t o [Ht Ho]. split.
  - apply (always_Forall _ _ P); [|done]. intros ev g Hev. right. by apply HP.
  - by destruct o as [[s' a]|w].
Qed.

Lemma own_call (e : sys) : (forall r, Q (Event e r)) -> own (call e) (fun _ => True).
Proof. intros He. apply guarded_call; [intros r; right; apply He|done]. Qed.

Lemma own_trap {A} (r : sres A) : own (trap r) (fun a => match r with SOk x => a = Some x | SErr _ => a = None end).
Proof. intros s. by destruct r. Qed.

Lemma own_halt {A} w (R : A -> Prop) : own (halt w) R.
Proof. apply guarded_halt. Qed.

Lemma own_and {A} P H (m : M A) (R R' : A -> Prop) : own m R -> ensures P H m R' -> own m (fun a => R a /\ R' a).
Proof.
  intros Hm Hv s. eapply wp_mono; [|apply wp_and; [apply Hm|apply Hv]].
  intros t [[s' a]|w] [[Ht Ho] [_ Ho']]; split; auto.
Qed.

Lemma own_post {A} (m : M A) (R R' : A -> Prop) : own m R -> (forall a, R a -> R' a) -> own m R'.
Proof. intros Hm HR. eapply guarded_post; [exact Hm|]. auto. Qed.

(** Only the parent is left to look at. *)
Lemma own_fork {A} fl (k : sres N -> M A) R :
  (forall r, Q (Event (EFork fl) r)) -> (forall r, r <> SOk 0%N -> own (k r) R) -> own (bind (call (EFork fl)) k) R.
Proof.
  intros Hf Hk. eapply guarded_bind with (R1 := fun r g => g = true \/ (g = false /\ r <> SOk 0%N)).
  - apply guarded_call; [intros r; right; apply Hf|]. intros [[|n]|e]; cbn; auto.
  - intros r g [->|[-> Hr]]; [apply guarded_child|by apply Hk].
Qed.

Lemma own_try {A B} (m : M (option A)) (k : A -> M B) (e : M B) R1 R :
  own m (fun r => match r with Some a => R1 a | None => True end) ->
  (forall a, R1 a -> own (k a) R) -> own e R ->
  own (bind m (fun o => match o with Some x => k x | None => e end)) R.
Proof. intros Hm Hk He. eapply own_bind; [exact Hm|]. intros [a|] H; [by apply Hk|exact He]. Qed.

Lemma own_with_err {A} e (m : M A) R : own m R -> own (with_err e m) (fun r => R (fst r)).
Proof.
  intros Hm s. apply wp_with_err. eapply wp_mono; [|apply Hm]. by intros t [[s' a]|w].
Qed.

Lemma own_own_error {A} (m : M A) R : own m R -> own (own_error m) R.
Proof. intros Hm. unfold own_error. eapply own_bind; [by apply own_with_err|]. intros r Hr. by apply own_ret. Qed.

Lemma own_foldM {A S} (f : S -> A -> M (option S)) (l : list A) s :
  (forall s a, a ∈ l -> own (f s a) (fun _ => True)) -> own (foldM f s l) (fun _ => True).
Proof.
  revert s. induction l as [|a l IH]; intros s Hf; cbn [foldM]; [by apply own_ret|].
  eapply own_bind; [apply Hf, list_elem_of_here|]. intros [s'|] _; [|by apply own_ret].
  apply IH. intros s1 x Hx. by apply Hf, list_elem_of_further.
Qed.
End Own.

Lemma own_mono {A} (Q Q' : event -> Prop) (m : M A) R : (forall ev, Q ev -> Q' ev) -> own Q m R -> own Q' m R.
Proof.
  intros HQ Hm s. eapply wp_mono; [|apply Hm]. intros t o [Ht Ho]. split; [|done]. clear Ho Hm. revert Ht.
  generalize false. induction t as [|ev t IH]; intros g; simpl; [done|]. intros [Hg Ht]. split; [|auto].
  destruct Hg as [->|Hg]; [by left|right; auto].
Qed.

Lemma quiet_kinds K ev :
  forallb (fun k => bool_decide (k ∈ [KLib; KRead; KCred; KDev])) K = true -> only K ev -> quiet ev.
Proof. intros HK Hev. left. apply cgroup_event_only. by eapply only_mono. Qed.
Lemma quiet_lib ev : only [KLib] ev -> quiet ev.
Proof. by apply quiet_kinds. Qed.
Lemma quiet_read ev : only [KLib; KRead] ev -> quiet ev.
Proof. by apply quiet_kinds. Qed.
Lemma quiet_close ev : only [KRead] ev -> quiet ev.
Proof. by apply quiet_kinds. Qed.
Lemma quiet_none ev : only [] ev -> quiet ev.
Proof. by apply quiet_kinds. Qed.
Lemma quiet_cred ev : only [KLib; KCred] ev -> quiet ev.
Proof. by apply quiet_kinds. Qed.
Lemma quiet_bounds ev : only [KLib; KRead; KCred] ev -> quiet ev.
Proof. by apply quiet_kinds. Qed.
Lemma quiet_dev ev : only [KLib; KDev] ev -> quiet ev.
Proof. by apply quiet_kinds. Qed.
Lemma quiet_dx ev : only [KLib; KRead; KDev] ev -> quiet ev.
Proof. by apply quiet_kinds. Qed.
Lemma quiet_cgroup ev : cgroup_event ev -> quiet ev.
Proof. by left. Qed.
#[export] Hint Resolve quiet_lib quiet_read quiet_close quiet_none quiet_cred quiet_bounds quiet_dev quiet_dx quiet_cgroup : ens.
#[export] Hint Extern 1 (quiet (Event _ _)) => (first [right; reflexivity | left; reflexivity]) : ens.

Lemma quiet_own root ev : quiet ev -> own_event root ev.
Proof. intros [Hev|Hev]; [left; by apply confined_cgroup|by right]. Qed.

(** One statement of the process itself. *)
Ltac ostep :=
  cbv beta zeta;
  match goal with
  | |- own _ (bind (call (EFork _)) _) _ => apply own_fork; [intros; solve [eauto with ens]|intros ? ?]
  | |- own _ (bind (call _) _) _ => eapply own_bind; [apply own_call; intros; solve [eauto with ens]|intros ? _]
  | |- own _ (bind (trap _) _) _ => eapply own_bind; [apply own_trap|intros ? ?]
  | |- own _ (bind _ _) _ =>
      eapply own_bind; [eapply own_ensures; [solve [typeclasses eauto with ens nocore]|solve [eauto with ens]]|cbv beta; intros ? ?]
  | |- own _ (ret _) _ => apply own_ret
  | |- own _ (halt _) _ => apply own_halt
  | |- own _ (match ?x with _ => _ end) _ => destruct x eqn:?
  | |- own _ _ _ => eapply own_post; [eapply own_ensures; [solve [typeclasses eauto with ens nocore]|solve [eauto with ens]]|]
  end.

(** ** The services *)

Section Services.
Notation calm := (own quiet).

Lemma reap_process_own r fd force :
  one_line (prog_name r) -> ensures (quiet) no_stop (reap_process r fd force) any.
Proof.
  intros Hr. unfold reap_process. ens_step. ens_step.
  eapply ensures_bind with (R := any); [ens|]. intros [] _; ens.
Qed.

Lemma rpc_fail_own r :
  one_line (prog_name r) -> ensures (quiet) no_stop (rpc_fail r) (fun q => prog_name (fst q) = prog_name r).
Proof.
  intros Hr. unfold rpc_fail, clnt_destroy. eapply ensures_bind with (R := any).
  { destruct (_ <? _); [|ens]. eapply ensures_bind; [apply ensures_null_err; by apply reap_process_own|]. intros r0 _. by apply ensures_ret. }
  intros _ _. ens.
Qed.

Lemma setup_client_own r :
  one_line (prog_name r) -> ensures (quiet) no_stop (setup_client r) (fun q => prog_name (fst q) = prog_name r).
Proof. intros Hr. unfold setup_client. ens. Qed.

Lemma rpc_init_own r name :
  one_line name -> one_line (prog_name r) -> calm (rpc_init r name) (fun q => one_line (prog_name (fst q))).
Proof.
  intros Hn Hr. unfold rpc_init. destruct (r_initialized r); [by apply own_ret|]. cbv zeta.
  assert (forall r', prog_name r' = name ->
    calm (do error_set (name +:+ " rpc service process creation failed") in rpc_fail r') (fun q => one_line (prog_name (fst q)))) as Hf.
  { intros r' Er. eapply own_bind; [eapply own_ensures; [solve [typeclasses eauto with ens nocore]|apply quiet_lib]|]. intros _ _.
    eapply own_post; [eapply own_ensures; [apply rpc_fail_own; by rewrite Er|done]|]. intros q ->. by rewrite Er. }
  ostep. ostep. ostep. destruct a1 as [[fc fs]|]; [|by apply Hf]. apply own_fork; [intros; by right|]. intros f Hne. ostep.
  destruct a1 as [child|]; [|by apply Hf]. destruct f as [n|]; [|done]. simplify_eq.
  destruct (n =? 0)%N eqn:E; [by apply N.eqb_eq in E as ->|].
  eapply own_bind; [by eapply own_ensures; [apply setup_client_own|]|]. intros [r1 [[]|]] Hp; cbn [fst] in Hp.
  - by apply own_ret.
  - eapply own_post; [eapply own_ensures; [apply rpc_fail_own; by rewrite Hp|done]|]. intros q ->. by rewrite Hp.
Qed.

Lemma rpc_shutdown_own r force :
  one_line (prog_name r) -> ensures (quiet) no_stop (rpc_shutdown r force) (fun q => one_line (prog_name (fst q))).
Proof.
  intros Hr. unfold rpc_shutdown, clnt_destroy.
  eapply ensures_bind with (R := any); [destruct (_ <? _); [by apply reap_process_own|ens]|]. intros [[]|] _; [|by apply ensures_ret].
  eapply ensures_bind with (R := any); [destruct (clt r); ens|]. intros _ _.
  repeat (eapply ensures_bind with (R := any); [ens|intros _ _]). by apply ensures_ret.
Qed.

Lemma rpc_own {A} `{Xdr A} prog (svc : M (xres A)) :
  ErrText (prog +:+ " rpc error") -> ensures (quiet) any_stop svc any ->
  ensures (quiet) any_stop (call_rpc prog svc) any.
Proof.
  intros Ht Hs. eapply ensures_post; [eapply call_rpc_ens with (R := any)|done]; try done.
  - intros ev Hev. by apply quiet_dev.
  - eapply ensures_post; [exact Hs|]. by intros [].
Qed.

Lemma service_own {A} `{Xdr A} (m : M (option A)) :
  ensures (quiet) any_stop m any -> ensures (quiet) any_stop (service m) any.
Proof.
  intros Hm. eapply ensures_post; [eapply service_ens with (R := any); try done|done].
  - intros ev Hev. by apply quiet_dev.
  - eapply ensures_post; [exact Hm|]. by intros [].
Qed.

Lemma driver_service_own d : ensures (quiet) any_stop (driver_init_1_svc d) any.
Proof.
  unfold driver_init_1_svc. apply service_own.
  eapply ensures_bind with (R := any); [destruct (negb _); ens|].
  intros [[]|] _; [|ens]. pose proof perm_drop_privileges_ens. ens.
Qed.

Lemma driver_init_own dx dr uid gid :
  calm (driver_init dx dr uid gid) (fun q => one_line (prog_name (dg_rpc (fst q))) /\ (snd q = Some tt -> dg_initialized (fst q) = true)).
Proof.
  unfold driver_init. destruct (_ <=? _); [apply own_halt|]. cbv zeta.
  set (ok q := one_line (prog_name (dg_rpc (fst q))) /\ (snd q = Some tt -> dg_initialized (fst q) = true)).
  assert (forall d, one_line (prog_name (dg_rpc d)) ->
    calm (let* r := own_error (rpc_shutdown (dg_rpc d) true) in
         ret (mkDriverGlobal (fst r) (dg_initialized d) (dg_driver d), None : option unit)) ok) as Hf.
  { intros d Hd. eapply own_bind; [eapply own_own_error, own_ensures; [by apply rpc_shutdown_own|done]|].
    intros r Hr. by apply own_ret. }
  eapply own_bind with (R1 := fun _ => True).
  { destruct (dx_initialized dx); [|by apply own_ret]. destruct (adapterList dx); [apply own_halt|].
    eapply own_post; [eapply own_ensures; [apply path_join_ens|apply quiet_lib]|done]. }
  intros [path|] _; [|by apply Hf]. eapply own_bind; [by apply rpc_init_own|]. intros [r [[]|]] Hr; cbn [fst snd] in *; [|by apply Hf].
  eapply own_bind; [eapply own_ensures; [apply rpc_own; [typeclasses eauto|apply driver_service_own]|done]|].
  intros [[]|] _; [by apply own_ret|by apply Hf].
Qed.

Lemma nvcgo_init_own :
  calm nvcgo_init (fun q => one_line (prog_name (ng_rpc (fst q))) /\ (snd q = Some tt -> ng_initialized (fst q) = true)).
Proof.
  unfold nvcgo_init. cbv zeta.
  set (ok q := one_line (prog_name (ng_rpc (fst q))) /\ (snd q = Some tt -> ng_initialized (fst q) = true)).
  assert (forall r, one_line (prog_name r) ->
    calm (let* r := own_error (rpc_shutdown r true) in ret (mkNvcgoGlobal (fst r) false, None : option unit)) ok) as Hf.
  { intros r Hr. eapply own_bind; [eapply own_own_error, own_ensures; [by apply rpc_shutdown_own|done]|].
    intros q Hq. by apply own_ret. }
  eapply own_bind; [by apply rpc_init_own|]. intros [r [[]|]] Hr; cbn [fst snd] in *; [|by apply Hf].
  eapply own_bind; [eapply own_ensures; [apply rpc_own; [typeclasses eauto|]|done]|].
  - unfold nvcgo_init_1_svc. apply service_own. eapply ensures_bind with (R := any); [ens|]. intros [[]|] _; [|ens].
    apply ensures_iterM. intros f _. ens.
  - intros [[]|] _; [by apply own_ret|by apply Hf].
Qed.

(** Kernel modules are loaded by a child. *)
Lemma load_kernel_modules_own dr : calm (load_kernel_modules dr) (fun _ => True).
Proof.
  unfold load_kernel_modules. eapply own_bind with (R1 := fun _ => True).
  { unfold init_within_userns, check_map. eapply own_post; [eapply own_ensures with (P := quiet) (H := any_stop) (R := any)|done]; [|done].
    pose proof err_code_ens. ens. }
  intros [[]|] _; [by apply own_ret| |by apply own_ret].
  eapply own_bind; [eapply own_ensures; [apply pci_enum_match_id_ens|intros ev Hev; by apply quiet_read, pci_read_only]|]. intros q _.
  apply own_fork; [intros; by right|]. intros f Hne. ostep.
  destruct a as [pid|].
  - destruct f as [n|]; [|done]. simplify_eq. destruct (n =? 0)%N eqn:E; [by apply N.eqb_eq in E as ->|].
    by repeat ostep.
  - by repeat ostep.
Qed.

(** The names of the services. *)
Definition names_ok (d : driver_global) (n : nvcgo_global) : Prop :=
  one_line (prog_name (dg_rpc d)) /\ one_line (prog_name (ng_rpc n)).

Lemma start_services_own flags c dx0 d0 n0 :
  names_ok d0 n0 ->
  calm (start_services flags c dx0 d0 n0) (fun r => names_ok (s_driver r) (s_nvcgo r)).
Proof.
  intros Hn. unfold start_services. cbv zeta.
  eapply own_bind; [eapply own_ensures; [apply copy_config_ens|apply quiet_read]|]. intros [cfg|] _; [|by apply own_ret].
  ostep. destruct a; [|by apply own_ret]. ostep. destruct a; [|by apply own_ret].
  eapply own_bind; [eapply own_ensures; [apply dxcore_init_context_ens|apply quiet_dx]|]. intros dx _.
  set (dx' := default _ dx). clearbody dx'.
  destruct (_ && _); [ostep; by apply own_ret|].
  eapply own_bind with (R1 := fun _ => True); [destruct (_ && _); [apply load_kernel_modules_own|by apply own_ret]|].
  intros [[]|] _; [|by apply own_ret]. eapply own_bind; [apply driver_init_own|].
  intros [d [[]|]] [Hd _]; cbn [fst] in Hd; [|apply own_ret; split; [done|apply Hn]].
  eapply own_bind; [apply nvcgo_init_own|].
  intros [n [[]|]] [Hg _]; cbn [fst] in Hg; by apply own_ret.
Qed.

Lemma nvc_init_own lib c opts :
  names_ok (l_driver lib) (l_nvcgo lib) -> initialized (l_ctx lib) = false ->
  calm (nvc_init lib (Some c) opts) (fun q => names_ok (l_driver (fst q)) (l_nvcgo (fst q))).
Proof.
  intros Hn Hi. unfold nvc_init. rewrite Hi. cbn [default from_option id].
  ostep. destruct a; [|by apply own_ret]. ostep. destruct a; [|by apply own_ret]. ostep.
  eapply own_bind with (R1 := fun _ => True).
  { unfold log_open. match goal with |- context [match ?x with Some _ => _ | None => ret (l_log lib) end] => destruct x; [|by apply own_ret] end. destruct (l_log lib); [by apply own_ret|]. by repeat ostep. }
  intros log _. eapply own_bind; [by apply start_services_own|]. intros r Hr. destruct (s_cfg r); [by apply own_ret|].
  ostep. by apply own_ret.
Qed.

(** Stopping the services. *)
Lemma nvc_shutdown_own lib :
  one_line (prog_name (dg_rpc (l_driver lib))) -> one_line (prog_name (ng_rpc (l_nvcgo lib))) ->
  ensures (quiet) any_stop (nvc_shutdown lib) any.
Proof.
  intros Hd Hn. unfold nvc_shutdown, nvcgo_shutdown, driver_shutdown.
  eapply ensures_bind with (R := any).
  { destruct (negb _); [ens|]. eapply ensures_bind with (R := any).
    { apply rpc_own; [typeclasses eauto|]. unfold nvcgo_shutdown_1_svc. apply service_own. ens. }
    intros rv _. eapply ensures_bind; [eapply ensures_weaken; [by apply rpc_shutdown_own|done|done|intros q Hq; exact Hq]|].
    intros [r [[]|]] _; ens. }
  intros n _. eapply ensures_bind with (R := any).
  { destruct (negb _); [ens|]. eapply ensures_bind with (R := any).
    { apply rpc_own; [typeclasses eauto|]. unfold driver_shutdown_1_svc. apply service_own. ens. }
    intros rv _. eapply ensures_bind; [eapply ensures_weaken; [by apply rpc_shutdown_own|done|done|intros q Hq; exact Hq]|].
    intros [r [[]|]] _; ens. }
  intros d _. cbv zeta. destruct (negb _); ens.
Qed.
End Services.

(** ** The phases *)

Section Phases.
Notation calm := (own quiet).

Lemma create_process_own log fl : calm (create_process log fl) (fun r => r <> Some 0).
Proof.
  unfold create_process. cbv zeta. eapply own_bind with (R1 := fun _ => True).
  { destruct log; [|by apply own_ret]. ostep. ostep. by destruct a0; apply own_ret. }
  intros [[fd0 fd1]|] _; [|repeat ostep; done]. apply own_fork; [intros; by right|]. intros r Hr. ostep.
  destruct a as [child|]; [|repeat ostep; done]. destruct r as [n|]; [|done]. simplify_eq.
  destruct (n =? 0)%N eqn:E; [by apply N.eqb_eq in E as ->|]. apply N.eqb_neq in E.
  eapply own_bind with (R1 := fun _ => True).
  { unfold log_pipe_output. destruct log; cbn [negb]; [|by repeat ostep].
    eapply own_post; [eapply own_ensures with (P := quiet) (H := any_stop) (R := any)|done]; [|done]. ens. }
  intros [[rv fd1'] null] _. eapply own_bind with (R1 := fun _ => True); [destruct rv; repeat ostep; done|].
  intros _ _. do 3 ostep. apply own_ret. intros [= ?]. lia.
Qed.

Lemma nvc_ldcache_update_own ws log ctx cnt : calm (nvc_ldcache_update ws log ctx (Some cnt)) (fun _ => True).
Proof.
  unfold nvc_ldcache_update. ostep. destruct a; [|by apply own_ret]. destruct (ldconfig (ccfg cnt)) as [path|]; [|apply own_halt].
  cbv zeta. eapply own_bind with (R1 := fun _ => True).
  { destruct (Ascii.eqb _ _); [|by apply own_ret]. ostep. by destruct a; apply own_ret. }
  intros [fd|] _; [|by apply own_ret]. eapply own_bind; [apply create_process_own|].
  intros [child|] Hc; [|ostep; by apply own_ret]. destruct (child =? 0) eqn:E; [by apply Z.eqb_eq in E as ->|].
  ostep. ostep. ostep. repeat ostep; done.
Qed.

(** *** The selection *)

Definition on_some {A} (R : A -> Prop) (r : option A) : Prop := match r with Some a => R a | None => True end.

Lemma reported_ens {A} P H' what (m : M (option A)) R :
  (forall ev, only [KLib] ev -> P ev) -> ensures P H' m (on_some R) -> ensures P H' (reported what m) (on_some R).
Proof.
  intros HP Hm. unfold reported. eapply ensures_bind; [exact Hm|]. intros [a|] Ha; [by apply ensures_ret|].
  eapply ensures_bind; [by apply ensures_get_err with (R := any)|]. intros e _.
  eapply ensures_bind; [by apply ensures_call with (R := any); [intros; apply HP|]|]. intros _ _. by apply ensures_ret.
Qed.

Lemma allocated_ens {A} H' (m : M (option A)) R :
  ensures (only [KLib]) H' m (on_some R) -> ensures (only [KLib]) H' (allocated m) (on_some R).
Proof.
  intros Hm. unfold allocated, warn. eapply ensures_bind; [exact Hm|]. intros [a|] Ha; [by apply ensures_ret|]. ens.
Qed.

Lemma no_migs ctx dev : Forall (wf_device ctx) dev -> all_migs dev = [].
Proof.
  intros Hd. unfold all_migs. generalize (seq 0 (length dev)). induction Hd as [|g dev Hg Hd IH]; intros l; [by rewrite zip_with_nil_r|].
  destruct l as [|i l]; [done|]. cbn. destruct (wd_mig _ _ Hg) as [_ ->]. apply IH.
Qed.

Lemma device_infos_wf ctx dev : Forall (wf_device ctx) dev -> wf_info dev.
Proof.
  intros Hd i g j m Hg Hm. rewrite Forall_lookup in Hd. destruct (wd_mig _ _ (Hd i g Hg)) as [_ E]. by rewrite E in Hm.
Qed.

Lemma not_capable ctx dev i : Forall (wf_device ctx) dev -> gpu_mig_capable dev i = false.
Proof.
  intros Hd. unfold gpu_mig_capable. destruct (dev !! i) as [g|] eqn:E; [|done]. rewrite Forall_lookup in Hd.
  apply (wd_mig _ _ (Hd i g E)).
Qed.

(** No MIG device is ever selected. *)
Definition plain_selection (dev : nvc_device_info) (r : devices * devices * devices) : Prop :=
  Inv dev (fst (fst r)) /\ migs (fst (fst r)) = [] /\ gpus (snd (fst r)) = [] /\ gpus (snd r) = [].

Lemma select_all_ens ctx c dev :
  Forall (wf_device ctx) dev -> ensures (only [KLib]) overread (select_all c dev) (on_some (plain_selection dev)).
Proof.
  intros Hd. pose proof (device_infos_wf _ _ Hd) as Hwf. unfold select_all. cbv zeta.
  set (fresh d := Inv dev d /\ gpus d = [] /\ migs d = [] /\ all d = false).
  assert (ensures (only [KLib]) overread (allocated (new_devices dev)) (on_some fresh)) as Hnew.
  { apply allocated_ens. eapply ensures_weaken; [apply new_devices_ens|done|done|]. by intros [d|]. }
  eapply ensures_bind; [exact Hnew|]. intros [v0|] Hv; [|by apply ensures_ret].
  eapply ensures_bind; [exact Hnew|]. intros [c0|] Hc; [|by apply ensures_ret].
  eapply ensures_bind; [exact Hnew|]. intros [m0|] Hm; [|by apply ensures_ret].
  destruct Hv as (Iv & _ & Ev & _), Hc as (Ic & Ec & _), Hm as (Im & Em & _).
  eapply ensures_bind with (R := on_some (Inv dev)).
  { destruct (_ <? _)%nat; [|by apply ensures_ret]. apply reported_ens; [done|]. eapply ensures_post; [by apply select_devices_ens|].
    intros [d|]; [|done]. by intros (? & _). }
  intros [v|] Hv; [|by apply ensures_ret]. cbn in Hv.
  assert (forall text devs d, Inv dev d -> gpus d = [] ->
    ensures (only [KLib]) overread (select_mig_loop (mig_fuel devs) text devs dev v d) (on_some (fun d' => gpus d' = []))) as Hmig.
  { intros text devs d Hi He. eapply ensures_weaken; [apply select_mig_loop_ens; try done|done|done|].
    - unfold mig_fuel. destruct devs; lia.
    - intros [d'|]; [|done]. intros (_ & Hg & _). cbn. destruct (gpus d') as [|i l]; [done|].
      destruct (Hg i (list_elem_of_here _ _)) as [Hcap _]. by rewrite (not_capable _ _ i Hd) in Hcap. }
  eapply ensures_bind; [apply reported_ens; [done|by apply Hmig]|]. intros [cf|] Hcf; [|by apply ensures_ret].
  eapply ensures_bind; [apply reported_ens; [done|by apply Hmig]|]. intros [mo|] Hmo; [|by apply ensures_ret].
  apply ensures_ret. split_and!; try done. cbn [fst]. pose proof (inv_migs_valid _ _ Hv) as Hall.
  rewrite (no_migs _ _ Hd) in Hall. destruct (migs v) as [|m l]; [done|]. apply Forall_inv in Hall. by apply not_elem_of_nil in Hall.
Qed.

Lemma ensures_iterM_all {A} P H' (f : A -> M (option unit)) (l : list A) (R : A -> Prop) :
  (forall a, a ∈ l -> ensures P H' (f a) (on_some (fun _ => R a))) ->
  ensures P H' (iterM f l) (on_some (fun _ => forall a, a ∈ l -> R a)).
Proof.
  induction l as [|a l IH]; intros Hf; cbn [iterM]; [apply ensures_ret; by intros a ?%not_elem_of_nil|].
  eapply ensures_bind; [apply Hf, list_elem_of_here|]. intros [[]|] Ha; [|by apply ensures_ret].
  eapply ensures_post; [apply IH; intros x Hx; by apply Hf, list_elem_of_further|].
  intros [[]|]; [|done]. intros Hl x [->|Hx]%elem_of_cons; [done|by apply Hl].
Qed.

Lemma check_requirements_ens c drv dev visible :
  ensures (only [KLib]) no_stop (check_requirements c drv dev visible)
    (on_some (fun _ => forall d, d ∈ required_for dev visible -> forall req, req ∈ c_reqs (c_configure c) ->
       or_loop (tokens " " req) (rules (mkData (Some drv) d)) true = Some true)).
Proof.
  unfold check_requirements. apply ensures_iterM_all. intros d _. apply ensures_iterM_all. intros req _.
  apply reported_ens; [done|]. eapply ensures_post; [apply dsl_evaluate_ens|]. by intros [].
Qed.

(** *** Mounting *)

Lemma nvc_call_own {A} (Q : event -> Prop) what e (m : M (option A)) R :
  (forall ev, quiet ev -> Q ev) ->
  own Q m (on_some R) -> own Q (nvc_call what e m) (on_some (fun r => R (fst r))).
Proof.
  intros HQ Hm. unfold nvc_call. eapply own_bind; [by apply own_with_err|]. intros [[a|] e'] Ha; [by apply own_ret|].
  cbn [fst]. eapply own_mono; [exact HQ|]. ostep. by apply own_ret.
Qed.

Lemma nvc_call_ens {A} (Q : event -> Prop) H what e (m : M (option A)) R :
  (forall ev, quiet ev -> Q ev) ->
  ensures Q H m (on_some R) -> ensures Q H (nvc_call what e m) (on_some (fun r => R (fst r))).
Proof.
  intros HQ Hm. unfold nvc_call.
  eapply ensures_bind; [eapply ensures_with_err with (R2 := fun r => on_some R (fst r)); [exact Hm|done]|].
  intros [[a|] e'] Ha; [by apply ensures_ret|]. cbn [fst].
  eapply ensures_bind; [apply ensures_call with (R := any); [intros; by apply HQ, quiet_lib|done]|]. intros _ _. by apply ensures_ret.
Qed.

Lemma mount_call_ens (Q : event -> Prop) H e m :
  (forall ev, quiet ev -> Q ev) -> ensures Q H m any -> ensures Q H (mount_call e m) any.
Proof.
  intros HQ Hm. unfold mount_call.
  eapply ensures_bind; [eapply nvc_call_ens with (R := any), ensures_post; [exact HQ|exact Hm|by intros []]|].
  intros [r|] _; by apply ensures_ret.
Qed.

Lemma adapters_named ctx : Forall good_adapter (adapterList (dxcore ctx)) -> named_components ctx.
Proof.
  intros Ha a f Hin Hf. rewrite Forall_forall in Ha. apply (ga_known _ (Ha a Hin)) in Hf.
  assert (forallb (fun f => negb (str_empty (Some (basename f)))) dxcore_nvidia_driver_store_components = true) as E by done.
  assert (Forall (fun f => normal (basename f)) dxcore_nvidia_driver_store_components) as N by (repeat constructor; done).
  rewrite Forall_forall in N. split; [by apply N|]. rewrite forallb_forall in E. apply negb_true_iff, E. by apply list_elem_of_In.
Qed.

Lemma capabilities_ens p : ensures quiet no_stop (capabilities p) any.
Proof.
  eapply ensures_post; [apply reported_ens with (R := any); [apply quiet_lib|]|done].
  eapply ensures_weaken; [apply perm_set_capabilities_ens|apply quiet_cred|done|by intros []].
Qed.

Lemma capabilities_own p : calm (capabilities p) (fun _ => True).
Proof. eapply own_ensures; [apply capabilities_ens|done]. Qed.

Lemma bound_privileges_own : calm bound_privileges (fun _ => True).
Proof.
  eapply own_post; [eapply own_ensures with (P := quiet) (H := any_stop) (R := on_some any); [apply reported_ens|]|]; try done.
  - apply quiet_lib.
  - ens_step. destruct a; [|by apply ensures_ret]. ens_step. destruct a; [|by apply ensures_ret].
    eapply ensures_weaken; [apply perm_set_bounds_ens|apply quiet_bounds|done|by intros []].
Qed.

(** A phase goes on when it has its capabilities. *)
Lemma own_phase {A} (Q : event -> Prop) p (k : unit -> M (option A)) R :
  (forall ev, quiet ev -> Q ev) -> R None -> own Q (k tt) R -> own Q (let? x := capabilities p else ret None in k x) R.
Proof.
  intros HQ HN Hk. eapply own_bind; [eapply own_mono; [exact HQ|apply capabilities_own]|].
  intros [[]|] _; [done|by apply own_ret].
Qed.
End Phases.

(** ** The whole command *)

Section Command.
Context (ops : CgroupOps) (H : stop -> Prop) `{!CgroupLaws ops H}.

(** What is known of what was found. *)
Record found (ctx : nvc_context) (root : string) (c : context) (f : findings) : Prop := mkFound {
  fd_root : rootfs_of (f_cnt f) = root /\ abs root;
  fd_drv : wf_driver_info (f_drv f);
  fd_dev : Forall (wf_device ctx) (f_dev f);
  fd_sel : plain_selection (f_dev f) (f_visible f, f_config f, f_monitor f);
  fd_reqs : forall d req, d ∈ required_for (f_dev f) (f_visible f) -> req ∈ c_reqs (c_configure c) ->
    or_loop (tokens " " req) (rules (mkData (Some (f_drv f)) d)) true = Some true
}.

(** The lookups stop as the control groups do, or without exhausting a bound. *)
Definition late (w : stop) : Prop := no_fuel w \/ H w.

Lemma examine_ens c lib cnt_cfg e :
  ready lib -> abs (cfg_root (cfg (l_ctx lib))) ->
  ensures quiet late (examine c lib cnt_cfg e) (on_some (found (l_ctx lib) (cc_rootfs cnt_cfg) c)).
Proof.
  intros Hl Hr. unfold examine. cbv zeta.
  assert (forall p, ensures quiet late (capabilities p) any) as Hcap.
  { intros p. eapply ensures_weaken; [apply capabilities_ens|done..]. }
  eapply ensures_bind; [apply Hcap|]. intros [[]|] _; [|by apply ensures_ret]. eapply ensures_bind.
  { eapply nvc_call_ens with (R := fun cnt => wf_container cnt_cfg cnt), ensures_weaken;
      [done|apply (nvc_container_new_ens ops H)|apply quiet_cgroup|..].
    - intros w [Hw|[Hw|Hw]]; [left..|by right]; by rewrite Hw.
    - intros [cnt|]; [|done]. by intros (cfg0 & [= <-] & Hw). }
  intros [[cnt e1]|] Hcnt; [|by apply ensures_ret]. cbn in Hcnt.
  eapply ensures_bind; [apply Hcap|]. intros [[]|] _; [|by apply ensures_ret]. eapply ensures_bind.
  { eapply nvc_call_ens with (R := wf_driver_info), ensures_weaken; [done|by apply nvc_driver_info_new_ens|apply quiet_read| |done].
    intros w Hw. left. destruct Hw as [[Hw|[Hw|[Hw|Hw]]]|[_ Hw]]; by rewrite Hw. }
  intros [[drv e2]|] Hdrv; [|by apply ensures_ret]. cbn in Hdrv. eapply ensures_bind.
  { eapply nvc_call_ens with (R := Forall (wf_device (l_ctx lib))), ensures_weaken; [done|by apply nvc_device_info_new_ens|apply quiet_dev| |done].
    intros w [[Hw|Hw]|Hw]; left; by rewrite Hw. }
  intros [[dev e3]|] Hdev; [|by apply ensures_ret]. cbn in Hdev. eapply ensures_bind.
  { eapply ensures_weaken; [by eapply select_all_ens|apply quiet_lib|unfold overread; intros w ->; by left|intros r Hs; exact Hs]. }
  intros [[[visible config] monitor]|] Hsel; [|by apply ensures_ret].
  eapply ensures_bind; [eapply ensures_weaken; [apply check_requirements_ens|apply quiet_lib|done|intros r Hs; exact Hs]|].
  intros [[]|] Hreq; [|by apply ensures_ret].
  apply ensures_ret. split; try done; cbn [f_cnt f_drv f_dev f_visible f_config f_monitor].
  - destruct (wfc_cfg _ _ Hcnt) as (_ & E & _). split; [done|]. apply valid_config_abs, Hcnt.
  - intros d req Hd Hq. by apply Hreq.
Qed.

Lemma stops_in_late l c w : stops_in l (fun w => H w \/ null_dir c w) w -> late w.
Proof.
  intros [[Hw|Hw]|[[Hw|[Hw _]]|(x & _ & Hw)]]; [left; by rewrite Hw|left; by rewrite Hw|by right|left; by rewrite Hw..].
Qed.

Lemma mount_all_ens root ctx c f :
  found ctx root c f -> Forall good_adapter (adapterList (dxcore ctx)) ->
  ensures (own_event root) late
    (mount_all ctx (f_cnt f) (f_drv f) (f_dev f) (f_visible f) (f_config f) (f_monitor f) (f_err f)) any.
Proof.
  intros Hf Hda. destruct (fd_root _ _ _ _ Hf) as [Hroot Habs]. pose proof (fd_dev _ _ _ _ Hf) as Hdev.
  destruct (fd_sel _ _ _ _ Hf) as (Hv & Hm & Hc & Ho). cbn [fst snd] in *. unfold mount_all.
  pose proof (quiet_own root) as HQ. eapply ensures_bind with (R := any).
  { apply mount_call_ens; [done|]. eapply ensures_weaken; [apply (nvc_driver_mount_ens ops H)|..].
    - by rewrite Hroot.
    - rewrite (wf_devs _ (fd_drv _ _ _ _ Hf)). by constructor.
    - rewrite Hroot. by left.
    - intros w. apply stops_in_late.
    - done. }
  intros [e1|] _; [|by apply ensures_ret]. eapply ensures_bind with (R := any).
  { eapply ensures_post; [apply (ensures_foldM _ _ (fun _ => True)); [|done]|done]. intros e' i _ _.
    eapply ensures_post; [apply mount_call_ens; [done|]|by intros []]. destruct (f_dev f !! i) as [g|] eqn:Eg.
    - eapply ensures_weaken; [apply (nvc_device_mount_ens ops H); [by rewrite Hroot| |by apply adapters_named]|..].
      + intros Hdx. rewrite Forall_lookup in Hdev. by apply (wd_node _ _ (Hdev i g Eg)).
      + rewrite Hroot. by left.
      + intros w. apply stops_in_late.
      + done.
    - eapply ensures_weaken with (H := no_stop) (R := any); [|exact HQ|done|done]. unfold nvc_device_mount. ens. }
  intros [e2|] _; [|by apply ensures_ret]. rewrite Hm. eapply ensures_bind with (R := any).
  { destruct (_ && _); by apply ensures_ret. }
  intros [e3|] _; [|by apply ensures_ret]. unfold mount_mig_management. rewrite Hc, Ho. cbn [length]. rewrite !andb_false_r.
  eapply ensures_bind with (R := any); [by apply ensures_ret|]. intros [e4|] _; by apply ensures_ret.
Qed.

Lemma configure_container_own ws c lib cnt_cfg e :
  ready lib -> abs (cfg_root (cfg (l_ctx lib))) ->
  own (own_event (cc_rootfs cnt_cfg)) (configure_container ws c lib cnt_cfg e) (fun _ => True).
Proof.
  intros Hl Hr. unfold configure_container. cbv zeta. pose proof (quiet_own (cc_rootfs cnt_cfg)) as HQ.
  eapply own_bind; [eapply own_ensures; [by apply examine_ens|exact HQ]|]. intros [f|] Hf; [|by apply own_ret].
  apply own_phase; [done..|]. eapply own_bind; [eapply own_ensures; [eapply mount_all_ens; [exact Hf|apply Hl]|done]|].
  intros [e4|] _; [|by apply own_ret]. apply own_phase; [done..|]. eapply own_bind.
  { eapply nvc_call_own with (R := fun _ => True), own_post; [done|eapply own_mono; [exact HQ|apply nvc_ldcache_update_own]|by intros []]. }
  intros [r|] _; [|by apply own_ret]. eapply own_mono; [exact HQ|apply capabilities_own].
Qed.

Lemma leave_own (Q : event -> Prop) lib e rv (R : Z -> Prop) :
  (forall ev, quiet ev -> Q ev) -> names_ok (l_driver lib) (l_nvcgo lib) -> R rv -> own Q (leave lib e rv) R.
Proof.
  intros HQ [Hd Hn] HR. unfold leave. eapply own_bind; [|intros; by apply own_ret].
  eapply own_with_err, own_mono; [exact HQ|]. eapply own_ensures; [by apply nvc_shutdown_own|done].
Qed.

(** The driver root the user asks for is absolute, when there is one. *)
Definition absolute_root (c : context) : Prop := match c_root (c_main c) with Some r => abs r | None => True end.
Definition asked_root (c : context) : string := default EmptyString (c_rootfs (c_configure c)).

(** A library that is started can be used. *)
Lemma library_started lib c opts :
  initialized (l_ctx lib) = false -> absolute_root c ->
  ensures (fun _ => True) any_stop
    (nvc_init lib (Some (mkConfigArg (c_root (c_main c)) (c_ldcache (c_main c)) (c_uid (c_main c)) (c_gid (c_main c)))) opts)
    (fun q => snd q = Some tt -> ready (fst q) /\ abs (cfg_root (cfg (l_ctx (fst q))))).
Proof.
  intros Hi Hr. set (a := mkConfigArg _ _ _ _). assert (library_ok lib) as Hok by (unfold library_ok; congruence).
  eapply ensures_weaken; [apply ensures_and; [apply (nvc_init_value lib (Some a) opts Hok)|apply (nvc_init_root lib a opts Hi)]|done..|].
  intros [l [[]|]]; [|done]. cbn [fst snd]. intros [[Hl Hup] Hroot] _. split; [by apply Hl|]. rewrite Hroot by done.
  unfold absolute_root in Hr. cbn [a a_root]. by destruct (c_root (c_main c)).
Qed.

Lemma configure_command_own (Q : event -> Prop) ws c (R : option unit -> Prop) :
  (forall ev, quiet ev -> Q ev) -> absolute_root c ->
  (forall lib cnt_cfg e, ready lib -> abs (cfg_root (cfg (l_ctx lib))) -> cc_rootfs cnt_cfg = asked_root c ->
     own Q (configure_container ws c lib cnt_cfg e) R) ->
  own Q (configure_command ws c) (fun rv => rv = EXIT_FAILURE \/ exists r, R r /\ rv = EXIT r).
Proof.
  intros HQ Hroot Hbody. unfold configure_command. cbv zeta. apply own_own_error.
  assert (forall A (m : M A) R1 R2, own quiet m R1 -> (forall a, R1 a -> R2 a) -> own Q m R2) as Hq.
  { intros A m R1 R2 Hm HR. eapply own_post; [eapply own_mono; [exact HQ|exact Hm]|exact HR]. }
  eapply own_bind; [eapply Hq; [apply bound_privileges_own|intros r Hr; exact Hr]|].
  intros [[]|] _; [|apply own_ret; by left].
  eapply own_bind; [eapply Hq; [apply capabilities_own|intros r Hr; exact Hr]|].
  intros [[]|] _; [|apply own_ret; by left].
  assert (forall text, own quiet (warn text) (fun _ => True)) as Hwarn.
  { intros text. eapply own_post; [eapply own_ensures with (P := quiet) (H := no_stop) (R := any)|done]; [|done]. unfold warn. ens. }
  eapply own_bind with (R1 := on_some (fun nvc => initialized nvc = false)).
  { eapply Hq; [eapply own_ensures with (P := quiet) (H := no_stop)|intros r Hr; exact Hr]; [|done]. unfold nvc_context_new. ens; done. }
  intros [nvc|] Hi; [|eapply own_bind; [by eapply Hq|]; intros _ _; apply own_ret; by left]. cbn in Hi.
  assert (own Q (do warn "memory allocation failed" in leave (library_new nvc) no_error EXIT_FAILURE)
            (fun rv => rv = EXIT_FAILURE \/ exists r, R r /\ rv = EXIT r)) as Hfail.
  { eapply own_bind; [by eapply Hq|]. intros _ _. apply leave_own; [done|done|by left]. }
  eapply own_bind with (R1 := fun _ => True).
  { eapply Hq; [eapply own_ensures with (P := quiet) (H := no_stop) (R := any)|done]; [|done]. unfold nvc_config_new. ens. }
  intros [ncfg|] _; [|exact Hfail]. eapply own_bind with (R1 := on_some (fun cc => cc_rootfs cc = asked_root c)).
  { eapply Hq; [eapply own_ensures with (P := quiet) (H := no_stop)|intros r Hr; exact Hr]; [|done]. unfold nvc_container_config_new. ens; done. }
  intros [cc|] Hcc; [|exact Hfail]. cbn in Hcc.
  set (lib0 := library_new _). set (ncfg' := mkConfigArg _ _ _ _).
  eapply own_bind; [eapply own_with_err, Hq; [eapply own_and; [apply (nvc_init_own lib0 ncfg'); [done|exact Hi]|
    apply (library_started lib0 c (c_init_flags (c_main c)) Hi Hroot)]|intros r Hr; exact Hr]|].
  intros [[lib [[]|]] e] (Hn & Hup); cbn [fst snd] in *.
  - destruct (Hup eq_refl). eapply own_bind; [by apply Hbody|].
    + intros r HR. apply leave_own; [done|done|right; eauto].
  - eapply own_bind; [eapply Hq; [apply own_call; intros; apply quiet_lib; done|intros r HR; exact HR]|]. intros _ _.
    apply leave_own; [done|done|by left].
Qed.
End Command.

(** ** Properties *)

(** C1: whatever the kernel, the driver and the libraries answer, the process of
    [configure], whose [--root] is absolute or not given, mounts, makes, links and removes files only inside the root of the
    container that was asked for.  Besides that it reads, changes its own
    capabilities and control groups, starts and asks its services and watches its
    children; it loads no kernel module and runs no other program itself.  It
    returns 0 or 1.  The devices and libraries it mounts, and the container, come
    from the lookups of the same run. *)
Theorem configure_command_confined (ops : CgroupOps) (H : stop -> Prop) (laws : CgroupLaws ops H)
    (o : env) ws c (s : st) :
  absolute_root c ->
  match exec o (configure_command ws c) s with
  | (t, Done (_, rv)) => always child_step (proper (own_event (asked_root c))) false t /\
      (fold_left child_step t false = false -> rv = EXIT_FAILURE \/ rv = EXIT_SUCCESS)
  | (t, Halted _) => always child_step (proper (own_event (asked_root c))) false t
  end.
Proof.
  intros Hroot. pose proof (quiet_own (asked_root c)) as HQ.
  assert (own (own_event (asked_root c)) (configure_command ws c) (fun rv => rv = EXIT_FAILURE \/ rv = EXIT_SUCCESS)) as Hown.
  { eapply own_post; [apply (configure_command_own ops _ ws c (fun _ => True)); [done..|]|].
    - intros lib cc e Hl Hr <-. by apply (configure_container_own ops H).
    - intros rv [->|([[]|] & _ & ->)]; auto. }
  exact (guarded_run _ _ o _ _ _ s Hown).
Qed.

(** ** Requirements *)

(** The rules when nothing is known of the driver and of the device. *)
Definition blind : list dsl_rule := map (fun name => (name, fun _ _ => Some true)) ["cuda"; "driver"; "arch"; "brand"].

Definition same_rule (r r' : dsl_rule) : Prop := fst r = fst r' /\ forall cmp v, snd r cmp v = snd r' cmp v.

Lemma apply_rule_same e op cmp v rs rs' : Forall2 same_rule rs rs' -> apply_rule e op cmp v rs = apply_rule e op cmp v rs'.
Proof.
  induction 1 as [|[n f] [n' f'] rs rs' [Hn Hf] Hr IH]; [done|]. cbn [fst snd apply_rule] in *. subst n'. by rewrite Hf, IH.
Qed.

Lemma evaluate_rule_same e rs rs' : Forall2 same_rule rs rs' -> evaluate_rule e rs = evaluate_rule e rs'.
Proof. intros Hr. unfold evaluate_rule. repeat case_match; try done. by apply apply_rule_same. Qed.

Lemma and_loop_same es rs rs' r : Forall2 same_rule rs rs' -> and_loop es rs r = and_loop es rs' r.
Proof.
  intros Hr. revert r. induction es as [|e es IH]; intros r; [done|]. cbn [and_loop].
  by rewrite (evaluate_rule_same e _ _ Hr), !IH.
Qed.

Lemma or_loop_same alts rs rs' r : Forall2 same_rule rs rs' -> or_loop alts rs r = or_loop alts rs' r.
Proof.
  intros Hr. revert r. induction alts as [|a alts IH]; intros r; [done|]. cbn [or_loop]. rewrite (and_loop_same _ _ _ r Hr).
  rewrite IH. by destruct (and_loop _ rs' r) as [[? []]|]; rewrite ?IH.
Qed.

Lemma rules_blind ctx drv d :
  wf_driver_info drv -> on_some (wf_device ctx) d -> Forall2 same_rule (rules (mkData (Some drv) d)) blind.
Proof.
  intros Hv Hd. destruct (wf_version _ Hv) as [Ev Ec].
  repeat constructor; cbn; intros cmp v; unfold check_cuda_version, check_driver_version, check_device_arch, check_device_brand;
    cbn [d_drv d_dev]; rewrite ?Ev, ?Ec; try done; destruct d as [g|]; try done.
  - by rewrite (wd_arch _ _ Hd).
  - by rewrite (wd_brand _ _ Hd).
Qed.

(** Nothing is compared: a condition is understood or it is not. *)
Lemma blind_holds e : evaluate_rule e blind <> None -> condition_holds blind e = true.
Proof.
  unfold condition_holds, evaluate_rule, blind. cbn [map apply_rule]. repeat case_match; try done; congruence.
Qed.

Lemma blind_satisfied req : well_formed blind req -> satisfied blind req = true.
Proof.
  unfold well_formed, satisfied. intros Hw. destruct (alternatives req) as [|a l]; [done|].
  apply Forall_inv in Hw as [_ Hw]. cbn [existsb]. apply orb_true_iff. left. apply forallb_forall.
  intros e He. rewrite Forall_forall in Hw. by apply blind_holds, Hw, list_elem_of_In.
Qed.

Lemma satisfied_same rs rs' req : Forall2 same_rule rs rs' -> satisfied rs req = satisfied rs' req.
Proof.
  intros Hr. unfold satisfied. destruct (alternatives req) as [|a l]; [done|].
  assert (forall e, condition_holds rs e = condition_holds rs' e) as E.
  { intros e. unfold condition_holds. by rewrite (evaluate_rule_same e _ _ Hr). }
  assert (forall l, forallb (condition_holds rs) l = forallb (condition_holds rs') l) as E2.
  { induction l0 as [|e l0 IH]; [done|]. cbn. by rewrite E, IH. }
  cbn. rewrite E2. f_equal. induction l as [|b l IH]; [done|]. cbn. by rewrite E2, IH.
Qed.

Definition lookups (ctx : nvc_context) : M (option (nvc_driver_info * nvc_device_info)) :=
  let? drv := nvc_driver_info_new ctx None else ret None in
  let? dev := nvc_device_info_new ctx else ret None in
  ret (Some (drv, dev)).

Lemma lookups_ens ctx :
  abs (cfg_root (cfg ctx)) ->
  ensures quiet any_stop (lookups ctx) (on_some (fun r => wf_driver_info (fst r) /\ Forall (wf_device ctx) (snd r))).
Proof.
  intros Hr. unfold lookups.
  eapply ensures_bind; [eapply ensures_weaken; [by apply nvc_driver_info_new_ens|apply quiet_read|done|intros r Hd; exact Hd]|].
  intros [drv|] Hd; [|by apply ensures_ret].
  eapply ensures_bind; [eapply ensures_weaken; [by apply nvc_device_info_new_ens|apply quiet_dev|done|intros r Hv; exact Hv]|].
  intros [dev|] Hv; by apply ensures_ret.
Qed.

(** C24: a requirement that cannot be understood stops the command: whatever the
    environment answers, the process mounts, makes and removes nothing, and when it
    returns the status is a failure. *)
Theorem configure_rejects_malformed (ops : CgroupOps) (H : stop -> Prop) (laws : CgroupLaws ops H)
    (o : env) ws c req (s : st) :
  absolute_root c -> req ∈ c_reqs (c_configure c) -> or_loop (tokens " " req) blind true = None ->
  match exec o (configure_command ws c) s with
  | (t, Done (_, rv)) => always child_step (proper quiet) false t /\ (fold_left child_step t false = false -> rv = EXIT_FAILURE)
  | (t, Halted _) => always child_step (proper quiet) false t
  end.
Proof.
  intros Hroot Hin Hbad.
  assert (own quiet (configure_command ws c) (fun rv => rv = EXIT_FAILURE)) as Hown; [|exact (guarded_run _ _ o _ _ _ s Hown)].
  eapply own_post; [apply (configure_command_own ops _ ws c (fun r => r = None)); [done..|]|].
  - intros lib cc e Hl Hr _. unfold configure_container. eapply own_bind; [eapply own_ensures; [by apply (examine_ens ops H)|done]|].
    intros [f|] Hf; [|by apply own_ret]. exfalso. pose proof (fd_reqs _ _ _ _ Hf) as Hq. cbn in Hf.
    assert (exists d, d ∈ required_for (f_dev f) (f_visible f)) as [d Hd].
    { unfold required_for. destruct (_ ++ _) as [|x l]; eexists; apply list_elem_of_here. }
    assert (on_some (wf_device (l_ctx lib)) d) as Hw.
    { pose proof (fd_dev _ _ _ _ Hf) as Hdev. destruct d as [g|]; [|done]. rewrite Forall_lookup in Hdev.
      unfold required_for in Hd. destruct (_ ++ _) as [|x l] eqn:E; [by apply list_elem_of_singleton in Hd|].
      rewrite <- E in Hd. apply elem_of_app in Hd as [Hd|Hd]; apply list_elem_of_fmap in Hd as (i & Hi & _); by eapply Hdev. }
    specialize (Hq d req Hd Hin). rewrite (or_loop_same _ _ _ _ (rules_blind _ _ _ (fd_drv _ _ _ _ Hf) Hw)) in Hq. congruence.
  - intros rv [->|(r & -> & ->)]; done.
Qed.

(** C40: the versions, the architecture and the brand that requirements are about
    are never filled in by the lookups, so every requirement that is well formed
    holds, for every device they find and for none: no version is compared. *)
Theorem requirements_not_compared (o : env) ctx (s : st) :
  abs (cfg_root (cfg ctx)) ->
  match exec o (lookups ctx) s with
  | (_, Done (_, Some (drv, dev))) =>
      forall d req, on_some (fun g => g ∈ dev) d -> well_formed blind req ->
        satisfied (rules (mkData (Some drv) d)) req = true
  | _ => True
  end.
Proof.
  intros Hr. pose proof (ensures_run o _ _ _ _ s (lookups_ens ctx Hr)) as He.
  destruct (exec o _ s) as [t [[s' [[drv dev]|]]|w]]; [|done..]. destruct He as (_ & Hd & Hv). cbn [fst snd] in *.
  intros d req Hin Hw. rewrite (satisfied_same _ blind); [by apply blind_satisfied|]. apply (rules_blind ctx); [done|].
  destruct d as [g|]; [|done]. rewrite Forall_forall in Hv. by apply Hv.
Qed.

(** A host with one device, on which the command succeeds. *)
Definition demo_configure_host : env := fun _ e =>
  match e return resp e with
  | EReadlinkat _ _ => SErr EINVAL
  | EStat p =>
      if str_equal p "/dev/dri/card0" then SOk (mkStat S_IFREG 0 0 (makedev NV_DEVICE_MAJOR 0) 0)
      else if str_has_prefix p "/etc/" then SOk (mkStat S_IFDIR 0 0 0 0)
      else if str_has_prefix p "/ctr" then SErr ENOENT
      else SOk (mkStat S_IFREG 0 0 (makedev NV_DEVICE_MAJOR XDX_RENDER_DEVICE_MINOR) 0)
  | EGetenv name => if str_equal name "PATH" then Some "/sbin:/usr/bin" else None
  | EFaccessat _ p => if str_equal p "usr/bin/xdxsmi" then SOk tt else SErr ENOENT
  | EMmap _ => SOk (encode demo_cache)
  | EDlopen lib => if str_equal lib "libdxcore.so" then Some "not found" else None
  | EFopen path _ => SOk (mkStream (if str_equal path PROC_LAST_CAP_PATH then ["40"] else []) false)
  | EDriver name _ =>
      inr (if str_equal name "xdxml_device_get_count" then DNums [1]
           else if str_equal name "xdxml_device_get_minor_number" then DNums [0]
           else if str_equal name "xdxml_device_get_pci_info" then DNums [0; 1; 0] else DStr "x")
  | e => friendly e
  end.
Definition run_context (req : string) : context :=
  mkCli (mkMainOpts 0 0 None None false false None) false
    (mkConfigureOpts 42 (Some "/ctr") [req] None (Some "utility compute supervised"))
    (c_list context0) (mkDeviceOpts (Some "all") None None).

(** The command succeeds, although no driver is that new. *)
Lemma configure_command_confined_witness :
  exists s, snd (exec demo_configure_host (configure_command (ops := Nvcgo.ops) true (run_context "cuda>=99.0")) init_st) = Done (s, 0) /\
    always child_step (proper (own_event "/ctr")) false
      (fst (exec demo_configure_host (configure_command (ops := Nvcgo.ops) true (run_context "cuda>=99.0")) init_st)).
Proof.
  pose proof (configure_command_confined Nvcgo.ops rpc_stops nvcgo_laws demo_configure_host true (run_context "cuda>=99.0") init_st I) as H.
  destruct (exec demo_configure_host _ init_st) as [t out] eqn:E.
  assert (out = snd (exec demo_configure_host (configure_command (ops := Nvcgo.ops) true (run_context "cuda>=99.0")) init_st))
    as E2 by by rewrite E.
  vm_compute in E2. subst out. eexists. split; [reflexivity|]. exact (proj1 H).
Defined.

Lemma configure_rejects_malformed_witness :
  exists s, snd (exec demo_configure_host (configure_command (ops := Nvcgo.ops) true (run_context "cuda11")) init_st) = Done (s, 1) /\
    always child_step (proper quiet) false
      (fst (exec demo_configure_host (configure_command (ops := Nvcgo.ops) true (run_context "cuda11")) init_st)).
Proof.
  pose proof (configure_rejects_malformed Nvcgo.ops rpc_stops nvcgo_laws demo_configure_host true (run_context "cuda11") "cuda11"
    init_st I (list_elem_of_here _ _) eq_refl) as H.
  destruct (exec demo_configure_host _ init_st) as [t out] eqn:E.
  assert (out = snd (exec demo_configure_host (configure_command (ops := Nvcgo.ops) true (run_context "cuda11")) init_st))
    as E2 by by rewrite E.
  vm_compute in E2. subst out. eexists. split; [reflexivity|]. exact (proj1 H).
Defined.

Lemma requirements_not_compared_witness :
  exists s drv dev, snd (exec demo_configure_host (lookups demo_ctx) init_st) = Done (s, Some (drv, [dev])) /\
    satisfied (rules (mkData (Some drv) (Some dev))) "cuda>=99.0,brand=none" = true.
Proof.
  pose proof (requirements_not_compared demo_configure_host demo_ctx init_st eq_refl) as H.
  destruct (exec demo_configure_host _ init_st) as [t out] eqn:E.
  assert (out = snd (exec demo_configure_host (lookups demo_ctx) init_st)) as E2 by by rewrite E.
  vm_compute in E2. subst out. eexists _, _, _. split; [reflexivity|]. apply H; [apply list_elem_of_here|].
  unfold well_formed. replace (alternatives _) with [["cuda>=99.0"; "brand=none"]] by (vm_compute; reflexivity).
  repeat constructor; try discriminate; vm_compute; discriminate.
Defined.
