(* ===== verification/ConfigureResult.v ===== *)
(** * What a successful configuration means

    When [configure_command] of [src/src/cli/configure.c] returns 0, the container
    has what it was promised. *)
From S2P Require Import Prelude CString Effects Logic Errors Options Utils Types Paths Files Components Dsl Devices Ldcache Driver Cgroup Info Container Mount MountSafety MountState MountProvides Dxcore Rpc Ldconfig Context Args Configure ConfigureSafety.

(** ** A device *)

Section Device.
Variable cnt : nvc_container.
Hypothesis Hroot : abs (rootfs_of cnt).

Lemma native_mounts_attach `{CgroupOps} ctx dev libs :
  abs (cfg_root (cfg ctx)) ->
  gives (native_mounts ctx cnt dev libs) (fun r t => snd r = Some tt -> no_devbind cnt = false ->
    attached cnt (cfg_root (cfg ctx)) (node dev) t).
Proof.
  intros Hr. unfold native_mounts. cbv zeta.
  eapply gives_bind with (R1 := fun r t => is_Some r -> no_devbind cnt = false -> attached cnt (cfg_root (cfg ctx)) (node dev) t).
  - destruct (no_devbind cnt); [by apply gives_ret|]. eapply gives_bind; [by apply mount_device_attains|].
    intros [m|] t Hm; apply gives_ret; [|by intros []]. intros _ _. rewrite app_nil_r. apply Hm.
  - intros [dm|] t Ht; [|by apply gives_ret]. eapply gives_bind; [apply gives_any|]. intros [ld|] t1 _; [|by apply gives_ret].
    cbv zeta. eapply gives_bind; [apply gives_any|]. intros rv t2 _. apply gives_ret. intros _ Hn.
    eapply attached_more; [by apply Ht|]. set_solver.
Qed.

Lemma nvc_device_mount_attach `{CgroupOps} ctx dev :
  abs (cfg_root (cfg ctx)) -> dx_initialized (dxcore ctx) = false -> no_devbind cnt = false ->
  attains (nvc_device_mount ctx (Some cnt) (Some dev)) (fun _ t => attached cnt (cfg_root (cfg ctx)) (node dev) t).
Proof.
  intros Hr Hdx Hn. unfold nvc_device_mount, in_container. rewrite Hdx.
  eapply attains_bind; [apply attains_any|]. intros _ t1 _. eapply attains_bind; [apply attains_any|]. intros _ t2 _.
  eapply gives_bind with (R1 := fun r t => r = Some tt -> attached cnt (cfg_root (cfg ctx)) (node dev) t).
  - unfold device_mount_native. eapply gives_bind; [apply gives_any|]. intros dris t0 _.
    eapply gives_bind; [apply gives_any|]. intros [libs|] t3 _; [|by apply gives_ret].
    eapply gives_bind; [by apply native_mounts_attach|]. intros [mnts [[]|]] t4 H4; cbn [fst snd] in *.
    + apply gives_ret. intros _. eapply attached_more; [by apply H4|]. set_solver.
    + eapply gives_bind; [apply gives_any|]. intros _ t5 _. by apply gives_ret.
  - intros [[]|] t3 H3; cbn [leave_ns].
    + eapply gives_post; [apply gives_any|]. intros [r|] t4 _; [|done]. eapply attached_more; [by apply H3|]. set_solver.
    + eapply gives_bind; [apply gives_any|]. intros [[]|] t4 _; [by apply gives_ret|by intros ?].
Qed.
End Device.

(** ** The cache *)

(** A process was waited for and had succeeded. *)
Definition succeeded_child (t : trace) : Prop := exists pid, Event (EWaitpid pid) (SOk (WExited 0)) ∈ t.

Lemma nvc_ldcache_update_waits ws log ctx cnt :
  attains (nvc_ldcache_update ws log ctx (Some cnt)) (fun _ t => succeeded_child t).
Proof.
  intros s. eapply wp_mono; [|apply (nvc_ldcache_update_proc ws log ctx cnt (None, None) eq_refl s)].
  intros t [[s' [[]|]]|w]; [|done..]. intros [_ Hr]. specialize (Hr eq_refl) as [_ Hw]. clear -Hw. revert Hw.
  induction t as [|ev t IH] using rev_ind; [done|]. rewrite fold_left_app. cbn [fold_left]. intros Hw.
  assert (snd (fold_left proc_step t (None, None)) = Some (WExited 0) \/ exists pid, ev = Event (EWaitpid pid) (SOk (WExited 0)))
    as [Hold|[pid ->]].
  { destruct ev as [[] r]; try (by left); destruct r; try (by left). right. cbn in Hw. injection Hw as ->. by eexists. }
  - destruct (IH Hold) as [pid Hin]. exists pid. set_solver.
  - exists pid. set_solver.
Qed.

(** ** The command *)

(** What the command asks of the library, for the options in [c]. *)
Definition asked_library (c : context) : config_arg :=
  mkConfigArg (c_root (c_main c)) (c_ldcache (c_main c)) (c_uid (c_main c)) (c_gid (c_main c)).
Definition asked_container (c : context) : nvc_container_config :=
  mkCntConfig (c_pid (c_configure c)) (asked_root c) None None None None None (c_ldconfig (c_configure c)).

Section Done.
Context {ops : CgroupOps}.

(** [f] is what the lookups of the run found: the container, the driver, the
    devices, and those that are selected. *)
Record looked_up (c : context) (ctx : nvc_context) (f : findings) (t : trace) : Prop := {
  lu_cnt : during (nvc_container_new ctx (Some (asked_container c)) (c_container_flags (c_configure c))) (Some (f_cnt f)) t;
  lu_drv : during (nvc_driver_info_new ctx None) (Some (f_drv f)) t;
  lu_dev : during (nvc_device_info_new ctx) (Some (f_dev f)) t;
  lu_sel : during (select_all c (f_dev f)) (Some (f_visible f, f_config f, f_monitor f)) t
}.

(** The driver and the selected devices are in the container. *)
Record mounted (ctx : nvc_context) (f : findings) (t : trace) : Prop := {
  mo_driver : exists t0 t1 t2, t = t0 ++ t1 ++ t2 /\ provides (f_cnt f) ctx (f_drv f) t1;
  mo_devices : forall i g, i ∈ gpus (f_visible f) -> f_dev f !! i = Some g ->
    dx_initialized (dxcore ctx) = false -> no_devbind (f_cnt f) = false ->
    attached (f_cnt f) (cfg_root (cfg ctx)) (node g) t
}.

(** What a run that succeeded has done, one after the other: it has initialised
    the library as the options say; it has looked up the container, the driver and
    the devices, for which the requirements hold; it has mounted them; and a child,
    that of the cache, has succeeded. *)
Definition accomplished (c : context) (t : trace) : Prop :=
  exists nvc lib f t0 ti te tm tz, t = t0 ++ ti ++ te ++ tm ++ tz /\
    returned (nvc_init (library_new nvc) (Some (asked_library c)) (c_init_flags (c_main c))) (lib, Some tt) ti /\
    looked_up c (l_ctx lib) f te /\ found (l_ctx lib) (asked_root c) c f /\
    mounted (l_ctx lib) f tm /\ succeeded_child tz.

Lemma accomplished_before c t0 t : accomplished c t -> accomplished c (t0 ++ t).
Proof.
  intros (nvc & lib & f & a & ti & te & tm & tz & -> & Hr). exists nvc, lib, f, (t0 ++ a), ti, te, tm, tz.
  by rewrite <- app_assoc.
Qed.

Lemma accomplished_after c t t1 : accomplished c t -> accomplished c (t ++ t1).
Proof.
  intros (nvc & lib & f & a & ti & te & tm & tz & -> & Hi & Hl & Hf & Hm & [pid Hc]).
  exists nvc, lib, f, a, ti, te, tm, (tz ++ t1). rewrite <- !app_assoc. split_and!; try done. exists pid. set_solver.
Qed.
End Done.

(** A call of the library that succeeds is one of its runs. *)
Lemma nvc_call_returned {A} what e (m : M (option A)) :
  attains (nvc_call what e m) (fun r t => returned m (Some (fst r)) t).
Proof.
  unfold nvc_call. eapply gives_bind; [apply gives_with_err_returned with (R := fun _ _ => True), gives_any|].
  intros [[a|] e'] t [Ht _]; cbn [fst snd] in *.
  - apply gives_ret. by rewrite app_nil_r.
  - apply attains_none.
Qed.

Lemma nvc_call_attains {A} what e (m : M (option A)) R :
  attains m R -> attains (nvc_call what e m) (fun r t => R (fst r) t).
Proof.
  intros Hm. unfold nvc_call. eapply gives_bind; [apply gives_with_err, Hm|]. intros [[a|] e'] t Ht; cbn [fst snd] in *.
  - apply gives_ret. by rewrite app_nil_r.
  - apply attains_none.
Qed.

Lemma mount_call_attains e m R : attains m (fun _ t => R t) -> attains (mount_call e m) (fun _ t => R t).
Proof.
  intros Hm. unfold mount_call. eapply attains_bind; [by apply nvc_call_attains|]. intros r t Ht. apply gives_ret.
  by rewrite app_nil_r.
Qed.

(** Every step of a loop that goes on has done its part. *)
Lemma foldM_attains {A S} (f : S -> A -> M (option S)) (Q : A -> trace -> Prop) (l : list A) s :
  (forall a t t', Q a t -> t ⊆ t' -> Q a t') -> (forall s a, attains (f s a) (fun _ t => Q a t)) ->
  attains (foldM f s l) (fun _ t => forall a, a ∈ l -> Q a t).
Proof.
  intros HQ Hf. revert s. induction l as [|a l IH]; intros s; cbn [foldM].
  { apply gives_ret. by intros a ?%not_elem_of_nil. }
  eapply attains_bind; [apply Hf|]. intros s' t Ht. eapply gives_post; [apply IH|]. intros [r|] t'; [|done].
  intros Hl b [->|Hb]%elem_of_cons; [eapply HQ; [exact Ht|]|eapply HQ; [by apply Hl|]]; set_solver.
Qed.

Section Command.
Context (ops : CgroupOps) (H : stop -> Prop) `{!CgroupLaws ops H}.

Lemma examine_looks_up c lib e :
  attains (examine c lib (asked_container c) e) (fun f t => looked_up c (l_ctx lib) f t).
Proof.
  unfold examine. cbv zeta.
  eapply attains_bind; [apply attains_any|]. intros _ t0 _.
  eapply attains_bind; [apply nvc_call_returned|]. intros [cnt e1] t1 H1.
  eapply attains_bind; [apply attains_any|]. intros _ t2 _.
  eapply attains_bind; [apply nvc_call_returned|]. intros [drv e2] t3 H3.
  eapply attains_bind; [apply nvc_call_returned|]. intros [dev e3] t4 H4.
  eapply attains_bind; [apply attains_returned with (R := fun _ _ => True), attains_any|]. intros [[v cf] mo] t5 [H5 _].
  eapply attains_bind; [apply attains_any|]. intros _ t6 _. apply gives_ret. split; cbn [f_cnt f_drv f_dev f_visible f_config f_monitor fst] in *.
  - exists t0, t1, (t2 ++ t3 ++ t4 ++ t5 ++ t6 ++ []). done.
  - exists (t0 ++ t1 ++ t2), t3, (t4 ++ t5 ++ t6 ++ []). by rewrite <- !app_assoc.
  - exists (t0 ++ t1 ++ t2 ++ t3), t4, (t5 ++ t6 ++ []). by rewrite <- !app_assoc.
  - exists (t0 ++ t1 ++ t2 ++ t3 ++ t4), t5, (t6 ++ []). by rewrite <- !app_assoc.
Qed.

Lemma mount_all_attains root ctx c f :
  found ctx root c f -> abs (cfg_root (cfg ctx)) ->
  attains (mount_all ctx (f_cnt f) (f_drv f) (f_dev f) (f_visible f) (f_config f) (f_monitor f) (f_err f))
    (fun _ t => mounted ctx f t).
Proof.
  intros Hf Hr. destruct (fd_root _ _ _ _ Hf) as [Hroot Habs]. rewrite <- Hroot in Habs. unfold mount_all.
  eapply attains_bind; [by eapply mount_call_attains, nvc_driver_mount_attains|]. intros e1 t1 H1.
  eapply attains_bind; [apply foldM_attains with (Q := fun i t => forall g, f_dev f !! i = Some g ->
    dx_initialized (dxcore ctx) = false -> no_devbind (f_cnt f) = false -> attached (f_cnt f) (cfg_root (cfg ctx)) (node g) t)| ].
  - intros i t t' Hi Hs g Hg Hx Hn. eapply attached_more; [by apply Hi|done].
  - intros e i. apply mount_call_attains. destruct (f_dev f !! i) as [g|]; [|by eapply gives_post; [apply gives_any|intros []]].
    destruct (dx_initialized (dxcore ctx)) eqn:Hdx; [by eapply gives_post; [apply gives_any|intros []]|].
    destruct (no_devbind (f_cnt f)) eqn:Hn; [by eapply gives_post; [apply gives_any|intros []]|].
    eapply gives_post; [by apply nvc_device_mount_attach|]. intros [r|] t; [|done]. by intros Ht g' [= <-].
  - intros e2 t2 H2. eapply attains_bind; [apply attains_any|]. intros e3 t3 _.
    eapply attains_bind; [apply attains_any|]. intros e4 t4 _.
    eapply gives_post; [apply attains_any|]. intros [e5|] t5; [|done]. intros _. split.
    + exists [], t1. eauto.
    + intros i g Hi Hg Hx Hn. eapply attached_more; [by eapply H2|]. set_solver.
Qed.

Lemma configure_container_attains ws c lib e :
  ready lib -> abs (cfg_root (cfg (l_ctx lib))) ->
  attains (configure_container ws c lib (asked_container c) e) (fun _ t => exists f te tm tz, t = te ++ tm ++ tz /\
    looked_up c (l_ctx lib) f te /\ found (l_ctx lib) (asked_root c) c f /\ mounted (l_ctx lib) f tm /\ succeeded_child tz).
Proof.
  intros Hl Hr. unfold configure_container. cbv zeta.
  eapply attains_bind; [eapply attains_and; [apply examine_looks_up|by eapply attains_ensures, (examine_ens ops H)]|].
  intros f t0 [Hu [_ Hf]]. cbn in Hf.
  eapply attains_bind; [apply attains_any|]. intros _ t1 _.
  eapply attains_bind; [by eapply mount_all_attains|]. intros e1 t2 [(t3 & t4 & t4' & -> & Hp) Hd].
  eapply attains_bind; [apply attains_any|]. intros _ t5 _.
  eapply attains_bind; [apply nvc_call_attains, nvc_ldcache_update_waits|]. intros _ t6 [pid Hw].
  eapply gives_post; [apply attains_any|]. intros [r|] t7; [|done]. intros _.
  exists f, t0, (t1 ++ (t3 ++ t4 ++ t4') ++ t5), (t6 ++ t7). split_and!; [by rewrite <- !app_assoc|done|done| |].
  - split.
    + exists (t1 ++ t3), t4, (t4' ++ t5). by rewrite <- !app_assoc.
    + intros i g Hi Hg Hx Hn. eapply attached_more; [by eapply Hd|]. set_solver.
  - exists pid. set_solver.
Qed.

(** A status of success has a run of [m] that did [Q]. *)
Definition exits_with (Q : trace -> Prop) (m : M Z) : Prop := gives m (fun rv t => rv = EXIT_SUCCESS -> Q t).

Lemma exits_failure Q {A} (m : M A) : exits_with Q (do m in ret EXIT_FAILURE).
Proof. eapply gives_bind; [apply gives_any|]. intros a t _. by apply gives_ret. Qed.

Lemma exits_bind Q {A} P H' (m : M A) R (k : A -> M Z) :
  (forall t t', Q t' -> Q (t ++ t')) -> ensures P H' m R -> (forall a, R a -> exits_with Q (k a)) ->
  exits_with Q (bind m k).
Proof.
  intros HQ Hm Hk. eapply gives_bind; [by eapply gives_ensures|]. intros a t [_ Ha].
  eapply gives_post; [by apply Hk|]. intros rv t' Hr Ho. by apply HQ, Hr.
Qed.

Lemma exits_leave Q lib e rv : rv <> EXIT_SUCCESS -> exits_with Q (leave lib e rv).
Proof. intros Hrv. unfold leave. eapply gives_bind; [apply gives_any|]. intros a t _. by apply gives_ret. Qed.

Lemma configure_command_exits ws c :
  absolute_root c -> exits_with (accomplished c) (configure_command ws c).
Proof.
  intros Hroot. unfold configure_command. cbv zeta. pose proof (accomplished_before c) as HQ.
  assert (exits_with (accomplished c) (ret EXIT_FAILURE)) as Hno by by apply gives_ret.
  assert (forall lib e, exits_with (accomplished c) (leave lib e EXIT_FAILURE)) as Hleave by (intros; by apply exits_leave).
  unfold own_error. eapply gives_bind;
    [apply gives_with_err with (R := fun rv t => rv = EXIT_SUCCESS -> accomplished c t)|];
    [|intros [rv e] t Ht; apply gives_ret; by rewrite app_nil_r].
  eapply exits_bind; [done|apply ensures_true|]. intros [[]|] _; [|done].
  eapply exits_bind; [done|apply ensures_true|]. intros [[]|] _; [|done].
  eapply exits_bind; [done|apply (ensures_value (only [KLib]) no_stop _ (on_some (fun nvc => initialized nvc = false)))|].
  { unfold nvc_context_new. ens; done. }
  intros [nvc|] Hi; [|apply exits_failure]. cbn in Hi.
  assert (exits_with (accomplished c) (do warn "memory allocation failed" in leave (library_new nvc) no_error EXIT_FAILURE)) as Hfail.
  { eapply exits_bind; [done|apply ensures_true|]. intros _ _. apply Hleave. }
  eapply exits_bind; [done|apply ensures_true|]. intros [ncfg|] _; [|exact Hfail].
  eapply exits_bind; [done|apply (ensures_value (only [KLib]) no_stop _
    (on_some (fun cc => cc_pid cc = c_pid (c_configure c) /\ cc_rootfs cc = asked_root c)))|].
  { unfold nvc_container_config_new. ens; done. }
  intros [[pid rootfs ? ? ? ? ? ?]|] Hcc; [|exact Hfail]. cbn in Hcc. destruct Hcc as [-> ->]. set (lib0 := library_new _).
  eapply gives_bind with (R1 := fun q t => returned (nvc_init lib0 (Some (asked_library c)) (c_init_flags (c_main c))) (fst q) t /\
    (snd (fst q) = Some tt -> ready (fst (fst q)) /\ abs (cfg_root (cfg (l_ctx (fst (fst q))))))).
  { apply (gives_with_err_returned _ _ (fun q _ => snd q = Some tt -> ready (fst q) /\ abs (cfg_root (cfg (l_ctx (fst q)))))).
    eapply gives_post; [eapply gives_ensures, (library_started lib0 c (c_init_flags (c_main c)) Hi Hroot)|]. by intros q t [_ Hq]. }
  intros [[lib [[]|]] e] ti [Hti Hup]; cbn [fst snd] in *.
  - destruct (Hup eq_refl) as [Hl Hr]. eapply gives_bind; [by apply configure_container_attains|].
    intros r t Hr'. unfold leave. eapply gives_bind; [apply gives_any|]. intros a t' _. apply gives_ret.
    destruct r as [[]|]; [|done]. intros _. destruct Hr' as (f & te & tm & tz & -> & Hf). rewrite app_nil_r.
    rewrite (app_assoc ti). apply accomplished_after. eexists _, lib, f, [], ti, te, tm, tz. split; [done|]. by split.
  - eapply gives_post; [eapply exits_bind; [done|apply ensures_true|]; intros _ _; apply Hleave|].
    intros rv t Hrv Ho. by apply HQ, Hrv.
Qed.
End Command.

(** C2: when [configure] returns 0, whatever the environment answered, its run has
    these parts, one after the other: a successful initialisation of the library
    with the options; the lookups, that found this container (with the root that
    was asked for), driver and devices and selected some of them, such that every
    requirement holds for every selected device; the mounts, in which the selected
    programs and libraries of this driver and the selected devices were bound
    inside this container (a device unless [no-devbind] is set, outside WSL) and the
    driver's files were not unmounted; and after them a child, that of the cache,
    was reaped with the status 0. *)
Theorem configure_success_means (ops : CgroupOps) (H : stop -> Prop) (laws : CgroupLaws ops H)
    (o : env) ws c (s : st) :
  absolute_root c ->
  match exec o (configure_command ws c) s with
  | (t, Done (_, rv)) => rv = EXIT_SUCCESS -> accomplished c t
  | (_, Halted _) => True
  end.
Proof. intros Hr. apply (gives_run o _ _ s (configure_command_exits ops H ws c Hr)). Qed.

Lemma configure_success_means_witness :
  exists s t, exec demo_configure_host (configure_command (ops := Nvcgo.ops) true (run_context "cuda>=99.0")) init_st = (t, Done (s, 0)) /\
    accomplished (ops := Nvcgo.ops) (run_context "cuda>=99.0") t.
Proof.
  pose proof (configure_success_means Nvcgo.ops rpc_stops nvcgo_laws demo_configure_host true (run_context "cuda>=99.0") init_st I) as H.
  destruct (exec demo_configure_host _ init_st) as [t out] eqn:E.
  assert (out = snd (exec demo_configure_host (configure_command (ops := Nvcgo.ops) true (run_context "cuda>=99.0")) init_st))
    as E2 by by rewrite E.
  vm_compute in E2. subst out. eexists _, t. split; [reflexivity|]. by apply H.
Defined.
