(* ===== verification/Termination.v ===== *)
(** * Every loop ends

    A loop that is not structural is given a bound computed from its input, and a
    run that exhausts a bound stops with [OutOfFuel].  No run of the command does,
    in the process or in its children. *)
From S2P Require Import Prelude CString Scanf Effects Logic Errors Options Utils Types Paths Files Dsl Devices Pci Modprobe Ldcache Driver Cgroup Info Container Mount MountSafety Dxcore Rpc Ldconfig Context Args Configure ConfigureSafety.

Notation ends m R := (ensures (fun _ => True) no_fuel m R).

Lemma ends_of {A} P H (m : M A) R : ensures P H m R -> (forall w, H w -> no_fuel w) -> ends m R.
Proof. intros Hm Hw. eapply ensures_weaken; [exact Hm|done|exact Hw|done]. Qed.

Lemma overflow_fuel w : overflow_only w -> no_fuel w.
Proof. unfold overflow_only. by intros ->. Qed.
Lemma rpc_fuel w : rpc_stops w -> no_fuel w.
Proof. unfold rpc_stops. by intros [->| ->]. Qed.
Lemma assert_fuel w : assert_only w -> no_fuel w.
Proof. unfold assert_only. by intros ->. Qed.

Lemma ends_any {A} P H (m : M A) R : ensures P H m R -> (forall w, H w -> no_fuel w) -> ends m any.
Proof. intros Hm Hw. eapply ensures_weaken; [exact Hm|done|exact Hw|done]. Qed.

Lemma location_fuel w : no_location w -> no_fuel w.
Proof. unfold no_location. by intros ->. Qed.
Lemma modprobe_fuel w : modprobe_stop w -> no_fuel w.
Proof. intros [H|[->| ->]]; [by apply location_fuel|done|done]. Qed.

Lemma fuel_undefined x w : w = Undefined x -> no_fuel w.
Proof. by intros ->. Qed.

Ltac fuel :=
  let w := fresh in let Hw := fresh in
  intros w Hw; cbv beta in Hw; first [done | by apply overflow_fuel | by apply location_fuel | by apply modprobe_fuel | by apply rpc_fuel | by apply assert_fuel | by destruct Hw as [->| ->] | by subst w].

(** One statement; nothing is remembered of it. *)
Ltac nf_step :=
  cbv beta zeta;
  match goal with
  | |- ensures _ _ (bind (bind _ _) _) _ => apply ensures_bind_bind
  | |- ensures _ _ (bind _ _) _ => eapply ensures_bind with (R := any); [|intros ? _]
  | |- ensures _ _ (ret _) _ => apply ensures_ret; exact I
  | |- ensures _ _ (halt _) _ => apply ensures_halt; exact I
  | |- ensures _ _ (call _) _ => apply ensures_call; [done|intros; exact I]
  | |- ensures _ _ (trap ?r) _ => apply ensures_trap; destruct r; exact I
  | |- ensures _ _ (null_err _) _ => apply ensures_null_err
  | |- ensures _ _ (own_error _) _ => apply ensures_own_error
  | |- ensures _ _ (with_err _ _) _ => eapply ensures_with_err with (R := any); [|intros; exact I]
  | |- ensures _ _ get_errno _ => by apply ensures_get_errno
  | |- ensures _ _ get_err _ => by apply ensures_get_err
  | |- ensures _ _ (set_errno _) _ => by apply ensures_set_errno
  | |- ensures _ _ (set_err _) _ => by apply ensures_set_err
  | |- ensures _ _ (match ?x with _ => _ end) _ => destruct x
  | |- ensures _ _ (iterM _ _) _ => apply ensures_iterM; intros ? _
  | |- ensures _ _ (mapM_ _ _) _ => apply ensures_mapM_; intros ? _
  | |- ensures _ _ _ _ => solve [eassumption | eapply ends_any; [solve [typeclasses eauto with ens nocore]|fuel]]
  end.
Ltac nf := repeat nf_step.

(** ** The services *)

Lemma service_ends {A} `{Xdr A} (m : M (option A)) : ends m any -> ends (service m) any.
Proof.
  intros Hm. eapply ensures_post; [eapply service_ens with (R := any); try done; [apply rpc_fuel|]|done].
  eapply ensures_post; [exact Hm|by intros []].
Qed.

Lemma call_rpc_ends {A} `{Xdr A} prog (svc : M (xres A)) :
  ErrText (prog +:+ " rpc error") -> ends svc any -> ends (call_rpc prog svc) any.
Proof.
  intros Ht Hs. eapply ensures_post; [eapply call_rpc_ens with (R := any); try done; [apply rpc_fuel|]|done].
  eapply ensures_post; [exact Hs|by intros []].
Qed.

Lemma error_set_any text : ends (error_set text) any.
Proof. unfold error_set, error_vset. nf. Qed.
Lemma error_reset_any : ends error_reset any.
Proof. unfold error_reset. nf. Qed.

Lemma reap_process_ends r fd force : ends (reap_process r fd force) any.
Proof. pose proof error_set_any. unfold reap_process. nf. Qed.

Lemma rpc_fail_ends r : ends (rpc_fail r) any.
Proof. pose proof reap_process_ends. unfold rpc_fail, clnt_destroy. nf. Qed.

Lemma rpc_init_ends r name : ends (rpc_init r name) any.
Proof.
  pose proof error_set_any. pose proof rpc_fail_ends. unfold rpc_init, setup_service, setup_client. nf.
Qed.

Lemma rpc_shutdown_ends r force : ends (rpc_shutdown r force) any.
Proof. pose proof reap_process_ends. unfold rpc_shutdown, clnt_destroy. nf. Qed.

Lemma driver_service_ends d : ends (driver_init_1_svc d) any.
Proof.
  unfold driver_init_1_svc. apply service_ends. pose proof perm_drop_privileges_ens. nf.
Qed.

Lemma driver_init_ends dx root uid gid : ends (driver_init dx root uid gid) any.
Proof.
  pose proof rpc_init_ends. pose proof rpc_shutdown_ends.
  assert (forall d, ends (call_rpc "driver" (driver_init_1_svc d)) any) as Hrpc.
  { intros d. apply call_rpc_ends; [typeclasses eauto|apply driver_service_ends]. }
  unfold driver_init. nf.
Qed.

Lemma nvcgo_init_ends : ends nvcgo_init any.
Proof.
  pose proof rpc_init_ends. pose proof rpc_shutdown_ends.
  assert (ends (call_rpc "nvcgo" nvcgo_init_1_svc) any) as Hrpc.
  { apply call_rpc_ends; [typeclasses eauto|]. unfold nvcgo_init_1_svc. apply service_ends. nf. }
  unfold nvcgo_init. nf.
Qed.

Lemma nvc_shutdown_ends lib : ends (nvc_shutdown lib) any.
Proof.
  pose proof rpc_shutdown_ends.
  assert (ends (call_rpc "nvcgo" nvcgo_shutdown_1_svc) any) as Hn.
  { apply call_rpc_ends; [typeclasses eauto|]. unfold nvcgo_shutdown_1_svc. apply service_ends. nf. }
  assert (ends (call_rpc "driver" driver_shutdown_1_svc) any) as Hd.
  { apply call_rpc_ends; [typeclasses eauto|]. unfold driver_shutdown_1_svc. apply service_ends. nf. }
  unfold nvc_shutdown, nvcgo_shutdown, driver_shutdown. nf.
Qed.

(** ** The start of the library *)

Lemma load_kernel_modules_ends root : ends (load_kernel_modules root) any.
Proof.
  pose proof err_code_ens. pose proof error_set_any. pose proof error_reset_any.
  assert (forall n, ends (mig_nvcaps_mknodes n) any) as Hm.
  { intros n. unfold mig_nvcaps_mknodes, mig_nvcaps_mknod, absent. nf. }
  assert (ends init_within_userns any) as Hu by (unfold init_within_userns, check_map; nf).
  unfold load_kernel_modules, load_modules, nvidia_modprobe, nvidia_uvm_modprobe, nvidia_modeset_modprobe. nf.
Qed.

Lemma nvc_init_ends lib c opts : ends (nvc_init lib c opts) any.
Proof.
  pose proof driver_init_ends. pose proof nvcgo_init_ends. pose proof load_kernel_modules_ends.
  assert (forall c, ends (Context.copy_config c) any) as Hc by (intros c0; eapply ends_any; [apply copy_config_ens|done]).
  assert (ends dxcore_init_context any) as Hdx by (eapply ends_any; [apply dxcore_init_context_ens|unfold dx_stops; by intros w ->]).
  unfold nvc_init, start_services, log_open. nf.
Qed.

(** ** The update of the cache *)

Lemma start_ldconfig_ends ws ctx cnt fd path argv : ends (start_ldconfig ws ctx cnt fd path argv) any.
Proof.
  pose proof adjust_capabilities_ens. pose proof change_rootfs_ens. pose proof limit_resources_ens.
  pose proof adjust_privileges_ens. pose proof limit_syscalls_ens. pose proof error_set_any.
  assert (forall (e : sys), ends (call e) any) as Hcall by (intros e; by apply ensures_call).
  unfold start_ldconfig. nf. exact (Hcall (EFexec z argv)).
Qed.

Lemma nvc_ldcache_update_ends ws log ctx cnt : ends (nvc_ldcache_update ws log ctx cnt) any.
Proof.
  pose proof start_ldconfig_ends. pose proof err_code_ens.
  assert (forall b fl, ends (create_process b fl) any) as Hp.
  { intros b fl. eapply ends_any; [apply create_process_ens|done]. }
  unfold nvc_ldcache_update, child_exit. nf.
Qed.

(** ** The command *)

Section Command.
Context (ops : CgroupOps) (H : stop -> Prop) `{!CgroupLaws ops H}.
Hypothesis HF : forall w, H w -> no_fuel w.

Lemma late_fuel w : late H w -> no_fuel w.
Proof. intros [Hw|Hw]; [done|by apply HF]. Qed.

Lemma reported_ends {A} what (m : M (option A)) R : ends m (on_some R) -> ends (reported what m) (on_some R).
Proof. intros Hm. by apply reported_ens. Qed.

Lemma capabilities_ends p : ends (capabilities p) any.
Proof. eapply ends_any; [apply capabilities_ens|done]. Qed.

Lemma bound_privileges_ends : ends bound_privileges any.
Proof.
  eapply ensures_post; [apply reported_ends with (R := any)|done].
  pose proof perm_set_bounds_ens. eapply ensures_post with (R := any); [nf|by intros []].
Qed.

Lemma configure_container_ends ws c lib cnt_cfg e :
  ready lib -> abs (cfg_root (cfg (l_ctx lib))) -> ends (configure_container ws c lib cnt_cfg e) any.
Proof.
  intros Hl Hr. unfold configure_container. cbv zeta. pose proof capabilities_ends.
  eapply ensures_bind; [eapply ends_of; [by apply (examine_ens ops H)|apply late_fuel]|]. intros [f|] Hf; [|by apply ensures_ret].
  nf_step; [nf|]. destruct a; [|nf]. nf_step; [eapply ends_any; [apply (mount_all_ens ops H _ _ _ _ Hf); apply Hl|apply late_fuel]|]. destruct a; [|nf].
  nf_step; [nf|]. destruct a; [|nf]. nf_step; [|nf].
  eapply ensures_post; [eapply nvc_call_ens with (R := any), ensures_post; [done|apply nvc_ldcache_update_ends|by intros []]|done].
Qed.

Lemma configure_command_ends ws c : absolute_root c -> ends (configure_command ws c) any.
Proof.
  intros Hroot. unfold configure_command. cbv zeta. apply ensures_own_error.
  pose proof capabilities_ends. pose proof bound_privileges_ends.
  assert (forall text, ends (warn text) any) as Hwarn by (intros; unfold warn; nf).
  assert (forall lib e rv, ends (leave lib e rv) any) as Hleave.
  { intros lib e rv. pose proof nvc_shutdown_ends. unfold leave. nf. }
  nf_step; [nf|]. destruct a; [|nf]. nf_step; [nf|]. destruct a; [|nf].
  eapply ensures_bind with (R := on_some (fun nvc => initialized nvc = false)).
  { unfold nvc_context_new. ens; done. }
  intros [nvc|] Hi; [|nf]. cbn in Hi. nf_step; [unfold nvc_config_new; nf|]. destruct a; [|nf].
  nf_step; [unfold nvc_container_config_new; nf|]. destruct a; [|nf]. cbv zeta.
  set (lib0 := library_new _). set (ncfg := mkConfigArg _ _ _ _).
  eapply ensures_bind with (R := fun q => snd (fst q) = Some tt -> ready (fst (fst q)) /\ abs (cfg_root (cfg (l_ctx (fst (fst q)))))).
  { eapply ensures_with_err with (R := fun q => snd q = Some tt -> ready (fst q) /\ abs (cfg_root (cfg (l_ctx (fst q))))); [|by intros []].
    eapply ensures_weaken; [apply ensures_and; [apply nvc_init_ends|by apply library_started]|done|by intros w [? _]|intros q [_ Hq]; exact Hq]. }
  intros [[lib [[]|]] e] Hq; [|nf]. destruct (Hq eq_refl). nf_step; [by apply configure_container_ends|]. nf.
Qed.
End Command.

(** ** Properties *)

(** A run that came to the end of a bound. *)
Definition exhausted {A} (r : trace * outcome A) : Prop := snd r = Halted OutOfFuel.

(** C21: every loop of the command ends, whatever the environment answers: the
    resolution of paths through links that may change under it, the walks over
    lists, files and directories, the selection of the devices, in the process and
    in the children that it starts.  The bounds of the model, all computed from
    the input of the loop, are never exhausted.  This holds for every
    implementation of the control groups whose own loops end. *)
Theorem configure_command_terminates (ops : CgroupOps) (H : stop -> Prop) (laws : CgroupLaws ops H) (o : env) ws c (s : st) :
  (forall w, H w -> no_fuel w) -> absolute_root c ->
  ~ exhausted (exec o (configure_command ws c) s).
Proof.
  intros HF Hroot E. pose proof (ensures_run o _ _ _ _ s (configure_command_ends ops H HF ws c Hroot)) as He.
  unfold exhausted in E. destruct (exec o _ s) as [t [r|w]]; [done|]. cbn in E. injection E as ->. apply He.
Qed.

Lemma configure_command_terminates_witness :
  snd (exec demo_configure_host (configure_command (ops := Nvcgo.ops) true (run_context "cuda>=9.0")) init_st) <> Halted OutOfFuel.
Proof.
  exact (configure_command_terminates Nvcgo.ops rpc_stops nvcgo_laws demo_configure_host true (run_context "cuda>=9.0") init_st rpc_fuel I).
Defined.
