(* ===== verification/Commands.v ===== *)
(** * The other commands and the program

    [src/src/cli/list.c], [info.c], [libnvc.c] and [main.c]: the two commands that
    only look, the choice of the library, and [main]. *)
From S2P Require Import Prelude CString Effects Logic Errors Options Utils Types Paths Files Dsl Devices Pci Modprobe Ldcache Driver Cgroup Info Container Mount MountSafety Dxcore Rpc Ldconfig Context Args Configure ConfigureSafety.

Definition nl : string := String "010" EmptyString.
(** [printf("%s\n", text)] *)
Definition print_line (text : string) : M unit := call (EPrint (text +:+ nl)).

(** ** Looking up, as root or not *)

(** Only root has capabilities to change. *)
Definition as_root (run_as_root : bool) (m : M (option unit)) : M (option unit) :=
  if run_as_root then m else ret (Some tt).

(** [list] and [info] up to what they print; [body] prints. *)
Definition query_command (c : context) (body : library -> nvc_driver_info -> nvc_device_info -> M (option unit)) : M Z :=
  let m := c_main c in
  own_error (
    let* euid := call EGeteuid in
    let run_as_root := euid =? 0 in
    let? _ := as_root run_as_root bound_privileges else ret EXIT_FAILURE in
    let? _ := as_root run_as_root (capabilities (init_phase c)) else ret EXIT_FAILURE in
    let? nvc := nvc_context_new else do warn "memory allocation failed" in ret EXIT_FAILURE in
    let? _ := nvc_config_new else
      do warn "memory allocation failed" in leave (library_new nvc) no_error EXIT_FAILURE in
    let* uid := (if negb run_as_root && (c_uid m =? ID_NONE) then call EGeteuid else ret (c_uid m)) in
    let* gid := (if negb run_as_root && (c_gid m =? ID_NONE) then call EGetegid else ret (c_gid m)) in
    let* q := with_err (Some no_error)
                (nvc_init (library_new nvc) (Some (mkConfigArg (c_root m) (c_ldcache m) uid gid)) (c_init_flags m)) in
    let '((lib, ok), e) := q in
    let e := default no_error e in
    match ok with
    | None =>
        do call (EWarn ("initialization error: " +:+ opt_str (nvc_error e))) in
        leave lib e EXIT_FAILURE
    | Some _ =>
        let* r :=
          (let? _ := as_root run_as_root (capabilities NVC_INFO) else ret None in
           let? q := nvc_call "detection error" e (nvc_driver_info_new (l_ctx lib) None) else ret None in
           let '(drv, e) := q in
           let? q := nvc_call "detection error" e (nvc_device_info_new (l_ctx lib)) else ret None in
           let '(dev, _) := q in
           let? _ := body lib drv dev else ret None in
           as_root run_as_root (capabilities NVC_SHUTDOWN)) in
        leave lib e (EXIT r)
    end).

(** ** [list] *)

Definition print_nvcaps_device_from_proc_file (ctx : nvc_context) (cap_dir cap_file : string) : M (option unit) :=
  let? cap_path := null_err (path_join cap_dir cap_file) else ret None in
  let? node := own_error (nvc_nvcaps_device_from_proc_path ctx cap_path) else ret None in
  do print_line (opt_str (node_path node)) in
  ret (Some tt).

(** [libnvc.nvcaps_style() == NVC_NVCAPS_STYLE_DEV] *)
Definition when_style_dev (m : M (option unit)) : M unit :=
  let* style := nvc_nvcaps_style in
  match style with
  | NVC_NVCAPS_STYLE_DEV => do m in ret tt
  | _ => ret tt
  end.

Definition list_mig_device (ctx : nvc_context) (m : nvc_mig_device) : M unit :=
  do print_line (gi_caps_path m +:+ "/" +:+ NV_MIG_ACCESS_FILE) in
  do print_line (ci_caps_path m +:+ "/" +:+ NV_MIG_ACCESS_FILE) in
  when_style_dev (
    do print_nvcaps_device_from_proc_file ctx (gi_caps_path m) NV_MIG_ACCESS_FILE in
    print_nvcaps_device_from_proc_file ctx (ci_caps_path m) NV_MIG_ACCESS_FILE).

(** The files for configuring or monitoring MIG devices. *)
Definition list_mig_management (ctx : nvc_context) (dev : nvc_device_info) (d : devices) (file : string) : M unit :=
  if all d && (0 <? length (gpus d))%nat then
    do print_line (NV_MIG_CAPS_PATH +:+ "/" +:+ file) in
    do when_style_dev (print_nvcaps_device_from_proc_file ctx NV_MIG_CAPS_PATH file) in
    mapM_ (fun i =>
      match dev !! i with
      | None => halt (Undefined "gpus[i]")
      | Some g =>
          do print_line (opt_str (mig_caps_path g)) in
          when_style_dev (do print_line NV_CAPS_DEVICE_DIR in print_all_mig_minor_devices (node g))
      end) (gpus d)
  else ret tt.

Definition list_devices (c : context) (ctx : nvc_context) (drv : nvc_driver_info) (dev : nvc_device_info)
    (visible config monitor : devices) : M unit :=
  match c_devices (c_devs c) with
  | None => ret tt
  | Some _ =>
      do mapM_ (fun d => match node_path d with Some p => print_line p | None => ret tt end) (devs drv) in
      do mapM_ (fun i => match dev !! i with
                         | None => halt (Undefined "gpus[i]")
                         | Some g => match node_path (node g) with Some p => print_line p | None => ret tt end
                         end) (gpus visible) in
      if negb (all config) && negb (all monitor) then
        mapM_ (fun m => match find_mig_device dev m with
                        | None => halt (Undefined "migs[i]")
                        | Some mig => list_mig_device ctx mig
                        end) (migs visible)
      else ret tt
  end.

Definition list_components (c : context) (drv : nvc_driver_info) : M unit :=
  let l := c_list c in
  do (if c_list_bins l then mapM_ print_line (bins drv) else ret tt) in
  do (if c_list_libs l then
        do mapM_ print_line (libs drv) in
        if c_compat32 l then mapM_ print_line (libs32 drv) else ret tt
      else ret tt) in
  do (if c_list_ipcs l then mapM_ print_line (ipcs drv) else ret tt) in
  if c_list_firmwares l then mapM_ print_line (firmwares drv) else ret tt.

Definition list_command (c : context) : M Z :=
  query_command c (fun lib drv dev =>
    let ctx := l_ctx lib in
    let? sel := select_all c dev else ret None in
    let '(visible, config, monitor) := sel in
    do list_devices c ctx drv dev visible config monitor in
    do list_mig_management ctx dev config NV_MIG_CONFIG_FILE in
    do list_mig_management ctx dev monitor NV_MIG_MONITOR_FILE in
    do list_components c drv in
    ret (Some tt)).

(** ** [info] *)

Fixpoint spaces (n : nat) : string := match n with O => EmptyString | S n => String " " (spaces n) end.
(** [%-15s] *)
Definition field (s : string) : string := s +:+ spaces (15 - String.length s).

Definition info_csv (i : nat) (g : nvc_device) : string :=
  print_Z (Z.of_nat i) +:+ "," +:+ print_Z (minor (node_id (node g))) +:+ "," +:+ opt_str (model g) +:+ "," +:+ busid g +:+ nl.

Definition info_text (i : nat) (g : nvc_device) : string :=
  field "Device Index:" +:+ " " +:+ print_Z (Z.of_nat i) +:+ nl +:+
  field "Device Minor:" +:+ " " +:+ print_Z (minor (node_id (node g))) +:+ nl +:+
  field "Model:" +:+ " " +:+ opt_str (model g) +:+ nl +:+
  field "Bus Location:" +:+ " " +:+ busid g +:+ nl +:+
  field "Device UUID:" +:+ " " +:+ uuid g +:+ nl.

Definition info_header : string :=
  nl +:+ "Device Index,Device Minor,Model,Brand,GPU UUID,Bus Location,Architecture" +:+ nl.

Definition info_command (c : context) : M Z :=
  query_command c (fun lib drv dev =>
    let rows := zip (seq 0 (length dev)) dev in
    do (if c_csv_output c then
          do call (EPrint info_header) in
          mapM_ (fun '(i, g) => call (EPrint (info_csv i g))) rows
        else mapM_ (fun '(i, g) => call (EPrint (info_text i g))) rows) in
    ret (Some tt)).

(** ** The library of the program *)

Definition tegra_release_file : string := "/etc/nv_tegra_release".
Definition tegra_family_file : string := "/sys/devices/soc0/family".
Definition libnvc_v0_soname : string := "libxdxct-container.so.0".
Definition libnvml_soname : string := "libnvidia-ml.so.1".

(** [!strncasecmp(a, b, n)] *)
Definition strncaseeq (n : nat) (a b : string) : bool := str_case_equal (str_take n a) (str_take n b).

(** An empty file leaves the pointer to its text [NULL]. *)
Definition is_tegra : M bool :=
  own_error (
    let? release_exists := file_exists tegra_release_file else do error_reset in ret false in
    if release_exists : bool then ret true
    else
      let? family := file_read_text tegra_family_file else do error_reset in ret false in
      match family with
      | None => halt (Undefined "strncasecmp(NULL)")
      | Some family => ret (strncaseeq 5 family "tegra")
      end).

Definition nvml_available : M bool :=
  let* r := call (EDlopen libnvml_soname) in
  ret (match r with None => true | Some _ => false end).

Definition libnvc_v0_funcs : list string :=
  ["config_free"; "config_new"; "container_config_free"; "container_config_new"; "container_free"; "container_new";
   "context_free"; "context_new"; "device_info_free"; "device_info_new"; "device_mount"; "driver_info_free";
   "driver_info_new"; "driver_mount"; "error"; "init"; "ldcache_update"; "shutdown"; "version"].

Definition load_libnvc_v0 : M (option unit) :=
  let* r := call (EDlopen libnvc_v0_soname) in
  match r with
  | Some text => do call (EWarn ("Error: " +:+ text)) in ret None
  | None =>
      iterM (fun name =>
        let* r := call (EDlsym ("nvc_" +:+ name)) in
        match r with
        | Some text => do call (EWarn ("Error: " +:+ text)) in ret None
        | None => ret (Some tt)
        end) libnvc_v0_funcs
  end.

(** The major version of the library that is used: 0 is another one, found on the
    system, 1 the one the program is linked with. *)
Definition NVC_MAJOR : Z := 1.
Definition load_libnvc : M (option Z) :=
  let* tegra := is_tegra in
  let* nvml := (if tegra then nvml_available else ret true) in
  if tegra && negb nvml then
    let? _ := load_libnvc_v0 else ret None in ret (Some 0)
  else ret (Some NVC_MAJOR).

(** ** [main] *)

Section Main.
Context {ops : CgroupOps} (with_seccomp : bool).
(** What a command does with a library of major version 0. *)
Variable v0 : command -> context -> M Z.

Definition run_command (cmd : command) (c : context) : M Z :=
  match cmd with
  | CInfo => info_command c
  | CList => list_command c
  | CConfigure => configure_command with_seccomp c
  end.

Definition main (a : args) : M Z :=
  let? major := load_libnvc else ret (-1) in
  let* r := parse_args major a in
  let '(cmd, c) := r in
  if major =? 0 then v0 cmd c else run_command cmd c.
End Main.

(** ** What the commands do to the system *)

Lemma print_line_ens text : ensures (only [KLib]) no_stop (print_line text) any.
Proof. unfold print_line. ens. Qed.
#[export] Hint Resolve print_line_ens : ens.

Lemma as_root_own r m : own quiet m (fun _ => True) -> own quiet (as_root r m) (fun _ => True).
Proof. intros Hm. unfold as_root. destruct r; [done|by apply own_ret]. Qed.

(** Nothing but [body] is specific to a command. *)
Lemma query_command_own c body :
  absolute_root c ->
  (forall lib drv dev, Forall (wf_device (l_ctx lib)) dev -> own quiet (body lib drv dev) (fun _ => True)) ->
  own quiet (query_command c body) (fun rv => rv = EXIT_FAILURE \/ rv = EXIT_SUCCESS).
Proof.
  intros Hroot Hbody. unfold query_command. cbv zeta. apply own_own_error. ostep.
  eapply own_bind; [apply as_root_own, bound_privileges_own|]. intros [[]|] _; [|apply own_ret; by left].
  eapply own_bind; [apply as_root_own, capabilities_own|]. intros [[]|] _; [|apply own_ret; by left].
  assert (forall text, own quiet (warn text) (fun _ => True)) as Hwarn.
  { intros text. eapply own_ensures with (P := quiet) (H := no_stop); [|done]. unfold warn. ens. }
  eapply own_bind with (R1 := on_some (fun nvc => initialized nvc = false)).
  { eapply own_ensures with (P := quiet) (H := no_stop); [|done]. unfold nvc_context_new. ens; done. }
  intros [nvc|] Hi; [|eapply own_bind; [apply Hwarn|]; intros _ _; apply own_ret; by left]. cbn in Hi.
  eapply own_bind with (R1 := fun _ => True).
  { eapply own_ensures with (P := quiet) (H := no_stop); [|done]. unfold nvc_config_new. ens. }
  intros [ncfg|] _; [|eapply own_bind; [apply Hwarn|]; intros _ _; apply leave_own; [done|done|by left]].
  eapply own_bind with (R1 := fun _ => True); [destruct (_ && _); [apply own_call; intros; by apply quiet_cred|by apply own_ret]|].
  intros uid _.
  eapply own_bind with (R1 := fun _ => True); [destruct (_ && _); [apply own_call; intros; by apply quiet_cred|by apply own_ret]|].
  intros gid _.
  set (c' := set_main c (mkMainOpts uid gid (c_root (c_main c)) (c_ldcache (c_main c)) false false (c_init_flags (c_main c)))).
  eapply own_bind; [eapply own_with_err, own_and; [apply (nvc_init_own (library_new nvc)); [done|exact Hi]|
    apply (library_started (library_new nvc) c' _ Hi Hroot)]|].
  intros [[lib [[]|]] e] (Hn & Hup); cbn [fst snd] in *.
  - destruct (Hup eq_refl) as [Hl Hr]. eapply own_bind with (R1 := fun _ => True).
    + eapply own_bind; [apply as_root_own, capabilities_own|]. intros [[]|] _; [|by apply own_ret]. eapply own_bind.
      { eapply nvc_call_own with (R := fun _ => True), own_post; [done|eapply own_ensures; [by apply nvc_driver_info_new_ens|apply quiet_read]|by intros []]. }
      intros [[drv e2]|] _; [|by apply own_ret]. eapply own_bind.
      { eapply nvc_call_own with (R := Forall (wf_device (l_ctx lib))), own_ensures; [done|by apply nvc_device_info_new_ens|apply quiet_dev]. }
      intros [[dev e3]|] Hdev; [|by apply own_ret]. cbn in Hdev.
      eapply own_bind; [by apply Hbody|]. intros [[]|] _; [|by apply own_ret]. apply as_root_own, capabilities_own.
    + intros r _. apply leave_own; [done|done|]. destruct r; auto.
  - ostep. apply leave_own; [done|done|by left].
Qed.

Lemma style_dev_own m : ensures quiet any_stop m any -> ensures quiet any_stop (when_style_dev m) any.
Proof.
  intros Hm. unfold when_style_dev, nvc_nvcaps_style.
  eapply ensures_bind with (R := any); [eapply ensures_bind with (R := any); [ens|]; intros z _; destruct (_ <=? _); ens|].
  intros [] _; ens.
Qed.

Lemma print_nvcaps_own ctx dir file : ensures quiet any_stop (print_nvcaps_device_from_proc_file ctx dir file) any.
Proof.
  unfold print_nvcaps_device_from_proc_file. eapply ensures_bind with (R := any); [apply ensures_null_err; ens_hint; done|].
  intros [path|] _; [|ens]. eapply ensures_bind with (R := any).
  { apply ensures_own_error. unfold nvc_nvcaps_device_from_proc_path. ens. }
  intros [n|] _; ens.
Qed.

Lemma list_own c ctx drv dev visible config monitor :
  ensures quiet any_stop
    (do list_devices c ctx drv dev visible config monitor in
     do list_mig_management ctx dev config NV_MIG_CONFIG_FILE in
     do list_mig_management ctx dev monitor NV_MIG_MONITOR_FILE in
     do list_components c drv in
     ret (Some tt)) any.
Proof.
  pose proof print_nvcaps_own as Hp.
  assert (forall l, ensures quiet any_stop (mapM_ print_line l) any) as Hl.
  { intros l. apply ensures_mapM_. intros x _. ens. }
  assert (forall d file, ensures quiet any_stop (list_mig_management ctx dev d file) any) as Hm.
  { intros d file. unfold list_mig_management. destruct (_ && _); [|ens]. eapply ensures_bind with (R := any); [ens|]. intros _ _.
    eapply ensures_bind with (R := any); [by apply style_dev_own|]. intros _ _.
    apply ensures_mapM_. intros i _. destruct (dev !! i) as [g|]; [|by apply ensures_halt].
    eapply ensures_bind with (R := any); [ens|]. intros _ _. apply style_dev_own.
    eapply ensures_bind with (R := any); [ens|]. intros _ _. unfold print_all_mig_minor_devices.
    do 2 (eapply ensures_bind with (R := any); [ens|]; intros ? _). destruct a0; [|by apply ensures_halt].
    eapply ensures_bind with (R := any); [apply ensures_mapM_; intros line _; destruct (scan_mig_line line) as [[]|]; [destruct (negb _)|]; ens|].
    intros _ _. by apply ensures_ret. }
  eapply ensures_bind with (R := any).
  { unfold list_devices. destruct (c_devices (c_devs c)); [|ens].
    eapply ensures_bind with (R := any); [apply ensures_mapM_; intros d _; destruct (node_path d); ens|]. intros _ _.
    eapply ensures_bind with (R := any).
    { apply ensures_mapM_. intros i _. destruct (dev !! i) as [g|]; [|by apply ensures_halt]. destruct (node_path (node g)); ens. }
    intros _ _. destruct (_ && _); [|ens]. apply ensures_mapM_. intros m _. destruct (find_mig_device dev m); [|by apply ensures_halt].
    unfold list_mig_device. do 2 (eapply ensures_bind with (R := any); [ens|]; intros _ _). apply style_dev_own.
    eapply ensures_bind with (R := any); [apply Hp|]. intros _ _. apply Hp. }
  intros _ _. do 2 (eapply ensures_bind with (R := any); [apply Hm|]; intros _ _).
  eapply ensures_bind with (R := any); [|intros _ _; ens]. unfold list_components.
  eapply ensures_bind with (R := any); [destruct (c_list_bins _); [apply Hl|ens]|]. intros _ _.
  eapply ensures_bind with (R := any).
  { destruct (c_list_libs _); [|ens]. eapply ensures_bind with (R := any); [apply Hl|]. intros _ _. destruct (c_compat32 _); [apply Hl|ens]. }
  intros _ _. eapply ensures_bind with (R := any); [destruct (c_list_ipcs _); [apply Hl|ens]|]. intros _ _.
  destruct (c_list_firmwares _); [apply Hl|ens].
Qed.

Lemma list_command_own c : absolute_root c -> own quiet (list_command c) (fun rv => rv = EXIT_FAILURE \/ rv = EXIT_SUCCESS).
Proof.
  intros Hr. unfold list_command. apply query_command_own; [exact Hr|]. intros lib drv dev Hd. cbv zeta. eapply own_bind.
  { eapply own_ensures; [exact (select_all_ens _ c dev Hd)|apply quiet_lib]. }
  intros [[[visible config] monitor]|] _; [|by apply own_ret]. eapply own_ensures; [apply list_own|done].
Qed.

Lemma info_command_own c : absolute_root c -> own quiet (info_command c) (fun rv => rv = EXIT_FAILURE \/ rv = EXIT_SUCCESS).
Proof.
  intros Hr. unfold info_command. apply query_command_own; [exact Hr|]. intros lib drv dev _. eapply own_ensures with (P := quiet) (H := any_stop) (R := any); [|done].
  assert (forall f : nat -> nvc_device -> string,
    ensures quiet any_stop (mapM_ (fun '(i, g) => call (EPrint (f i g))) (zip (seq 0 (length dev)) dev)) any) as Hp.
  { intros f. apply ensures_mapM_. intros [i g] _. ens. }
  eapply ensures_bind with (R := any); [|intros _ _; ens]. destruct (c_csv_output c); [|apply Hp].
  eapply ensures_bind with (R := any); [ens|]. intros _ _. apply Hp.
Qed.

(** *** The whole program *)

(** The arguments are C strings, and a driver root is absolute. *)
Definition args_ok (a : args) : Prop :=
  Forall (fun '(o, arg) => match arg with Some s => c_string s /\ (o = "r"%char -> abs s) | None => o <> "r"%char end) (a_opts a) /\
  match a_rest a with Some (_, _, items) => Forall item_ok items | None => True end.

(** The root of the container: the word of the command. *)
Definition word_of (a : args) : string :=
  match a_rest a with Some (_, _, items) => default EmptyString (last (item_words items)) | None => EmptyString end.

(** What [main]'s own options change. *)
Definition main_only (c : context) : Prop :=
  absolute_root c /\ opt_c_string (c_init_flags (c_main c)) /\
  c_configure c = c_configure context0 /\ c_devs c = c_devs context0.

Lemma parser_ens o arg n c :
  main_only c -> match arg with Some s => c_string s /\ (o = "r"%char -> abs s) | None => o <> "r"%char end ->
  accepts (parser (Opt o arg) n c) (on_some main_only).
Proof.
  intros (Hr & Hf & Hc & Hd) Ha. unfold parser. cbv zeta. apply ensures_own_error.
  destruct (Ascii.eqb o "d"); [eapply ensures_bind; [by apply ensures_call with (R := any)|]; intros _ _; by apply ensures_ret|].
  destruct (Ascii.eqb o "k").
  { eapply ensures_bind; [by apply join_c_string|]. intros s Hs. apply ensures_ret. by split_and!. }
  destruct (Ascii.eqb o "n"); [apply ensures_ret; by split_and!|].
  destruct (Ascii.eqb o "u").
  { destruct arg as [s|].
    - eapply ensures_bind with (R := any); [|intros [] _; [apply ensures_ret; by split_and!|apply fatal_ens]].
      eapply ensures_weaken with (P := only [KLib]) (H := no_stop) (R := any); [|intros ev; by apply only_mono|done|done].
      unfold str_to_ugid. destruct (strtoumax s) as [? ?]. repeat case_match; ens.
    - do 2 (eapply ensures_bind; [by apply ensures_call with (R := any)|]; intros ? _). apply ensures_ret. by split_and!. }
  destruct (Ascii.eqb o "r") eqn:Er.
  { apply Ascii.eqb_eq in Er as ->. apply ensures_ret. split_and!; try done. destruct arg as [s|]; [|done]. by apply Ha. }
  destruct (Ascii.eqb o "l"); apply ensures_ret; [by split_and!|done].
Qed.

(** The parsers of the commands leave the options of the program alone. *)
Definition keeps_main (c : context) (r : option context) : Prop := on_some (fun c' => c_main c' = c_main c) r.
Definition keeps (p : parser_t) : Prop := forall k n c, ensures input_event any_stop (p k n c) (keeps_main c).

Lemma join_any s w sep : ensures input_event any_stop (join s w sep) any.
Proof.
  unfold join. eapply ensures_bind with (R := any).
  - eapply ensures_weaken with (P := only [KLib]) (H := any_stop) (R := any); [|intros ev; by apply only_mono|done|done].
    unfold str_join. ens.
  - intros [s'|] _; [by apply ensures_ret|]. eapply ensures_weaken; [apply (fatal_ens any)|done|done|done].
Qed.

Lemma fatal_any {A} (R : A -> Prop) : ensures input_event any_stop (@fatal A) R.
Proof. eapply ensures_weaken; [apply (fatal_ens R)|done|done|done]. Qed.

Lemma join_keeps c s w sep (k : option string -> context) :
  (forall s', c_main (k s') = c_main c) ->
  ensures input_event any_stop (let* s := join s w sep in ret (Some (k s))) (keeps_main c).
Proof. intros Hk. eapply ensures_bind; [apply join_any|]. intros s' _. apply ensures_ret, Hk. Qed.

Lemma list_parser_keeps argc : keeps (list_parser argc).
Proof.
  intros k n c. unfold list_parser. cbv zeta. apply ensures_own_error. destruct k as [o arg|w| |]; [|by apply ensures_ret..|].
  - repeat (destruct (Ascii.eqb o _); [first [by apply join_keeps|by apply ensures_ret]|]). by apply ensures_ret.
  - destruct (_ =? _)%nat; [|by apply ensures_ret]. eapply ensures_bind with (R := any); [|intros [] _; [by apply ensures_ret|apply fatal_any]].
    eapply ensures_weaken; [apply xstrdup_ens|intros ev; by apply only_mono|done|done].
Qed.

Lemma info_parser_keeps : keeps info_parser.
Proof. intros k n c. unfold info_parser. destruct k as [o arg|w| |]; [destruct (Ascii.eqb o _)|..]; by apply ensures_ret. Qed.

Lemma configure_parser_keeps major : keeps (configure_parser major).
Proof.
  intros k n c. unfold configure_parser. cbv zeta. apply ensures_own_error.
  assert (forall c' flag, c_main c' = c_main c -> ensures input_event any_stop (add_flag c' flag) (keeps_main c)) as Hadd.
  { intros c' flag Hc. unfold add_flag. by apply join_keeps. }
  destruct k as [o arg|w| |].
  - destruct (Ascii.eqb o "p").
    { eapply ensures_bind with (R := any); [|intros [] _; [by apply ensures_ret|apply fatal_any]].
      eapply ensures_weaken; [apply str_to_pid_ens|intros ev; by apply only_mono|done|done]. }
    destruct (Ascii.eqb o "d"); [by apply join_keeps|]. destruct (Ascii.eqb o "r").
    { destruct (if major =? 0 then _ else _); [by apply Hadd|]. destruct (_ <=? _)%nat; [|by apply ensures_ret].
      eapply ensures_weaken; [apply (error_fatal_ens _ (keeps_main c))|done|done|done]. }
    destruct (Ascii.eqb o "l"); [by apply ensures_ret|].
    destruct (Ascii.eqb o "129"); [by apply join_keeps|]. destruct (Ascii.eqb o "130"); [by apply join_keeps|].
    destruct (option_flag o); [destruct (_ && _); [by apply ensures_ret|by apply Hadd]|by apply ensures_ret].
  - eapply ensures_bind with (R := any); [destruct (_ <? _)%nat; [by apply ensures_halt|by apply ensures_ret]|]. intros _ _.
    destruct (_ || _); [|by apply ensures_ret]. eapply ensures_weaken; [apply (error_fatal_ens _ (keeps_main c))|done|done|done].
  - destruct (0 <? _); [by apply Hadd|]. eapply ensures_bind; [by apply ensures_call with (R := any)|]. intros ppid _. by apply Hadd.
  - destruct (_ <? _)%nat; [by apply ensures_halt|by apply ensures_ret].
Qed.

Lemma argp_items_keeps p items n c :
  keeps p -> ensures input_event any_stop (argp_items p items n c) (fun r => c_main (snd r) = c_main c).
Proof.
  intros Hp. revert n c. induction items as [|[o arg|w] items IH]; intros n c; cbn [argp_items]; [by apply ensures_ret|..];
    (eapply ensures_bind; [apply Hp|]; intros [c'|] Hc; [|by apply ensures_halt]; cbn in Hc;
     eapply ensures_post; [apply IH|]; intros r ->; done).
Qed.

Lemma argp_parse_keeps p items c :
  keeps p -> ensures input_event any_stop (argp_parse p items c) (fun c' => c_main c' = c_main c).
Proof.
  intros Hp. unfold argp_parse. eapply ensures_bind; [by apply argp_items_keeps|]. intros [n c1] E. cbn [snd] in E.
  eapply ensures_bind; [apply Hp|]. intros r Hr. cbv zeta. assert (c_main (default c1 r) = c_main c) as E2.
  { destruct r; cbn in *; congruence. }
  eapply ensures_bind; [apply Hp|]. intros r' Hr'. apply ensures_ret. destruct r'; cbn in *; congruence.
Qed.

Lemma main_items_ens opts n c :
  main_only c ->
  Forall (fun '(o, arg) => match arg with Some s => c_string s /\ (o = "r"%char -> abs s) | None => o <> "r"%char end) opts ->
  accepts (argp_items parser (map (fun '(o, arg) => IOpt o arg) opts) n c) (fun r => main_only (snd r)).
Proof.
  intros Hc Ho. revert n c Hc. induction Ho as [|[o arg] opts Ha Ho IH]; intros n c Hc; cbn [map argp_items]; [by apply ensures_ret|].
  eapply ensures_bind; [by apply parser_ens|]. intros [c'|] Hc'; [by apply IH|apply usage_ens].
Qed.

Definition parsed_args (a : args) (r : command * context) : Prop :=
  absolute_root (snd r) /\ (fst r = CConfigure -> asked_root (snd r) = word_of a).

Lemma parse_args_ens a :
  args_ok a -> ensures input_event any_stop (parse_args NVC_MAJOR a) (parsed_args a).
Proof.
  intros [Ho Hi]. unfold parse_args.
  eapply ensures_bind; [eapply ensures_weaken; [by apply (main_items_ens _ O context0)|done|done|intros r Hr; exact Hr]|].
  intros [n c] (Hr & _ & Hc & Hd). cbn [snd] in *. destruct (a_rest a) as [[[name argc] items]|] eqn:Ea; [|by apply ensures_halt].
  unfold lookup_command. destruct (find _ _) as [[name' cmd]|]; [|by apply ensures_halt].
  assert (forall p, keeps p -> ensures input_event any_stop (argp_parse p items c) (fun c' => absolute_root c')) as Hk.
  { intros p Hp. eapply ensures_post; [by apply argp_parse_keeps|]. intros c' E. unfold absolute_root in *. by rewrite E. }
  destruct cmd.
  - eapply ensures_bind; [apply Hk, info_parser_keeps|]. intros c' Hc'. by apply ensures_ret.
  - eapply ensures_bind; [apply Hk, list_parser_keeps|]. intros c' Hc'. by apply ensures_ret.
  - eapply ensures_bind.
    { eapply ensures_weaken; [eapply ensures_and; [apply (configure_args_ens NVC_MAJOR items c); [|done]|apply Hk, configure_parser_keeps]|done|done|intros c' Hc'; exact Hc'].
      constructor; rewrite ?Hc, ?Hd; cbn; try done. unfold MAX_REQS. lia. }
    intros c' [Hcf Hroot]. apply ensures_ret. split; [done|]. intros _. unfold asked_root, word_of. rewrite Ea.
    destruct (cf_root _ _ _ Hcf) as (w & Ew & Er & _). cbn [fst snd]. by rewrite Er, Ew.
Qed.

Lemma input_quiet ev : input_event ev -> quiet ev.
Proof. by apply quiet_cred. Qed.

(** ** Properties *)

(** C33: [list] and [info], with an absolute [--root] or none, change nothing:
    whatever the environment answers, their process only reads, prints, changes its
    own capabilities, starts and asks its services and watches its children; nothing
    is mounted, made or removed, and the status is 0 or 1. *)
Theorem queries_change_nothing (o : env) c (s : st) :
  absolute_root c ->
  forall m, m = list_command c \/ m = info_command c ->
  match exec o m s with
  | (t, Done (_, rv)) => always child_step (proper quiet) false t /\
      (fold_left child_step t false = false -> rv = EXIT_FAILURE \/ rv = EXIT_SUCCESS)
  | (t, Halted _) => always child_step (proper quiet) false t
  end.
Proof.
  intros Hr m Hm.
  assert (own quiet m (fun rv => rv = EXIT_FAILURE \/ rv = EXIT_SUCCESS)) as Hown
    by (destruct Hm as [-> | ->]; [by apply list_command_own|by apply info_command_own]).
  exact (guarded_run _ _ o _ _ _ s Hown).
Qed.

(** C22: the whole program with the library it is linked with, from its arguments
    on: on every command line whose [--root], when it is given, is an absolute path
    (the program does not check that), and whatever the environment answers, its
    process mounts, makes and removes files only inside the root named on the
    command line of [configure], in the sense of [own_event]. *)
Theorem program_confined (ops : CgroupOps) (H : stop -> Prop) (laws : CgroupLaws ops H) (o : env) ws a (s : st) :
  args_ok a ->
  always child_step (proper (own_event (word_of a))) false
    (fst (exec o (let* r := parse_args NVC_MAJOR a in run_command ws (fst r) (snd r)) s)).
Proof.
  intros Ha. pose proof (quiet_own (word_of a)) as HQ.
  assert (own (own_event (word_of a)) (let* r := parse_args NVC_MAJOR a in run_command ws (fst r) (snd r)) (fun _ => True)) as Hown.
  { eapply own_bind; [eapply own_ensures; [by apply parse_args_ens|intros ev Hev; by apply HQ, input_quiet]|].
    intros [[] c] [Hroot Hword]; cbn [fst snd run_command] in *.
    - eapply own_mono; [exact HQ|]. eapply own_post; [by apply info_command_own|done].
    - eapply own_mono; [exact HQ|]. eapply own_post; [by apply list_command_own|done].
    - rewrite <- Hword by done. eapply own_post; [apply (configure_command_own ops _ ws c (fun _ => True)); [apply quiet_own|done|]|done].
      intros lib cc e Hl Hr <-. by apply (configure_container_own ops H). }
  pose proof (guarded_run _ _ o _ _ _ s Hown) as Hg. destruct (exec o _ s) as [t [[s' r]|w]]; [apply Hg|exact Hg].
Qed.

Definition demo_args : args :=
  mkArgs [("k"%char, None); ("r"%char, Some "/"); ("u"%char, Some "0:0")]
    (Some ("configure", 6%nat, [IOpt "d" (Some "all"); IOpt "u" None; IOpt "p" (Some "42"); IArg "/ctr"])).

Lemma program_confined_witness :
  exists s, snd (exec demo_configure_host (let* r := parse_args NVC_MAJOR demo_args in run_command (ops := Nvcgo.ops) true (fst r) (snd r)) init_st)
      = Done (s, 0) /\
    always child_step (proper (own_event "/ctr")) false
      (fst (exec demo_configure_host (let* r := parse_args NVC_MAJOR demo_args in run_command (ops := Nvcgo.ops) true (fst r) (snd r)) init_st)).
Proof.
  eexists. split; [vm_compute; reflexivity|].
  apply (program_confined Nvcgo.ops rpc_stops nvcgo_laws demo_configure_host true demo_args init_st).
  split; repeat constructor; try done.
Defined.

Lemma queries_change_nothing_witness :
  exists s, snd (exec demo_configure_host (list_command (run_context "")) init_st) = Done (s, 0) /\
    always child_step (proper quiet) false (fst (exec demo_configure_host (list_command (run_context "")) init_st)).
Proof.
  pose proof (queries_change_nothing demo_configure_host (run_context "") init_st I _ (or_introl eq_refl)) as H.
  destruct (exec demo_configure_host _ init_st) as [t out] eqn:E.
  assert (out = snd (exec demo_configure_host (list_command (run_context "")) init_st)) as E2 by by rewrite E.
  vm_compute in E2. subst out. eexists. split; [reflexivity|]. exact (proj1 H).
Defined.
